(* ===== verification/_CoqProject ===== *)
-Q . S2P
Prelude.v
RustStd.v
RustPath.v
Sorting.v
RustNum.v
RustFloat.v
Stats.v
StatsProps.v
Graph.v
GraphProps.v
Contract.v
Supervisor.v
SupervisorProps.v
Digest.v
Measure.v
MeasureProps.v
Dual.v
DualProps.v
Json.v
Identity.v
Workload.v
Observation.v
ObservationLog.v
Ipc.v
Daemon.v
DaemonProps.v
ObservationLogProps.v
Admission.v
Executor.v
ExecutorProps.v
LedgerRecord.v
Ledger.v
LedgerProps.v
PatchGate.v
PatchGateProps.v
Meta.v
MetaProps.v
Adapter.v
Receipt.v
ReceiptProps.v
Propose.v
ProposeProps.v
Verifier.v
Telemetry.v
VerifierProps.v
Ratify.v
RatifyProps.v
Soak.v
SoakProps.v
Artifacts.v
ArtifactsProps.v
Judge.v
JudgeProps.v
Evaluator.v
EvaluatorProps.v
JudgeCycle.v
JudgeCycleProps.v
Engine.v
EngineProps.v
EngineLedger.v
EngineExamples.v
Explain.v
ExplainProps.v
Jail.v
JailProps.v
QuotaV1.v
Config.v
GitStage.v
Profile.v
Latency.v
Envelope.v
Kernel.v
KernelProps.v
JudgeBuild.v
