(* ===== verification/Prelude.v ===== *)
(** * spark-rsi: verification development

    spark-rsi is an engine that changes its own source.  It proposes a change, has a separate
    judge evaluate it, runs it as a canary under a host supervisor, collects evidence of real
    requests, promotes it through a gate and records every decision in a ledger.  This library
    models the parts that decide whether a change may go on, and proves what their decisions
    mean.  This file is the prelude every other file requires; its header documents the whole.

    ** The parts and where they are modelled

    - Text, paths, numbers of the Rust standard library: [RustStd], [RustPath], [RustNum],
      [RustFloat], [Sorting] (stable sorting, weak orders, byte order).  Strings are byte
      strings; characters are decoded from UTF-8 where the code works with characters; [f64] is IEEE 754 binary64 ([SpecFloat]), rounded as the hardware
      does.  [RustFloat] also proves that an index computed in floating point from a number in
      [[0, k]] stays in [[0, k]].
    - Canary evidence ([src/canary/]): [Digest] and [Json] (domain-separated digests, canonical
      JSON), [Identity] (identity.rs), [Workload] (workload.rs), [Observation] (observation.rs),
      [ObservationLog] (log.rs), [Admission] (admission.rs), [Adapter] (adapter.rs).  The log is
      a text on a modelled disk; a write can fail or stop in the middle, and reopening recovers.
    - The supervisor ([src/supervisor/]): [Supervisor] (mod.rs: generations, link switching,
      budgets, worker environment over a file system whose system calls can fail), [Ipc]
      (ipc.rs: frames, HMAC-SHA256 authentication), [Daemon] (daemon.rs: the connection state
      machine), [Executor] (canary_exec.rs: one canary run from launch to sealed log).
    - The ledger ([src/ledger/]): [LedgerRecord] (record.rs, merkle.rs, blob.rs) and [Ledger]
      (db.rs over the rows of schema.rs: append, checkpoint, audit).
    - What a change may touch: [PatchGate] (isolation/root_of_trust.rs, meta/tier.rs,
      diff_gate.rs, evaluator/layers/security.rs), [GitStage] (diff_gate.rs: the git commands that
      stage a candidate commit), [Envelope] (safety_envelope.rs: the probes, gates and plan handed
      to the evaluation harness).
    - The judge: [Stats] (evaluator/stats.rs, the percentile of evaluator/metrics.rs),
      [Latency] (metrics.rs: latency summaries, resource readings), [Evaluator] (evaluator/layers/, metrics.rs, ObjectiveEvaluator of evaluator/mod.rs),
      [Judge] (actor/judge.rs: holdouts, tree comparison, preflight, scoring, signing),
      [JudgeCycle] (actor/judge.rs: tree difference, paired benchmark, the whole evaluation),
      [JudgeBuild] (actor/judge.rs: the binaries that are compared, built in the cargo sandbox).
    - The jails: [Jail] (isolation/container.rs, cargo_sandbox.rs: command lines of bubblewrap and
      docker, and the wait for a jailed process).
    - Prices of constrained resources: [Dual] (dual/records.rs: the binary records, their checks
      and digests; dual/diagnostic.rs: the scarcity reading and the directory it is read from).
    - What to work on next: [Measure] (src/measure/: stage clock, sample log, percentiles, choice
      of samples, pipeline graph), [Profile] (measure/profile.rs: which repository, at which
      commit), [Graph] (graph/mod.rs: centrality and ranking), [Contract]
      (propose/hypothesis.rs: what a cycle claims).
    - Engine candidates and campaigns: [Meta] (balance.rs, meta/: benchmark comparison, the three
      criteria, operator authorization), [Soak] (src/soak/: quarantine, candidates, cycles and the
      manifest of a campaign, run over the ledger's model).
    - Receipts and promotion: [Receipt] (evaluator/mod.rs: both digest formats and signing;
      the policy of actor/judge.rs; promotion_gate.rs).
    - Proposals: [Propose] (propose/mod.rs, diagnose.rs, the reply of model_seat.rs: scanning,
      prompting, the code in a reply, staging a sandbox), [Verifier] (verifier.rs: wording,
      secrets, cargo), [Telemetry] (observe.rs: the snapshot of a repository), [Artifacts]
      (isolation/manifest.rs: the files of a tree and their digests), [Ratify] (ratify.rs, the
      branch of diff_gate.rs: the review branch and its patch file).
    - What a reader gets: [Explain] (explain.rs: the evidence graph of a cycle).
    - Around the cycle: [QuotaV1] (canary_observation.rs: the quota before the sealed log), [Kernel]
      (propose/kernel_autotune.rs: configurations, kernel source and the experiment that compares
      two kernels), [Config] (config.rs: the operator's settings; isolation/rollback.rs: the
      checkpoint of a cycle).
    - One cycle of the engine: [Engine] (daemon.rs, the records of models.rs) composes all of
      the above.  Its state is the ledger, the supervisor with the file system, the stage clock,
      the references of the repository and the two sample logs; a step returns a value, an error
      or panics, and keeps the changes made before.  The judge is an argument:
      [JudgeCycle.evaluate_cycle_v1] is the one the engine runs by itself.

    The parts meet in values: the judge signs a receipt, the gate accepts it for the bytes it
    names, the supervisor stages those bytes, the executor runs the pinned workload against them
    and seals a log, the quota validator reads the sealed log, and the ledger records the
    outcome; [Engine.run_cycle] is this composition as the code makes it, and [EngineExamples] runs it
    on a concrete repository up to a promotion.  A component's properties are in its [...Props] file, or at the end of its own file
    when they are short ([Admission], [Adapter]).

    ** What the theorems show

    - A cycle: the active link moves only to the generation of a candidate that was screened,
      judged and admitted in this cycle, with canary evidence for its identity unless its kind is
      exempt, with the envelope's and the gate's approval ([EngineProps.promotion_passes_every_gate]);
      with the judge of the engine's own process it never moves; only cycles that return are
      ranked; a cycle appends at most seven blocks to a ledger that audits ([EngineLedger]).
    - Evidence: a run of the executor seals a log the quota validator admits exactly when every
      workload request was answered with the pinned output ([ExecutorProps.executor_evidence]);
      the log writer refines a list of entries across failed writes and crashes, a log that
      verifies is well formed, and the seal pins its contents ([ObservationLogProps]); admission
      counts distinct requests and no more ([Admission]); the earlier quota over unsigned records
      is exact up to collisions, for its record text is unambiguous ([QuotaV1]).
    - Supervision: frames are obeyed only after a verified challenge, refused frames change
      nothing, no frame sequence makes a generation durable, serving ends (a peer that is silent
      for the readiness deadline is cut off, only one that answered a challenge is waited for), the
      link is switched completely or not at all, the supervisor's staging copies exactly the tree,
      budgets revert a canary, and the worker's environment is restricted ([DaemonProps],
      [SupervisorProps]).
    - Ledger: the audit accepts exactly the well-formed chains; whatever calls were served, and
      whichever of them failed half way, the ledger audits exactly when every digest its blocks
      name is stored - always, when no append names a digest that is not, which the kernel
      experiment's does ([KernelProps.experiment_breaks_audit]); equal head hashes or Merkle roots mean equal blocks, unless SHA-256
      collides; a checkpoint completes the audit ([LedgerProps]).
    - Judgement: an evaluation always ends and never indexes out of bounds; an admitted receipt
      means every holdout passed and each of the six layers was satisfied, each spelled out on the
      judge's inputs; a candidate that was never faster is not admitted when an improvement is
      required; a version 2 evaluation compares trees that hold the same files but for the subject,
      where a tree is one of a file system (no name twice in a directory, no separator in a name)
      ([StatsProps], [EvaluatorProps], [JudgeProps], [JudgeCycleProps]).
    - Promotion: unless the signature of the receipt is forged, what passes the gate was judged and
      admitted as it is promoted, under the pinned policy and holdouts, and what an honest judge
      admitted does pass ([ReceiptProps], [JudgeProps]); the real-diff gate accepts exactly one
      regular change of the declared target whose added lines are clean, lines that begin with two
      more plus signs left aside, and protection depends on where a path leads, which a relation
      apart from the code's says ([PatchGateProps]); staging runs no command that
      moves a reference and goes through no link of the base tree ([GitStage]).
    - Proposals: a proposal holds no dash and is not empty; a staged sandbox holds the patch, the
      repository's visible files as their copies ended and what an ignored removal left, which is
      the repository and the patch alone when no call failed ([ProposeProps]); the verifier's verdict is spelled out
      ([VerifierProps]); a tree verifies against a manifest exactly when the files agree
      ([ArtifactsProps]); ratification only adds a review branch ([RatifyProps]).
    - Isolation: the words of a jail's command line are read back as bubblewrap's manual lists its
      options: a candidate runs with every namespace of its own, a cleared environment and no
      writable host directory but its own; the judge's cargo sees neither the judge's home nor a
      directory that holds it; waiting for a jailed process ends and kills it exactly at its
      deadline ([JailProps]); the judge starts nothing else to get its programs ([JudgeBuild]).
    - Explanations: every link of an evidence graph leads to an earlier node, ids are distinct, the
      only verified fact is the cycle's own receipt, each foreign artifact is declared as missing
      and changes nothing else, and the order of the capability map does not show ([ExplainProps]).
    - Kernels: the search space is exact, the macros replace their block and nothing else, an
      experiment always ends, adds at most one block and admits exactly what was measured to
      meet every threshold ([KernelProps]).
    - Settings: the environment wins over the file and git fills in defaults; a checkpoint's teardown
      takes away just what its creation made ([Config]).
    - Prices: a decoder accepts exactly the texts of well-formed records, among them those with a
      negative zero, which no encoder writes; a digest names one
      record of one kind; a price is reported exactly when the records verify and it is the
      largest fresh calibrated one ([DualProps]).
    - Measurement and ranking: whatever writes were torn, the sample log reads back the records
      whose append finished; a measurement is a percentile of the durations of the last compatible
      cycles, and its error rate their share of failures; the ranking always exists, does not depend on the order of the node map and, while a stage is
      unmeasured, depends on the topology alone ([MeasureProps], [GraphProps]).
    - Campaigns: a campaign only appends to the ledger, and its manifest names only candidates
      that passed every gate ([SoakProps]); an engine candidate is called true RSI exactly on a
      signed patch, a measured gain and complete downstream evidence ([MetaProps]).
    - Defects the model showed are theorems too: [LedgerProps.type_swap_undetected],
      [LedgerProps.unknown_type_passes_audit], [ReceiptProps.v2_digest_reads_as_v1],
      [PatchGateProps.tier2_boundary_bypassed], [PatchGateProps.plus_plus_secret_accepted],
      [ProposeProps.failed_staging_unnoticed], [SupervisorProps.relative_root_dangles],
      [JudgeCycleProps.rss_budget_never_rejects], [JudgeCycleProps.printed_count_rejects],
      [DaemonProps.undecodable_as_closed], [DualProps.unreadable_digest_ignored],
      [SoakProps.quarantine_inert], [SoakProps.target_always_observe],
      [SoakProps.escape_permitted], [SoakProps.SoakExamples.slower_winner_is_a_gain],
      [MetaProps.authorization_ignores_target], [MetaProps.discovery_rate_may_collapse],
      [GraphProps.dangling_edge_panics], [Contract.nan_confidence_is_valid],
      [EngineExamples.EngineExample.link_moves_before_the_block],
      [VerifierProps.VerifierExample.suffix_is_passed_by],
      [ArtifactsProps.source_digest_ambiguous], [ArtifactsProps.target_not_verified],
      [ProposeProps.two_blocks_run_together], [ExplainProps.ratified_never_concluded],
      [ExplainProps.ExplainExample.link_names_p95],
      [JailProps.JailExample.build_jail_keeps_environment], [KernelProps.experiment_breaks_audit],
      [Envelope.manifest_digest_ignores_evaluators], [Profile.slash_left].

    ** Conventions

    A fallible operation returns [result], whose error is the format string with its values; one
    that changes the outside world is in the monad [M], which keeps the changes made before an
    error.  A possible panic is an [option] ([Stats], [JudgeCycle], [Graph], [Measure], [Soak])
    or an [Engine.outcome]; the quotes [{:?}] adds to a text are left out of messages; arithmetic is written at the
    width of its Rust type ([wrap64], saturating operations).  Claims that need a digest to
    identify its input take [no_collision] for the inputs at hand as a hypothesis, never for all
    texts, and their witnesses discharge it with a concrete digest ([Digest.Checksum]).

    Fuel and bounds: serving a connection has one turn more than there are frames, which
    [DaemonProps.serving_terminates] shows to be enough; the Merkle levels take the number of
    leaves ([LedgerProps.merkle_levels_single]); [render] and [trim_start_matches] take the
    length of their text, since every step consumes a character; a search of the graph takes one
    step per node ([GraphProps.centrality_total]); the wait for a jailed process polls at most
    10000 times a second until its deadline ([JailProps.execution_ends]).  Other recursions are
    structural.  The statistics hold for samples of fewer than 2^53 numbers, the judge's have 20.

    ** Parameters

    Code outside the repository is a parameter: SHA-256 ([Sha256]), P-256 signatures ([P256],
    with the law that a signature made with a key verifies under it), the JSON and TOML readers
    and serde_json's string escaping, the SEC1 key decoder, and what the operating system, git,
    cargo, the jail and the network answer, which the operations take as inputs.  Paths hold no
    symbolic links except those a component creates or refuses by itself.

    ** Not modelled

    Process and socket plumbing, argument parsing and printing (main.rs, bin/, lib.rs and the command
    lines of the judge and the supervisor); the endless loop around a cycle; HTTP exchanges with
    the model and the memory service (propose/cortex.rs, model_seat.rs); loading a kernel's shared
    library; Fisher's exact test, which needs logarithms; the engine and thermal snapshots of a
    campaign; the harness behind the safety envelope, another crate, whose answer is an input of
    the cycle.  What bubblewrap,
    docker, git, cargo and nvcc do with their command lines is theirs. *)

From stdpp Require Export base tactics list strings numbers gmap pretty.
From Stdlib Require Export Ascii.

(** ** Results

    Rust's [Result<T, String>].  The error is the format string of the [format!] call that
    builds the message together with the values it interpolates. *)

Record error := Fmt { template : string; args : list string }.

#[export] Instance error_eq_dec : EqDecision error.
Proof. solve_decision. Defined.

Inductive result (A : Type) : Type :=
  | Ok (a : A)
  | Err (e : error).
Arguments Ok {A} a.
Arguments Err {A} e.

#[export] Instance result_eq_dec `{EqDecision A} : EqDecision (result A).
Proof. solve_decision. Defined.

#[export] Instance result_ret : MRet result := λ A a, Ok a.
#[export] Instance result_bind : MBind result := λ A B f m,
  match m with Ok a => f a | Err e => Err e end.
#[export] Instance result_fmap : FMap result := λ A B f m,
  match m with Ok a => Ok (f a) | Err e => Err e end.

Definition is_ok {A} (r : result A) : bool :=
  match r with Ok _ => true | Err _ => false end.

(** [option.ok_or(e)]. *)
Definition ok_or {A} (o : option A) (e : error) : result A :=
  match o with Some a => Ok a | None => Err e end.

Declare Scope rsi_scope.
Delimit Scope rsi_scope with rsi.

(** [Err(format!(t, l...))]. *)
Abbreviation fail t l := (Err (Fmt t%string l)).
#[global] Open Scope rsi_scope.

Create HintDb rsi discriminated.

Lemma bind_ok {A B} (f : A → result B) m b :
  (m ≫= f) = Ok b ↔ ∃ a, m = Ok a ∧ f a = Ok b.
Proof.
  destruct m as [a'|e]; simpl; split.
  - intros; eauto.
  - by intros (? & [= <-] & ?).
  - done.
  - by intros (? & ? & ?).
Qed.

Lemma ok_or_ok {A} (o : option A) e a : ok_or o e = Ok a ↔ o = Some a.
Proof. destruct o; simpl; split; congruence. Qed.

(** Breaks down a successful run: splits every guard and bind in hypotheses of the form
    [... = Ok _], discarding the branches that returned an error. *)
Ltac run_ok :=
  repeat match goal with
  | H : Err _ = Ok _ |- _ => discriminate H
  | H : Ok _ = Err _ |- _ => discriminate H
  | H : Ok ?a = Ok ?b |- _ => injection H as H
  | H : (_ ≫= _) = Ok _ |- _ => apply bind_ok in H as (? & ? & ?)
  | H : ok_or _ _ = Ok _ |- _ => apply ok_or_ok in H
  | H : (if ?c then Err _ else _) = Ok _ |- _ => destruct c eqn:?
  | H : (if ?c then _ else Err _) = Ok _ |- _ => destruct c eqn:?
  | u : unit |- _ => destruct u
  end.

(** Turns the boolean guards [run_ok] leaves behind into propositions. *)
Ltac guards :=
  repeat match goal with
  | H : bool_decide _ = true |- _ => apply bool_decide_eq_true_1 in H
  | H : bool_decide _ = false |- _ => apply bool_decide_eq_false_1 in H
  | H : negb _ = true |- _ => apply negb_true_iff in H
  | H : negb _ = false |- _ => apply negb_false_iff in H
  | H : (_ || _) = false |- _ => apply orb_false_elim in H as [? ?]
  | H : (_ && _) = true |- _ => apply andb_prop in H as [? ?]
  | H : (_ =? _)%N = true |- _ => apply N.eqb_eq in H
  | H : (_ =? _)%N = false |- _ => apply N.eqb_neq in H
  | H : (_ <? _)%N = true |- _ => apply N.ltb_lt in H
  | H : (_ <? _)%N = false |- _ => apply N.ltb_ge in H
  | H : (_ <=? _)%N = true |- _ => apply N.leb_le in H
  | H : (_ <=? _)%N = false |- _ => apply N.leb_gt in H
  end.

Ltac run_guards := run_ok; guards; simplify_eq.

(** Applies a lemma in the first hypothesis it fits. *)
Ltac conv lem := match goal with H : _ |- _ => apply lem in H end.

(** ** Lists *)

Lemma List_filter_all {A} (p : A → bool) l :
  (∀ a, a ∈ l → p a = true) → List.filter p l = l.
Proof.
  induction l as [|a l IH]; simpl; [done|]. intros Hp.
  rewrite Hp by (by left). f_equal. apply IH. intros b Hb. apply Hp. by right.
Qed.

Lemma size_list_to_set_le `{Countable A} (l : list A) :
  (size (list_to_set l : gset A) <= length l)%nat.
Proof.
  induction l as [|a l IH]; cbn [list_to_set length]; [rewrite size_empty; lia|].
  rewrite size_union_alt, size_singleton.
  assert (size ((list_to_set l : gset A) ∖ {[a]}) <= size (list_to_set l : gset A))%nat
    by (apply subseteq_size; set_solver). lia.
Qed.

(** ** Machine integers *)

Definition u64_max : N := 18446744073709551615.
Definition u32_max : N := 4294967295.

(** [u64::saturating_mul] and [u64::saturating_add]. *)
Definition sat_mul64 (a b : N) : N := N.min (a * b) u64_max.
Definition sat_add64 (a b : N) : N := N.min (a + b) u64_max.

(** The value a [u64] holds after wrapping arithmetic. *)
Definition wrap64 (a : N) : N := a mod 18446744073709551616.

Definition dec (n : N) : string := pretty n.

#[global] Arguments String.append : simpl nomatch.
#[global] Arguments ascii_dec : simpl never.

(** ** The file system

    The files a component reads and writes, by path.  The text of an operating-system or
    library error is not modelled: messages that interpolate one carry the other values only. *)
Abbreviation disk := (gmap string string).

Definition read_file (d : disk) (path t : string) : result string :=
  ok_or (d !! path) (Fmt t [path]).

(** ** State and errors

    A method that changes the outside world [S] and can fail.  The state change made before an
    error is kept, as it is in the program. *)
Definition M (S A : Type) : Type := S → S * result A.

Definition mlift {S A} (r : result A) : M S A := λ s, (s, r).
Definition mget {S} : M S S := λ s, (s, Ok s).
Definition mmodify {S} (f : S → S) : M S unit := λ s, (f s, Ok tt).

#[export] Instance M_ret S : MRet (M S) := λ A a s, (s, Ok a).
#[export] Instance M_bind S : MBind (M S) := λ A B f m s,
  match m s with
  | (s', Ok a) => f a s'
  | (s', Err e) => (s', Err e)
  end.

Lemma M_bind_ok {S A B} (f : A → M S B) (m : M S A) s s' b :
  (m ≫= f) s = (s', Ok b) ↔ ∃ s1 a, m s = (s1, Ok a) ∧ f a s1 = (s', Ok b).
Proof.
  unfold mbind, M_bind. destruct (m s) as [s1 [a|e]]; split.
  - eauto.
  - by intros (? & ? & [= <- <-] & ?).
  - done.
  - by intros (? & ? & [=] & ?).
Qed.

Lemma mlift_ok {S A} (r : result A) (s s' : S) a :
  mlift r s = (s', Ok a) ↔ s' = s ∧ r = Ok a.
Proof. unfold mlift. split; [by intros [= -> ->]|by intros [-> ->]]. Qed.
