(* ===== verification/RustStd.v ===== *)
(** Strings, characters and byte encodings of the Rust standard library.

    A Rust [String], [&str] or [Vec<u8>] is a [string]: the sequence of its bytes (its UTF-8
    encoding for text), so [as_bytes] is the identity. *)

From S2P Require Import Prelude.
#[local] Open Scope string_scope.
#[local] Open Scope N_scope.

Definition bytes_of (s : string) : list N := N_of_ascii <$> String.list_ascii_of_string s.
Definition byte (n : N) : ascii := ascii_of_N n.

(** ** UTF-8 text as a sequence of scalar values: [str::chars]

    The decoder is meant for valid UTF-8, which is what a Rust [str] always holds. *)
Fixpoint utf8_chars (l : list N) : list N :=
  match l with
  | [] => []
  | b :: l1 =>
    if b <? 128 then b :: utf8_chars l1
    else match l1 with
    | [] => []
    | c1 :: l2 =>
      if b <? 224 then N.land b 31 * 64 + N.land c1 63 :: utf8_chars l2
      else match l2 with
      | [] => []
      | c2 :: l3 =>
        if b <? 240
        then N.land b 15 * 4096 + N.land c1 63 * 64 + N.land c2 63 :: utf8_chars l3
        else match l3 with
        | [] => []
        | c3 :: l4 =>
          N.land b 7 * 262144 + N.land c1 63 * 4096 + N.land c2 63 * 64 + N.land c3 63
            :: utf8_chars l4
        end
      end
    end
  end.

Definition chars (s : string) : list N := utf8_chars (bytes_of s).

(** [char::is_whitespace]: the Unicode [White_Space] property. *)
Definition is_whitespace (c : N) : bool :=
  ((9 <=? c) && (c <=? 13)) || (c =? 32) || (c =? 133) || (c =? 160) || (c =? 5760)
  || ((8192 <=? c) && (c <=? 8202)) || (c =? 8232) || (c =? 8233) || (c =? 8239)
  || (c =? 8287) || (c =? 12288).

(** [char::is_control]: the Unicode category [Cc]. *)
Definition is_control (c : N) : bool := (c <? 32) || ((127 <=? c) && (c <=? 159)).

(** [s.trim().is_empty()]: every character is white space. *)
Definition trim_is_empty (s : string) : bool := forallb is_whitespace (chars s).

(** [s.chars().any(char::is_control)]. *)
Definition any_control (s : string) : bool := existsb is_control (chars s).

(** ** Searching and splitting *)

Definition starts_with (pat s : string) : bool := String.prefix pat s.

(** [str::contains] on a string pattern. *)
Fixpoint str_contains (pat s : string) : bool :=
  starts_with pat s || match s with EmptyString => false | String _ s' => str_contains pat s' end.

(** [str::contains] on a single-byte character. *)
Fixpoint contains_byte (c : ascii) (s : string) : bool :=
  match s with
  | EmptyString => false
  | String b s' => bool_decide (b = c) || contains_byte c s'
  end.

(** [str::split(c)]: always at least one component. *)
Fixpoint split_on (c : ascii) (s : string) : list string :=
  match s with
  | EmptyString => [""]
  | String b s' =>
    if bool_decide (b = c) then "" :: split_on c s'
    else match split_on c s' with
         | [] => [String b ""]
         | w :: ws => String b w :: ws
         end
  end.

(** [parts.join("/")]. *)
Fixpoint join_with (c : ascii) (l : list string) : string :=
  match l with
  | [] => ""
  | [w] => w
  | w :: ws => w +:+ String c (join_with c ws)
  end.

(** [parts.join(sep)]. *)
Fixpoint join_str (sep : string) (l : list string) : string :=
  match l with
  | [] => ""
  | [w] => w
  | w :: l => w +:+ sep +:+ join_str sep l
  end.

Fixpoint str_skip (n : nat) (s : string) : string :=
  match n, s with
  | S n, String _ s' => str_skip n s'
  | _, _ => s
  end.

(** [strip_prefix]. *)
Definition strip_prefix (pat s : string) : option string :=
  if starts_with pat s then Some (str_skip (String.length pat) s) else None.

Definition ends_with (suffix s : string) : bool :=
  (String.length suffix <=? String.length s)%nat
  && bool_decide (str_skip (String.length s - String.length suffix) s = suffix).

(** [trim_start_matches(pat)] for a non-empty pattern: the fuel is the length of the text, and
    every removal shortens it. *)
Fixpoint trim_start_fuel (fuel : nat) (pat s : string) : string :=
  match fuel with
  | O => s
  | S fuel => match strip_prefix pat s with
              | Some s' => trim_start_fuel fuel pat s'
              | None => s
              end
  end.
Definition trim_start_matches (pat s : string) : string :=
  trim_start_fuel (String.length s) pat s.

(** [iter().all(..)] over the bytes. *)
Fixpoint all_bytes (p : N → bool) (s : string) : bool :=
  match s with
  | EmptyString => true
  | String b s' => p (N_of_ascii b) && all_bytes p s'
  end.

(** ** Integers and digests as bytes *)

(** [u64::to_le_bytes] and [u64::to_be_bytes]. *)
Fixpoint le_bytes (k : nat) (n : N) : string :=
  match k with
  | O => ""
  | S k => String (byte (n mod 256)) (le_bytes k (n / 256))
  end.
Definition to_le_bytes (n : N) : string := le_bytes 8 n.

(** [uN::from_le_bytes]. *)
Fixpoint le_value (s : string) : N :=
  match s with
  | EmptyString => 0
  | String c s => N_of_ascii c + 256 * le_value s
  end.

(** The strings one after the other. *)
Definition concat_all (l : list string) : string := foldr String.append "" l.


Definition hex_digit (n : N) : ascii := byte (if n <? 10 then 48 + n else 87 + n).

(** [hex::encode] and [format!("{:x}", digest)]: two lowercase digits per byte. *)
Fixpoint hex_encode (s : string) : string :=
  match s with
  | EmptyString => ""
  | String b s' =>
    let n := N_of_ascii b in
    String (hex_digit (n / 16)) (String (hex_digit (n mod 16)) (hex_encode s'))
  end.

(** [hex::decode]: two digits of either case per byte. *)
Definition hex_value (n : N) : option N :=
  if (48 <=? n) && (n <=? 57) then Some (n - 48)
  else if (97 <=? n) && (n <=? 102) then Some (n - 87)
  else if (65 <=? n) && (n <=? 70) then Some (n - 55)
  else None.

Fixpoint hex_decode (s : string) : option string :=
  match s with
  | EmptyString => Some ""
  | String a (String b s') =>
    h ← hex_value (N_of_ascii a); l ← hex_value (N_of_ascii b); rest ← hex_decode s';
    Some (String (byte (h * 16 + l)) rest)
  | String _ EmptyString => None
  end.

(** ** Messages

    The text of an error: each placeholder of its format string replaced by the next value.
    The quotes and escapes [{:?}] adds to a text are not modelled. *)
Fixpoint render_fuel (fuel : nat) (t : string) (args : list string) : string :=
  match fuel with
  | O => ""
  | S fuel =>
    match t with
    | EmptyString => ""
    | String c t' =>
      if bool_decide (c = "{"%char)
      then let rest := match String.index 0 "}" t' with
                       | Some i => str_skip (S i) t' | None => "" end in
           match args with
           | a :: args => a +:+ render_fuel fuel rest args
           | [] => render_fuel fuel rest []
           end
      else String c (render_fuel fuel t' args)
    end
  end.
Definition render (e : error) : string :=
  render_fuel (S (String.length (template e))) (template e) (args e).

Example render_example :
  render (Fmt "PID {} exceeded {} MB limit" ["7"; "100"]) = "PID 7 exceeded 100 MB limit".
Proof. reflexivity. Qed.

(** ** Lines and UTF-8 *)

Definition lf : ascii := ascii_of_N 10.
Definition cr : ascii := ascii_of_N 13.

Definition strip_cr (s : string) : string :=
  if bool_decide (String.get (String.length s - 1) s = Some cr)
  then String.substring 0 (String.length s - 1) s else s.

(** [str::lines]: a line ends at a newline, which may follow a carriage return; text after the
    last newline is a line when it is not empty. *)
Fixpoint end_lines (parts : list string) : list string :=
  match parts with
  | [] => []
  | [tail] => if bool_decide (tail = "") then [] else [tail]
  | l :: rest => strip_cr l :: end_lines rest
  end.
Definition str_lines (s : string) : list string := end_lines (split_on lf s).

Example str_lines_example :
  str_lines (String.String "a" (String cr (String lf ("b" +:+ String lf (String lf ("c" +:+ String cr ""))))))
  = ["a"; "b"; ""; "c" +:+ String cr ""].
Proof. reflexivity. Qed.

(** [str::from_utf8]: the well-formed byte sequences of the Unicode standard. *)
Definition in_range (lo hi n : N) : bool := (lo <=? n) && (n <=? hi).
Definition is_cont (n : N) : bool := in_range 128 191 n.
Fixpoint utf8_ok (l : list N) : bool :=
  match l with
  | [] => true
  | b :: l1 =>
    if b <? 128 then utf8_ok l1
    else match l1 with
    | [] => false
    | c1 :: l2 =>
      if in_range 194 223 b then is_cont c1 && utf8_ok l2
      else match l2 with
      | [] => false
      | c2 :: l3 =>
        if b =? 224 then in_range 160 191 c1 && is_cont c2 && utf8_ok l3
        else if b =? 237 then in_range 128 159 c1 && is_cont c2 && utf8_ok l3
        else if in_range 225 239 b then is_cont c1 && is_cont c2 && utf8_ok l3
        else match l3 with
        | [] => false
        | c3 :: l4 =>
          if b =? 240 then in_range 144 191 c1 && is_cont c2 && is_cont c3 && utf8_ok l4
          else if b =? 244 then in_range 128 143 c1 && is_cont c2 && is_cont c3 && utf8_ok l4
          else in_range 241 243 b && is_cont c1 && is_cont c2 && is_cont c3 && utf8_ok l4
        end
      end
    end
  end.
Definition valid_utf8 (s : string) : bool := utf8_ok (bytes_of s).

(** The text after [let _ = stream.read_to_string(&mut text)] on an empty text: bytes that are not
    UTF-8 are an error, which is ignored, and leave the text empty. *)
Definition read_text (bytes : string) : string := if valid_utf8 bytes then bytes else "".

(** [String::from_utf8_lossy]: every maximal ill-formed part becomes U+FFFD. *)
Definition replacement : list N := [239; 191; 189].
Definition second_ok (b c : N) : bool :=
  if b =? 224 then in_range 160 191 c
  else if b =? 237 then in_range 128 159 c
  else if b =? 240 then in_range 144 191 c
  else if b =? 244 then in_range 128 143 c
  else in_range 194 243 b && is_cont c.
Fixpoint utf8_lossy (l : list N) : list N :=
  match l with
  | [] => []
  | b :: l1 =>
    if b <? 128 then b :: utf8_lossy l1
    else match l1 with
    | [] => replacement
    | c1 :: l2 =>
      if negb (second_ok b c1) then replacement ++ utf8_lossy l1
      else if b <? 224 then b :: c1 :: utf8_lossy l2
      else match l2 with
      | [] => replacement
      | c2 :: l3 =>
        if negb (is_cont c2) then replacement ++ utf8_lossy l2
        else if b <? 240 then b :: c1 :: c2 :: utf8_lossy l3
        else match l3 with
        | [] => replacement
        | c3 :: l4 =>
          if is_cont c3 then b :: c1 :: c2 :: c3 :: utf8_lossy l4
          else replacement ++ utf8_lossy l3
        end
      end
    end
  end.
Definition from_utf8_lossy (s : string) : string :=
  String.string_of_list_ascii (byte <$> utf8_lossy (bytes_of s)).

Example lossy_examples :
  utf8_lossy [65; 195; 169; 255; 226; 130; 66; 240; 144; 128; 226; 130; 172]
  = ([65; 195; 169] ++ replacement ++ replacement ++ [66] ++ replacement ++ [226; 130; 172])%list.
Proof. reflexivity. Qed.

(** ** Trimming

    A scalar value as its UTF-8 bytes, and [str::trim]: decoding and encoding again is the
    identity on valid text. *)
Definition utf8_encode (c : N) : list N :=
  if c <? 128 then [c]
  else if c <? 2048 then [192 + c / 64; 128 + c mod 64]
  else if c <? 65536 then [224 + c / 4096; 128 + c / 64 mod 64; 128 + c mod 64]
  else [240 + c / 262144; 128 + c / 4096 mod 64; 128 + c / 64 mod 64; 128 + c mod 64].
Definition string_of_chars (l : list N) : string :=
  String.string_of_list_ascii (byte <$> (l ≫= utf8_encode)).

Fixpoint drop_while (p : N → bool) (l : list N) : list N :=
  match l with
  | [] => []
  | a :: l' => if p a then drop_while p l' else l
  end.
Definition str_trim (s : string) : string :=
  string_of_chars (reverse (drop_while is_whitespace
    (reverse (drop_while is_whitespace (chars s))))).

Example str_trim_example : str_trim "  a b  " = "a b".
Proof. reflexivity. Qed.

(** [trim_end_matches(c)] for a single byte. *)
Fixpoint trim_end_byte (c : ascii) (s : string) : string :=
  match s with
  | EmptyString => ""
  | String b s' =>
    match trim_end_byte c s' with
    | EmptyString => if bool_decide (b = c) then "" else String b ""
    | t => String b t
    end
  end.

Example trim_end_example : trim_end_byte "/" "/a//b//" = "/a//b".
Proof. reflexivity. Qed.

(** ** Lemmas *)

Lemma str_app_nil_r s : s +:+ "" = s.
Proof. induction s as [|b s IH]; simpl; [done|]. by rewrite IH. Qed.

Lemma str_app_assoc a b c : a +:+ (b +:+ c) = (a +:+ b) +:+ c.
Proof. induction a as [|x a IH]; simpl; [done|]. by rewrite IH. Qed.

Lemma str_app_length a b : (String.length (a +:+ b) = String.length a + String.length b)%nat.
Proof. induction a as [|x a IH]; simpl; [done|]. by rewrite IH. Qed.

Lemma str_app_inj_len a a' b b' :
  String.length a = String.length a' → a +:+ b = a' +:+ b' → a = a' ∧ b = b'.
Proof.
  revert a'; induction a as [|x a IH]; intros [|x' a']; simpl; try done.
  intros [= Hl] [= -> Heq]. by destruct (IH a' Hl Heq) as [-> ->].
Qed.

Lemma str_app_inj_l a b b' : a +:+ b = a +:+ b' → b = b'.
Proof. intros H. by apply str_app_inj_len in H as [_ ?]. Qed.

Lemma str_app_inj_r a a' b : a +:+ b = a' +:+ b → a = a'.
Proof.
  intros Heq. pose proof (f_equal String.length Heq) as Hl. rewrite !str_app_length in Hl.
  apply str_app_inj_len in Heq as [? _]; [done|lia].
Qed.

Lemma contains_byte_app c a b :
  contains_byte c (a +:+ b) = contains_byte c a || contains_byte c b.
Proof. induction a as [|x a IH]; simpl; [done|]. by rewrite IH, orb_assoc. Qed.

Lemma all_bytes_app p a b : all_bytes p (a +:+ b) = all_bytes p a && all_bytes p b.
Proof. induction a as [|x a IH]; simpl; [done|]. by rewrite IH, andb_assoc. Qed.

Lemma contains_byte_all p c s :
  all_bytes p s = true → p (N_of_ascii c) = false → contains_byte c s = false.
Proof.
  induction s as [|b s IH]; simpl; [done|]. intros [Hb Hs]%andb_prop Hc.
  rewrite IH by done. rewrite orb_false_r. apply bool_decide_eq_false. intros ->. congruence.
Qed.

Lemma le_bytes_length k n : String.length (le_bytes k n) = k.
Proof. revert n; induction k as [|k IH]; intros n; simpl; [done|]. by rewrite IH. Qed.

Lemma byte_inj a b : a < 256 → b < 256 → byte a = byte b → a = b.
Proof.
  intros Ha Hb H. apply (f_equal N_of_ascii) in H.
  unfold byte in H. by rewrite !N_ascii_embedding in H.
Qed.

Lemma le_bytes_inj k a b :
  a < 256 ^ N.of_nat k → b < 256 ^ N.of_nat k → le_bytes k a = le_bytes k b → a = b.
Proof.
  revert a b; induction k as [|k IH]; intros a b Ha Hb; cbn [le_bytes].
  - simpl in *. lia.
  - rewrite Nat2N.inj_succ, N.pow_succ_r' in Ha, Hb. intros [= H1 H2].
    apply byte_inj in H1; [|apply N.mod_lt; lia..].
    apply IH in H2; [|apply N.Div0.div_lt_upper_bound; lia..].
    rewrite (N.div_mod a 256), (N.div_mod b 256) by lia. congruence.
Qed.

Lemma to_le_bytes_inj a b :
  a <= u64_max → b <= u64_max → to_le_bytes a = to_le_bytes b → a = b.
Proof.
  intros Ha Hb. apply le_bytes_inj; unfold u64_max in *; simpl; lia.
Qed.

Lemma hex_digit_inj a b : a < 16 → b < 16 → hex_digit a = hex_digit b → a = b.
Proof.
  intros Ha Hb. unfold hex_digit. intros H.
  apply byte_inj in H; repeat case_match; guards; lia.
Qed.

Lemma hex_encode_length s : (String.length (hex_encode s) = 2 * String.length s)%nat.
Proof. induction s as [|b s IH]; simpl; [done|]. rewrite IH. lia. Qed.

Lemma N_of_ascii_lt a : N_of_ascii a < 256.
Proof. apply N_ascii_bounded. Qed.

Lemma le_value_bytes k n : n < 256 ^ N.of_nat k → le_value (le_bytes k n) = n.
Proof.
  revert n; induction k as [|k IH]; intros n Hn; cbn [le_bytes le_value].
  - cbn in Hn. lia.
  - unfold byte. rewrite N_ascii_embedding by (apply N.mod_lt; lia).
    rewrite IH; [pose proof (N.Div0.div_mod n 256); lia|].
    apply N.Div0.div_lt_upper_bound. rewrite Nat2N.inj_succ, N.pow_succ_r' in Hn. lia.
Qed.

Lemma le_bytes_value s : le_bytes (String.length s) (le_value s) = s.
Proof.
  induction s as [|c s IH]; cbn [le_bytes le_value String.length]; [done|].
  assert (N_of_ascii c < 256) as Hc by apply N_of_ascii_lt. f_equal.
  - unfold byte. replace ((N_of_ascii c + 256 * le_value s) mod 256) with (N_of_ascii c).
    + apply ascii_N_embedding.
    + rewrite N.mul_comm, N.Div0.mod_add, N.mod_small; done.
  - rewrite N.mul_comm, N.div_add, N.div_small by (done || lia). by rewrite N.add_0_l.
Qed.

Lemma le_value_lt s : le_value s < 256 ^ N.of_nat (String.length s).
Proof.
  induction s as [|c s IH]; cbn [le_value String.length]; [done|].
  assert (N_of_ascii c < 256) as Hc by apply N_of_ascii_lt.
  rewrite Nat2N.inj_succ, N.pow_succ_r'. lia.
Qed.

Lemma hex_encode_inj s t : hex_encode s = hex_encode t → s = t.
Proof.
  revert t; induction s as [|a s IH]; intros [|b t]; cbn [hex_encode]; try done.
  intros H. injection H as H1 H2 H3. apply IH in H3 as ->. f_equal.
  pose proof (N_of_ascii_lt a). pose proof (N_of_ascii_lt b).
  apply hex_digit_inj in H1; [|apply N.Div0.div_lt_upper_bound; lia..].
  apply hex_digit_inj in H2; [|apply N.mod_lt; lia..].
  rewrite <- (ascii_N_embedding a), <- (ascii_N_embedding b). f_equal.
  rewrite (N.div_mod (N_of_ascii a) 16), (N.div_mod (N_of_ascii b) 16) by lia. congruence.
Qed.

(** [matches!(b, b'0'..=b'9' | b'a'..=b'f')]. *)
Definition is_hex_byte (n : N) : bool :=
  ((48 <=? n) && (n <=? 57)) || ((97 <=? n) && (n <=? 102)).

Lemma hex_digit_hex n : n < 16 → is_hex_byte (N_of_ascii (hex_digit n)) = true.
Proof.
  intros Hn. unfold hex_digit, byte, is_hex_byte.
  rewrite N_ascii_embedding by (case_match; lia).
  destruct (n <? 10) eqn:E; guards.
  - apply orb_true_intro; left. apply andb_true_intro; split; apply N.leb_le; lia.
  - apply orb_true_intro; right. apply andb_true_intro; split; apply N.leb_le; lia.
Qed.

Lemma hex_encode_hex s : all_bytes is_hex_byte (hex_encode s) = true.
Proof.
  induction s as [|b s IH]; cbn -[hex_digit is_hex_byte]; [done|].
  pose proof (N_of_ascii_lt b).
  rewrite !hex_digit_hex, IH; [done|apply N.mod_lt; lia|apply N.Div0.div_lt_upper_bound; lia].
Qed.

Lemma hex_value_digit n : n < 16 → hex_value (N_of_ascii (hex_digit n)) = Some n.
Proof.
  intros Hn. unfold hex_digit, byte, hex_value.
  rewrite N_ascii_embedding by (case_match; lia).
  destruct (N.ltb_spec n 10).
  - rewrite (proj2 (N.leb_le 48 _)), (proj2 (N.leb_le _ 57)) by lia. simpl. f_equal. lia.
  - rewrite (proj2 (N.leb_gt (87 + n) 57)), andb_false_r by lia.
    rewrite (proj2 (N.leb_le 97 _)), (proj2 (N.leb_le _ 102)) by lia. simpl. f_equal. lia.
Qed.

Lemma hex_decode_encode s : hex_decode (hex_encode s) = Some s.
Proof.
  induction s as [|b s IH]; [done|]. pose proof (N_of_ascii_lt b).
  cbn -[hex_digit hex_value N.mul N.add N.div N.modulo].
  rewrite !hex_value_digit by
    first [apply N.Div0.div_lt_upper_bound; lia|apply N.mod_lt; lia].
  cbn -[N.mul N.add N.div N.modulo]. rewrite IH. cbn -[N.mul N.add N.div N.modulo].
  rewrite N.mul_comm, <- N.div_mod by lia. unfold byte. by rewrite ascii_N_embedding.
Qed.

(** *** Splitting and joining *)

Lemma split_on_nonempty c s : split_on c s ≠ [].
Proof. destruct s as [|b s]; simpl; [done|]. case_match; [done|]. by case_match. Qed.

Lemma join_split c s : join_with c (split_on c s) = s.
Proof.
  induction s as [|b s IH]; simpl; [done|].
  pose proof (split_on_nonempty c s).
  case_bool_decide as Hb; subst; destruct (split_on c s) as [|w ws] eqn:Hw; try done; simpl in *.
  - by rewrite IH.
  - destruct ws; simpl in *; by rewrite <- IH.
Qed.

Lemma split_on_no_sep c s : Forall (λ w, contains_byte c w = false) (split_on c s).
Proof.
  induction s as [|b s IH]; simpl; [by repeat constructor|].
  case_bool_decide as Hb; [by constructor|].
  destruct (split_on c s) as [|w ws]; decompose_Forall_hyps; constructor; simpl; try done.
  - by rewrite bool_decide_false.
  - rewrite bool_decide_false by done. done.
Qed.

Lemma starts_with_cons c p d s :
  starts_with (String c p) (String d s) = bool_decide (c = d) && starts_with p s.
Proof.
  unfold starts_with. cbn [String.prefix]. case_bool_decide as Hc.
  - subst. by destruct (ascii_dec d d).
  - by destruct (ascii_dec c d).
Qed.

Lemma starts_with_iff p s : starts_with p s = true ↔ ∃ t, s = p +:+ t.
Proof.
  revert s; induction p as [|c p IH]; intros s.
  - split; [by exists s|]. by destruct s.
  - destruct s as [|d s]; [split; [done|by intros [? [=]]]|].
    rewrite starts_with_cons, andb_true_iff, IH, bool_decide_eq_true. split.
    + intros [-> [t ->]]. by exists t.
    + intros [t [= -> ->]]. eauto.
Qed.

Lemma substring_app a b : String.substring 0 (String.length a) (a +:+ b) = a.
Proof. induction a as [|x a IH]; simpl; [by destruct b|]. by rewrite IH. Qed.

Lemma str_skip_app p t : str_skip (String.length p) (p +:+ t) = t.
Proof. induction p; [by destruct t|done]. Qed.

Lemma strip_prefix_some p s t : strip_prefix p s = Some t ↔ s = p +:+ t.
Proof.
  unfold strip_prefix. destruct (starts_with p s) eqn:Hs.
  - apply starts_with_iff in Hs as [u ->]. rewrite str_skip_app.
    split; [by intros [= ->]|]. by intros ->%str_app_inj_l.
  - split; [done|]. intros ->. assert (starts_with p (p +:+ t) = true) as Hp; [|congruence].
    apply starts_with_iff. eauto.
Qed.

Lemma split_on_app c s b :
  split_on c (s +:+ String c b) = (split_on c s ++ split_on c b)%list.
Proof.
  induction s as [|x s IH]; simpl.
  - by rewrite bool_decide_true.
  - rewrite IH. pose proof (split_on_nonempty c s).
    case_bool_decide; [done|]. by destruct (split_on c s).
Qed.

Lemma split_on_app_sep c w s :
  contains_byte c w = false → split_on c (w +:+ String c s) = w :: split_on c s.
Proof.
  induction w as [|b w IH]; simpl.
  - intros _. by rewrite bool_decide_true.
  - intros [Hb Hw]%orb_false_elim. guards.
    rewrite bool_decide_false by done. by rewrite IH.
Qed.

Lemma split_on_word c w : contains_byte c w = false → split_on c w = [w].
Proof.
  induction w as [|b w IH]; simpl; [done|].
  intros [Hb Hw]%orb_false_elim. guards. rewrite bool_decide_false by done. by rewrite IH.
Qed.

Lemma split_join c l :
  l ≠ [] → Forall (λ w, contains_byte c w = false) l → split_on c (join_with c l) = l.
Proof.
  intros Hne Hl. induction Hl as [|w l Hw Hl IH]; [done|].
  destruct l as [|w' l].
  - simpl. by apply split_on_word.
  - change (join_with c (w :: w' :: l)) with (w +:+ String c (join_with c (w' :: l))).
    rewrite split_on_app_sep by done. by rewrite IH.
Qed.

Lemma substring_all k s : (String.length s <= k)%nat → String.substring 0 k s = s.
Proof.
  revert k; induction s as [|b s IH]; intros [|k] Hk; simpl in *; try done; [lia|].
  by rewrite IH by lia.
Qed.

Lemma substring_length k : ∀ s, (k <= String.length s)%nat → String.length (String.substring 0 k s) = k.
Proof. induction k as [|k IH]; intros [|a s] Hk; simpl in *; try done; try lia. by rewrite IH by lia. Qed.

Lemma substring_app_le k a b :
  (k <= String.length a)%nat → String.substring 0 k (a +:+ b) = String.substring 0 k a.
Proof.
  revert a; induction k as [|k IH]; intros [|x a] Hk; simpl in *; try done; [by destruct b|lia|].
  by rewrite IH by lia.
Qed.

Lemma concat_all_app l l' : concat_all (l ++ l')%list = concat_all l +:+ concat_all l'.
Proof.
  unfold concat_all. induction l as [|x l IH]; [done|]. cbn [app foldr]. by rewrite IH, str_app_assoc.
Qed.

(** *** UTF-8 of a concatenation *)

Lemma utf8_ok_app l1 l2 : utf8_ok l1 = true → utf8_ok l2 = true → utf8_ok (l1 ++ l2)%list = true.
Proof.
  intros H1 H2. remember (length l1) as n eqn:Hn. assert (length l1 <= n)%nat as Hle by lia. clear Hn.
  revert l1 Hle H1. induction n as [|n IH]; intros [|b l1] Hle H1; cbn [length] in Hle; try done; [lia|].
  cbn [utf8_ok app] in H1 |- *.
  destruct (b <? 128); [apply IH; [lia|done]|].
  destruct l1 as [|c1 l1]; [done|]. cbn [app length] in *.
  destruct (in_range 194 223 b).
  { apply andb_prop in H1 as [-> H1]. apply IH; [lia|done]. }
  destruct l1 as [|c2 l1]; [done|]. cbn [app length] in *.
  destruct (b =? 224); [apply andb_prop in H1 as [-> H1]; apply IH; [lia|done]|].
  destruct (b =? 237); [apply andb_prop in H1 as [-> H1]; apply IH; [lia|done]|].
  destruct (in_range 225 239 b); [apply andb_prop in H1 as [-> H1]; apply IH; [lia|done]|].
  destruct l1 as [|c3 l1]; [done|]. cbn [app length] in *.
  destruct (b =? 240); [apply andb_prop in H1 as [-> H1]; apply IH; [lia|done]|].
  destruct (b =? 244); [apply andb_prop in H1 as [-> H1]; apply IH; [lia|done]|].
  apply andb_prop in H1 as [-> H1]. apply IH; [lia|done].
Qed.
Lemma bytes_of_app a b : bytes_of (a +:+ b) = (bytes_of a ++ bytes_of b)%list.
Proof. unfold bytes_of. induction a as [|c a IH]; [done|]. cbn. f_equal. exact IH. Qed.
Lemma valid_utf8_app a b : valid_utf8 a = true → valid_utf8 b = true → valid_utf8 (a +:+ b) = true.
Proof. unfold valid_utf8. rewrite bytes_of_app. apply utf8_ok_app. Qed.
