(* ===== verification/RustPath.v ===== *)
(** [std::path] on Unix: components, joining and parents, on path texts. *)

From S2P Require Import Prelude RustStd.
#[local] Open Scope string_scope.

Definition slash : ascii := ascii_of_N 47.

(** [std::path::Component] (a Unix path has no prefix component). *)
Inductive component := RootDir | CurDir | ParentDir | Normal (name : string).

#[export] Instance component_eq_dec : EqDecision component.
Proof. solve_decision. Defined.

Definition has_root (p : string) : bool := starts_with "/" p.
Definition is_absolute (p : string) : bool := has_root p.

Definition classify (part : string) : option component :=
  if bool_decide (part = "") then None
  else if bool_decide (part = ".") then None
  else if bool_decide (part = "..") then Some ParentDir
  else Some (Normal part).

(** [Path::components]: repeated separators and [.] are dropped, except a leading [.]. *)
Definition components (p : string) : list component :=
  let parts := split_on slash p in
  (if has_root p then [RootDir]
   else match parts with first :: _ => if bool_decide (first = ".") then [CurDir] else []
                    | [] => [] end)
  ++ omap classify parts.

(** [Path::file_name]. *)
Definition file_name (p : string) : option string :=
  match last (components p) with Some (Normal n) => Some n | _ => None end.

(** [Path::join]: an absolute second path replaces the first. *)
Definition path_join (a b : string) : string :=
  if has_root b then b
  else if bool_decide (a = "") then b
  else if bool_decide (String.get (String.length a - 1) a = Some slash) then a +:+ b
  else a +:+ "/" +:+ b.

(** Drops trailing separators and [.] components; the first part of a relative path stays. *)
Definition trim_tail (parts : list string) : list string :=
  foldr (λ w acc, match acc with
                  | [] => if bool_decide (w = "") || bool_decide (w = ".") then [] else [w]
                  | _ => w :: acc
                  end) [] parts.
Definition trim_parts (relative : bool) (parts : list string) : list string :=
  match parts with
  | [] => []
  | first :: rest =>
    if relative
    then match trim_tail rest with
         | [] => if bool_decide (first = "") then [] else [first]
         | t => first :: t
         end
    else trim_tail parts
  end.

(** [Path::parent]. *)
Definition path_parent (p : string) : option string :=
  let relative := negb (has_root p) in
  let parts := split_on slash p in
  let parts := if relative then parts else tl parts in
  match trim_parts relative parts with
  | [] => None
  | l => Some ((if relative then "" else "/")
               +:+ join_with slash (trim_parts relative (removelast l)))
  end.

Example path_parent_examples :
  (path_parent <$> ["/a/b"; "/a"; "/"; ""; "a"; "a/b/"; "./a"; "a/./b/."])
  = [Some "/a"; Some "/"; None; None; Some ""; Some "a"; Some "."; Some "a"].
Proof. reflexivity. Qed.

(** ** Lemmas *)

Lemma normal_classify w n :
  classify w = Some (Normal n) → w = n ∧ n ≠ "" ∧ n ≠ "." ∧ n ≠ "..".
Proof. unfold classify. repeat case_bool_decide; naive_solver. Qed.

(** The components of a path that is all normal components are its parts. *)
Lemma components_normal p :
  Forall (λ c, ∃ n, c = Normal n) (components p) →
  has_root p = false ∧ hd "" (split_on slash p) ≠ "." ∧
  Forall (λ w, w ≠ "..") (split_on slash p).
Proof.
  unfold components. intros [Hh Hp]%Forall_app.
  destruct (has_root p) eqn:Hr; [by apply Forall_singleton in Hh as [? [=]]|].
  split; [done|]. split.
  - destruct (split_on slash p) as [|w ws]; simpl in *; [done|].
    intros ->. by apply Forall_singleton in Hh as [? [=]].
  - clear Hh. induction (split_on slash p) as [|w ws IH]; simpl in *; [done|].
    destruct (classify w) as [c|] eqn:Hc; simpl in *.
    + apply Forall_cons in Hp as [[n ->] Hp]. apply normal_classify in Hc as (-> & ? & ? & ?).
      constructor; auto.
    + constructor; [intros ->; discriminate|auto].
Qed.
