(* ===== verification/Sorting.v ===== *)
(** Stable sorting by a comparison ([sort_by], [sort]) and when its result does not depend on
    the order of the input. *)

From stdpp Require Export sorting.
From S2P Require Import Prelude RustStd.

Section SortBy.
Context {A : Type} (lt : A → A → bool).

Fixpoint insert_by (x : A) (l : list A) : list A :=
  match l with
  | [] => [x]
  | y :: l' => if lt y x then y :: insert_by x l' else x :: l
  end.

(** [v.sort_by(cmp)], where [lt a b] is [cmp(a, b) == Less]: equal elements keep their order. *)
Definition sort_by (l : list A) : list A := foldr insert_by [] l.

Lemma insert_by_perm x l : insert_by x l ≡ₚ x :: l.
Proof.
  induction l as [|y l IH]; cbn [insert_by]; [done|]. destruct (lt y x); [|done].
  rewrite IH. apply Permutation_swap.
Qed.

Lemma sort_by_perm l : sort_by l ≡ₚ l.
Proof. induction l as [|x l IH]; [done|]. cbn. by rewrite insert_by_perm, IH. Qed.

Lemma sort_by_length l : length (sort_by l) = length l.
Proof. by rewrite sort_by_perm. Qed.

Lemma elem_of_sort_by x l : x ∈ sort_by l ↔ x ∈ l.
Proof. by rewrite sort_by_perm. Qed.
End SortBy.

Lemma sort_by_map {A B} (f : A → B) (lt : A → A → bool) (lt' : B → B → bool) l :
  (∀ a b, lt' (f a) (f b) = lt a b) → f <$> sort_by lt l = sort_by lt' (f <$> l).
Proof.
  intros Hf. induction l as [|x l IH]; [done|]. cbn. fold (sort_by lt l). unfold sort_by in IH at 2.
  rewrite <- IH. generalize (sort_by lt l). clear -Hf. intros l.
  induction l as [|y l IH]; [done|]. cbn. rewrite Hf. destruct (lt y x); [|done]. cbn. by rewrite IH.
Qed.

Lemma imap_sorted {A} (R : relation A) (f : nat → A → A) l :
  (∀ i j a b, R a b → R (f i a) (f j b)) → StronglySorted R l → StronglySorted R (imap f l).
Proof.
  intros Hf Hs. revert f Hf. induction Hs as [|a l Hs IH Ha]; intros f Hf; [constructor|].
  cbn. constructor; [apply IH; intros; by apply Hf|].
  apply Forall_lookup. intros i b. rewrite list_lookup_imap. intros (c & Hc & ->)%fmap_Some.
  apply Hf. by eapply (proj1 (Forall_lookup _ _) Ha).
Qed.

(** A comparison that orders the elements with a property up to ties. *)
Class WeakOrder {A} (P : A → Prop) (lt : A → A → bool) : Prop := {
  weak_asym a b : P a → P b → lt a b = true → lt b a = false;
  weak_trans a b c : P a → P b → P c → lt b a = false → lt c b = false → lt c a = false
}.

Lemma weak_pull {A B} (f : A → B) (lt : B → B → bool) :
  WeakOrder (λ _, True) lt → WeakOrder (λ _, True) (λ a b, lt (f a) (f b)).
Proof. intros [Ha Ht]. split; eauto. Qed.

Section Sorted.
Context {A : Type} (P : A → Prop) (lt : A → A → bool) `{!WeakOrder P lt}.

Definition not_after (a b : A) : Prop := lt b a = false.

Lemma insert_by_sorted x l : P x → Forall P l →
  StronglySorted not_after l → StronglySorted not_after (insert_by lt x l).
Proof.
  intros Hx Hl Hs. induction Hs as [|y l Hs IH Hy]; cbn [insert_by]; [by repeat constructor|].
  apply Forall_cons in Hl as [Hpy Hl]. destruct (lt y x) eqn:E.
  - constructor; [by apply IH|]. rewrite insert_by_perm. constructor; [|done].
    unfold not_after. by apply weak_asym.
  - constructor; [by constructor|]. constructor; [done|].
    apply Forall_forall. intros z Hz. pose proof (proj1 (Forall_forall _ _) Hy z Hz) as Hyz.
    pose proof (proj1 (Forall_forall _ _) Hl z Hz) as Hpz. unfold not_after in *.
    by apply (weak_trans x y z).
Qed.

Lemma sort_by_sorted l : Forall P l → StronglySorted not_after (sort_by lt l).
Proof.
  induction 1 as [|x l Hx Hl IH]; [constructor|]. cbn. apply insert_by_sorted; [done| |done].
  fold (sort_by lt l). by rewrite (sort_by_perm lt l).
Qed.

(** The head is a least element. *)
Lemma sort_by_head l x l' : Forall P l → sort_by lt l = x :: l' → ∀ y, y ∈ l → y = x ∨ lt y x = false.
Proof.
  intros Hl Hs y Hy. apply (elem_of_sort_by lt) in Hy. pose proof (sort_by_sorted l Hl) as H.
  rewrite Hs in H, Hy. apply elem_of_cons in Hy as [->|Hy]; [by left|right].
  inversion H as [|?? _ Hf]; subst. by apply (proj1 (Forall_forall _ _) Hf).
Qed.

(** Without ties the result is the same for every order of the input. *)
Lemma sort_by_canonical l l' : Forall P l → l ≡ₚ l' →
  (∀ a b, a ∈ l → b ∈ l → lt a b = false → lt b a = false → a = b) →
  sort_by lt l = sort_by lt l'.
Proof.
  intros Hl Hp Hties. assert (Forall P l') as Hl' by (by rewrite <- Hp).
  apply (StronglySorted_unique_strong not_after); [|by apply sort_by_sorted..|].
  - intros a b Ha%elem_of_sort_by Hb%elem_of_sort_by Hab Hba. rewrite <- Hp in Hb.
    by apply Hties.
  - by rewrite !sort_by_perm.
Qed.
End Sorted.

(** ** Byte order of strings *)

Definition str_lt (a b : string) : bool := String.ltb a b.
Definition sort_strings : list string → list string := sort_by str_lt.

Lemma ascii_compare_N a b : Ascii.compare a b = (N_of_ascii a ?= N_of_ascii b)%N.
Proof. reflexivity. Qed.

Lemma str_lt_cons a s b t :
  str_lt (String a s) (String b t) = (N_of_ascii a <? N_of_ascii b)%N
    || ((N_of_ascii a =? N_of_ascii b)%N && str_lt s t).
Proof.
  unfold str_lt, String.ltb. cbn [String.compare]. rewrite ascii_compare_N.
  destruct (N.compare_spec (N_of_ascii a) (N_of_ascii b)) as [E|E|E].
  - rewrite E, N.ltb_irrefl, N.eqb_refl. done.
  - by rewrite (proj2 (N.ltb_lt _ _) E).
  - rewrite (proj2 (N.ltb_ge _ _)) by lia. by rewrite (proj2 (N.eqb_neq _ _)) by lia.
Qed.

Lemma str_lt_tie a b : str_lt a b = false → str_lt b a = false → a = b.
Proof.
  revert b. induction a as [|x a IH]; intros [|y b]; [done..|].
  rewrite !str_lt_cons. intros [H1%N.ltb_ge H2]%orb_false_elim [H3%N.ltb_ge H4]%orb_false_elim.
  assert (N_of_ascii x = N_of_ascii y) as E by lia. rewrite E, N.eqb_refl in H2, H4.
  apply (f_equal ascii_of_N) in E. rewrite !ascii_N_embedding in E. subst y. f_equal. by apply IH.
Qed.

Lemma str_lt_asym a b : str_lt a b = true → str_lt b a = false.
Proof.
  revert b. induction a as [|x a IH]; intros [|y b]; [done..|]. rewrite !str_lt_cons.
  destruct (N.ltb_spec (N_of_ascii x) (N_of_ascii y)), (N.ltb_spec (N_of_ascii y) (N_of_ascii x)); try lia.
  - intros _. by rewrite (proj2 (N.eqb_neq _ _)) by lia.
  - cbn [orb]. intros [?%N.eqb_eq _]%andb_prop. lia.
  - rewrite (N.eqb_sym (N_of_ascii y)). cbn [orb]. intros [-> Hs]%andb_prop. by apply IH.
Qed.

Lemma str_lt_trans a b c : str_lt a b = true → str_lt b c = true → str_lt a c = true.
Proof.
  revert b c. induction a as [|x a IH]; intros [|y b] [|z c]; [done..|].
  rewrite !str_lt_cons. intros [H1%N.ltb_lt|[H1%N.eqb_eq H1']%andb_prop]%orb_true_iff
    [H2%N.ltb_lt|[H2%N.eqb_eq H2']%andb_prop]%orb_true_iff.
  1-3: by rewrite (proj2 (N.ltb_lt _ _)) by lia.
  rewrite H1, H2, N.eqb_refl, (IH _ _ H1' H2'). by rewrite orb_true_r.
Qed.

#[export] Instance str_lt_order : WeakOrder (λ _, True) str_lt.
Proof.
  split; [intros; by apply str_lt_asym|]. intros a b c _ _ _ H1 H2.
  destruct (str_lt c a) eqn:E; [|done].
  destruct (str_lt a b) eqn:Eab.
  - by rewrite (str_lt_trans _ _ _ E Eab) in H2.
  - by rewrite (str_lt_tie _ _ Eab H1), H2 in E.
Qed.

Lemma sort_strings_canonical l l' : l ≡ₚ l' → sort_strings l = sort_strings l'.
Proof.
  intros Hp. apply (sort_by_canonical (λ _, True) str_lt); [by apply Forall_true|done|].
  intros a b _ _. apply str_lt_tie.
Qed.

Example sort_strings_example : sort_strings ["b"; "a"; "ab"; "B"]%string = ["B"; "a"; "ab"; "b"]%string.
Proof. reflexivity. Qed.
