(* ===== verification/RustNum.v ===== *)
(** Numbers of the Rust standard library: integer parsing, white-space splitting and IEEE 754
    binary64 arithmetic.

    An [f64] is a [spec_float] of the Standard Library with 53 bits of precision and exponents
    up to 1024; every operation rounds to nearest even, as the hardware does. *)

From Stdlib Require Export SpecFloat.
From S2P Require Import Prelude RustStd.
#[local] Open Scope N_scope.

(** ** Integers in text *)

Definition digit_value (c : N) : option N :=
  if (48 <=? c) && (c <=? 57) then Some (c - 48) else None.

Fixpoint parse_digits (limit : N) (cs : list N) (acc : N) : option N :=
  match cs with
  | [] => Some acc
  | c :: cs =>
    d ← digit_value c;
    let acc := acc * 10 + d in
    if limit <? acc then None else parse_digits limit cs acc
  end.

(** [str::parse] for an unsigned integer type whose largest value is [limit]. *)
Definition parse_uint (limit : N) (cs : list N) : option N :=
  let digits := match cs with 43 :: rest => rest | _ => cs end in
  match digits with [] => None | _ => parse_digits limit digits 0 end.

Fixpoint words_acc (cs : list N) (word : list N) : list (list N) :=
  match cs with
  | [] => match word with [] => [] | _ => [reverse word] end
  | c :: cs =>
    if is_whitespace c
    then match word with [] => words_acc cs [] | _ => reverse word :: words_acc cs [] end
    else words_acc cs (c :: word)
  end.

(** [str::split_whitespace]: the words, each as its scalar values. *)
Definition split_whitespace (s : string) : list (list N) := words_acc (chars s) [].

Example split_parse :
  parse_uint u64_max <$> split_whitespace " 12 +7 x 18446744073709551616 "
  = [Some 12; Some 7; None; None].
Proof. vm_compute. reflexivity. Qed.

(** ** [f64] *)

Abbreviation f64 := spec_float.
Definition prec : Z := 53.
Definition emax : Z := 1024.

#[export] Instance f64_eq_dec : EqDecision f64.
Proof. solve_decision. Defined.

(** An integer constant or [n as f64], for an unsigned [n]. *)
Definition f64_of_N (n : N) : f64 := binary_normalize prec emax (Z.of_N n) 0 false.
Definition f64_add : f64 → f64 → f64 := SFadd prec emax.
Definition f64_sub : f64 → f64 → f64 := SFsub prec emax.
Definition f64_mul : f64 → f64 → f64 := SFmul prec emax.
Definition f64_div : f64 → f64 → f64 := SFdiv prec emax.
Definition f64_opp : f64 → f64 := SFopp.
Definition f64_abs : f64 → f64 := SFabs.
Definition f64_lt (a b : f64) : bool := SFltb a b.
Definition f64_le (a b : f64) : bool := SFleb a b.
Definition f64_gt (a b : f64) : bool := SFltb b a.
Definition f64_ge (a b : f64) : bool := SFleb b a.

Definition is_nan (a : f64) : bool := match a with S754_nan => true | _ => false end.
Definition is_finite (a : f64) : bool :=
  match a with S754_zero _ | S754_finite _ _ _ => true | _ => false end.

(** The [f64] nearest to [m * 10^e]: a decimal literal of the source.  The quotient is rounded
    once, because the numerator and the denominator of the literals used are exact. *)
Definition f64_lit (m : N) (tens : N) : f64 := f64_div (f64_of_N m) (f64_of_N (10 ^ tens)).

Example f64_tenths : f64_lt (f64_add (f64_lit 1 1) (f64_lit 2 1)) (f64_lit 3 1) = false
  ∧ f64_gt (f64_add (f64_lit 1 1) (f64_lit 2 1)) (f64_lit 3 1) = true.
Proof. split; vm_compute; reflexivity. Qed.

(** A comparison with NaN is always false. *)
Lemma f64_lt_nan a : f64_lt S754_nan a = false ∧ f64_lt a S754_nan = false.
Proof. by destruct a. Qed.

Lemma f64_le_nan a : f64_le S754_nan a = false ∧ f64_le a S754_nan = false.
Proof. by destruct a. Qed.

(** [f64::to_bits]: sign, 11 bits of exponent and 52 of fraction; a NaN is the quiet one. *)
Definition f64_to_bits (a : f64) : N :=
  let word (s : bool) (exp frac : N) := (if s then 2 ^ 63 else 0) + exp * 2 ^ 52 + frac in
  match a with
  | S754_zero s => word s 0 0
  | S754_infinity s => word s 2047 0
  | S754_nan => word false 2047 (2 ^ 51)
  | S754_finite s m e =>
    if N.pos m <? 2 ^ 52 then word s 0 (N.pos m)
    else word s (Z.to_N (e + 1075)) (N.pos m - 2 ^ 52)
  end.

Example f64_bits_examples :
  f64_to_bits <$> [f64_of_N 1; f64_of_N 0; f64_lit 5 1; S754_nan]
  = [4607182418800017408; 0; 4602678819172646912; 9221120237041090560].
Proof. reflexivity. Qed.
