(* ===== verification/RustFloat.v ===== *)
(** More of Rust's [f64]: rounding to integers, casts, text, and the bounds that make indices
    computed in floating point safe.

    A positive value [m * 2^e] is compared through the integer [scaled m e], which is exact for
    every exponent binary64 and its products use. *)

From S2P Require Import Prelude RustStd RustNum.
#[local] Open Scope Z_scope.

(** ** Operations *)

(** The integer [m * 2^e] rounded down and up. *)
Definition floor_of (m e : Z) : Z := if 0 <=? e then m * 2 ^ e else m / 2 ^ (- e).
Definition ceil_of (m e : Z) : Z := - floor_of (- m) e.

Definition signed (s : bool) (m : positive) : Z := if s then Z.neg m else Z.pos m.

(** [f64::floor], [f64::ceil]. *)
Definition f64_floor (a : f64) : f64 :=
  match a with
  | S754_finite s m e => binary_normalize prec emax (floor_of (signed s m) e) 0 s
  | _ => a
  end.
Definition f64_ceil (a : f64) : f64 :=
  match a with
  | S754_finite s m e => binary_normalize prec emax (ceil_of (signed s m) e) 0 s
  | _ => a
  end.

(** [a as usize]: truncates and saturates; NaN and negative values become zero. *)
Definition f64_as_usize (a : f64) : N :=
  match a with
  | S754_finite false m e => N.min (Z.to_N (floor_of (Z.pos m) e)) u64_max
  | S754_infinity false => u64_max
  | _ => 0%N
  end.

(** [n as f64] for a signed [n]. *)
Definition f64_of_Z (z : Z) : f64 := binary_normalize prec emax z 0 false.

(** [f64::min], [f64::clamp]. *)
Definition f64_min (a b : f64) : f64 :=
  if is_nan a then b else if is_nan b then a else if f64_lt b a then b else a.
Definition f64_clamp (a lo hi : f64) : f64 :=
  let a := if f64_lt a lo then lo else a in if f64_gt a hi then hi else a.

(** [f64::max]. *)
Definition f64_max (a b : f64) : f64 :=
  if is_nan a then b else if is_nan b then a else if f64_lt a b then b else a.

(** [f64::round]: half away from zero. *)
Definition round_of (m : positive) (e : Z) : Z :=
  if 0 <=? e then Z.pos m * 2 ^ e else (Z.pos m + 2 ^ (- e - 1)) / 2 ^ (- e).
Definition f64_round (a : f64) : f64 :=
  match a with
  | S754_finite s m e =>
    binary_normalize prec emax (if s then - round_of m e else round_of m e) 0 s
  | _ => a
  end.

(** [a as i64]: truncates and saturates; NaN becomes zero. *)
Definition I64_MAX : Z := 9223372036854775807.
Definition I64_MIN : Z := -9223372036854775808.
Definition f64_as_i64 (a : f64) : Z :=
  match a with
  | S754_finite s m e =>
    let t := floor_of (Z.pos m) e in Z.max I64_MIN (Z.min I64_MAX (if s then - t else t))
  | S754_infinity s => if s then I64_MIN else I64_MAX
  | _ => 0
  end.

(** [f64::from_bits]; every NaN becomes the quiet one. *)
Definition f64_from_bits (b : N) : f64 :=
  let s := (2 ^ 63 <=? b)%N in
  let exp := (b / 2 ^ 52 mod 2048)%N in
  let frac := (b mod 2 ^ 52)%N in
  if (exp =? 2047)%N then (if (frac =? 0)%N then S754_infinity s else S754_nan)
  else if (exp =? 0)%N then
    match frac with N0 => S754_zero s | Npos m => S754_finite s m (-1074) end
  else match (frac + 2 ^ 52)%N with
       | Npos m => S754_finite s m (Z.of_N exp - 1075)
       | N0 => S754_zero s
       end.

(** [a.total_cmp(b)] compares these: the bits, those of negative numbers in reverse. *)
Definition total_key (a : f64) : Z :=
  let b := Z.of_N (f64_to_bits a) in if b <? 2 ^ 63 then b else 2 ^ 63 - 1 - b.
Definition total_lt (a b : f64) : bool := total_key a <? total_key b.

(** [format!("{:.d$}", a)]: [d] decimals, rounded half to even from the exact value. *)
Definition round_even_div (a b : Z) : Z :=
  let q := a / b in
  match Z.compare (2 * (a mod b)) b with
  | Lt => q | Gt => q + 1 | Eq => if Z.even q then q else q + 1
  end.
Definition pad_zeros (width : nat) (s : string) : string :=
  string_of_chars (repeat 48%N (width - String.length s)) +:+ s.
Definition fixed_digits (d : nat) (z : Z) : string :=
  let p := 10 ^ Z.of_nat d in
  dec (Z.to_N (z / p)) +:+ (if bool_decide (d = 0%nat) then ""
                            else "." +:+ pad_zeros d (dec (Z.to_N (z mod p)))).
Definition fmt_fixed (d : nat) (a : f64) : string :=
  let sign (s : bool) := if s then "-" else "" in
  match a with
  | S754_nan => "NaN"
  | S754_infinity s => sign s +:+ "inf"
  | S754_zero s => sign s +:+ fixed_digits d 0
  | S754_finite s m e =>
    let num := Z.pos m * 10 ^ Z.of_nat d in
    sign s +:+ fixed_digits d
      (if 0 <=? e then num * 2 ^ e else round_even_div num (2 ^ (- e)))
  end.

Example rounding_examples :
  f64_as_usize <$> [f64_floor (f64_lit 27 1); f64_ceil (f64_lit 21 1); f64_lit 99 1;
                    f64_opp (f64_of_N 3); S754_nan; S754_infinity false; f64_ceil (f64_of_N 4)]
  = [2; 3; 9; 0; 0; u64_max; 4]%N.
Proof. vm_compute. reflexivity. Qed.

Example casting_examples :
  (f64_as_i64 <$> [f64_round (f64_lit 25 1); f64_round (f64_opp (f64_lit 25 1)); f64_lit 99 1;
                   f64_opp (f64_lit 99 1); S754_nan; S754_infinity true; f64_round (f64_lit 24 1)])
  = [3; -3; 9; -9; 0; I64_MIN; 2]
  ∧ total_lt (S754_zero true) (S754_zero false) = true
  ∧ total_lt (f64_opp (f64_of_N 2)) (f64_opp (f64_of_N 1)) = true
  ∧ total_lt (S754_infinity false) S754_nan = true.
Proof. vm_compute. auto. Qed.

Example fixed_examples :
  [fmt_fixed 2 (f64_opp (f64_lit 181818 4)); fmt_fixed 1 (f64_of_N 1); fmt_fixed 2 (f64_lit 1005 3);
   fmt_fixed 1 (f64_lit 25 2); fmt_fixed 4 (f64_lit 1 4); fmt_fixed 2 S754_nan]
  = ["-18.18"; "1.0"; "1.00"; "0.2"; "0.0001"; "NaN"].
Proof. vm_compute. reflexivity. Qed.

(** ** Sizes of mantissas *)

Lemma digits_pos p : Zdigits2 (Z.pos p) = Z.log2 (Z.pos p) + 1.
Proof.
  unfold Zdigits2. induction p as [p IH|p IH|]; cbn [digits2_pos]; [..|reflexivity].
  - rewrite Pos2Z.inj_succ, IH, (Pos2Z.inj_xI p), Z.log2_succ_double by lia. lia.
  - rewrite Pos2Z.inj_succ, IH, (Pos2Z.inj_xO p), Z.log2_double by lia. lia.
Qed.

Lemma digits_spec z : 0 < z → 2 ^ (Zdigits2 z - 1) ≤ z < 2 ^ Zdigits2 z.
Proof.
  intros Hz. destruct z as [|p|p]; [lia| |lia]. rewrite digits_pos.
  replace (Z.log2 (Z.pos p) + 1 - 1) with (Z.log2 (Z.pos p)) by lia.
  pose proof (Z.log2_spec (Z.pos p) Hz) as [H1 H2]. by rewrite Z.add_1_r.
Qed.

Lemma digits_pos_pos z : 0 < z → 0 < Zdigits2 z.
Proof. destruct z; cbn; lia. Qed.

(** Scaling by a common power of two, low enough for the exponent of any product. *)
Definition scaled (m e : Z) : Z := m * 2 ^ (e + 2200).

Lemma scaled_shift m e k : 0 ≤ k → -2200 ≤ e → scaled (m * 2 ^ k) e = scaled m (e + k).
Proof.
  intros. unfold scaled. rewrite <- Z.mul_assoc, <- Z.pow_add_r by lia. do 2 f_equal. lia.
Qed.

Lemma scaled_le m m' e : -2200 ≤ e → scaled m e ≤ scaled m' e ↔ m ≤ m'.
Proof. intros. unfold scaled. symmetry. apply Z.mul_le_mono_pos_r. lia. Qed.

Lemma scaled_digits m e x f : 0 < m → 0 < x → -2200 ≤ e → -2200 ≤ f →
  scaled m e ≤ scaled x f → Zdigits2 m + e ≤ Zdigits2 x + f.
Proof.
  unfold scaled. intros Hm Hx He Hf Hle.
  destruct (digits_spec m Hm) as [H1 _], (digits_spec x Hx) as [_ H2].
  pose proof (digits_pos_pos m Hm). pose proof (digits_pos_pos x Hx).
  assert (2 ^ (Zdigits2 m - 1 + (e + 2200)) < 2 ^ (Zdigits2 x + (f + 2200))) as Hp.
  { rewrite (Z.pow_add_r 2 (Zdigits2 m - 1)), (Z.pow_add_r 2 (Zdigits2 x)) by lia.
    apply Z.le_lt_trans with (x * 2 ^ (f + 2200)); [|by apply Z.mul_lt_mono_pos_r; [lia|]].
    etrans; [|exact Hle]. apply Z.mul_le_mono_nonneg_r; lia. }
  apply Z.pow_lt_mono_r_iff in Hp; lia.
Qed.

(** ** Rounding never passes a representable bound *)

Definition exact (r : shr_record) : bool := negb (shr_r r || shr_s r).

Lemma shr_1_spec (m : Z) (r : shr_record) : 0 ≤ shr_m r →
  shr_m (shr_1 r) = shr_m r / 2 ∧
  (exact (shr_1 r) = true ↔ exact r = true ∧ shr_m r mod 2 = 0).
Proof.
  destruct r as [z r s]; cbn [shr_m]; intros Hz.
  destruct z as [|p|p]; [..|lia].
  - split; [done|]. unfold exact; cbn. destruct r, s; cbn; intuition congruence.
  - destruct p as [p|p|]; cbn [shr_1 shr_m].
    + split; [rewrite (Pos2Z.inj_xI p); by rewrite Z.add_comm, Z.mul_comm, Z.div_add by lia|].
      rewrite (Pos2Z.inj_xI p), Z.add_comm, Z.mul_comm, Z.mod_add by lia.
      unfold exact; cbn. split; [done|by intros [_ ?]].
    + split; [rewrite (Pos2Z.inj_xO p); by rewrite Z.mul_comm, Z.div_mul by lia|].
      rewrite (Pos2Z.inj_xO p), Z.mul_comm, Z.mod_mul by lia.
      unfold exact; cbn. destruct r, s; cbn; intuition congruence.
    + split; [done|]. unfold exact; cbn. split; [done|by intros [_ ?]].
Qed.

Lemma iter_shr p r : 0 ≤ shr_m r →
  shr_m (iter_pos shr_1 p r) = shr_m r / 2 ^ Z.pos p ∧
  (exact r = true → shr_m r mod 2 ^ Z.pos p = 0 → exact (iter_pos shr_1 p r) = true).
Proof.
  assert (∀ k r, 0 ≤ shr_m r →
    shr_m (Nat.iter k shr_1 r) = shr_m r / 2 ^ Z.of_nat k ∧
    (exact r = true → shr_m r mod 2 ^ Z.of_nat k = 0 → exact (Nat.iter k shr_1 r) = true)) as Hk.
  { clear. intros k r Hr. induction k as [|k [IH1 IH2]].
    - change (Nat.iter 0 shr_1 r) with r. by rewrite Z.div_1_r.
    - change (Nat.iter (S k) shr_1 r) with (shr_1 (Nat.iter k shr_1 r)).
      assert (0 < 2 ^ Z.of_nat k) by lia.
      assert (0 ≤ shr_m (Nat.iter k shr_1 r)) as H0 by (rewrite IH1; apply Z.div_pos; lia).
      destruct (shr_1_spec 0 _ H0) as [E1 E2].
      rewrite Nat2Z.inj_succ, Z.pow_succ_r, (Z.mul_comm 2) by lia.
      rewrite E1, IH1, Z.div_div by lia. split; [done|].
      intros Hx Hd. apply E2.
      rewrite Z.rem_mul_r in Hd by lia.
      pose proof (Z.mod_pos_bound (shr_m r) (2 ^ Z.of_nat k)).
      pose proof (Z.mod_pos_bound (shr_m r / 2 ^ Z.of_nat k) 2).
      rewrite IH1. split; [apply IH2; [done|nia]|nia]. }
  intros Hr. assert (iter_pos shr_1 p r = Nat.iter (Pos.to_nat p) shr_1 r) as ->.
  { transitivity (Pos.iter shr_1 r p); [|exact (Pos2Nat.inj_iter p shr_1 r)].
    clear. revert r. induction p as [p IH|p IH|]; intros r; cbn [iter_pos Pos.iter]; [..|done].
    - rewrite !IH, <- !Pos.iter_swap. done.
    - by rewrite !IH. }
  rewrite <- (positive_nat_Z p). by apply Hk.
Qed.

(** [x * 2^f] is a binary64 number that does not lose bits: its exponent is canonical or larger. *)
Definition representable (x f : Z) : Prop := 0 < x ∧ -2200 ≤ f ∧ fexp prec emax (Zdigits2 x + f) ≤ f.

Lemma fexp_mono a b : a ≤ b → fexp prec emax a ≤ fexp prec emax b.
Proof. unfold fexp, prec, emax. lia. Qed.

(** One shift and rounding of [m * 2^e]: it stays below every representable number above. *)
Lemma shift_round_le m e l x f r e' : 0 < m → -2200 ≤ e → representable x f →
  scaled m e ≤ scaled x f → shr_fexp prec emax m e loc_Exact = (r, e') →
  l = loc_of_shr_record r ∨ l = loc_Exact →
  e ≤ e' ∧ 0 ≤ round_nearest_even (shr_m r) l ∧
  scaled (round_nearest_even (shr_m r) l) e' ≤ scaled x f.
Proof.
  intros Hm He (Hx & Hf & Hfx) Hle. unfold shr_fexp, shr, shr_record_of_loc.
  set (n := fexp prec emax (Zdigits2 m + e) - e). intros Hs Hl.
  assert (n ≤ 0 ∨ 0 < n) as [Hn|Hn] by lia.
  { assert (({| shr_m := m; shr_r := false; shr_s := false |}, e) = (r, e')) as [= <- <-].
    { rewrite <- Hs. by destruct n; try lia. }
    split; [lia|]. destruct Hl as [->| ->]; cbn; (split; [lia|done]). }
  destruct n as [|p|p] eqn:En; [lia| |lia]. clear Hn. injection Hs as Hr <-.
  destruct (iter_shr p {| shr_m := m; shr_r := false; shr_s := false |}) as [E1 E2]; [cbn; lia|].
  cbn [shr_m] in E1, E2. rewrite Hr in E1, E2. clear Hr.
  assert (0 < 2 ^ Z.pos p) as Hp by lia. split; [lia|].
  assert (0 ≤ m / 2 ^ Z.pos p) as Hpos by (apply Z.div_pos; lia).
  assert (e + Z.pos p ≤ f) as Hef.
  { pose proof (fexp_mono _ _ (scaled_digits m e x f Hm Hx He Hf Hle)). lia. }
  set (y := x * 2 ^ (f - (e + Z.pos p))).
  assert (scaled x f = scaled y (e + Z.pos p)) as Ey.
  { unfold y. rewrite scaled_shift by lia. f_equal. lia. }
  assert (m ≤ y * 2 ^ Z.pos p) as Hmy.
  { apply (scaled_le _ _ e He). rewrite scaled_shift by lia. lia. }
  rewrite Ey, scaled_le by lia.
  pose proof (Z.div_mod m (2 ^ Z.pos p)). pose proof (Z.mod_pos_bound m (2 ^ Z.pos p) Hp).
  assert (shr_m r ≤ y) as Hlo by (rewrite E1; apply Z.div_le_upper_bound; lia).
  assert (exact r = false → shr_m r + 1 ≤ y) as Hup.
  { intros Hr. assert (m mod 2 ^ Z.pos p ≠ 0) by (intros Hz; rewrite E2 in Hr; done).
    rewrite E1 in *. nia. }
  rewrite <- E1 in Hpos. clear -Hl Hlo Hup Hpos.
  destruct Hl as [->| ->]; [|by cbn; split; lia].
  destruct r as [z [] []]; cbn in *; try (specialize (Hup eq_refl)); try case_match; lia.
Qed.

(** Rounding [m * 2^e] gives a number that is at most any representable number above it. *)
Lemma round_le m e x f : 0 < m → -2200 ≤ e → representable x f → scaled m e ≤ scaled x f →
  scaled x f < scaled 1 (emax - prec) →
  (∃ s, binary_round_aux prec emax false m e loc_Exact = S754_zero s) ∨
  (∃ m' e', binary_round_aux prec emax false m e loc_Exact = S754_finite false m' e' ∧
     e ≤ e' ∧ scaled (Z.pos m') e' ≤ scaled x f).
Proof.
  intros Hm He Hx Hle Hmax. unfold binary_round_aux.
  destruct (shr_fexp _ _ m e _) as [r e1] eqn:E1.
  destruct (shift_round_le m e _ x f r e1 Hm He Hx Hle E1 (or_introl eq_refl)) as (He1 & Hr & Hle1).
  set (m1 := round_nearest_even _ _) in *.
  destruct (shr_fexp _ _ m1 e1 _) as [r2 e2] eqn:E2.
  assert (m1 = 0 ∨ 0 < m1) as [H0|Hm1] by lia.
  { left. assert (shr_m r2 = 0) as ->; [|eauto]. rewrite H0 in E2. clear -E2.
    unfold shr_fexp, shr, shr_record_of_loc in E2. destruct (_ - e1) as [|p|p]; simplify_eq; try done.
    by destruct (iter_shr p {| shr_m := 0; shr_r := false; shr_s := false |}) as [-> _]. }
  destruct (shift_round_le m1 e1 loc_Exact x f r2 e2 Hm1 ltac:(lia) Hx Hle1 E2 (or_intror eq_refl))
    as (He2 & Hr2 & Hle2). cbn [round_nearest_even] in Hr2, Hle2.
  destruct (shr_m r2) as [|m2|]; [by eauto| |lia]. right. exists m2, e2.
  assert (e2 ≤ emax - prec) as Hb.
  { destruct (Z.le_gt_cases e2 (emax - prec)) as [|Hgt]; [done|]. exfalso.
    unfold scaled in *. assert (2 ^ (emax - prec + 2200) ≤ 2 ^ (e2 + 2200)).
    { apply Z.pow_le_mono_r; lia. }
    nia. }
  apply Z.leb_le in Hb. rewrite Hb. split; [done|]. split; [lia|done].
Qed.

(** ** Values bounded by an integer *)

(** [a] is a number between zero and [k] whose exponent is at least [lo]. *)
Definition within (lo : Z) (a : f64) (k : N) : Prop :=
  match a with
  | S754_zero _ => True
  | S754_finite false m e => lo ≤ e ∧ scaled (Z.pos m) e ≤ scaled (Z.of_N k) 0
  | _ => False
  end.

Lemma integer_representable k : (0 < k < 2 ^ 53)%N →
  representable (Z.of_N k) 0 ∧ scaled (Z.of_N k) 0 < scaled 1 (emax - prec).
Proof.
  intros Hk. assert (0 < Z.of_N k < 2 ^ 53) as Hz by lia. split.
  - repeat split; [lia..|].
    assert (Zdigits2 (Z.of_N k) ≤ 53); [|unfold fexp, emin, prec, emax; lia].
    destruct (digits_spec (Z.of_N k)) as [H1 _]; [lia|].
    assert (2 ^ (Zdigits2 (Z.of_N k) - 1) < 2 ^ 53) as H2 by lia.
    apply Z.pow_lt_mono_r_iff in H2; [lia..|]. pose proof (digits_pos_pos (Z.of_N k)). lia.
  - assert (scaled 1 (emax - prec) = scaled (2 ^ 971) 0) as ->.
    { rewrite <- (Z.mul_1_l (2 ^ 971)). by rewrite scaled_shift by lia. }
    unfold scaled. apply Z.mul_lt_mono_pos_r; [apply Z.pow_pos_nonneg; lia|].
    transitivity (2 ^ 53); [lia|]. by apply Z.pow_lt_mono_r.
Qed.

Lemma shl_align_spec m e e' m' f : shl_align m e e' = (m', f) →
  -2200 ≤ e → -2200 ≤ e' → scaled (Z.pos m') f = scaled (Z.pos m) e ∧ f = Z.min e e'.
Proof.
  unfold shl_align. intros Hs He He'. destruct (e' - e) as [|d|d] eqn:Ed; simplify_eq.
  - split; [done|lia].
  - split; [done|lia].
  - split; [|lia]. assert (Z.pos (Pos.iter xO m d) = Z.pos m * 2 ^ Z.pos d) as ->.
    { clear. induction d as [|d IH] using Pos.peano_ind; [cbn; lia|].
      rewrite Pos.iter_succ, Pos2Z.inj_xO, IH, Pos2Z.inj_succ, Z.pow_succ_r by lia. lia. }
    rewrite scaled_shift by lia. f_equal. lia.
Qed.

Lemma round_aux_within lo m e k : 0 < m → -2200 ≤ lo ≤ e → (0 < k < 2 ^ 53)%N →
  scaled m e ≤ scaled (Z.of_N k) 0 →
  within lo (binary_round_aux prec emax false m e loc_Exact) k.
Proof.
  intros Hm He Hk Hle. destruct (integer_representable k Hk) as [Hr Hs].
  destruct (round_le m e _ 0 Hm ltac:(lia) Hr Hle Hs) as [[s ->]|(m' & e' & -> & Hee & Hle')]; cbn;
    [done|lia].
Qed.

Lemma normalize_within z s k : 0 ≤ z → (0 < k < 2 ^ 53)%N → z ≤ Z.of_N k →
  within (-60) (binary_normalize prec emax z 0 s) k.
Proof.
  intros Hz Hk Hle. destruct z as [|m|m]; [done| |lia].
  cbn [binary_normalize]. unfold binary_round.
  destruct (shl_align _ _ _) as [m' e'] eqn:Hs.
  assert (-60 ≤ fexp prec emax (Z.pos (digits2_pos m) + 0)) as Hf.
  { unfold fexp, prec, emax. lia. }
  destruct (shl_align_spec _ _ _ _ _ Hs ltac:(lia) ltac:(lia)) as [E1 E2].
  apply round_aux_within; [lia..|]. rewrite E1. by apply scaled_le.
Qed.

Lemma of_N_within n k : (0 < k < 2 ^ 53)%N → (n <= k)%N → within (-60) (f64_of_N n) k.
Proof. intros. apply normalize_within; lia. Qed.

(** Scaling down by a factor of at most one. *)
Lemma mul_within q k a : (0 < k < 2 ^ 53)%N → within (-60) q 1 → within (-60) a k →
  within (-120) (f64_mul q a) k.
Proof.
  intros Hk Hq Ha. destruct q as [| | |[] mq eq]; try done; destruct a as [| | |[] ma ea]; try done.
  cbn in Hq, Ha. destruct Hq as [He1 Hq], Ha as [He2 Ha].
  unfold f64_mul. cbn [SFmul xorb]. apply round_aux_within; [lia..|].
  etrans; [|exact Ha]. rewrite Pos2Z.inj_mul. unfold scaled in *.
  replace (eq + ea + 2200) with (eq + 60 + (ea + 2140)) by lia.
  replace (ea + 2200) with (60 + (ea + 2140)) by lia.
  rewrite !(Z.pow_add_r 2 _ (ea + 2140)) by lia.
  replace (eq + 2200) with (eq + 60 + 2140) in Hq by lia.
  replace (0 + 2200) with (60 + 2140) in Hq by lia.
  rewrite !(Z.pow_add_r 2 _ 2140) in Hq by lia.
  assert (0 < 2 ^ 2140) as HC by (apply Z.pow_pos_nonneg; lia).
  assert (0 < 2 ^ (ea + 2140)) as HD by (apply Z.pow_pos_nonneg; lia).
  set (C := 2 ^ 2140) in *. set (D := 2 ^ (ea + 2140)) in *. clearbody C D.
  assert (Z.pos mq * 2 ^ (eq + 60) ≤ 2 ^ 60) as HE.
  { rewrite Z.mul_assoc, (Z.mul_assoc _ (2 ^ 60)), Z.mul_1_l in Hq.
    by apply Z.mul_le_mono_pos_r in Hq. }
  clear Ha Hq. nia.
Qed.

Lemma scaled_int m e k : -2200 ≤ e → scaled m e ≤ scaled k 0 →
  if 0 <=? e then m * 2 ^ e ≤ k else m ≤ k * 2 ^ (- e).
Proof.
  intros He Hle. destruct (Z.leb_spec 0 e).
  - replace (scaled m e) with (scaled (m * 2 ^ e) 0) in Hle
      by (rewrite scaled_shift by lia; f_equal; lia).
    by apply scaled_le in Hle.
  - apply (scaled_le _ _ e He). rewrite scaled_shift by lia. by rewrite Z.add_opp_diag_r.
Qed.

Lemma floor_of_le m e k : -2200 ≤ e → scaled m e ≤ scaled k 0 → floor_of m e ≤ k.
Proof.
  intros He Hle. pose proof (scaled_int m e k He Hle) as Hi. unfold floor_of.
  destruct (Z.leb_spec 0 e); [done|].
  assert (0 < 2 ^ (- e)) by (apply Z.pow_pos_nonneg; lia). apply Z.div_le_upper_bound; lia.
Qed.

Lemma ceil_of_le m e k : -2200 ≤ e → scaled m e ≤ scaled k 0 → ceil_of m e ≤ k.
Proof.
  intros He Hle. pose proof (scaled_int m e k He Hle) as Hi. unfold ceil_of, floor_of.
  destruct (Z.leb_spec 0 e); [lia|].
  assert (0 < 2 ^ (- e)) by (apply Z.pow_pos_nonneg; lia).
  assert (- k ≤ (- m) / 2 ^ (- e)) by (apply Z.div_le_lower_bound; lia). lia.
Qed.

Lemma floor_of_pos m e : 0 ≤ m → 0 ≤ floor_of m e.
Proof.
  intros. unfold floor_of. case_match; [|apply Z.div_pos; [done|]; apply Z.pow_pos_nonneg; lia].
  apply Z.mul_nonneg_nonneg; [done|]. apply Z.pow_nonneg. lia.
Qed.

Lemma ceil_of_pos m e : 0 ≤ m → 0 ≤ ceil_of m e.
Proof.
  intros. unfold ceil_of, floor_of. case_match.
  - assert (0 ≤ 2 ^ e) by (apply Z.pow_nonneg; lia). nia.
  - assert (0 < 2 ^ (- e)) by (apply Z.pow_pos_nonneg; lia).
    assert ((- m) / 2 ^ (- e) ≤ 0); [|lia]. apply Z.div_le_upper_bound; lia.
Qed.

Lemma as_usize_within lo a k : -2200 ≤ lo → within lo a k → (f64_as_usize a <= k)%N.
Proof.
  intros Hlo Ha. destruct a as [| | |[] m e]; cbn in *; try done; try lia.
  pose proof (floor_of_le (Z.pos m) e (Z.of_N k)). lia.
Qed.

(** An index computed by rounding a number of [[0, k]] stays in [[0, k]]. *)
Lemma index_within lo a k : -2200 ≤ lo → (0 < k < 2 ^ 53)%N → within lo a k →
  (f64_as_usize (f64_floor a) <= k)%N ∧ (f64_as_usize (f64_ceil a) <= k)%N.
Proof.
  intros Hlo Hk Ha. destruct a as [| | |[] m e]; try done; [split; cbn; lia|].
  cbn in Ha. destruct Ha as [He Ha].
  split; apply (as_usize_within (-60)); try lia; apply normalize_within; try done.
  - by apply floor_of_pos.
  - by apply floor_of_le; [lia|].
  - by apply ceil_of_pos.
  - by apply ceil_of_le; [lia|].
Qed.

(** ** Signs *)

(** Not below zero, by Rust's comparison: NaN and both zeros are not. *)
Definition not_negative (a : f64) : Prop := f64_lt a (f64_of_N 0) = false.

Lemma not_negative_cases a :
  not_negative a ↔ match a with S754_finite s _ _ | S754_infinity s => s = false | _ => True end.
Proof. unfold not_negative. destruct a as [s|s| |s m e]; try destruct s; cbn; split; done. Qed.

Lemma round_aux_not_negative m e l : not_negative (binary_round_aux prec emax false m e l).
Proof.
  apply not_negative_cases. unfold binary_round_aux.
  destruct (shr_fexp _ _ m e l) as [r e1]. destruct (shr_fexp _ _ _ e1 _) as [r2 e2].
  destruct (shr_m r2); try done. by destruct (_ <=? _).
Qed.

Lemma normalize_not_negative z e : 0 ≤ z → not_negative (binary_normalize prec emax z e false).
Proof.
  intros Hz. destruct z as [|p|p]; [by apply not_negative_cases| |lia].
  cbn [binary_normalize]. unfold binary_round. destruct (shl_align _ _ _).
  apply round_aux_not_negative.
Qed.

Lemma add_not_negative a b : not_negative a → not_negative b → not_negative (f64_add a b).
Proof.
  rewrite (not_negative_cases a), (not_negative_cases b).
  intros Ha Hb. destruct a as [s|s| |s m e], b as [s'|s'| |s' m' e']; subst; try destruct s; try destruct s';
    try (by apply not_negative_cases); try done.
  unfold f64_add. cbn [SFadd cond_Zopp]. apply normalize_not_negative. lia.
Qed.

(** The sign of a number is plus; [f64_of_N] gives no other. *)
Definition plus (a : f64) : Prop :=
  match a with S754_finite s _ _ | S754_infinity s | S754_zero s => s = false | S754_nan => True end.

Lemma normalize_plus z e : 0 ≤ z → plus (binary_normalize prec emax z e false).
Proof.
  intros Hz. destruct z as [|p|p]; [done| |lia].
  cbn [binary_normalize]. unfold binary_round. destruct (shl_align _ _ _).
  unfold binary_round_aux. destruct (shr_fexp _ _ _ _ _) as [r e1]. destruct (shr_fexp _ _ _ e1 _) as [r2 e2].
  destruct (shr_m r2); try done. by destruct (_ <=? _).
Qed.

Lemma div_not_negative a b : not_negative a → plus b → not_negative (f64_div a b).
Proof.
  rewrite (not_negative_cases a). intros Ha Hb. unfold f64_div.
  destruct a as [s|s| |s m e], b as [s'|s'| |s' m' e']; cbn [plus] in Hb; subst;
    try (by apply not_negative_cases).
  cbn [SFdiv xorb]. destruct (SFdiv_core_binary _ _ _ _ _ _) as [[mz ez] lz].
  apply round_aux_not_negative.
Qed.

Lemma sum_not_negative l acc : not_negative acc → Forall not_negative l →
  not_negative (foldl f64_add acc l).
Proof.
  intros Hacc Hl. revert acc Hacc. induction Hl as [|x l Hx Hl IH]; intros acc Hacc; [done|].
  by apply IH, add_not_negative.
Qed.

(** At most zero, and a number. *)
Definition at_most_zero (a : f64) : Prop :=
  match a with S754_zero _ => True | S754_finite s _ _ | S754_infinity s => s = true | S754_nan => False end.

Lemma shr_fexp_value m e l r e' : 0 ≤ m → shr_fexp prec emax m e l = (r, e') →
  shr_m r = m / 2 ^ Z.max 0 (fexp prec emax (Zdigits2 m + e) - e)
  ∧ e' = Z.max e (fexp prec emax (Zdigits2 m + e)).
Proof.
  intros Hm. unfold shr_fexp, shr. set (n := fexp _ _ _ - e). set (r0 := shr_record_of_loc m l).
  assert (shr_m r0 = m) as Er by (by destruct l as [|[]]).
  destruct n as [|p|p] eqn:En; intros [= <- <-].
  - rewrite Er, Z.div_1_r. lia.
  - destruct (iter_shr p r0) as [-> _]; [lia|]. rewrite Er. split; [done|lia].
  - rewrite Er, Z.div_1_r. lia.
Qed.

Lemma shifted_positive m k : 0 < m → 0 ≤ k → k < Zdigits2 m → 0 < m / 2 ^ k.
Proof.
  intros Hm Hk Hd. apply Z.div_str_pos. split; [apply Z.pow_pos_nonneg; lia|].
  destruct (digits_spec m Hm) as [H1 _]. etrans; [|exact H1]. apply Z.pow_le_mono_r; lia.
Qed.

(** Rounding a positive value above the least exponent gives a positive number. *)
Lemma round_aux_positive s m e l : 0 < m → emin prec emax ≤ e →
  match binary_round_aux prec emax s m e l with
  | S754_finite s' _ _ | S754_infinity s' => s' = s
  | _ => False
  end.
Proof.
  intros Hm He. unfold binary_round_aux. destruct (shr_fexp _ _ m e l) as [r e1] eqn:E1.
  apply shr_fexp_value in E1 as [Er E1]; [|lia]. pose proof (digits_pos_pos m Hm).
  assert (0 < shr_m r) as Hr.
  { rewrite Er. apply shifted_positive; [done|lia|]. unfold fexp, emin, prec, emax in *. lia. }
  set (m1 := round_nearest_even _ _).
  assert (0 < m1) as Hm1.
  { unfold m1, round_nearest_even. repeat case_match; lia. }
  destruct (shr_fexp _ _ m1 e1 _) as [r2 e2] eqn:E2.
  apply shr_fexp_value in E2 as [Er2 E2]; [|lia]. pose proof (digits_pos_pos m1 Hm1).
  assert (0 < shr_m r2) as Hr2.
  { rewrite Er2. apply shifted_positive; [done|lia|]. unfold fexp, emin, prec, emax in *. lia. }
  destruct (shr_m r2); [lia| |lia]. by destruct (_ <=? _).
Qed.

Lemma round_positive s m e : emin prec emax ≤ e →
  match binary_round prec emax s m e with
  | S754_finite s' _ _ | S754_infinity s' => s' = s
  | _ => False
  end.
Proof.
  intros He. unfold binary_round. destruct (shl_align _ _ _) as [m' e'] eqn:Es.
  apply round_aux_positive; [done|].
  assert (e' = Z.min e (fexp prec emax (Z.pos (digits2_pos m) + e)) ∨ e' = e) as He'.
  { unfold shl_align in Es. destruct (_ - e) eqn:?; simplify_eq; try (by right). left. lia. }
  unfold fexp in He'. lia.
Qed.

Lemma of_Z_at_most_zero z : z ≤ 0 → at_most_zero (f64_of_Z z).
Proof.
  intros Hz. destruct z as [|p|p]; [done|lia|]. unfold f64_of_Z. cbn [binary_normalize].
  pose proof (round_positive true p 0). destruct (binary_round _ _ _ _ _); cbn in *;
    unfold emin, emax, prec in *; intuition lia.
Qed.

(** A positive [i64] as a number. *)
Lemma of_Z_finite p : Z.pos p ≤ 2 ^ 63 → ∃ m e, f64_of_Z (Z.pos p) = S754_finite false m e.
Proof.
  intros Hp. unfold f64_of_Z. cbn [binary_normalize].
  pose proof (round_positive false p 0) as Hpos. unfold binary_round in *.
  destruct (shl_align _ _ _) as [m e] eqn:Es.
  assert (-60 ≤ fexp prec emax (Z.pos (digits2_pos p) + 0)) as Hf by (unfold fexp, prec, emax; lia).
  destruct (shl_align_spec _ _ _ _ _ Es ltac:(lia) ltac:(lia)) as [E1 E2].
  assert (representable 1 63) as Hr by (repeat split; [lia..|]; vm_compute; congruence).
  destruct (round_le (Z.pos m) e 1 63 ltac:(lia) ltac:(lia) Hr) as [[s Hs]|(m' & e' & Hs & _)].
  - rewrite E1. etrans; [apply (scaled_le _ (2 ^ 63)); lia|].
    rewrite <- (Z.mul_1_l (2 ^ 63)), scaled_shift by lia. done.
  - unfold scaled. apply Z.mul_lt_mono_pos_l; [lia|]. apply Z.pow_lt_mono_r; unfold emax, prec; lia.
  - rewrite Hs in Hpos. exfalso. apply Hpos. by vm_compute.
  - rewrite Hs. eauto.
Qed.

Lemma round_aux_number s m e l : 0 ≤ m →
  match binary_round_aux prec emax s m e l with
  | S754_finite s' _ _ | S754_infinity s' | S754_zero s' => s' = s
  | S754_nan => False
  end.
Proof.
  intros Hm. unfold binary_round_aux. destruct (shr_fexp _ _ m e l) as [r e1] eqn:E1.
  apply shr_fexp_value in E1 as [Er _]; [|lia].
  assert (0 ≤ shr_m r) as Hr by (rewrite Er; apply Z.div_pos; [lia|]; apply Z.pow_pos_nonneg; lia).
  set (m1 := round_nearest_even _ _).
  assert (0 ≤ m1) as Hm1 by (unfold m1, round_nearest_even; repeat case_match; lia).
  destruct (shr_fexp _ _ m1 e1 _) as [r2 e2] eqn:E2. apply shr_fexp_value in E2 as [Er2 _]; [|lia].
  assert (0 ≤ shr_m r2) by (rewrite Er2; apply Z.div_pos; [lia|]; apply Z.pow_pos_nonneg; lia).
  destruct (shr_m r2); [done| |lia]. by destruct (_ <=? _).
Qed.

Lemma number_at_most_zero m e l : 0 ≤ m → at_most_zero (binary_round_aux prec emax true m e l).
Proof.
  intros Hm. pose proof (round_aux_number true m e l Hm). by destruct (binary_round_aux _ _ _ _ _ _).
Qed.

Lemma div_at_most_zero a m e : at_most_zero a → at_most_zero (f64_div a (S754_finite false m e)).
Proof.
  intros Ha. unfold f64_div. destruct a as [s|s| |s ma ea]; cbn [at_most_zero] in Ha; subst; try done.
  cbn [SFdiv xorb]. unfold SFdiv_core_binary. set (e' := Z.min _ _).
  set (m' := match _ - e' with Z0 => _ | Zpos _ => _ | Zneg _ => _ end).
  assert (0 ≤ m') as Hm' by (unfold m'; case_match; [lia| |lia]; by apply Z.shiftl_nonneg).
  pose proof (Z.div_pos m' (Z.pos m) Hm' ltac:(lia)) as Hq. unfold Z.div in Hq.
  destruct (Z.div_eucl m' (Z.pos m)) as [q r]. by apply number_at_most_zero.
Qed.

Lemma mul_at_most_zero a m e : at_most_zero a → at_most_zero (f64_mul a (S754_finite false m e)).
Proof.
  intros Ha. unfold f64_mul. destruct a as [s|s| |s ma ea]; cbn [at_most_zero] in Ha; subst; try done.
  cbn [SFmul xorb]. by apply number_at_most_zero.
Qed.

Lemma at_most_zero_le a m e : at_most_zero a → f64_le a (S754_finite false m e) = true.
Proof. intros Ha. unfold f64_le. destruct a as [s|s| |s ma ea]; cbn in Ha; subst; by try destruct s. Qed.

(** ** Bits *)

Definition word (s : bool) (exp frac : N) : N :=
  ((if s then 2 ^ 63 else 0) + exp * 2 ^ 52 + frac)%N.

Lemma word_parts s exp frac : (exp < 2048)%N → (frac < 2 ^ 52)%N →
  (2 ^ 63 <=? word s exp frac)%N = s
  ∧ (word s exp frac / 2 ^ 52 mod 2048 = exp)%N ∧ (word s exp frac mod 2 ^ 52 = frac)%N
  ∧ (word s exp frac < 2 ^ 64)%N.
Proof.
  unfold word. change (2 ^ 63)%N with 9223372036854775808%N. change (2 ^ 52)%N with 4503599627370496%N.
  change (2 ^ 64)%N with 18446744073709551616%N. intros He Hf.
  assert (∀ t, (((2048 * t + exp) * 4503599627370496 + frac) / 4503599627370496 = 2048 * t + exp)%N) as Hd.
  { intros t. rewrite N.div_add_l by done. rewrite N.div_small; lia. }
  destruct s; (split; [|split; [|split]]).
  - apply N.leb_le. lia.
  - replace (9223372036854775808 + exp * 4503599627370496 + frac)%N
      with ((2048 * 1 + exp) * 4503599627370496 + frac)%N by lia.
    rewrite Hd, N.add_comm, N.mul_comm, N.Div0.mod_add, N.mod_small; lia.
  - replace (9223372036854775808 + exp * 4503599627370496 + frac)%N
      with (frac + (2048 + exp) * 4503599627370496)%N by lia.
    rewrite N.Div0.mod_add, N.mod_small; lia.
  - lia.
  - apply N.leb_gt. lia.
  - replace (0 + exp * 4503599627370496 + frac)%N
      with ((2048 * 0 + exp) * 4503599627370496 + frac)%N by lia.
    rewrite Hd. rewrite N.mul_0_r, N.add_0_l, N.mod_small; lia.
  - rewrite N.add_0_l, N.add_comm, N.Div0.mod_add, N.mod_small; lia.
  - lia.
Qed.

Lemma word_of_bits b : (b < 2 ^ 64)%N →
  b = word (2 ^ 63 <=? b)%N (b / 2 ^ 52 mod 2048) (b mod 2 ^ 52)
  ∧ (b / 2 ^ 52 mod 2048 < 2048)%N ∧ (b mod 2 ^ 52 < 2 ^ 52)%N.
Proof.
  intros Hb. split; [|by split; apply N.mod_lt]. unfold word.
  change (2 ^ 63)%N with 9223372036854775808%N. change (2 ^ 52)%N with 4503599627370496%N.
  change (2 ^ 64)%N with 18446744073709551616%N in Hb.
  pose proof (N.Div0.div_mod b 4503599627370496) as H1.
  pose proof (N.Div0.div_mod (b / 4503599627370496) 2048) as H2.
  pose proof (N.mod_lt b 4503599627370496 ltac:(done)) as H3.
  pose proof (N.mod_lt (b / 4503599627370496) 2048 ltac:(done)) as H4.
  set (q := (b / 4503599627370496)%N) in *. set (f := (b mod 4503599627370496)%N) in *.
  set (e := (q mod 2048)%N) in *. set (t := (q / 2048)%N) in *.
  clearbody q f e t. destruct (N.leb_spec 9223372036854775808 b).
  - assert (t = 1%N) by nia. lia.
  - assert (t = 0%N) by nia. lia.
Qed.

Lemma valid_cases s m e : valid_binary prec emax (S754_finite s m e) = true →
  (Z.pos m < 2 ^ 52 ∧ e = -1074) ∨ (2 ^ 52 ≤ Z.pos m < 2 ^ 53 ∧ -1074 ≤ e ≤ 971).
Proof.
  cbn [valid_binary]. unfold bounded, canonical_mantissa. intros [Hc He]%andb_prop.
  apply Z.eqb_eq in Hc. apply Z.leb_le in He. change (Z.pos (digits2_pos m)) with (Zdigits2 (Z.pos m)) in Hc.
  destruct (digits_spec (Z.pos m)) as [H1 H2]; [lia|]. pose proof (digits_pos_pos (Z.pos m)).
  set (d := Zdigits2 (Z.pos m)) in *. clearbody d. unfold fexp, emin, emax, prec in *.
  assert (d ≤ 53) as Hd by lia.
  assert (d ≤ 52 ∨ d = 53) as [Hd'| ->] by lia.
  - left. split; [|lia]. eapply Z.lt_le_trans; [exact H2|]. apply Z.pow_le_mono_r; lia.
  - right. split; [|lia]. change (53 - 1) with 52 in H1. lia.
Qed.

Lemma valid_intro s m e :
  (Z.pos m < 2 ^ 52 ∧ e = -1074) ∨ (2 ^ 52 ≤ Z.pos m < 2 ^ 53 ∧ -1074 ≤ e ≤ 971) →
  valid_binary prec emax (S754_finite s m e) = true.
Proof.
  intros Hm. cbn [valid_binary]. unfold bounded, canonical_mantissa.
  change (Z.pos (digits2_pos m)) with (Zdigits2 (Z.pos m)).
  destruct (digits_spec (Z.pos m)) as [H1 H2]; [lia|]. pose proof (digits_pos_pos (Z.pos m)).
  set (d := Zdigits2 (Z.pos m)) in *. clearbody d.
  assert (d ≤ 53 ∧ (2 ^ 52 ≤ Z.pos m → d = 53)) as [Hd Hd'].
  { assert (2 ^ (d - 1) < 2 ^ 53) as Hlt by lia. apply Z.pow_lt_mono_r_iff in Hlt; [|lia..].
    split; [lia|]. intros Hge. assert (2 ^ 52 < 2 ^ d) as Hgt by lia.
    apply Z.pow_lt_mono_r_iff in Hgt; lia. }
  apply andb_true_intro. split; [apply Z.eqb_eq|apply Z.leb_le]; unfold fexp, emin, emax, prec;
    destruct Hm as [[? ->]|[Hr ?]]; try (specialize (Hd' ltac:(lia))); lia.
Qed.

Lemma to_from_bits b : (b < 2 ^ 64)%N → f64_from_bits b ≠ S754_nan → f64_to_bits (f64_from_bits b) = b.
Proof.
  intros Hb. destruct (word_of_bits b Hb) as (Hw & He & Hf). revert Hw He Hf.
  unfold f64_from_bits. set (s := (2 ^ 63 <=? b)%N). set (e := (b / 2 ^ 52 mod 2048)%N).
  set (f := (b mod 2 ^ 52)%N). clearbody s e f. intros -> He Hf Hnan. clear Hb.
  destruct (N.eqb_spec e 2047) as [->|].
  { destruct (N.eqb_spec f 0) as [->|]; [|done]. unfold f64_to_bits, word. by destruct s. }
  destruct (N.eqb_spec e 0) as [->|].
  { destruct f as [|m]; [unfold f64_to_bits, word; by destruct s|].
    unfold f64_to_bits. rewrite (proj2 (N.ltb_lt (N.pos m) (2 ^ 52))) by done. done. }
  destruct (f + 2 ^ 52)%N as [|m] eqn:Em; [lia|]. unfold f64_to_bits.
  rewrite (proj2 (N.ltb_ge (N.pos m) (2 ^ 52))) by lia. rewrite <- Em. unfold word.
  replace (f + 2 ^ 52 - 2 ^ 52)%N with f by lia.
  replace (Z.to_N (Z.of_N e - 1075 + 1075)) with e by lia. done.
Qed.

Lemma from_bits_valid b : (b < 2 ^ 64)%N → valid_binary prec emax (f64_from_bits b) = true.
Proof.
  intros Hb. destruct (word_of_bits b Hb) as (_ & He & Hf). revert He Hf. unfold f64_from_bits.
  set (e := (b / 2 ^ 52 mod 2048)%N). set (f := (b mod 2 ^ 52)%N). clearbody e f. intros He Hf.
  destruct (N.eqb_spec e 2047) as [->|]; [by destruct (f =? 0)%N|].
  destruct (N.eqb_spec e 0) as [->|].
  - destruct f as [|m]; [done|]. apply valid_intro. left. lia.
  - destruct (f + 2 ^ 52)%N as [|m] eqn:Em; [lia|]. apply valid_intro. right. lia.
Qed.

Lemma from_to_bits x : valid_binary prec emax x = true → x ≠ S754_nan →
  f64_from_bits (f64_to_bits x) = x ∧ (f64_to_bits x < 2 ^ 64)%N.
Proof.
  intros Hv Hn. assert (∀ s e f, (e < 2048)%N → (f < 2 ^ 52)%N →
    f64_from_bits (word s e f) = (if (e =? 2047)%N then (if (f =? 0)%N then S754_infinity s else S754_nan)
      else if (e =? 0)%N then match f with N0 => S754_zero s | Npos m => S754_finite s m (-1074) end
      else match (f + 2 ^ 52)%N with Npos m => S754_finite s m (Z.of_N e - 1075) | N0 => S754_zero s end)
    ∧ (word s e f < 2 ^ 64)%N) as Hw.
  { intros s e f He Hf. destruct (word_parts s e f He Hf) as (E1 & E2 & E3 & E4).
    split; [|done]. unfold f64_from_bits. by rewrite E1, E2, E3. }
  destruct x as [s|s| |s m e]; [..|]; [| |done|].
  - apply (Hw s 0 0)%N; done.
  - apply (Hw s 2047 0)%N; done.
  - apply valid_cases in Hv. unfold f64_to_bits. destruct (N.ltb_spec (N.pos m) (2 ^ 52)).
    + destruct (Hw s 0%N (N.pos m)) as [E ?]; [done|lia|]. split; [|done].
      destruct Hv as [[_ ->]|]; [exact E|lia].
    + destruct Hv as [[? _]|[Hm He]]; [lia|].
      destruct (Hw s (Z.to_N (e + 1075)) (N.pos m - 2 ^ 52)%N) as [E ?]; [lia..|]. split; [|done].
      etrans; [exact E|].
      destruct (N.eqb_spec (Z.to_N (e + 1075)) 2047); [lia|].
      destruct (N.eqb_spec (Z.to_N (e + 1075)) 0); [lia|].
      replace (N.pos m - 2 ^ 52 + 2 ^ 52)%N with (N.pos m) by lia. f_equal. lia.
Qed.

(** ** Comparison *)

(** Two finite numbers compare as the integers they are multiples of. *)
Definition f64_key (a : f64) : Z :=
  match a with S754_finite s m e => scaled (signed s m) e | _ => 0 end.

Lemma magnitude_lt s s' m e m' e' : valid_binary prec emax (S754_finite s m e) = true →
  valid_binary prec emax (S754_finite s' m' e') = true → e < e' →
  scaled (Z.pos m) e < scaled (Z.pos m') e'.
Proof.
  intros H%valid_cases H'%valid_cases He.
  assert (2 ^ 52 ≤ Z.pos m') as Hm' by lia. assert (Z.pos m < 2 ^ 52 * 2) as Hm by lia.
  replace e' with (e + 1 + (e' - e - 1)) by lia.
  rewrite <- !scaled_shift by lia. unfold scaled. apply Z.mul_lt_mono_pos_r; [lia|].
  assert (1 ≤ 2 ^ (e' - e - 1)) by (pose proof (Z.pow_pos_nonneg 2 (e' - e - 1)); lia).
  change (2 ^ 1) with 2. nia.
Qed.

Lemma magnitude_compare s s' m e m' e' : valid_binary prec emax (S754_finite s m e) = true →
  valid_binary prec emax (S754_finite s' m' e') = true →
  match e ?= e' with Lt => Lt | Gt => Gt | Eq => Pos.compare_cont Eq m m' end
  = (scaled (Z.pos m) e ?= scaled (Z.pos m') e').
Proof.
  intros H H'. destruct (Z.compare_spec e e') as [->|He|He].
  - change (Pos.compare_cont Eq m m') with (Z.pos m ?= Z.pos m'). unfold scaled.
    apply valid_cases in H'. pose proof (Z.pow_pos_nonneg 2 (e' + 2200)).
    destruct (Z.compare_spec (Z.pos m) (Z.pos m')) as [->|?|?]; symmetry.
    + apply Z.compare_refl.
    + apply Z.compare_lt_iff, Z.mul_lt_mono_pos_r; lia.
    + apply Z.compare_gt_iff, Z.mul_lt_mono_pos_r; lia.
  - symmetry. by eapply Z.compare_lt_iff, magnitude_lt.
  - symmetry. by eapply Z.compare_gt_iff, magnitude_lt.
Qed.

Lemma key_neg m e : f64_key (S754_finite true m e) = - f64_key (S754_finite false m e).
Proof. cbn [f64_key signed]. unfold scaled. by rewrite <- Z.mul_opp_l. Qed.

Lemma key_pos m e s : valid_binary prec emax (S754_finite s m e) = true →
  0 < f64_key (S754_finite false m e).
Proof.
  intros H%valid_cases. cbn [f64_key signed]. unfold scaled. apply Z.mul_pos_pos; [lia|].
  apply Z.pow_pos_nonneg; lia.
Qed.

Lemma compare_key a b : valid_binary prec emax a = true → valid_binary prec emax b = true →
  is_finite a = true → is_finite b = true → SFcompare a b = Some (f64_key a ?= f64_key b).
Proof.
  intros Ha Hb Fa Fb. destruct a as [s|s| |s m e], b as [s'|s'| |s' m' e']; try done; cbn [SFcompare].
  - pose proof (key_pos _ _ _ Hb). destruct s'; rewrite ?key_neg; f_equal; symmetry;
      [apply Z.compare_gt_iff|apply Z.compare_lt_iff]; change (f64_key (S754_zero s)) with 0; lia.
  - pose proof (key_pos _ _ _ Ha). destruct s; rewrite ?key_neg; f_equal; symmetry;
      [apply Z.compare_lt_iff|apply Z.compare_gt_iff]; change (f64_key (S754_zero s')) with 0; lia.
  - pose proof (key_pos _ _ _ Ha). pose proof (key_pos _ _ _ Hb).
    pose proof (magnitude_compare _ _ _ _ _ _ Ha Hb) as Hm.
    change (scaled (Z.pos m) e) with (f64_key (S754_finite false m e)) in Hm.
    change (scaled (Z.pos m') e') with (f64_key (S754_finite false m' e')) in Hm.
    destruct s, s'; rewrite ?key_neg.
    + rewrite Z.compare_opp, (Z.compare_antisym (f64_key (S754_finite false m e))), <- Hm.
      by destruct (e ?= e').
    + f_equal. symmetry. apply Z.compare_lt_iff. lia.
    + f_equal. symmetry. apply Z.compare_gt_iff. lia.
    + rewrite <- Hm. by destruct (e ?= e').
Qed.

Lemma lt_key a b : valid_binary prec emax a = true → valid_binary prec emax b = true →
  is_finite a = true → is_finite b = true → f64_lt a b = (f64_key a <? f64_key b).
Proof. intros. unfold f64_lt, SFltb. by rewrite compare_key. Qed.

Lemma le_key a b : valid_binary prec emax a = true → valid_binary prec emax b = true →
  is_finite a = true → is_finite b = true → f64_le a b = (f64_key a <=? f64_key b).
Proof. intros. unfold f64_le, SFleb. by rewrite compare_key. Qed.
