(* ===== verification/Stats.v ===== *)
(** The statistics of the evaluator ([evaluator/stats.rs] and the percentile of
    [evaluator/metrics.rs]): the generator, percentiles, the paired bootstrap and the tail
    non-inferiority test.

    Floating point is binary64, so the definitions compute the numbers the program computes.
    Indexing a vector can panic: an operation that indexes returns [None] when it would.
    Sorting uses the program's comparison, which treats NaN as equal to everything; with a NaN
    among the samples the order the standard library produces is not specified, and the
    insertion order here is one of them.  Fisher's exact test, which needs logarithms, is not
    modelled. *)

From S2P Require Import Prelude RustStd RustNum RustFloat.
#[local] Open Scope N_scope.

(** ** The generator (xoshiro256++ seeded by splitmix64) *)

Definition wmul64 (a b : N) : N := wrap64 (a * b).
Definition wadd64 (a b : N) : N := wrap64 (a + b).

(** [u64::rotate_left] and [<<]. *)
Definition rotl64 (k x : N) : N :=
  N.lor (wrap64 (N.shiftl x k)) (N.shiftr x (64 - k)).
Definition shl64 (x k : N) : N := wrap64 (N.shiftl x k).

Record FastPrng := { s0 : N; s1 : N; s2 : N; s3 : N }.

(** The closure of [FastPrng::new]: the next state and the number drawn. *)
Definition splitmix (sm : N) : N * N :=
  let sm := wadd64 sm 11400714819323198485 in
  let z := wmul64 (N.lxor sm (N.shiftr sm 30)) 13787848793156543929 in
  let z := wmul64 (N.lxor z (N.shiftr z 27)) 10723151780598845931 in
  (sm, N.lxor z (N.shiftr z 31)).

Definition or_default (d s : N) : N := if s =? 0 then d else s.

Definition new_prng (seed : N) : FastPrng :=
  let '(sm, a) := splitmix seed in
  let '(sm, b) := splitmix sm in
  let '(sm, c) := splitmix sm in
  let '(_, d) := splitmix sm in
  {| s0 := or_default 1 a; s1 := or_default 2 b; s2 := or_default 3 c; s3 := or_default 4 d |}.

Definition next_u64 (g : FastPrng) : N * FastPrng :=
  let res := wadd64 (rotl64 23 (wadd64 (s0 g) (s3 g))) (s0 g) in
  let t := shl64 (s1 g) 17 in
  let x2 := N.lxor (s2 g) (s0 g) in
  let x3 := N.lxor (s3 g) (s1 g) in
  let x1 := N.lxor (s1 g) x2 in
  let x0 := N.lxor (s0 g) x3 in
  (res, {| s0 := x0; s1 := x1; s2 := N.lxor x2 t; s3 := rotl64 45 x3 |}).

Definition gen_range (upper : N) (g : FastPrng) : N * FastPrng :=
  if upper <=? 1 then (0, g)
  else let '(x, g) := next_u64 g in (x mod upper, g).

(** ** Samples *)

(** [v[i]]: [None] is the panic of an index out of bounds. *)
Definition at_index {A} (v : list A) (i : N) : option A := v !! N.to_nat i.

(** [a.partial_cmp(b).unwrap_or(Equal) == Less]. *)
Definition sorts_before (a b : f64) : bool := f64_lt a b.

Fixpoint insert_sample (x : f64) (l : list f64) : list f64 :=
  match l with
  | [] => [x]
  | y :: l' => if sorts_before y x then y :: insert_sample x l' else x :: l
  end.

(** [v.sort_by(|a, b| a.partial_cmp(b).unwrap_or(Equal))], a stable sort. *)
Fixpoint sort_samples (l : list f64) : list f64 :=
  match l with
  | [] => []
  | x :: l => insert_sample x (sort_samples l)
  end.

Definition len {A} (v : list A) : N := N.of_nat (length v).

Definition calculate_percentile (sorted_samples : list f64) (pct : f64) : option f64 :=
  let n := len sorted_samples in
  if n =? 0 then Some (f64_of_N 0)
  else if n =? 1 then at_index sorted_samples 0
  else
    let clamped_pct := f64_clamp pct (f64_of_N 0) (f64_of_N 100) in
    let rank := f64_mul (f64_div clamped_pct (f64_of_N 100)) (f64_of_N (n - 1)) in
    let low_idx := f64_as_usize (f64_floor rank) in
    let high_idx := f64_as_usize (f64_ceil rank) in
    if low_idx =? high_idx then at_index sorted_samples low_idx
    else
      let weight := f64_sub rank (f64_of_N low_idx) in
      low ← at_index sorted_samples low_idx;
      high ← at_index sorted_samples high_idx;
      Some (f64_add (f64_mul low (f64_sub (f64_of_N 1) weight)) (f64_mul high weight)).

(** [1e-9]. *)
Definition tiny : f64 := f64_lit 1 9.

(** ** The paired bootstrap *)

Definition DEFAULT_BOOTSTRAP_RESAMPLES : N := 10000.

Record BootstrapEstimate := {
  sample_size : N;
  resamples_count : N;
  observed_parent_mean : f64;
  observed_candidate_mean : f64;
  observed_delta_mean : f64;
  delta_pct : f64;
  ci_99_lower : f64;
  ci_99_upper : f64;
  p_value : f64;
  is_statistically_significant : bool
}.

Definition sum_samples (l : list f64) : f64 := foldl f64_add (f64_of_N 0) l.

(** The inner loop: the sum of [k] differences drawn with replacement. *)
Fixpoint boot_sum (k : nat) (diffs : list f64) (g : FastPrng) (acc : f64)
    : option (f64 * FastPrng) :=
  match k with
  | O => Some (acc, g)
  | S k =>
    let '(idx, g) := gen_range (len diffs) g in
    d ← at_index diffs idx;
    boot_sum k diffs g (f64_add acc d)
  end.

(** The outer loop: the means of [b] resamples, in order. *)
Fixpoint boot_means (b : nat) (diffs : list f64) (g : FastPrng) : option (list f64) :=
  match b with
  | O => Some []
  | S b =>
    '(sum, g) ← boot_sum (length diffs) diffs g (f64_of_N 0);
    rest ← boot_means b diffs g;
    Some (f64_div sum (f64_of_N (len diffs)) :: rest)
  end.

Definition resamples_or_default (n : N) : N :=
  if 0 <? n then n else DEFAULT_BOOTSTRAP_RESAMPLES.

Definition count_where (p : f64 → bool) (l : list f64) : N := len (List.filter p l).

Definition bootstrap_paired_comparison (parent candidate : list f64) (resamples : N)
    (seed : option N) : option (result BootstrapEstimate) :=
  let m := len parent in
  if (m =? 0) || negb (m =? len candidate) then
    Some (fail "Invalid paired sample lengths: parent={}, candidate={}"
            [dec m; dec (len candidate)])
  else
    let diffs := zip_with (λ p c, f64_sub c p) parent candidate in
    let mean l := f64_div (sum_samples l) (f64_of_N m) in
    let parent_mean := mean parent in
    let delta_mean := mean diffs in
    let delta := if f64_gt (f64_abs parent_mean) tiny
                 then f64_mul (f64_div delta_mean parent_mean) (f64_of_N 100) else f64_of_N 0 in
    let b := resamples_or_default resamples in
    means ← boot_means (N.to_nat b) diffs (new_prng (default 21130179231471 seed));
    let means := sort_samples means in
    let bf := f64_of_N b in
    let lower_idx := N.min (f64_as_usize (f64_floor (f64_mul (f64_lit 5 3) bf))) (b - 1) in
    let upper_idx := N.min (f64_as_usize (f64_ceil (f64_mul (f64_lit 995 3) bf))) (b - 1) in
    lower ← at_index means lower_idx;
    upper ← at_index means upper_idx;
    let count_leq_zero := count_where (λ v, f64_le v (f64_of_N 0)) means in
    let count_geq_zero := count_where (λ v, f64_ge v (f64_of_N 0)) means in
    let p_val := f64_min (f64_mul (f64_of_N 2)
                   (f64_div (f64_of_N (N.min count_leq_zero count_geq_zero)) bf)) (f64_of_N 1) in
    Some (Ok {| sample_size := m; resamples_count := b; observed_parent_mean := parent_mean;
      observed_candidate_mean := mean candidate; observed_delta_mean := delta_mean;
      delta_pct := delta; ci_99_lower := lower; ci_99_upper := upper; p_value := p_val;
      is_statistically_significant :=
        f64_lt p_val (f64_lit 1 2)
        && (f64_gt lower (f64_of_N 0) || f64_lt upper (f64_of_N 0)) |}).

(** ** Tail non-inferiority *)

Record TailNonInferiorityResult := {
  percentile : f64;
  parent_val : f64;
  candidate_val : f64;
  observed_degradation_pct : f64;
  ci_95_upper_pct : f64;
  non_inferiority_margin_pct : f64;
  passes_non_inferiority : bool
}.

Fixpoint draw (k : nat) (from : list f64) (g : FastPrng) : option (list f64 * FastPrng) :=
  match k with
  | O => Some ([], g)
  | S k =>
    let '(idx, g) := gen_range (len from) g in
    x ← at_index from idx;
    '(rest, g) ← draw k from g;
    Some (x :: rest, g)
  end.

Fixpoint draw_pairs (k : nat) (ps cs : list f64) (g : FastPrng)
    : option (list f64 * list f64 * FastPrng) :=
  match k with
  | O => Some ([], [], g)
  | S k =>
    let '(idx, g) := gen_range (len ps) g in
    p ← at_index ps idx;
    c ← at_index cs idx;
    '(ps', cs', g) ← draw_pairs k ps cs g;
    Some (p :: ps', c :: cs', g)
  end.

(** One resample of both sides: the same indices when the samples are paired. *)
Definition resample (ps cs : list f64) (g : FastPrng) : option (list f64 * list f64 * FastPrng) :=
  if len ps =? len cs then draw_pairs (length ps) ps cs g
  else
    '(bp, g) ← draw (length ps) ps g;
    '(bc, g) ← draw (length cs) cs g;
    Some (bp, bc, g).

(** How much worse [c] is than [p], in percent. *)
Definition degradation (p c : f64) : f64 :=
  if f64_gt p tiny then f64_mul (f64_div (f64_sub c p) p) (f64_of_N 100) else f64_of_N 0.

(** The loop: the degradation of the percentile in each of [b] resamples. *)
Fixpoint degradations (b : nat) (ps cs : list f64) (pct : f64) (g : FastPrng)
    : option (list f64) :=
  match b with
  | O => Some []
  | S b =>
    '(bp, bc, g) ← resample ps cs g;
    p ← calculate_percentile (sort_samples bp) pct;
    c ← calculate_percentile (sort_samples bc) pct;
    rest ← degradations b ps cs pct g;
    Some (degradation p c :: rest)
  end.

Definition evaluate_tail_non_inferiority (parent candidate : list f64) (pct margin : f64)
    (resamples : N) (seed : option N) : option (result TailNonInferiorityResult) :=
  if (len parent =? 0) || (len candidate =? 0) then
    Some (fail "Latency sample vectors must not be empty" [])
  else
    p ← calculate_percentile (sort_samples parent) pct;
    c ← calculate_percentile (sort_samples candidate) pct;
    let b := resamples_or_default resamples in
    samples ← degradations (N.to_nat b) parent candidate pct
                (new_prng (default 286873533118 seed));
    let samples := sort_samples samples in
    let p95_idx := N.min (f64_as_usize (f64_ceil (f64_mul (f64_lit 95 2) (f64_of_N b)))) (b - 1) in
    upper ← at_index samples p95_idx;
    Some (Ok {| percentile := pct; parent_val := p; candidate_val := c;
      observed_degradation_pct := degradation p c; ci_95_upper_pct := upper;
      non_inferiority_margin_pct := margin; passes_non_inferiority := f64_le upper margin |}).

(** ** Concrete runs *)

Example prng_example :
  fst (next_u64 (new_prng 42)) = 15021278609987233951.
Proof. vm_compute. reflexivity. Qed.

Definition verdict {A} (p : A → bool) (r : option (result A)) : option bool :=
  match r with Some (Ok a) => Some (p a) | _ => None end.

Definition ramp (k : nat) : list f64 := f64_of_N ∘ N.of_nat <$> seq 1 k.

Definition scaled_by (k : f64) (l : list f64) : list f64 := (λ x, f64_mul x k) <$> l.

Example slower_is_inferior :
  (λ k, verdict passes_non_inferiority (evaluate_tail_non_inferiority (ramp 6)
          (scaled_by k (ramp 6)) (f64_of_N 95) (f64_of_N 1) 4 (Some 42)))
    <$> [f64_lit 105 2; f64_lit 1002 3] = [Some false; Some true].
Proof. vm_compute. reflexivity. Qed.

Example faster_is_significant :
  verdict is_statistically_significant
    (bootstrap_paired_comparison (ramp 6) (scaled_by (f64_lit 9 1) (ramp 6)) 8 (Some 42))
  = Some true.
Proof. vm_compute. reflexivity. Qed.
