(* ===== verification/StatsProps.v ===== *)
(** The statistics of the evaluator never panic and never read outside a sample, the generator
    keeps a proper state, and a candidate that is not faster in any pair never counts as an
    improvement. *)

From S2P Require Import Prelude RustStd RustNum RustFloat Stats.
#[local] Open Scope N_scope.

(** ** The generator *)

Definition proper (g : FastPrng) : Prop :=
  s0 g < 2 ^ 64 ∧ s1 g < 2 ^ 64 ∧ s2 g < 2 ^ 64 ∧ s3 g < 2 ^ 64
  ∧ ¬ (s0 g = 0 ∧ s1 g = 0 ∧ s2 g = 0 ∧ s3 g = 0).

Lemma wrap64_lt a : wrap64 a < 2 ^ 64.
Proof. apply N.mod_lt. lia. Qed.

Lemma lxor_lt n a b : a < 2 ^ n → b < 2 ^ n → N.lxor a b < 2 ^ n.
Proof.
  intros Ha Hb. destruct (N.eq_dec (N.lxor a b) 0) as [->|Hx]; [apply N.neq_0_lt_0, N.pow_nonzero; lia|].
  apply N.log2_lt_pow2; [lia|]. eapply N.le_lt_trans; [apply N.log2_lxor|].
  assert (0 < n). { destruct n; [|lia]. replace a with 0 in Hx by (cbn in *; lia).
    replace b with 0 in Hx by (cbn in *; lia). done. }
  apply N.max_lub_lt; (destruct (N.eq_dec a 0) as [->|]; destruct (N.eq_dec b 0) as [->|];
    try done; apply N.log2_lt_pow2; lia).
Qed.

Lemma shiftr_lt n x k : x < 2 ^ n → N.shiftr x k < 2 ^ n.
Proof.
  intros Hx. rewrite N.shiftr_div_pow2. eapply N.le_lt_trans; [|exact Hx].
  apply N.Div0.div_le_upper_bound.
  assert (2 ^ k ≠ 0) by (apply N.pow_nonzero; lia). nia.
Qed.

Lemma rotl64_lt k x : k ≤ 64 → x < 2 ^ 64 → rotl64 k x < 2 ^ 64.
Proof.
  intros Hk Hx. unfold rotl64.
  destruct (N.eq_dec (N.lor (wrap64 (N.shiftl x k)) (N.shiftr x (64 - k))) 0) as [->|Hz]; [done|].
  apply N.log2_lt_pow2; [lia|]. rewrite N.log2_lor.
  pose proof (shiftr_lt 64 x (64 - k) Hx).
  pose proof (wrap64_lt (N.shiftl x k)).
  apply N.max_lub_lt; match goal with |- N.log2 ?a < _ => destruct (N.eq_dec a 0) as [->|] end;
    try done; apply N.log2_lt_pow2; lia.
Qed.

Lemma rotl64_zero k x : 0 < k ≤ 64 → x < 2 ^ 64 → rotl64 k x = 0 → x = 0.
Proof.
  intros Hk Hx Hr. unfold rotl64 in Hr. apply N.lor_eq_0_iff in Hr as [Hl Hh].
  rewrite N.shiftr_div_pow2 in Hh. apply N.div_small_iff in Hh; [|apply N.pow_nonzero; lia].
  unfold wrap64 in Hl. rewrite N.shiftl_mul_pow2 in Hl.
  rewrite N.mod_small in Hl.
  - apply N.mul_eq_0 in Hl as [|Hp]; [done|]. by apply N.pow_nonzero in Hp.
  - change 18446744073709551616 with (2 ^ 64). replace 64 with (64 - k + k) by lia.
    rewrite N.pow_add_r. apply N.mul_lt_mono_pos_r; [|done].
    apply N.neq_0_lt_0, N.pow_nonzero. lia.
Qed.

Lemma shl64_fixed x : x < 2 ^ 64 → x = shl64 x 17 → x = 0.
Proof.
  unfold shl64, wrap64. rewrite N.shiftl_mul_pow2. intros Hx He.
  pose proof (N.Div0.div_mod (x * 2 ^ 17) (2 ^ 64)) as Hd.
  change 18446744073709551616 with (2 ^ 64) in He. rewrite <- He in Hd.
  set (q := x * 2 ^ 17 / 2 ^ 64) in *. 
  assert ((Z.of_N (2 ^ 64) | Z.of_N x))%Z as [z Hz].
  { apply (Z.gauss _ (2 ^ 17 - 1)); [|reflexivity]. exists (Z.of_N q). lia. }
  destruct (Z.eq_dec z 0%Z); lia.
Qed.

Lemma next_proper g : proper g → proper (snd (next_u64 g)).
Proof.
  intros (H0 & H1 & H2 & H3 & Hn). unfold next_u64, proper; cbn [fst snd s0 s1 s2 s3].
  assert (∀ a b, a < 2 ^ 64 → b < 2 ^ 64 → N.lxor a b < 2 ^ 64) as Hx by apply lxor_lt.
  assert (shl64 (s1 g) 17 < 2 ^ 64) by apply wrap64_lt.
  split_and!; [by auto..| |by apply rotl64_lt; [lia|auto]|].
  { by auto. }
  intros (E0 & E1 & E2 & E3). apply Hn.
  apply rotl64_zero in E3; [|lia|by auto]. apply N.lxor_eq in E3. rewrite E3 in *.
  rewrite N.lxor_nilpotent, N.lxor_0_r in E0. rewrite E0, N.lxor_0_r in *.
  apply N.lxor_eq in E1, E2. rewrite <- E1 in E2.
  apply shl64_fixed in E2; [|done]. rewrite E2 in *. by rewrite <- E1.
Qed.

Lemma new_proper seed : proper (new_prng seed).
Proof.
  assert (∀ sm, snd (splitmix sm) < 2 ^ 64) as Hs.
  { intros sm. unfold splitmix; cbn [snd]. apply lxor_lt; [apply wrap64_lt|].
    apply shiftr_lt, wrap64_lt. }
  unfold new_prng. destruct (splitmix seed) as [m1 a] eqn:E1. destruct (splitmix m1) as [m2 b] eqn:E2.
  destruct (splitmix m2) as [m3 c] eqn:E3. destruct (splitmix m3) as [m4 d] eqn:E4.
  pose proof (Hs seed). pose proof (Hs m1). pose proof (Hs m2). pose proof (Hs m3).
  rewrite E1, E2, E3, E4 in *. unfold proper, or_default; cbn [s0 s1 s2 s3 snd] in *.
  repeat case_match; guards; split_and!; lia.
Qed.

Lemma gen_range_lt n g : 0 < n → fst (gen_range n g) < n.
Proof.
  intros Hn. unfold gen_range. destruct (N.leb_spec n 1); [cbn; lia|].
  destruct (next_u64 g); cbn. apply N.mod_lt. lia.
Qed.

Lemma range_proper n g : proper g → proper (snd (gen_range n g)).
Proof.
  intros Hg. pose proof (next_proper g Hg). unfold gen_range. case_match; [done|]. by destruct (next_u64 g).
Qed.

(** ** Indices *)

Lemma at_index_lt {A} (v : list A) i : i < len v → ∃ x, at_index v i = Some x.
Proof. intros Hi. apply lookup_lt_is_Some_2. unfold len in Hi. lia. Qed.

Lemma insert_length x l : length (insert_sample x l) = S (length l).
Proof. induction l as [|y l IH]; cbn; [done|]. case_match; cbn; by rewrite ?IH. Qed.

Lemma sort_length l : length (sort_samples l) = length l.
Proof. induction l as [|x l IH]; cbn; [done|]. by rewrite insert_length, IH. Qed.

Lemma sort_len l : len (sort_samples l) = len l.
Proof. unfold len. by rewrite sort_length. Qed.

(** The percentiles the program asks for. *)
Definition asked_percentiles : list f64 := [f64_of_N 50; f64_of_N 95; f64_of_N 99].

Lemma fraction_within pct : pct ∈ asked_percentiles →
  within (-60) (f64_div (f64_clamp pct (f64_of_N 0) (f64_of_N 100)) (f64_of_N 100)) 1.
Proof.
  unfold asked_percentiles. rewrite !elem_of_cons.
  intros [->|[->|[->|[]%elem_of_nil]]]; vm_compute; (split; [by intros|by intros]).
Qed.

Lemma percentile_total l pct : pct ∈ asked_percentiles → len l < 2 ^ 53 →
  ∃ x, calculate_percentile l pct = Some x.
Proof.
  intros Hp Hl. unfold calculate_percentile.
  destruct (N.eqb_spec (len l) 0); [by eauto|]. destruct (N.eqb_spec (len l) 1) as [E|].
  { apply at_index_lt. lia. }
  assert (0 < len l - 1 < 2 ^ 53) as Hk by lia.
  destruct (index_within (-120) _ (len l - 1) ltac:(lia) Hk (mul_within _ (len l - 1) _ Hk
    (fraction_within pct Hp) (of_N_within _ _ Hk (N.le_refl _)))) as [Hlo Hhi].
  set (lo := f64_as_usize (f64_floor _)) in *. set (hi := f64_as_usize (f64_ceil _)) in *.
  destruct (at_index_lt l lo) as [x Hx]; [lia|]. destruct (at_index_lt l hi) as [y Hy]; [lia|].
  case_match; [by eauto|]. cbn. rewrite Hx, Hy. cbn. by eauto.
Qed.

(** ** Resampling *)

Lemma boot_sum_total k diffs g acc : diffs ≠ [] →
  ∃ r, boot_sum k diffs g acc = Some r.
Proof.
  intros Hd. revert g acc. induction k as [|k IH]; intros g acc; cbn; [by eauto|].
  assert (0 < len diffs) as Hl by (destruct diffs; [done|unfold len; cbn; lia]).
  pose proof (gen_range_lt _ g Hl) as Hi. destruct (gen_range (len diffs) g) as [i g'].
  destruct (at_index_lt diffs i Hi) as [d ->]. cbn. apply IH.
Qed.

Lemma boot_means_total b diffs g : diffs ≠ [] →
  ∃ l, boot_means b diffs g = Some l ∧ length l = b.
Proof.
  intros Hd. revert g. induction b as [|b IH]; intros g; cbn [boot_means]; [by eauto|].
  destruct (boot_sum_total (length diffs) diffs g (f64_of_N 0) Hd) as [[s g'] ->]. cbn.
  destruct (IH g') as (l & -> & <-). cbn. by eauto.
Qed.

Lemma draw_total k l g : l ≠ [] → ∃ r g', draw k l g = Some (r, g') ∧ length r = k.
Proof.
  intros Hd. revert g. induction k as [|k IH]; intros g; cbn; [by eauto|].
  assert (0 < len l) as Hl by (destruct l; [done|unfold len; cbn; lia]).
  pose proof (gen_range_lt _ g Hl) as Hi. destruct (gen_range (len l) g) as [i g'].
  destruct (at_index_lt l i Hi) as [d ->]. cbn.
  destruct (IH g') as (r & g'' & -> & <-). cbn. by exists (d :: r), g''.
Qed.

Lemma draw_pairs_total k ps cs g : ps ≠ [] → len ps = len cs →
  ∃ bp bc g', draw_pairs k ps cs g = Some (bp, bc, g') ∧ length bp = k ∧ length bc = k.
Proof.
  intros Hd Hlen. revert g. induction k as [|k IH]; intros g; cbn; [by eauto 6|].
  assert (0 < len ps) as Hl by (destruct ps; [done|unfold len; cbn; lia]).
  pose proof (gen_range_lt _ g Hl) as Hi. destruct (gen_range (len ps) g) as [i g'].
  destruct (at_index_lt ps i Hi) as [p ->]. rewrite Hlen in Hi.
  destruct (at_index_lt cs i Hi) as [c ->]. cbn.
  destruct (IH g') as (bp & bc & g'' & -> & <- & E). cbn.
  exists (p :: bp), (c :: bc), g''. cbn. by rewrite E.
Qed.

Lemma resample_total ps cs g : ps ≠ [] → cs ≠ [] →
  ∃ bp bc g', resample ps cs g = Some (bp, bc, g') ∧ len bp = len ps ∧ len bc = len cs.
Proof.
  intros Hp Hc. unfold resample. destruct (N.eqb_spec (len ps) (len cs)) as [E|_].
  - destruct (draw_pairs_total (length ps) ps cs g Hp E) as (bp & bc & g' & -> & E1 & E2).
    do 3 eexists. split; [done|]. unfold len in *. lia.
  - destruct (draw_total (length ps) ps g Hp) as (bp & g1 & -> & E1). cbn.
    destruct (draw_total (length cs) cs g1 Hc) as (bc & g2 & -> & E2). cbn.
    do 3 eexists. split; [done|]. unfold len. lia.
Qed.

Lemma degradations_total b ps cs pct g : ps ≠ [] → cs ≠ [] → pct ∈ asked_percentiles →
  len ps < 2 ^ 53 → len cs < 2 ^ 53 →
  ∃ l, degradations b ps cs pct g = Some l ∧ length l = b.
Proof.
  intros Hp Hc Hpct Hlp Hlc. revert g. induction b as [|b IH]; intros g; cbn [degradations]; [by eauto|].
  destruct (resample_total ps cs g Hp Hc) as (bp & bc & g' & -> & E1 & E2). cbn.
  destruct (percentile_total (sort_samples bp) pct Hpct) as [p ->]; [rewrite sort_len; lia|].
  destruct (percentile_total (sort_samples bc) pct Hpct) as [c ->]; [rewrite sort_len; lia|].
  cbn. destruct (IH g') as (l & -> & <-). cbn. by eauto.
Qed.

Lemma resamples_pos n : 0 < resamples_or_default n.
Proof. unfold resamples_or_default, DEFAULT_BOOTSTRAP_RESAMPLES. by destruct (N.ltb_spec 0 n). Qed.

Lemma len_nil {A} (l : list A) : (len l =? 0) = true ↔ l = [].
Proof. rewrite N.eqb_eq. destruct l; unfold len; cbn; split; (done || lia). Qed.

Lemma bootstrap_total p c n seed :
  if decide (p ≠ [] ∧ len p = len c)
  then ∃ e, bootstrap_paired_comparison p c n seed = Some (Ok e)
  else ∃ e, bootstrap_paired_comparison p c n seed = Some (Err e).
Proof.
  unfold bootstrap_paired_comparison. destruct ((len p =? 0) || negb (len p =? len c)) eqn:E.
  { rewrite decide_False; [by eauto|]. intros [Hp Hl].
    apply orb_prop in E as [?%len_nil|E]; [done|]. by rewrite Hl, N.eqb_refl in E. }
  apply orb_false_elim in E as [Hp Hl%negb_false_iff%N.eqb_eq].
  assert (p ≠ []) as Hp' by (intros ?%len_nil; congruence).
  rewrite decide_True by done. set (diffs := zip_with _ p c).
  assert (diffs ≠ []) as Hd.
  { destruct p as [|x p]; [done|]. destruct c as [|y c]; [by unfold len in Hl; cbn in Hl; lia|done]. }
  pose proof (resamples_pos n) as Hb.
  destruct (boot_means_total (N.to_nat (resamples_or_default n)) diffs
    (new_prng (default 21130179231471 seed)) Hd) as (l & -> & Hlen). cbn [mbind option_bind].
  assert (len (sort_samples l) = resamples_or_default n) as Hs by (rewrite sort_len; unfold len; lia).
  destruct (at_index_lt (sort_samples l) (N.min (f64_as_usize (f64_floor (f64_mul (f64_lit 5 3)
    (f64_of_N (resamples_or_default n))))) (resamples_or_default n - 1))) as [lo ->]; [lia|].
  destruct (at_index_lt (sort_samples l) (N.min (f64_as_usize (f64_ceil (f64_mul (f64_lit 995 3)
    (f64_of_N (resamples_or_default n))))) (resamples_or_default n - 1))) as [hi ->]; [lia|].
  cbn. by eauto.
Qed.

Lemma tail_total p c pct margin n seed : pct ∈ asked_percentiles →
  p ≠ [] → c ≠ [] → len p < 2 ^ 53 → len c < 2 ^ 53 →
  ∃ e, evaluate_tail_non_inferiority p c pct margin n seed = Some (Ok e).
Proof.
  intros Hpct Hp Hc Hlp Hlc. unfold evaluate_tail_non_inferiority.
  destruct (len p =? 0) eqn:E; [by apply len_nil in E|].
  destruct (len c =? 0) eqn:E'; [by apply len_nil in E'|]. cbn [orb].
  destruct (percentile_total (sort_samples p) pct Hpct) as [x ->]; [by rewrite sort_len|].
  destruct (percentile_total (sort_samples c) pct Hpct) as [y ->]; [by rewrite sort_len|].
  cbn [mbind option_bind].
  pose proof (resamples_pos n) as Hb.
  destruct (degradations_total (N.to_nat (resamples_or_default n)) p c pct
    (new_prng (default 286873533118 seed)) Hp Hc Hpct Hlp Hlc) as (l & -> & Hlen). cbn [mbind option_bind].
  assert (len (sort_samples l) = resamples_or_default n) as Hs by (rewrite sort_len; unfold len; lia).
  destruct (at_index_lt (sort_samples l) (N.min (f64_as_usize (f64_ceil (f64_mul (f64_lit 95 2)
    (f64_of_N (resamples_or_default n))))) (resamples_or_default n - 1))) as [u ->]; [lia|].
  cbn. by eauto.
Qed.

(** ** Constant samples

    Drawing from a constant sample gives it back, so the test comes down to one comparison. *)

Lemma at_index_repeat {A} (x y : A) k i : at_index (repeat x k) i = Some y → y = x.
Proof. unfold at_index. intros H%list_elem_of_lookup_2%list_elem_of_In. by apply repeat_spec in H. Qed.

Lemma draw_pairs_constant k x n g bp bc g' :
  draw_pairs k (repeat x n) (repeat x n) g = Some (bp, bc, g') → bp = repeat x k ∧ bc = repeat x k.
Proof.
  revert g bp bc g'. induction k as [|k IH]; intros g bp bc g'; cbn [draw_pairs]; [by intros [= <- <- _]|].
  destruct (gen_range _ _) as [i g1]. intros (p & Hp & H)%bind_Some.
  apply bind_Some in H as (c & Hc & H). apply bind_Some in H as ([[bp' bc'] g2] & H & Hr).
  apply at_index_repeat in Hp, Hc. apply IH in H as [-> ->]. by simplify_eq.
Qed.

Lemma degradations_constant b x n pct v g l : calculate_percentile (sort_samples (repeat x n)) pct = Some v →
  degradations b (repeat x n) (repeat x n) pct g = Some l → l = repeat (degradation v v) b.
Proof.
  intros Hv. revert g l. induction b as [|b IH]; intros g l; cbn [degradations]; [by intros [= <-]|].
  intros ([[bp bc] g'] & Hr & H)%bind_Some. unfold resample in Hr. rewrite N.eqb_refl in Hr.
  rewrite repeat_length in Hr. apply draw_pairs_constant in Hr as [-> ->].
  rewrite Hv in H. cbn [mbind option_bind] in H. apply bind_Some in H as (rest & Hrest & H).
  apply IH in Hrest as ->. by injection H as <-.
Qed.

Lemma sort_constant x k : sorts_before x x = false → sort_samples (repeat x k) = repeat x k.
Proof.
  intros Hx. induction k as [|k IH]; cbn [repeat sort_samples]; [done|]. rewrite IH.
  destruct k; cbn [repeat insert_sample]; [done|]. by rewrite Hx.
Qed.

Lemma tail_constant x n pct mg k seed v t :
  calculate_percentile (sort_samples (repeat x n)) pct = Some v →
  sorts_before (degradation v v) (degradation v v) = false →
  f64_le (degradation v v) mg = true →
  evaluate_tail_non_inferiority (repeat x n) (repeat x n) pct mg k seed = Some (Ok t) →
  passes_non_inferiority t = true.
Proof.
  intros Hv Hs Hle. unfold evaluate_tail_non_inferiority. destruct (_ || _); [done|].
  rewrite Hv. cbn [mbind option_bind]. intros (l & Hl & H)%bind_Some.
  apply (degradations_constant _ _ _ _ _ _ _ Hv) in Hl as ->.
  apply bind_Some in H as (u & Hu & H). rewrite sort_constant in Hu by done.
  apply at_index_repeat in Hu as ->. by injection H as <-.
Qed.
