(* ===== verification/Graph.v ===== *)
(** The capability graph ([src/graph/mod.rs]): nodes with their measurements, shortest-path
    betweenness centrality and the bottleneck ranking.

    A hash map is iterated in an unspecified order: an operation that iterates takes the list of
    its entries in the order of that iteration.  A lookup with [map[key]] or [unwrap] panics on a
    missing key and is [None] here.  The breadth-first search takes fuel; [GraphProps] shows
    that one more than the number of nodes is enough. *)

From S2P Require Import Prelude RustStd RustNum RustFloat Sorting Stats.
#[local] Open Scope string_scope.
#[local] Open Scope list_scope.

Inductive Measurement := Measured | Unavailable.
#[export] Instance Measurement_eq_dec : EqDecision Measurement.
Proof. solve_decision. Defined.
Inductive RankingBasis := BasisStructural | BasisMeasured.
#[export] Instance RankingBasis_eq_dec : EqDecision RankingBasis.
Proof. solve_decision. Defined.

Record CapabilityNode := {
  node_id : string;
  node_name : string;
  subsystem : string;
  latency_p95_us : f64;
  memory_rss_kb : N;
  error_rate : f64;
  weight : f64;
  measurement : Measurement;
  latency_median_us : option f64;
  latency_p95_us_measured : option f64;
  error_rate_measured : option f64;
  sample_count : N;
  unavailable_reason : option string
}.

(** The message also carries the value. *)
Definition check_finite_nonneg (name : string) (v : f64) : result unit :=
  if is_finite v && f64_ge v (f64_of_N 0) then Ok tt
  else fail "{} must be finite and not negative" [name].

Definition new_node (id name sub : string) : CapabilityNode :=
  {| node_id := id; node_name := name; subsystem := sub; latency_p95_us := f64_of_N 0;
     memory_rss_kb := 0; error_rate := f64_of_N 0; weight := f64_of_N 1;
     measurement := Unavailable; latency_median_us := None; latency_p95_us_measured := None;
     error_rate_measured := None; sample_count := 0;
     unavailable_reason := Some "no measurement was supplied for this node" |}.

Definition with_resource_metrics (p95 : f64) (rss : N) (err : f64) (n : CapabilityNode)
    : CapabilityNode :=
  {| node_id := node_id n; node_name := node_name n; subsystem := subsystem n;
     latency_p95_us := p95; memory_rss_kb := rss; error_rate := err; weight := weight n;
     measurement := measurement n; latency_median_us := latency_median_us n;
     latency_p95_us_measured := latency_p95_us_measured n;
     error_rate_measured := error_rate_measured n; sample_count := sample_count n;
     unavailable_reason := unavailable_reason n |}.

Definition with_measurement (m : Measurement) (median p95 err : option f64) (count : N)
    (reason : option string) (n : CapabilityNode) : CapabilityNode :=
  {| node_id := node_id n; node_name := node_name n; subsystem := subsystem n;
     latency_p95_us := latency_p95_us n; memory_rss_kb := memory_rss_kb n;
     error_rate := error_rate n; weight := weight n; measurement := m;
     latency_median_us := median; latency_p95_us_measured := p95; error_rate_measured := err;
     sample_count := count; unavailable_reason := reason |}.

Definition with_measured_latency (median : f64) (p95 : option f64) (err : f64) (count : N)
    (n : CapabilityNode) : result CapabilityNode :=
  _ ← check_finite_nonneg "latency_median_us" median;
  _ ← match p95 with Some p => check_finite_nonneg "latency_p95_us_measured" p | None => Ok tt end;
  _ ← check_finite_nonneg "error_rate_measured" err;
  if f64_gt err (f64_of_N 1) then fail "error_rate_measured must be at most 1" []
  else Ok (with_measurement Measured (Some median) p95 (Some err) count
             (match p95 with
              | Some _ => None
              | None => Some "p95 is unavailable: too few valid compatible samples"
              end) n).

Definition with_unavailable (reason : string) (count : N) (n : CapabilityNode) : CapabilityNode :=
  with_measurement Unavailable None None None count (Some reason) n.

Definition scoring_inputs (n : CapabilityNode) : result (f64 * f64) :=
  if negb (bool_decide (measurement n = Measured)) then
    fail "{}" [default "no measurement" (unavailable_reason n)]
  else match latency_median_us n, error_rate_measured n with
  | Some median, Some err =>
    _ ← check_finite_nonneg "latency_median_us" median;
    _ ← check_finite_nonneg "error_rate_measured" err;
    if f64_gt err (f64_of_N 1) then fail "error_rate_measured must be at most 1" []
    else Ok (median, err)
  | _, _ => fail "measured state without a median latency or error rate" []
  end.

Record CapabilityEdge := {
  from : string;
  to_ : string;
  latency_impact_us : f64;
  call_frequency : f64
}.

Record CapabilityGraph := { nodes : gmap string CapabilityNode; edges : list CapabilityEdge }.

Definition empty_graph : CapabilityGraph := {| nodes := ∅; edges := [] |}.
Definition add_node (n : CapabilityNode) (g : CapabilityGraph) : CapabilityGraph :=
  {| nodes := <[node_id n := n]> (nodes g); edges := edges g |}.
Definition add_edge (f t : string) (impact freq : f64) (g : CapabilityGraph) : CapabilityGraph :=
  {| nodes := nodes g;
     edges := edges g ++ [{| from := f; to_ := t; latency_impact_us := impact;
                             call_frequency := freq |}] |}.

(** Edges whose source is not a node are left out. *)
Definition adjacency_list (g : CapabilityGraph) : gmap string (list string) :=
  foldl (λ adj e, match adj !! from e with
                  | Some ns => <[from e := ns ++ [to_ e]]> adj
                  | None => adj
                  end)
    ((λ _, []) <$> nodes g) (edges g).

(** ** Betweenness centrality *)

(** A search from one source: the nodes in the order they were visited, last first, the queue,
    and per node its predecessors, its number of shortest paths and its distance ([-1] before
    it is reached). *)
Record Search := {
  stack : list string;
  queue : list string;
  pred : gmap string (list string);
  sigma : gmap string f64;
  dist : gmap string Z
}.

Definition start_search (g : CapabilityGraph) (s : string) : Search :=
  {| stack := []; queue := [s]; pred := (λ _, []) <$> nodes g;
     sigma := <[s := f64_of_N 1]> ((λ _, f64_of_N 0) <$> nodes g);
     dist := <[s := 0%Z]> ((λ _, (-1)%Z) <$> nodes g) |}.

(** A node seen for the first time is queued one step further away. *)
Definition discover (w : string) (d_v d_w : Z) (s : Search) : Search :=
  if (d_w <? 0)%Z then
    {| stack := stack s; queue := queue s ++ [w]; pred := pred s; sigma := sigma s;
       dist := <[w := (d_v + 1)%Z]> (dist s) |}
  else s.

Definition visit_neighbor (v : string) (d_v : Z) (s : Search) (w : string) : option Search :=
  d_w ← dist s !! w;
  let s := discover w d_v d_w s in
  d_w ← dist s !! w;
  if (d_w =? d_v + 1)%Z then
    sigma_v ← sigma s !! v;
    sigma_w ← sigma s !! w;
    preds ← pred s !! w;
    Some {| stack := stack s; queue := queue s; pred := <[w := preds ++ [v]]> (pred s);
            sigma := <[w := f64_add sigma_w sigma_v]> (sigma s); dist := dist s |}
  else Some s.

Fixpoint visit_neighbors (v : string) (d_v : Z) (s : Search) (ns : list string) : option Search :=
  match ns with
  | [] => Some s
  | w :: ns => s ← visit_neighbor v d_v s w; visit_neighbors v d_v s ns
  end.

Fixpoint search (fuel : nat) (adj : gmap string (list string)) (s : Search) : option Search :=
  match fuel with
  | O => None
  | S fuel =>
    match queue s with
    | [] => Some s
    | v :: q =>
      let s := {| stack := v :: stack s; queue := q; pred := pred s; sigma := sigma s;
                  dist := dist s |} in
      d_v ← dist s !! v;
      s ← match adj !! v with Some ns => visit_neighbors v d_v s ns | None => Some s end;
      search fuel adj s
    end
  end.

(** The dependencies of the predecessors of [w]. *)
Fixpoint accumulate (r : Search) (w : string) (delta : gmap string f64) (preds : list string)
    : option (gmap string f64) :=
  match preds with
  | [] => Some delta
  | v :: preds =>
    sigma_v ← sigma r !! v;
    sigma_w ← sigma r !! w;
    delta_w ← delta !! w;
    let c := f64_mul (f64_div sigma_v sigma_w) (f64_add (f64_of_N 1) delta_w) in
    delta_v ← delta !! v;
    accumulate r w (<[v := f64_add delta_v c]> delta) preds
  end.

(** Popping the stack. *)
Fixpoint unwind (r : Search) (s : string) (st : list string) (delta centrality : gmap string f64)
    : option (gmap string f64) :=
  match st with
  | [] => Some centrality
  | w :: st =>
    preds ← pred r !! w;
    delta ← accumulate r w delta preds;
    if bool_decide (w = s) then unwind r s st delta centrality
    else
      delta_w ← delta !! w;
      c_w ← centrality !! w;
      unwind r s st delta (<[w := f64_add c_w delta_w]> centrality)
  end.

Definition from_source (g : CapabilityGraph) (adj : gmap string (list string))
    (centrality : gmap string f64) (s : string) : option (gmap string f64) :=
  r ← search (S (size (nodes g))) adj (start_search g s);
  unwind r s (stack r) ((λ _, f64_of_N 0) <$> nodes g) centrality.

Fixpoint from_sources (g : CapabilityGraph) (adj : gmap string (list string))
    (centrality : gmap string f64) (sources : list string) : option (gmap string f64) :=
  match sources with
  | [] => Some centrality
  | s :: sources => c ← from_source g adj centrality s; from_sources g adj c sources
  end.

(** [keys] is the iteration order of the node map. *)
Definition calculate_betweenness_centrality (keys : list string) (g : CapabilityGraph)
    : option (gmap string f64) :=
  let zero : gmap string f64 := (λ _, f64_of_N 0) <$> nodes g in
  let n := N.of_nat (size (nodes g)) in
  if (n <=? 2)%N then Some zero
  else
    c ← from_sources g (adjacency_list g) zero (sort_strings keys);
    let scale := f64_div (f64_of_N 1) (f64_of_N ((n - 1) * (n - 2))) in
    Some ((λ v, f64_mul v scale) <$> (c : gmap string f64)).

(** ** Ranking *)

Record BottleneckRank := {
  rank : N;
  rank_node_id : string;
  rank_node_name : string;
  rank_subsystem : string;
  bottleneck_score : f64;
  centrality : f64;
  rank_latency_p95_us : f64;
  rank_error_rate : f64;
  causal_explanation : string;
  rank_measurement : Measurement;
  rank_latency_median_us : option f64;
  rank_latency_p95_us_measured : option f64;
  rank_error_rate_measured : option f64;
  rank_sample_count : N;
  rank_unavailable_reason : option string;
  ranking_basis : RankingBasis
}.

Definition all_measured (entries : list (string * CapabilityNode)) : bool :=
  negb (bool_decide (entries = [])) && forallb (λ e, is_ok (scoring_inputs e.2)) entries.

(** The mean of the medians in the order of the ids, at least one. *)
Definition average_latency (g : CapabilityGraph) (keys : list string) : f64 :=
  let medians := omap (λ id, match nodes g !! id with
                             | Some n => match scoring_inputs n with Ok (m, _) => Some m | Err _ => None end
                             | None => None
                             end) (sort_strings keys) in
  f64_max (f64_div (sum_samples medians) (f64_of_N (N.of_nat (size (nodes g))))) (f64_of_N 1).

Definition score_of (measured_basis : bool) (avg_latency c : f64) (inputs : result (f64 * f64))
    : f64 * string :=
  match inputs, measured_basis with
  | Ok (median, err), true =>
    let lat_ratio := f64_clamp (f64_div median avg_latency) (f64_of_N 0) (f64_of_N 10) in
    let err_factor := f64_clamp (f64_mul err (f64_of_N 5)) (f64_of_N 0) (f64_of_N 5) in
    (f64_add (f64_add (f64_mul c (f64_lit 4 1)) (f64_mul lat_ratio (f64_lit 4 1)))
       (f64_mul err_factor (f64_lit 2 1)),
     render (Fmt "Centrality={}, LatencyRatio={}x (median), ErrorRate={}%"
       [fmt_fixed 3 c; fmt_fixed 2 lat_ratio; fmt_fixed 1 (f64_mul err (f64_of_N 100))]))
  | _, _ =>
    (c, render (Fmt "Centrality={}; latency and error terms unavailable (structural ranking)"
          [fmt_fixed 3 c]))
  end.

Definition when_ok {A B} (r : result B) (o : option A) : option A := if is_ok r then o else None.

Definition rank_entry (measured_basis : bool) (avg_latency : f64) (c : gmap string f64)
    (e : string * CapabilityNode) : BottleneckRank :=
  let '(id, node) := e in
  let c := default (f64_of_N 0) (c !! id) in
  let inputs := scoring_inputs node in
  let '(score, explanation) := score_of measured_basis avg_latency c inputs in
  {| rank := 0; rank_node_id := id; rank_node_name := node_name node;
     rank_subsystem := subsystem node; bottleneck_score := score; centrality := c;
     rank_latency_p95_us := latency_p95_us node; rank_error_rate := error_rate node;
     causal_explanation := explanation;
     rank_measurement := if is_ok inputs then Measured else Unavailable;
     rank_latency_median_us := when_ok inputs (latency_median_us node);
     rank_latency_p95_us_measured := when_ok inputs (latency_p95_us_measured node);
     rank_error_rate_measured := when_ok inputs (error_rate_measured node);
     rank_sample_count := sample_count node;
     rank_unavailable_reason :=
       match inputs with Err e => Some (render e) | Ok _ => unavailable_reason node end;
     ranking_basis := if measured_basis then BasisMeasured else BasisStructural |}.

(** [(s * 1e9).round() as i64]. *)
Definition quantize (s : f64) : Z := f64_as_i64 (f64_round (f64_mul s (f64_of_N 1000000000))).

(** Score descending, then node id ascending. *)
Definition rank_lt (a b : BottleneckRank) : bool :=
  let qa := quantize (bottleneck_score a) in
  let qb := quantize (bottleneck_score b) in
  (qb <? qa)%Z || ((qa =? qb)%Z && str_lt (rank_node_id a) (rank_node_id b)).

Definition with_rank (idx : nat) (r : BottleneckRank) : BottleneckRank :=
  {| rank := N.of_nat idx + 1; rank_node_id := rank_node_id r; rank_node_name := rank_node_name r;
     rank_subsystem := rank_subsystem r; bottleneck_score := bottleneck_score r;
     centrality := centrality r; rank_latency_p95_us := rank_latency_p95_us r;
     rank_error_rate := rank_error_rate r; causal_explanation := causal_explanation r;
     rank_measurement := rank_measurement r; rank_latency_median_us := rank_latency_median_us r;
     rank_latency_p95_us_measured := rank_latency_p95_us_measured r;
     rank_error_rate_measured := rank_error_rate_measured r;
     rank_sample_count := rank_sample_count r;
     rank_unavailable_reason := rank_unavailable_reason r; ranking_basis := ranking_basis r |}.

(** [entries] are the nodes in the iteration order of the node map. *)
Definition rank_bottlenecks (entries : list (string * CapabilityNode)) (g : CapabilityGraph)
    : option (list BottleneckRank) :=
  c ← calculate_betweenness_centrality entries.*1 g;
  let measured_basis := all_measured entries in
  let avg := if measured_basis then average_latency g entries.*1 else f64_of_N 1 in
  Some (imap with_rank (sort_by rank_lt (rank_entry measured_basis avg c <$> entries))).

Definition top_bottleneck (entries : list (string * CapabilityNode)) (g : CapabilityGraph)
    : option (option BottleneckRank) :=
  ranks ← rank_bottlenecks entries g; Some (head ranks).

(** ** Graphviz *)

Definition quote : string := String (byte 34) "".
Definition backslash_n : string := String (byte 92) "n".
Definition newline : string := String (byte 10) "".

Definition dot_label (n : CapabilityNode) : string :=
  match measurement n, latency_median_us n with
  | Measured, Some median => "median " +:+ fmt_fixed 0 median +:+ "us"
  | _, _ => "unavailable"
  end.
Definition to_dot (keys : list string) (g : CapabilityGraph) : option string :=
  lines ← mapM (λ id,
    n ← nodes g !! id;
    Some ("    " +:+ quote +:+ id +:+ quote +:+ " [label=" +:+ quote +:+ node_name n
          +:+ backslash_n +:+ dot_label n +:+ quote +:+ "];" +:+ newline)) (sort_strings keys);
  Some ("digraph CapabilityGraph {" +:+ newline +:+ "    node [shape=box, style=rounded];" +:+ newline
        +:+ concat_all lines
        +:+ concat_all ((λ e, "    " +:+ quote +:+ from e +:+ quote +:+ " -> " +:+ quote +:+ to_ e
                              +:+ quote +:+ ";" +:+ newline) <$> edges g)
        +:+ "}" +:+ newline).
