(* ===== verification/GraphProps.v ===== *)
(** The bottleneck ranking is defined for every graph whose edges end in nodes, does not depend
    on the iteration order of the node map, and reads no number while a node is unmeasured. *)

From S2P Require Import Prelude RustStd RustNum RustFloat Sorting Stats Graph.
#[local] Open Scope string_scope.
#[local] Open Scope list_scope.

(** ** The search ends *)

Definition closed_edges (g : CapabilityGraph) : Prop :=
  Forall (λ e, is_Some (nodes g !! to_ e)) (edges g).

Section Search.
Context (g : CapabilityGraph).

Definition known (k : string) : Prop := is_Some (nodes g !! k).
Definition full {A} (m : gmap string A) : Prop := ∀ k, known k → is_Some (m !! k).

Lemma full_fmap {A} (f : CapabilityNode → A) : full (f <$> nodes g).
Proof. intros k Hk. rewrite lookup_fmap. by apply fmap_is_Some. Qed.

Lemma full_insert {A} (m : gmap string A) k v : full m → full (<[k:=v]> m).
Proof. intros Hm j Hj. apply lookup_insert_is_Some'. right. by apply Hm. Qed.

Lemma full_map {A B} (f : A → B) (m : gmap string A) : full m → full (f <$> m).
Proof. intros Hm k Hk. rewrite lookup_fmap. apply fmap_is_Some. by apply Hm. Qed.

Definition targets_known (adj : gmap string (list string)) : Prop :=
  ∀ k ns, adj !! k = Some ns → Forall known ns.

Lemma adjacency_known : closed_edges g → targets_known (adjacency_list g).
Proof.
  unfold closed_edges, adjacency_list, targets_known.
  assert (∀ es adj, Forall (λ e, known (to_ e)) es → targets_known adj →
    targets_known (foldl (λ adj e, match adj !! from e with
                                   | Some ns => <[from e := ns ++ [to_ e]]> adj
                                   | None => adj end) adj es)) as Hf.
  { intros es. induction es as [|e es IH]; intros adj Hes Hadj; [done|].
    apply Forall_cons in Hes as [He Hes]. cbn [foldl]. apply IH; [done|].
    destruct (adj !! from e) as [ns|] eqn:E; [|done].
    intros k ns' [[<- <-]|[_ Hk]]%lookup_insert_Some; [|by eapply Hadj].
    apply Forall_app. split; [by eapply Hadj|by repeat constructor]. }
  intros Hc k ns Hk. eapply Hf; [exact Hc| |exact Hk].
  intros j ms. rewrite lookup_fmap. intros (n & _ & ->)%fmap_Some. constructor.
Qed.

Definition reached (s : Search) (v : string) : Prop :=
  ∃ d, dist s !! v = Some d ∧ (0 ≤ d)%Z.

Record search_inv (s : Search) : Prop := {
  si_pred : full (pred s);
  si_sigma : full (sigma s);
  si_dist : full (dist s);
  si_preds : ∀ k ps, pred s !! k = Some ps → Forall known ps;
  si_queue : Forall (λ v, known v ∧ reached s v) (queue s);
  si_stack : Forall known (stack s)
}.

Definition unreached (s : Search) : nat :=
  size (filter (λ kd : string * Z, (kd.2 < 0)%Z) (dist s)).
Definition pending (s : Search) : nat := unreached s + length (queue s).

Lemma start_inv s : known s → search_inv (start_search g s).
Proof.
  intros Hs. split; cbn.
  - apply full_fmap.
  - apply full_insert, full_fmap.
  - apply full_insert, full_fmap.
  - intros k ps. rewrite lookup_fmap. intros (n & _ & ->)%fmap_Some. constructor.
  - repeat constructor; [done|]. exists 0%Z. cbn. by rewrite lookup_insert_eq.
  - constructor.
Qed.

Lemma unreached_insert (m : gmap string Z) w d d' : m !! w = Some d → (d < 0)%Z → (0 ≤ d')%Z →
  S (size (filter (λ kd : string * Z, (kd.2 < 0)%Z) (<[w:=d']> m)))
  = size (filter (λ kd : string * Z, (kd.2 < 0)%Z) m).
Proof.
  intros Hw Hd Hd'. rewrite map_filter_insert_False by (cbn; lia).
  rewrite map_filter_delete, map_size_delete_Some.
  - assert (0 < size (filter (λ kd : string * Z, (kd.2 < 0)%Z) m))%nat; [|lia].
    apply Nat.neq_0_lt_0. intros Hz%map_size_empty_inv.
    assert (filter (λ kd : string * Z, (kd.2 < 0)%Z) m !! w = Some d) as Hf.
    { by apply map_lookup_filter_Some. }
    rewrite Hz in Hf. done.
  - exists d. by apply map_lookup_filter_Some.
Qed.

Lemma discover_inv w d_v d_w s : search_inv s → known w → (0 ≤ d_v)%Z → dist s !! w = Some d_w →
  search_inv (discover w d_v d_w s) ∧ pending (discover w d_v d_w s) = pending s
  ∧ (∀ v, reached s v → reached (discover w d_v d_w s) v).
Proof.
  intros Hi Hw Hv Hd. unfold discover. destruct (Z.ltb_spec d_w 0) as [Hlt|]; [|done].
  assert (∀ v, reached s v →
    ∃ d, <[w:=(d_v + 1)%Z]> (dist s) !! v = Some d ∧ (0 ≤ d)%Z) as Hr.
  { intros v (d & Hvd & Hd0). destruct (decide (v = w)) as [->|Hne].
    - rewrite lookup_insert_eq. exists (d_v + 1)%Z. split; [done|lia].
    - rewrite lookup_insert_ne by done. by exists d. }
  split_and!; [|..|done].
  - destruct Hi as [H1 H2 H3 H4 H5 H6]. split; cbn; try done.
    + by apply full_insert.
    + apply Forall_app. split.
      * eapply Forall_impl; [exact H5|]. intros v [? ?]. split; [done|by apply Hr].
      * repeat constructor; [done|]. exists (d_v + 1)%Z. cbn. rewrite lookup_insert_eq. split; [done|lia].
  - unfold pending, unreached; cbn. rewrite length_app. cbn [length].
    rewrite <- (unreached_insert (dist s) w d_w (d_v + 1)) by (done || lia). lia.
Qed.

Lemma visit_neighbor_total v d_v s w : search_inv s → known v → known w → (0 ≤ d_v)%Z →
  ∃ s', visit_neighbor v d_v s w = Some s' ∧ search_inv s' ∧ pending s' = pending s.
Proof.
  intros Hi Hv Hw Hd. unfold visit_neighbor. destruct (si_dist _ Hi w Hw) as [d_w Hdw].
  rewrite Hdw. cbn [mbind option_bind].
  destruct (discover_inv w d_v d_w s Hi Hw Hd Hdw) as (Hi' & Hp & _).
  set (s1 := discover w d_v d_w s) in *. destruct (si_dist _ Hi' w Hw) as [d Hd1].
  rewrite Hd1. cbn [mbind option_bind]. destruct (d =? d_v + 1)%Z; [|by exists s1].
  destruct (si_sigma _ Hi' v Hv) as [sv ->], (si_sigma _ Hi' w Hw) as [sw ->].
  destruct (si_pred _ Hi' w Hw) as [ps Hps]. rewrite Hps. cbn [mbind option_bind].
  eexists. split; [reflexivity|]. split; [|exact Hp].
  destruct Hi' as [H1 H2 H3 H4 H5 H6]. split; cbn; try done.
  - by apply full_insert.
  - by apply full_insert.
  - intros k qs [[<- <-]|[_ Hk]]%lookup_insert_Some; [|by eapply H4].
    apply Forall_app. split; [by eapply H4|by repeat constructor].
Qed.

Lemma visit_neighbors_total v d_v ns s : search_inv s → known v → Forall known ns → (0 ≤ d_v)%Z →
  ∃ s', visit_neighbors v d_v s ns = Some s' ∧ search_inv s' ∧ pending s' = pending s.
Proof.
  intros Hi Hv Hns Hd. revert s Hi. induction Hns as [|w ns Hw Hns IH]; intros s Hi; cbn [visit_neighbors].
  - by exists s.
  - destruct (visit_neighbor_total v d_v s w) as (s1 & -> & Hi1 & Hp1); try done.
    cbn [mbind option_bind]. destruct (IH s1 Hi1) as (s2 & -> & Hi2 & Hp2). exists s2.
    split_and!; [done..|lia].
Qed.

Lemma search_total adj fuel s : targets_known adj → search_inv s → (pending s < fuel)%nat →
  ∃ r, search fuel adj s = Some r ∧ search_inv r.
Proof.
  intros Hadj. revert s. induction fuel as [|fuel IH]; intros s Hi Hf; [lia|]. cbn [search].
  destruct (queue s) as [|v q] eqn:Eq; [by exists s|].
  pose proof (si_queue _ Hi) as Hq. rewrite Eq in Hq.
  apply Forall_cons in Hq as [[Hv (d & Hdv & Hd)] Hq].
  set (s1 := {| stack := v :: stack s; queue := q; pred := pred s; sigma := sigma s; dist := dist s |}).
  assert (search_inv s1) as Hi1.
  { destruct Hi as [H1 H2 H3 H4 H5 H6]. split; cbn; try done. by constructor. }
  assert (S (pending s1) = pending s) as Hp1.
  { unfold pending, unreached; cbn. rewrite Eq. cbn. lia. }
  change (dist s1 !! v) with (dist s !! v). rewrite Hdv. cbn [mbind option_bind].
  destruct (adj !! v) as [ns|] eqn:E; cbn [mbind option_bind].
  - destruct (visit_neighbors_total v d ns s1) as (s2 & -> & Hi2 & Hp2); try done.
    { by eapply Hadj. }
    cbn [mbind option_bind]. apply IH; [done|lia].
  - apply IH; [done|lia].
Qed.

(** ** The accumulation ends *)

Lemma accumulate_total r w ps delta : search_inv r → known w → Forall known ps → full delta →
  ∃ delta', accumulate r w delta ps = Some delta' ∧ full delta'.
Proof.
  intros Hi Hw Hps. revert delta. induction Hps as [|v ps Hv Hps IH]; intros delta Hd; cbn [accumulate].
  - by exists delta.
  - destruct (si_sigma _ Hi v Hv) as [sv ->], (si_sigma _ Hi w Hw) as [sw ->], (Hd w Hw) as [dw ->],
      (Hd v Hv) as [dv Hdv]. cbn [mbind option_bind]. rewrite Hdv. cbn [mbind option_bind].
    apply IH. by apply full_insert.
Qed.

Lemma unwind_total r s st delta c : search_inv r → Forall known st → full delta → full c →
  ∃ c', unwind r s st delta c = Some c' ∧ full c'.
Proof.
  intros Hi Hst. revert delta c. induction Hst as [|w st Hw Hst IH]; intros delta c Hd Hc; cbn [unwind].
  - by exists c.
  - destruct (si_pred _ Hi w Hw) as [ps Hps]. rewrite Hps. cbn [mbind option_bind].
    destruct (accumulate_total r w ps delta) as (delta' & -> & Hd'); try done.
    { by eapply si_preds. }
    cbn [mbind option_bind]. case_bool_decide; [by apply IH|].
    destruct (Hd' w Hw) as [dw ->], (Hc w Hw) as [cw ->]. cbn [mbind option_bind].
    apply IH; [done|]. by apply full_insert.
Qed.

Lemma from_source_total adj c s : targets_known adj → known s → full c →
  ∃ c', from_source g adj c s = Some c' ∧ full c'.
Proof.
  intros Hadj Hs Hc. unfold from_source.
  destruct (search_total adj (S (size (nodes g))) (start_search g s)) as (r & -> & Hi); try done.
  - by apply start_inv.
  - unfold pending, unreached; cbn. destruct Hs as [n Hn].
    assert (((λ _, (-1)%Z) <$> nodes g : gmap string Z) !! s = Some (-1)%Z) as Hs
      by (by rewrite lookup_fmap, Hn).
    pose proof (unreached_insert _ s (-1) 0 Hs ltac:(lia) ltac:(lia)) as Hu.
    pose proof (map_subseteq_size _ _ (map_filter_subseteq (λ kd : string * Z, (kd.2 < 0)%Z)
      ((λ _, (-1)%Z) <$> nodes g))) as Hle. rewrite map_size_fmap in Hle. lia.
  - cbn [mbind option_bind]. apply unwind_total; try done; [apply Hi|apply full_fmap].
Qed.
End Search.

(** What decides a place: the id, the score and the text. *)
Definition unranked (r : BottleneckRank) : string * f64 * string :=
  (rank_node_id r, bottleneck_score r, causal_explanation r).
Definition unranked_lt (a b : string * f64 * string) : bool :=
  (quantize b.1.2 <? quantize a.1.2)%Z || ((quantize a.1.2 =? quantize b.1.2)%Z && str_lt a.1.1 b.1.1).

#[export] Instance unranked_order : WeakOrder (λ _, True) unranked_lt.
Proof.
  split; unfold unranked_lt; intros a b.
  - intros _ _ [?%Z.ltb_lt|[?%Z.eqb_eq Hs]%andb_prop]%orb_true_iff; apply orb_false_iff.
    + split; [apply Z.ltb_ge; lia|]. by rewrite (proj2 (Z.eqb_neq _ _)) by lia.
    + split; [apply Z.ltb_ge; lia|]. rewrite (str_lt_asym _ _ Hs). apply andb_false_r.
  - intros c _ _ _ [H1%Z.ltb_ge H2]%orb_false_elim [H3%Z.ltb_ge H4]%orb_false_elim.
    apply orb_false_iff. split; [apply Z.ltb_ge; lia|].
    destruct (Z.eqb_spec (quantize c.1.2) (quantize a.1.2)) as [E|]; [|done]. cbn [andb].
    rewrite (proj2 (Z.eqb_eq _ _)) in H2 by lia. rewrite (proj2 (Z.eqb_eq _ _)) in H4 by lia.
    by apply (weak_trans (P := λ _, True) _ b.1.1 _).
Qed.

Section Ranking.
Context (g : CapabilityGraph).

Lemma from_sources_total adj c l : targets_known g adj → Forall (known g) l → full g c →
  ∃ c', from_sources g adj c l = Some c' ∧ full g c'.
Proof.
  intros Hadj Hl. revert c. induction Hl as [|s l Hs Hl IH]; intros c Hc; cbn [from_sources].
  - by exists c.
  - destruct (from_source_total g adj c s) as (c' & -> & Hc'); try done.
    cbn [mbind option_bind]. by apply IH.
Qed.

Lemma centrality_total keys : closed_edges g → Forall (known g) keys →
  ∃ c, calculate_betweenness_centrality keys g = Some c ∧ full g c.
Proof.
  intros Hc Hk. unfold calculate_betweenness_centrality.
  destruct (_ <=? 2)%N; [eexists; split; [done|]; apply full_fmap|].
  destruct (from_sources_total (adjacency_list g) ((λ _, f64_of_N 0) <$> nodes g) (sort_strings keys))
    as (c & -> & Hf).
  - by apply adjacency_known.
  - unfold sort_strings. by rewrite (sort_by_perm str_lt keys).
  - apply full_fmap.
  - cbn [mbind option_bind]. eexists. split; [done|]. by apply full_map.
Qed.

Lemma centrality_canonical keys keys' : keys ≡ₚ keys' →
  calculate_betweenness_centrality keys g = calculate_betweenness_centrality keys' g.
Proof. intros Hp. unfold calculate_betweenness_centrality. by rewrite (sort_strings_canonical _ _ Hp). Qed.

#[export] Instance rank_lt_order : WeakOrder (λ _, True) rank_lt.
Proof. exact (weak_pull unranked unranked_lt _). Qed.

Lemma rank_lt_tie a b : rank_lt a b = false → rank_lt b a = false → rank_node_id a = rank_node_id b.
Proof.
  unfold rank_lt. intros [H1%Z.ltb_ge H2]%orb_false_elim [H3%Z.ltb_ge H4]%orb_false_elim.
  rewrite (proj2 (Z.eqb_eq _ _)) in H2 by lia. rewrite (proj2 (Z.eqb_eq _ _)) in H4 by lia. by apply str_lt_tie.
Qed.

Lemma rank_entry_id mb avg c e : rank_node_id (rank_entry mb avg c e) = e.1.
Proof. destruct e as [id n]. unfold rank_entry. by destruct (score_of _ _ _ _). Qed.

Lemma all_measured_perm l l' : l ≡ₚ l' → all_measured l = all_measured l'.
Proof.
  intros Hp. unfold all_measured. f_equal.
  - f_equal. apply bool_decide_ext. split; intros ->.
    + by apply Permutation_nil_l in Hp.
    + by apply Permutation_nil_r in Hp.
  - apply eq_bool_prop_intro. rewrite !Is_true_true, !forallb_forall.
    split; intros Hf e He; apply Hf; apply list_elem_of_In, list_elem_of_In in He;
      apply list_elem_of_In; apply list_elem_of_In in He; [by rewrite Hp|by rewrite <- Hp].
Qed.

Lemma rank_canonical l l' : l ≡ₚ l' → NoDup l.*1 →
  rank_bottlenecks l g = rank_bottlenecks l' g.
Proof.
  intros Hp Hd. unfold rank_bottlenecks.
  rewrite (centrality_canonical l.*1 l'.*1) by (by rewrite Hp).
  destruct (calculate_betweenness_centrality _ _) as [c|]; [|done]. cbn [mbind option_bind].
  rewrite (all_measured_perm _ _ Hp). unfold average_latency.
  rewrite (sort_strings_canonical l.*1 l'.*1) by (by rewrite Hp). do 2 f_equal.
  apply (sort_by_canonical (λ _, True) rank_lt); [by apply Forall_true|by rewrite Hp|].
  intros a b (e & -> & He)%list_elem_of_fmap (e' & -> & He')%list_elem_of_fmap Hab Hba.
  pose proof (rank_lt_tie _ _ Hab Hba) as Hid. rewrite !rank_entry_id in Hid.
  f_equal. destruct e as [i n], e' as [i' n']. cbn in Hid. subst i'. f_equal.
  apply (elem_of_list_to_map_1 (M := gmap string) l) in He; [|done].
  apply (elem_of_list_to_map_1 (M := gmap string) l) in He'; [|done]. congruence.
Qed.
End Ranking.

(** ** The ranking *)

(** [a] is ranked before [b]. *)
Definition above (a b : BottleneckRank) : Prop :=
  (quantize (bottleneck_score b) < quantize (bottleneck_score a))%Z
  ∨ quantize (bottleneck_score a) = quantize (bottleneck_score b)
    ∧ str_lt (rank_node_id a) (rank_node_id b) = true.

Lemma sorted_above l : NoDup (rank_node_id <$> l) → StronglySorted (not_after rank_lt) l →
  StronglySorted above l.
Proof.
  intros Hd Hs. induction Hs as [|a l Hs IH Ha]; [constructor|].
  rewrite fmap_cons in Hd. apply NoDup_cons in Hd as [Hna Hd]. constructor; [by apply IH|].
  apply Forall_forall. intros b Hb. pose proof (proj1 (Forall_forall _ _) Ha b Hb) as Hab.
  unfold not_after in Hab. destruct (rank_lt a b) eqn:E.
  - unfold rank_lt in E. apply orb_true_iff in E as [?%Z.ltb_lt|[?%Z.eqb_eq ?]%andb_prop];
      [by left|by right].
  - exfalso. apply Hna. rewrite (rank_lt_tie _ _ E Hab). by apply list_elem_of_fmap_2.
Qed.

(** C31: the bottleneck ranking is a function of the graph.  When every edge ends in a node, the
    computation ends without a panic for every iteration order of the node map (its searches
    within one step more than there are nodes), with the same result for all of them: the nodes,
    each once, numbered from one, strictly in the order of descending score at a resolution of
    1e-9 and then of ascending id. *)
Theorem ranking_exact g (Hc : closed_edges g) :
  ∃ l, (∀ entries, entries ≡ₚ map_to_list (nodes g) → rank_bottlenecks entries g = Some l)
    ∧ rank_node_id <$> l ≡ₚ (map_to_list (nodes g)).*1
    ∧ rank <$> l = (λ i, N.of_nat i + 1)%N <$> seq 0 (length l)
    ∧ StronglySorted above l.
Proof.
  set (es := map_to_list (nodes g)).
  assert (NoDup es.*1) as Hd by apply NoDup_fst_map_to_list.
  assert (Forall (known g) es.*1) as Hk.
  { apply Forall_fmap, Forall_forall. intros [k n] Hn%elem_of_map_to_list. by exists n. }
  destruct (centrality_total g es.*1 Hc Hk) as (c & Ec & _).
  destruct (rank_bottlenecks es g) as [l|] eqn:El.
  2: { unfold rank_bottlenecks in El. by rewrite Ec in El. }
  exists l. split.
  { intros entries He. rewrite <- El. apply rank_canonical; [done|]. by rewrite He. }
  unfold rank_bottlenecks in El. rewrite Ec in El. cbn [mbind option_bind] in El.
  set (mb := all_measured es) in *. set (avg := if mb then _ else _) in *.
  set (l0 := sort_by rank_lt (rank_entry mb avg c <$> es)) in *.
  assert (rank_node_id <$> l0 ≡ₚ es.*1) as Hids.
  { unfold l0. rewrite sort_by_perm, <- list_fmap_compose.
    erewrite list_fmap_ext; [reflexivity|]. intros ? e _. apply rank_entry_id. }
  assert (l = imap with_rank l0) as -> by congruence. clear El Ec. split_and!.
  - rewrite <- Hids, fmap_imap. by rewrite <- (imap_const rank_node_id l0).
  - rewrite fmap_imap, length_imap. by rewrite <- imap_seq_0.
  - apply imap_sorted; [by intros ? ? ? ? Hab; exact Hab|]. apply sorted_above; [by rewrite Hids|].
    apply (sort_by_sorted (λ _, True) rank_lt). by apply Forall_true.
Qed.

(** ** Cold start *)

(** The same nodes and the same links; the measurements, names and edge numbers may differ. *)
Definition same_topology (g g' : CapabilityGraph) : Prop :=
  dom (nodes g) = dom (nodes g') ∧ (λ e, (from e, to_ e)) <$> edges g = (λ e, (from e, to_ e)) <$> edges g'.

Lemma const_nodes {A} (x : A) g g' : dom (nodes g) = dom (nodes g') →
  (λ _, x) <$> nodes g = (λ _, x) <$> nodes g'.
Proof.
  intros Hd. apply map_eq. intros k. rewrite !lookup_fmap.
  assert (k ∈ dom (nodes g) ↔ k ∈ dom (nodes g')) as Hk by (by rewrite Hd).
  rewrite !elem_of_dom in Hk. destruct (nodes g !! k), (nodes g' !! k); cbn; try done.
  - destruct (proj1 Hk); done.
  - destruct (proj2 Hk); done.
Qed.

Lemma size_nodes g g' : dom (nodes g) = dom (nodes g') → size (nodes g) = size (nodes g').
Proof. intros Hd. by rewrite <- !size_dom, Hd. Qed.

Lemma adjacency_topology g g' : same_topology g g' → adjacency_list g = adjacency_list g'.
Proof.
  intros [Hd He]. unfold adjacency_list. rewrite (const_nodes [] _ _ Hd).
  generalize ((λ _ : CapabilityNode, ([] : list string)) <$> nodes g'). revert He.
  generalize (edges g), (edges g'). clear. intros l. induction l as [|e l IH]; intros [|e' l'] He adj;
    try done. rewrite !fmap_cons in He. injection He as Hf Ht Hl. cbn [foldl]. rewrite Hf, Ht.
  by apply IH.
Qed.

Lemma from_source_topology g g' adj c s : dom (nodes g) = dom (nodes g') →
  from_source g adj c s = from_source g' adj c s.
Proof.
  intros Hd. unfold from_source, start_search.
  by rewrite (size_nodes _ _ Hd), !(const_nodes _ _ _ Hd).
Qed.

Lemma centrality_topology g g' keys : same_topology g g' →
  calculate_betweenness_centrality keys g = calculate_betweenness_centrality keys g'.
Proof.
  intros Ht. pose proof Ht as [Hd _]. unfold calculate_betweenness_centrality.
  rewrite (size_nodes _ _ Hd), (const_nodes _ _ _ Hd), (adjacency_topology _ _ Ht).
  assert (∀ adj c l, from_sources g adj c l = from_sources g' adj c l) as Hs.
  { intros adj c l. revert c. induction l as [|s l IH]; intros c; [done|]. cbn [from_sources].
    rewrite (from_source_topology g g' adj c s Hd). destruct (from_source g' adj c s); [|done].
    apply IH. }
  by rewrite Hs.
Qed.

(** What a ranking says of a node without its measurements. *)
Definition standing (r : BottleneckRank) : N * string * f64 * string :=
  (rank r, rank_node_id r, bottleneck_score r, causal_explanation r).

Definition standings (l : option (list BottleneckRank)) : option (list (N * string * f64 * string)) :=
  match l with Some l => Some (standing <$> l) | None => None end.

Definition structural (c : gmap string f64) (id : string) : string * f64 * string :=
  let v := default (f64_of_N 0) (c !! id) in (id, v, (score_of false (f64_of_N 1) v (Err (Fmt "" []))).2).

Lemma structural_entry avg c e : unranked (rank_entry false avg c e) = structural c e.1.
Proof. destruct e as [id n]. unfold rank_entry, structural, unranked, score_of. by destruct (scoring_inputs n) as [[]|]. Qed.

Lemma standing_of l : standing <$> imap with_rank l = imap (λ i u, (N.of_nat i + 1, u.1.1, u.1.2, u.2)%N) (unranked <$> l).
Proof. rewrite fmap_imap, imap_fmap. apply imap_ext. by intros i r _. Qed.

(** Cold start.  When in each of two graphs of the same shape some node has no measurement,
    their rankings agree in place, node, score and explanation, whatever the other nodes'
    measurements, their compatibility fields and the numbers on the edges are: a missing value
    is never read as a zero, and a partial set of measurements moves nothing. *)
Theorem cold_start_ranks_structure g g' entries entries' (Ht : same_topology g g')
  (He : entries ≡ₚ map_to_list (nodes g)) (He' : entries' ≡ₚ map_to_list (nodes g'))
  (Hm : all_measured entries = false) (Hm' : all_measured entries' = false) :
  standings (rank_bottlenecks entries g) = standings (rank_bottlenecks entries' g').
Proof.
  assert (entries.*1 ≡ₚ entries'.*1) as Hk.
  { rewrite He, He'. apply NoDup_Permutation; [apply NoDup_fst_map_to_list..|].
    intros k. destruct Ht as [Hd _]. rewrite !list_elem_of_fmap.
    assert (k ∈ dom (nodes g) ↔ k ∈ dom (nodes g')) as Hk by (by rewrite Hd).
    rewrite !elem_of_dom in Hk. split; intros ([? n] & -> & Hn%elem_of_map_to_list); cbn in *.
    - destruct (proj1 Hk) as [n' Hn']; [by exists n|]. exists (s, n'). by rewrite elem_of_map_to_list.
    - destruct (proj2 Hk) as [n' Hn']; [by exists n|]. exists (s, n'). by rewrite elem_of_map_to_list. }
  unfold rank_bottlenecks. rewrite Hm, Hm', (centrality_topology g g' _ Ht), (centrality_canonical g' _ _ Hk).
  destruct (calculate_betweenness_centrality _ _) as [c|]; [|done]. cbn [mbind option_bind standings].
  f_equal. rewrite !standing_of. f_equal.
  rewrite !(sort_by_map unranked rank_lt unranked_lt) by done. rewrite <- !list_fmap_compose.
  assert (∀ l, unranked ∘ rank_entry false (f64_of_N 1) c <$> l = structural c <$> (l.*1)) as Hl.
  { intros l. rewrite <- list_fmap_compose. apply list_fmap_ext. intros ? e _. apply structural_entry. }
  rewrite !Hl. apply (sort_by_canonical (λ _, True) unranked_lt); [by apply Forall_true|by rewrite Hk|].
  intros a b (i & -> & _)%list_elem_of_fmap (j & -> & _)%list_elem_of_fmap Hab Hba.
  assert (i = j) as ->; [|done]. unfold unranked_lt, structural in *. cbn in Hab, Hba.
  apply orb_false_elim in Hab as [H1%Z.ltb_ge H2], Hba as [H3%Z.ltb_ge H4].
  rewrite (proj2 (Z.eqb_eq _ _)) in H2 by lia. rewrite (proj2 (Z.eqb_eq _ _)) in H4 by lia.
  by apply str_lt_tie.
Qed.

(** ** Examples *)

Module GraphExamples.
Definition link (f t : string) : CapabilityGraph → CapabilityGraph :=
  add_edge f t (f64_of_N 2000) (f64_of_N 1).
Definition measured (median : f64) (n : CapabilityNode) : CapabilityNode :=
  match with_measured_latency median None (f64_of_N 0) 5 n with Ok n => n | Err _ => n end.
Definition three (a b c : CapabilityNode) : CapabilityGraph :=
  link "sched" "kv" (link "kv" "kernel" (add_node a (add_node b (add_node c empty_graph)))).
Definition sched := new_node "sched" "Inference Scheduler" "runtime".
Definition kv := new_node "kv" "KV Cache Allocator" "memory".
Definition kernel := new_node "kernel" "Balance Kernel" "compute".
Definition warm : CapabilityGraph :=
  three (measured (f64_of_N 500) sched) (measured (f64_of_N 2500) kv) (measured (f64_of_N 100) kernel).
Definition cold : CapabilityGraph :=
  three (measured (f64_of_N 90000) sched) kv (measured (f64_of_N 100) kernel).
Definition bare : CapabilityGraph := three sched kv (with_resource_metrics (f64_of_N 9) 1 (f64_of_N 1) kernel).
Definition entries (g : CapabilityGraph) := map_to_list (nodes g).
End GraphExamples.

Section Examples.
Import GraphExamples.

Example warm_ranking :
  option_map (map rank_node_id) (rank_bottlenecks (entries warm) warm) = Some ["kv"; "sched"; "kernel"].
Proof. vm_compute. reflexivity. Qed.

(** An edge to a missing node: the search indexes its distance and panics. *)
Example dangling_edge_panics :
  rank_bottlenecks (entries warm) (link "kernel" "nowhere" warm) = None.
Proof. vm_compute. reflexivity. Qed.

Lemma ranking_exact_witness :
  closed_edges warm
  ∧ ∃ l, rank_bottlenecks (reverse (entries warm)) warm = Some l ∧ StronglySorted above l.
Proof.
  assert (closed_edges warm) as Hc by (repeat constructor; vm_compute; eexists; reflexivity).
  split; [exact Hc|]. destruct (ranking_exact warm Hc) as (l & Hl & _ & _ & Hs).
  exists l. split; [|exact Hs]. apply Hl. apply reverse_Permutation.
Defined.

Lemma cold_start_ranks_structure_witness :
  standings (rank_bottlenecks (entries cold) cold) = standings (rank_bottlenecks (entries bare) bare).
Proof.
  apply (cold_start_ranks_structure cold bare (entries cold) (entries bare)); try reflexivity.
  split; [|reflexivity]. apply set_eq. intros k. unfold cold, bare, three, link. cbn.
  rewrite !dom_insert_L. set_solver.
Defined.
End Examples.
