(* ===== verification/Contract.v ===== *)
(** Hypotheses ([src/propose/hypothesis.rs]): what a cycle claims before it proposes a change,
    and the validation of the claim. *)

From S2P Require Import Prelude RustStd RustNum RustFloat Graph.
#[local] Open Scope string_scope.
#[local] Open Scope list_scope.

Record ProtectedMetric := { metric_name : string; max_allowed_degradation_pct : f64 }.

Definition EXPLORATORY_TARGET_METRIC : string := "structural_ranking".

Record HypothesisContract := {
  hypothesis_id : string;
  hypothesis_cycle_id : string;
  observed_problem : string;
  suspected_root_cause : string;
  target_metric : string;
  baseline_value : f64;
  predicted_delta_pct : f64;
  protected_metrics : list ProtectedMetric;
  falsification_test : string;
  confidence_score : f64
}.

Definition new_hypothesis (id cycle problem cause metric : string) (baseline delta : f64)
    : HypothesisContract :=
  {| hypothesis_id := id; hypothesis_cycle_id := cycle; observed_problem := problem;
     suspected_root_cause := cause; target_metric := metric; baseline_value := baseline;
     predicted_delta_pct := delta;
     protected_metrics :=
       [{| metric_name := "p95_latency"; max_allowed_degradation_pct := f64_of_N 1 |};
        {| metric_name := "p99_latency"; max_allowed_degradation_pct := f64_of_N 1 |};
        {| metric_name := "max_rss_kb"; max_allowed_degradation_pct := f64_of_N 2 |}];
     falsification_test := ""; confidence_score := f64_lit 85 2 |}.

Definition with_confidence (s : f64) (h : HypothesisContract) : HypothesisContract :=
  {| hypothesis_id := hypothesis_id h; hypothesis_cycle_id := hypothesis_cycle_id h;
     observed_problem := observed_problem h; suspected_root_cause := suspected_root_cause h;
     target_metric := target_metric h; baseline_value := baseline_value h;
     predicted_delta_pct := predicted_delta_pct h; protected_metrics := protected_metrics h;
     falsification_test := falsification_test h; confidence_score := s |}.

Definition exploratory (id cycle problem cause : string) : HypothesisContract :=
  with_confidence (f64_of_N 0)
    (new_hypothesis id cycle problem cause EXPLORATORY_TARGET_METRIC (f64_of_N 0) (f64_of_N 0)).

Definition from_bottleneck (id cycle : string) (b : BottleneckRank) (target_improvement_pct : f64)
    : HypothesisContract :=
  match rank_latency_median_us b with
  | Some median =>
    new_hypothesis id cycle
      (render (Fmt "Stage '{}' has measured median latency {} us (centrality={})"
         [rank_node_name b; fmt_fixed 1 median; fmt_fixed 4 (centrality b)]))
      (render (Fmt "Latency on '{}': {}" [rank_node_name b; causal_explanation b]))
      "latency_median_us" median target_improvement_pct
  | None =>
    exploratory id cycle
      (render (Fmt "Stage '{}' ranks first by structural position (centrality={}); no latency is measured"
         [rank_node_name b; fmt_fixed 4 (centrality b)]))
      (render (Fmt "Structural ranking: {}" [causal_explanation b]))
  end.

Definition is_exploratory (h : HypothesisContract) : bool :=
  bool_decide (target_metric h = EXPLORATORY_TARGET_METRIC).

Definition latency_claim (h : HypothesisContract) : option (f64 * f64) :=
  if is_exploratory h then None else Some (baseline_value h, predicted_delta_pct h).

Definition with_falsification_test (test : string) (h : HypothesisContract) : HypothesisContract :=
  {| hypothesis_id := hypothesis_id h; hypothesis_cycle_id := hypothesis_cycle_id h;
     observed_problem := observed_problem h; suspected_root_cause := suspected_root_cause h;
     target_metric := target_metric h; baseline_value := baseline_value h;
     predicted_delta_pct := predicted_delta_pct h; protected_metrics := protected_metrics h;
     falsification_test := test; confidence_score := confidence_score h |}.

Definition with_protected_metric (name : string) (pct : f64) (h : HypothesisContract)
    : HypothesisContract :=
  {| hypothesis_id := hypothesis_id h; hypothesis_cycle_id := hypothesis_cycle_id h;
     observed_problem := observed_problem h; suspected_root_cause := suspected_root_cause h;
     target_metric := target_metric h; baseline_value := baseline_value h;
     predicted_delta_pct := predicted_delta_pct h;
     protected_metrics := protected_metrics h
                          ++ [{| metric_name := name; max_allowed_degradation_pct := pct |}];
     falsification_test := falsification_test h; confidence_score := confidence_score h |}.

(** [a != 0.0], true of NaN. *)
Definition not_zero (a : f64) : bool := match a with S754_zero _ => false | _ => true end.

Definition validate (h : HypothesisContract) : result unit :=
  if trim_is_empty (observed_problem h) then
    fail "HypothesisContract must specify a non-empty observed_problem" []
  else if trim_is_empty (suspected_root_cause h) then
    fail "HypothesisContract must specify a non-empty suspected_root_cause" []
  else if trim_is_empty (target_metric h) then
    fail "HypothesisContract must specify a target_metric" []
  else if is_exploratory h then
    if not_zero (baseline_value h) || not_zero (predicted_delta_pct h) then
      fail "an exploratory HypothesisContract must carry no baseline and no predicted delta" []
    else Ok tt
  else if negb (is_finite (baseline_value h)) || negb (is_finite (predicted_delta_pct h)) then
    fail "HypothesisContract baseline and predicted delta must be finite" []
  else if f64_lt (f64_abs (predicted_delta_pct h)) (f64_lit 1 6) then
    fail "HypothesisContract predicted_delta_pct cannot be zero" []
  else if f64_lt (confidence_score h) (f64_of_N 0) || f64_gt (confidence_score h) (f64_of_N 1) then
    fail "HypothesisContract confidence_score must be in [0.0, 1.0]" []
  else Ok tt.

Definition line_break : string := String lf "".

Definition format_prompt_directive (h : HypothesisContract) : string :=
  let target := match latency_claim h with
    | Some (baseline, delta) =>
      render (Fmt "{} (Baseline: {}, Expected Improvement: {}%)"
        [target_metric h; fmt_fixed 2 baseline; fmt_fixed 1 delta])
    | None =>
      render (Fmt "{} (exploratory, no performance claim: no latency was measured)" [target_metric h])
    end in
  concat_all
    ["FALSIFIABLE HYPOTHESIS CONTRACT (ID: "; hypothesis_id h; "):"; line_break;
     "- Observed Problem: "; observed_problem h; line_break;
     "- Suspected Root Cause: "; suspected_root_cause h; line_break;
     "- Target Metric: "; target; line_break; "- Protected Non-Target Metrics:"; line_break]
  +:+ concat_all ((λ pm, concat_all ["  * "; metric_name pm; " <= +";
                      fmt_fixed 1 (max_allowed_degradation_pct pm); "% max degradation"; line_break])
                  <$> protected_metrics h)
  +:+ (if bool_decide (falsification_test h = "") then ""
       else concat_all ["- Falsification Condition: "; falsification_test h; line_break]).

(** ** What a hypothesis claims *)

Lemma claims_only_measured id cycle b pct :
  latency_claim (from_bottleneck id cycle b pct)
  = match rank_latency_median_us b with Some m => Some (m, pct) | None => None end.
Proof. unfold from_bottleneck. by destruct (rank_latency_median_us b). Qed.

(** A confidence that is not a number passes both comparisons. *)
Example nan_confidence_is_valid :
  validate (with_confidence S754_nan
    (new_hypothesis "h" "c" "problem" "cause" "latency_median_us" (f64_of_N 100) (f64_of_N 5))) = Ok tt.
Proof. vm_compute. reflexivity. Qed.
