(* ===== verification/Supervisor.v ===== *)
(** The host supervisor ([src/supervisor/mod.rs]): staging a generation, switching the active
    symlinks, launching and draining workers, and the early safety budgets.

    The file system is a map of files, a set of directories and a map of symbolic links, all by
    path text.  A system call that can fail does so when the caller says so ([fate]s); the text
    of the operating system's error is not modelled. *)

From S2P Require Import Prelude RustStd RustPath RustNum.
#[local] Open Scope string_scope.

Inductive GenerationState :=
  Staged | Starting | Ready | CanaryActive | Durable | Reverting | Reverted.

#[export] Instance GenerationState_eq_dec : EqDecision GenerationState.
Proof. solve_decision. Defined.

(** [format!("{:?}", state)]. *)
Definition state_debug (s : GenerationState) : string :=
  match s with
  | Staged => "Staged" | Starting => "Starting" | Ready => "Ready"
  | CanaryActive => "CanaryActive" | Durable => "Durable" | Reverting => "Reverting"
  | Reverted => "Reverted"
  end.

Record GenerationInfo := {
  generation_id : string;
  installed_path : string;
  manifest_digest : string;
  state : GenerationState;
  pid : option N;
  socket_path : option string;
  canary_transactions : N;
  canary_errors : N;
  max_latency_us : N;
  total_latency_us : N;
  staged_timestamp : string
}.

#[export] Instance GenerationInfo_eq_dec : EqDecision GenerationInfo.
Proof. solve_decision. Defined.

Definition set_state (s : GenerationState) (g : GenerationInfo) : GenerationInfo :=
  {| generation_id := generation_id g; installed_path := installed_path g;
     manifest_digest := manifest_digest g; state := s; pid := pid g;
     socket_path := socket_path g; canary_transactions := canary_transactions g;
     canary_errors := canary_errors g; max_latency_us := max_latency_us g;
     total_latency_us := total_latency_us g; staged_timestamp := staged_timestamp g |}.

Record HostSupervisor := {
  active_symlink : string;
  generations_root : string;
  memory_limit_mb : N
}.

(** [HostSupervisor::new]. *)
Definition new_supervisor (rsi_root : string) (memory_limit_mb : N) : HostSupervisor :=
  {| active_symlink := path_join rsi_root "active";
     generations_root := path_join rsi_root "generations";
     memory_limit_mb := memory_limit_mb |}.

(** ** File system *)

Record Fs := { files : gmap string string; dirs : gset string; links : gmap string string }.

(** The path a symbolic link leads to: a relative target is looked up from the directory that
    holds the link. *)
Definition link_destination (link target : string) : string :=
  if is_absolute target then target
  else path_join (default "" (path_parent link)) target.

(** A file or directory at [p] itself, no link followed. *)
Definition present (fs : Fs) (p : string) : bool :=
  bool_decide (p ∈ dirs fs) || bool_decide (is_Some (files fs !! p)).

(** [Path::exists]: the last component may be a link, and its target counts. *)
Definition exists_path (fs : Fs) (p : string) : bool :=
  present fs p
  || match links fs !! p with
     | Some t => present fs (link_destination p t)
     | None => false
     end.

Definition with_links (f : gmap string string → gmap string string) (fs : Fs) : Fs :=
  {| files := files fs; dirs := dirs fs; links := f (links fs) |}.

Definition create_dir (p : string) (fs : Fs) : Fs :=
  {| files := files fs; dirs := {[p]} ∪ dirs fs; links := links fs |}.

Definition under (dir p : string) : bool :=
  bool_decide (p = dir) || starts_with (dir +:+ "/") p.

(** [fs::remove_dir_all]: the directory and everything under it. *)
Definition remove_dir_all (dir : string) (fs : Fs) : Fs :=
  {| files := filter (λ kv, under dir kv.1 = false) (files fs);
     dirs := filter (λ p, under dir p = false) (dirs fs);
     links := filter (λ kv, under dir kv.1 = false) (links fs) |}.

(** The path [dir/rel]. *)
Definition child (dir rel : string) : string := dir +:+ "/" +:+ rel.

(** Where the entry [p] of the tree [src] is copied to. *)
Definition relocate (src dst p : string) : option string :=
  rel ← strip_prefix (src +:+ "/") p; Some (child dst rel).

(** [copy_dir_all]: every directory and file under [src] is created under [dst]; an existing
    file is overwritten.  The trees copied hold directories and files, no links. *)
Definition copy_dir_all (src dst : string) (fs : Fs) : result Fs :=
  if negb (bool_decide (src ∈ dirs fs)) then fail "{}" [src]
  else Ok {| files := list_to_map (omap (λ kv, (., kv.2) <$> relocate src dst kv.1)
                                        (map_to_list (files fs))) ∪ files fs;
             dirs := {[dst]} ∪ list_to_set (omap (relocate src dst) (elements (dirs fs)))
                     ∪ dirs fs;
             links := links fs |}.

(** ** Staging *)

Section Staging.
Context (sup : HostSupervisor).

Definition stage_generation (generation_id source_dir manifest_digest now : string)
    : M Fs GenerationInfo := λ fs,
  let dest := path_join (generations_root sup) generation_id in
  let fs := if exists_path fs dest then remove_dir_all dest fs else fs in
  let fs := create_dir dest fs in
  match copy_dir_all source_dir dest fs with
  | Err e => (fs, Err e)
  | Ok fs =>
    (fs, Ok {| generation_id := generation_id; installed_path := dest;
               manifest_digest := manifest_digest; state := Staged; pid := None;
               socket_path := None; canary_transactions := 0; canary_errors := 0;
               max_latency_us := 0; total_latency_us := 0; staged_timestamp := now |})
  end.

(** ** Switching links *)

(** The system call at which a link switch fails, if it does. *)
Inductive SwapFate := CreateDirFails | SymlinkFails | RenameFails | AllSucceed.

#[export] Instance SwapFate_eq_dec : EqDecision SwapFate.
Proof. solve_decision. Defined.

(** Create the link under a temporary name and rename it over [link]: the shared second half of
    [atomic_symlink_swap] and [switch_active_socket]. *)
Definition replace_link (fate : SwapFate) (parent link tmp_link target create_failed rename_failed
    : string) : M Fs unit := λ fs,
  if bool_decide (fate = CreateDirFails) then (fs, fail "{}" [parent])
  else
    let fs := create_dir parent fs in
    let fs := if exists_path fs tmp_link then with_links (delete tmp_link) fs else fs in
    if bool_decide (fate = SymlinkFails) || bool_decide (is_Some (links fs !! tmp_link))
       || present fs tmp_link
    then (fs, fail create_failed [])
    else
      let fs := with_links <[tmp_link := target]> fs in
      if bool_decide (fate = RenameFails) then (fs, fail rename_failed [])
      else (with_links (λ l, <[link := target]> (delete tmp_link l)) fs, Ok tt).

Definition atomic_symlink_swap (fate : SwapFate) (uuid generation_id : string) : M Fs unit := λ fs,
  let target_dir := path_join (generations_root sup) generation_id in
  if negb (exists_path fs target_dir)
  then (fs, fail "Target generation directory does not exist: {:?}" [target_dir])
  else match path_parent (active_symlink sup) with
  | None => (fs, fail "No parent dir for active symlink" [])
  | Some parent =>
    replace_link fate parent (active_symlink sup)
      (path_join parent (".active.tmp." +:+ uuid)) target_dir
      "Failed to create temporary symlink: {}" "Failed atomic symlink swap: {}" fs
  end.

Definition switch_active_socket (fate : SwapFate) (uuid active_socket_link target_socket : string)
    : M Fs unit := λ fs,
  match path_parent active_socket_link with
  | None => (fs, fail "No parent directory for active socket link" [])
  | Some parent =>
    replace_link fate parent active_socket_link
      (path_join parent (".active_sock.tmp." +:+ uuid)) target_socket
      "Failed to create temporary socket symlink: {}" "Failed atomic socket swap: {}" fs
  end.

Definition rollback_to_parent (fate sock_fate : SwapFate) (uuid sock_uuid parent_generation_id
    : string) (active_socket_link parent_socket : option string) : M Fs unit :=
  atomic_symlink_swap fate uuid parent_generation_id ≫= λ _,
  match active_socket_link, parent_socket with
  | Some active_sock, Some parent_sock =>
    switch_active_socket sock_fate sock_uuid active_sock parent_sock
  | _, _ => mret tt
  end.

(** ** Memory and early safety budgets *)

Section Budgets.
(** The files of [/proc] and the system page size ([sysconf]). *)
Context (proc : disk) (page_size_kb : N).

Definition check_unified_memory_mb (pid : N) : result N :=
  content ← read_file proc ("/proc/" +:+ dec pid +:+ "/statm")
              "Failed to read statm for pid {}: {}";
  match split_whitespace content with
  | _ :: resident :: _ =>
    match parse_uint u64_max resident with
    | None => fail "Failed to parse resident pages: {}" []
    | Some pages => Ok (wrap64 (pages * page_size_kb) / 1024)%N
    end
  | _ => fail "Malformed statm output" []
  end.

Definition is_memory_within_budget (pid : N) : result bool :=
  current_mb ← check_unified_memory_mb pid;
  Ok (current_mb <=? memory_limit_mb sup)%N.

(** The counters of one self-report, updated first, whatever the budgets say. *)
Definition count_transaction (success : bool) (latency_us : N) (g : GenerationInfo)
    : GenerationInfo :=
  {| generation_id := generation_id g; installed_path := installed_path g;
     manifest_digest := manifest_digest g; state := state g; pid := pid g;
     socket_path := socket_path g;
     canary_transactions := wrap64 (canary_transactions g + 1);
     canary_errors := if success then canary_errors g else wrap64 (canary_errors g + 1);
     max_latency_us := if (max_latency_us g <? latency_us)%N then latency_us
                       else max_latency_us g;
     total_latency_us := wrap64 (total_latency_us g + latency_us);
     staged_timestamp := staged_timestamp g |}.

Definition error_rate (g : GenerationInfo) : f64 :=
  f64_div (f64_of_N (canary_errors g)) (f64_of_N (canary_transactions g)).

Definition record_canary_transaction (success : bool) (latency_us max_latency : N)
    (max_error_rate : f64) : M GenerationInfo GenerationState := λ g,
  let g := count_transaction success latency_us g in
  if (0 <? max_latency)%N && (max_latency <? latency_us)%N
  then (set_state Reverting g,
        fail "Latency budget exceeded: {} us > {} us limit (transaction {})"
          [dec latency_us; dec max_latency; dec (canary_transactions g)])
  else if f64_gt (error_rate g) max_error_rate
  then (set_state Reverting g,
        fail "Error budget exceeded: {:.2}% errors ({}/{}) > {:.2}% limit"
          [dec (canary_errors g); dec (canary_transactions g)])
  else
    match pid g with
    | Some p =>
      match is_memory_within_budget p with
      | Ok true => (set_state CanaryActive g, Ok CanaryActive)
      | Ok false =>
        (set_state Reverting g,
         fail "Resource budget exceeded: PID {} exceeded {} MB limit"
           [dec p; dec (memory_limit_mb sup)])
      | Err read_err =>
        (set_state Reverting g,
         fail "Resource budget unreadable for PID {}, reverting: {}"
           [dec p; template read_err])
      end
    | None => (set_state CanaryActive g, Ok CanaryActive)
    end.
End Budgets.
End Staging.

(** ** Launching a worker *)

Definition WORKER_ENV_PASSTHROUGH : list string :=
  ["PATH"; "HOME"; "LANG"; "LC_ALL"; "TMPDIR"; "RUST_BACKTRACE"].
Definition WORKER_ENV_PREFIX : string := "RSI_CANARY_".

Definition env_allowed (key : string) : bool :=
  bool_decide (key ∈ WORKER_ENV_PASSTHROUGH) || starts_with WORKER_ENV_PREFIX key.

(** [vars] is [std::env::vars()] of the supervisor process. *)
Definition worker_environment (vars extra : list (string * string)) : list (string * string) :=
  List.filter (λ kv, env_allowed kv.1) vars ++ extra.

(** What [Command] hands to the operating system: after [env_clear], [cmd.env] sets one variable
    at a time, the last value for a key staying. *)
Record Launch := { program : string; argv : list string; environ : gmap string string }.

Definition command_env (entries : list (string * string)) : gmap string string :=
  foldl (λ m kv, <[kv.1 := kv.2]> m) ∅ entries.

(** [spawned] is the process id the operating system gives, or nothing when it refuses. *)
Definition spawn_worker_process (vars : list (string * string)) (spawned : option N)
    (executable : string) (args : list string) (sock : string) (env : list (string * string))
    : M GenerationInfo (Launch * N) := λ g,
  let launch := {| program := executable; argv := args ++ ["--socket"; sock];
                   environ := command_env (worker_environment vars env) |} in
  match spawned with
  | None => (g, fail "Failed to spawn worker executable {:?}: {}" [executable])
  | Some child =>
    ({| generation_id := generation_id g; installed_path := installed_path g;
        manifest_digest := manifest_digest g; state := Starting; pid := Some child;
        socket_path := Some sock; canary_transactions := canary_transactions g;
        canary_errors := canary_errors g; max_latency_us := max_latency_us g;
        total_latency_us := total_latency_us g; staged_timestamp := staged_timestamp g |},
     Ok (launch, child))
  end.

Definition spawn_worker (vars : list (string * string)) (spawned : option N)
    (executable : string) (args : list string) (sock : string) : M GenerationInfo N :=
  spawn_worker_process vars spawned executable args sock [] ≫= λ lc, mret lc.2.

(** ** Draining a parent *)

Inductive Signal := SIGQUIT | SIGKILL.

(** One turn of the polling loop: the time elapsed when the loop tests it, and whether the
    process is gone when it is probed.  The clock decides how many turns there are. *)
Definition poll := (N * bool)%type.

Fixpoint drain_loop (timeout : N) (polls : list poll) : list Signal :=
  match polls with
  | [] => [SIGKILL]
  | (elapsed, gone) :: polls =>
    if (elapsed <? timeout)%N then if gone then [] else drain_loop timeout polls else [SIGKILL]
  end.

(** The signals the process receives, in order. *)
Definition drain_parent (timeout : N) (polls : list poll) : list Signal :=
  SIGQUIT :: drain_loop timeout polls.
