(* ===== verification/SupervisorProps.v ===== *)
(** Properties of the host supervisor: link switching is atomic, staging copies exactly the
    source tree, the early budgets only ever revert or keep the canary active, and a worker's
    environment holds nothing but the allowlist, the canary namespace and the given entries. *)

From S2P Require Import Prelude RustStd RustPath RustNum Supervisor.
#[local] Open Scope string_scope.

(** ** Paths *)

Lemma get_last_app (a : string) :
  String.get (String.length a - 1) a = Some slash → ∃ a', a = a' +:+ String slash "".
Proof.
  induction a as [|x a IH]; simpl; [done|].
  destruct a as [|y a]; simpl.
  - intros [= ->]. by exists "".
  - intros H. destruct IH as [a' Ha]; [simpl; by rewrite Nat.sub_0_r|].
    exists (String x a'). by rewrite Ha.
Qed.

(** A plain file name is the last part of the path it is joined to. *)
Lemma path_join_last a b :
  contains_byte slash b = false → last (split_on slash (path_join a b)) = Some b.
Proof.
  intros Hb. unfold path_join.
  assert (has_root b = false) as ->.
  { destruct b as [|c b]; [done|]. unfold has_root.
    apply orb_false_elim in Hb as [Hc _]. guards.
    rewrite starts_with_cons, bool_decide_false; [done|]. intros <-. by apply Hc. }
  case_bool_decide; [by rewrite split_on_word|].
  assert (∀ s, last (split_on slash (s +:+ String slash b)) = Some b) as Hl.
  { intros s. rewrite split_on_app, last_app, split_on_word by done. done. }
  case_bool_decide as Hg; [|apply Hl].
  apply get_last_app in Hg as [a' ->]. rewrite <- str_app_assoc. apply Hl.
Qed.

(** ** Switching links *)

Lemma replace_link_spec fate parent link tmp target cf rf fs fs' r :
  link ≠ tmp → replace_link fate parent link tmp target cf rf fs = (fs', r) →
  (∀ l, l ≠ link → l ≠ tmp → links fs' !! l = links fs !! l) ∧
  files fs' = files fs ∧ dirs fs ⊆ dirs fs' ∧
  match r with
  | Ok _ => links fs' !! link = Some target
  | Err _ => links fs' !! link = links fs !! link
  end.
Proof.
  unfold replace_link. intros Hne.
  repeat case_match; intros [= <- <-]; subst; simpl; simplify_map_eq;
    repeat split; try done; try set_solver; intros; by simplify_map_eq.
Qed.

(** The path a link leads to after a successful switch. *)
Definition active_destination (sup : HostSupervisor) (fs : Fs) : option string :=
  link_destination (active_symlink sup) <$> links fs !! active_symlink sup.

Lemma swap_spec root limit fate uuid gen fs fs' r :
  contains_byte slash uuid = false →
  atomic_symlink_swap (new_supervisor root limit) fate uuid gen fs = (fs', r) →
  let sup := new_supervisor root limit in
  let target := path_join (generations_root sup) gen in
  (if is_ok r
   then exists_path fs target = true ∧ links fs' !! active_symlink sup = Some target
   else links fs' !! active_symlink sup = links fs !! active_symlink sup) ∧
  files fs' = files fs ∧ dirs fs ⊆ dirs fs' ∧
  (∀ l, l ≠ active_symlink sup →
        (∀ parent, path_parent (active_symlink sup) = Some parent →
                   l ≠ path_join parent (".active.tmp." +:+ uuid)) →
        links fs' !! l = links fs !! l).
Proof.
  intros Huuid Hrun. revert Hrun. unfold atomic_symlink_swap. simpl active_symlink.
  destruct (exists_path _ _) eqn:Hex; simpl; [|by intros [= <- <-]].
  destruct (path_parent _) as [parent|] eqn:Hp; [|by intros [= <- <-]].
  intros Hrun. apply replace_link_spec in Hrun as (Hothers & Hfiles & Hdirs & Hr).
  - destruct r; simpl; repeat split; eauto.
  - intros Heq. apply (f_equal (λ p, last (split_on slash p))) in Heq.
    rewrite !path_join_last in Heq by (simpl; done). discriminate.
Qed.

(** Whatever system call fails, switching the active generation leaves the active link either as it was or pointing at the new generation directory, and it points there exactly when the call succeeds; no file, directory or other link but the temporary one is touched. *)
Theorem symlink_swap_atomic (root : string) (limit : N) (fate : SwapFate) (uuid gen : string)
    (fs fs' : Fs) (r : result unit)
    (Huuid : contains_byte slash uuid = false)
    (Hrun : atomic_symlink_swap (new_supervisor root limit) fate uuid gen fs = (fs', r)) :
  let sup := new_supervisor root limit in
  let target := path_join (generations_root sup) gen in
  (if is_ok r
   then exists_path fs target = true ∧ links fs' !! active_symlink sup = Some target
   else links fs' !! active_symlink sup = links fs !! active_symlink sup) ∧
  files fs' = files fs ∧ dirs fs ⊆ dirs fs' ∧
  (∀ l, l ≠ active_symlink sup →
        (∀ parent, path_parent (active_symlink sup) = Some parent →
                   l ≠ path_join parent (".active.tmp." +:+ uuid)) →
        links fs' !! l = links fs !! l).
Proof. exact (swap_spec root limit fate uuid gen fs fs' r Huuid Hrun). Qed.

(** ** Staging *)

Lemma child_strip dir rel p : strip_prefix (dir +:+ "/") p = Some rel ↔ p = child dir rel.
Proof. unfold child. by rewrite strip_prefix_some, <- str_app_assoc. Qed.

Lemma child_inj dir rel rel' : child dir rel = child dir rel' → rel = rel'.
Proof. unfold child. by intros ?%str_app_inj_l%str_app_inj_l. Qed.

Lemma relocate_some src dst p q :
  relocate src dst p = Some q ↔ ∃ rel, p = child src rel ∧ q = child dst rel.
Proof.
  unfold relocate. destruct (strip_prefix (src +:+ "/") p) as [rel|] eqn:Hp; simpl; split.
  - intros [= <-]. apply child_strip in Hp. eauto.
  - intros (rel' & Hp' & ->). apply child_strip in Hp'. congruence.
  - done.
  - intros (rel' & Hp' & ->). apply child_strip in Hp'. congruence.
Qed.

Lemma under_spec dir p :
  under dir p = true ↔ p = dir ∨ ∃ rel, p = child dir rel.
Proof.
  unfold under, child. rewrite orb_true_iff, bool_decide_eq_true, starts_with_iff.
  by setoid_rewrite <- str_app_assoc.
Qed.

Lemma under_child dir rel : under dir (child dir rel) = true.
Proof. apply under_spec. eauto. Qed.

Lemma relocate_inj src dst p p' q :
  relocate src dst p = Some q → relocate src dst p' = Some q → p = p'.
Proof.
  intros (rel & -> & ->)%relocate_some (rel' & -> & ->%child_inj)%relocate_some. done.
Qed.

(** Two directories that share a path below them are nested. *)
Lemma prefixes_nested a b x y :
  child a x = child b y → under a b = true ∨ under b a = true.
Proof.
  rewrite !under_spec. unfold child. revert b. induction a as [|c a IH]; intros [|d b]; simpl.
  - auto.
  - intros [= <- ->]. left; right. eauto.
  - intros [= -> <-]. right; right. eauto.
  - intros [= <- [[->|[rel ->]]|[->|[rel ->]]]%IH]; simpl; eauto 6.
Qed.

(** The files a copy creates, by the path they are created at. *)
Lemma copied_lookup src dst (m : gmap string string) rel :
  (list_to_map (omap (λ kv, (., kv.2) <$> relocate src dst kv.1) (map_to_list m))
     : gmap string string) !! (child dst rel) = m !! (child src rel).
Proof.
  set (l := omap _ _).
  assert (∀ q c, (q, c) ∈ l ↔ ∃ p, relocate src dst p = Some q ∧ m !! p = Some c) as Hl.
  { intros q c. unfold l. rewrite list_elem_of_omap. split.
    - intros ([p c'] & Hin%elem_of_map_to_list & Heq). simpl in Heq.
      destruct (relocate src dst p) eqn:Hr; [|done]. naive_solver.
    - intros (p & Hr & Hm). exists (p, c). rewrite elem_of_map_to_list. simpl.
      by rewrite Hr. }
  assert (∀ q c c', (q, c) ∈ l → (q, c') ∈ l → c = c') as Hfun.
  { intros q c c' (p & Hr & Hm)%Hl (p' & Hr' & Hm')%Hl.
    assert (p = p') as -> by eauto using relocate_inj. congruence. }
  apply option_eq. intros c. split.
  - intros Hc. apply elem_of_list_to_map_2, Hl in Hc as (p & (rel' & -> & ->%child_inj)%relocate_some & Hm).
    done.
  - intros Hm. apply elem_of_list_to_map_1'.
    + intros c' Hc'. symmetry. eapply Hfun; [exact Hc'|]. apply Hl.
      exists (child src rel). split; [|done]. apply relocate_some. eauto.
    + apply Hl. exists (child src rel). split; [|done]. apply relocate_some. eauto.
Qed.

Lemma copied_lookup_outside src dst (m : gmap string string) q :
  under dst q = false →
  (list_to_map (omap (λ kv, (., kv.2) <$> relocate src dst kv.1) (map_to_list m))
     : gmap string string) !! q = None.
Proof.
  intros Hq. apply not_elem_of_list_to_map_1. intros Hin.
  apply list_elem_of_fmap in Hin as ([q' c] & -> & ([p c'] & _ & Heq)%list_elem_of_omap).
  simpl in *. destruct (relocate src dst p) eqn:Hr; [|done]. injection Heq as -> ->.
  apply relocate_some in Hr as (rel & _ & ->).
  by rewrite under_child in Hq.
Qed.

(** The trees the file system holds are connected: a file is inside a directory. *)
Definition fs_connected (fs : Fs) (dir : string) : Prop :=
  ∀ rel c, files fs !! (child dir rel) = Some c → dir ∈ dirs fs.

(** Staging installs exactly the source tree: under the generation directory every file is the source file of the same relative path and there is no other, every file outside is untouched, and the new record is [Staged] with no process and zero counters. *)
Theorem stage_generation_exact (sup : HostSupervisor) (gen src digest now : string)
    (fs fs' : Fs) (g : GenerationInfo)
    (Hsep : under (path_join (generations_root sup) gen) src = false)
    (Hsep' : under src (path_join (generations_root sup) gen) = false)
    (Hconn : fs_connected fs (path_join (generations_root sup) gen))
    (Hrun : stage_generation sup gen src digest now fs = (fs', Ok g)) :
  let dest := path_join (generations_root sup) gen in
  (∀ rel, files fs' !! (child dest rel) = files fs !! (child src rel)) ∧
  (∀ p, under dest p = false → files fs' !! p = files fs !! p) ∧
  dest ∈ dirs fs' ∧
  generation_id g = gen ∧ installed_path g = dest ∧ state g = Staged ∧ pid g = None ∧
  canary_transactions g = 0%N ∧ canary_errors g = 0%N.
Proof.
  revert Hrun. unfold stage_generation, copy_dir_all. simpl.
  set (dest := path_join (generations_root sup) gen) in *. clearbody dest.
  set (fs1 := if exists_path fs dest then _ else _).
  destruct (negb _); [done|]. intros [= <- <-]. simpl.
  assert (∀ p, under dest p = false → files fs1 !! p = files fs !! p) as Hout.
  { intros p Hp. unfold fs1. destruct (exists_path fs dest); [|done]. simpl.
    destruct (files fs !! p) eqn:Hf.
    - by apply map_lookup_filter_Some_2.
    - apply map_lookup_filter_None_2. by left. }
  assert (∀ rel, files fs1 !! (child dest rel) = None) as Hin.
  { intros rel. pose proof (under_child dest rel) as Hu. unfold fs1. destruct (exists_path fs dest) eqn:Hex.
    - apply map_lookup_filter_None_2. right. simpl. intros ? _. congruence.
    - destruct (files fs !! _) eqn:Hf; [|done]. apply Hconn in Hf.
      unfold exists_path, present in Hex. rewrite bool_decide_true in Hex by done. done. }
  assert (∀ rel, under dest (child src rel) = false) as Hsrc.
  { intros rel. destruct (under dest (child src rel)) eqn:Hu; [|done]. exfalso.
    apply under_spec in Hu as [Heq|(rel' & Heq)].
    - assert (under src dest = true) by (apply under_spec; eauto). congruence.
    - destruct (prefixes_nested _ _ _ _ Heq); congruence. }
  split; [|split].
  - intros rel. rewrite lookup_union, copied_lookup, Hin, Hout by apply Hsrc. by destruct (files fs !! _).
  - intros p Hp. rewrite lookup_union, copied_lookup_outside, Hout by done.
    by destruct (files fs !! _).
  - repeat split; set_solver.
Qed.

(** ** Early safety budgets *)

Section Budgets.
Context (sup : HostSupervisor) (proc : disk) (page_size_kb : N).

(** Every budget holds for the counters [g] after a report with this latency. *)
Definition within_budgets (latency_us max_latency : N) (max_error_rate : f64) (g : GenerationInfo)
    : Prop :=
  (max_latency = 0%N ∨ (latency_us <= max_latency)%N) ∧
  f64_gt (error_rate g) max_error_rate = false ∧
  ∀ p, pid g = Some p → is_memory_within_budget sup proc page_size_kb p = Ok true.

(** A worker's report keeps the canary active exactly when latency, error rate and a readable memory figure are all within budget, and otherwise marks it reverting and returns an error; whatever is reported, the counters are updated and the generation never becomes durable. *)
Theorem canary_report_cautious (success : bool) (latency_us max_latency : N) (max_error_rate : f64)
    (g g' : GenerationInfo) (r : result GenerationState)
    (Hrun : record_canary_transaction sup proc page_size_kb success latency_us max_latency
              max_error_rate g = (g', r)) :
  let counted := count_transaction success latency_us g in
  g' = set_state (if is_ok r then CanaryActive else Reverting) counted ∧
  (is_ok r = true ↔ within_budgets latency_us max_latency max_error_rate counted) ∧
  (∀ s, r = Ok s → s = CanaryActive).
Proof.
  revert Hrun. unfold record_canary_transaction, within_budgets. simpl.
  set (c := count_transaction success latency_us g).
  change (pid g) with (pid c). clearbody c.
  destruct (_ && _) eqn:Hl; [|destruct (f64_gt _ _) eqn:He; [|destruct (pid c) as [p|] eqn:Hp;
    [destruct (is_memory_within_budget _ _ _ p) as [[]|] eqn:Hm|]]];
    intros [= <- <-]; simpl;
    (split; [done|split; [|by intros ? [= <-]]]);
    apply andb_true_iff in Hl || apply andb_false_iff in Hl;
    rewrite ?N.ltb_lt, ?N.ltb_ge in Hl; split; try done.
  all: try (intros (? & ? & Hmem); first [lia | congruence | specialize (Hmem _ eq_refl); congruence]).
  all: intros _; split_and!; try done; try lia; intros; congruence.
Qed.
End Budgets.

(** ** The worker's environment *)

Lemma command_env_lookup entries k v :
  command_env entries !! k = Some v → (k, v) ∈ entries.
Proof.
  unfold command_env. induction entries as [|[k' v'] l IH] using rev_ind; [done|].
  rewrite foldl_app, elem_of_app. simpl. intros Hk. rewrite list_elem_of_singleton.
  apply lookup_insert_Some in Hk as [[-> ->]|[_ Hk]]; auto.
Qed.

Lemma command_env_app l l' k :
  k ∈ l'.*1 → command_env (l ++ l') !! k = command_env l' !! k.
Proof.
  unfold command_env. rewrite foldl_app.
  assert (∀ (m m' : gmap string string), k ∈ l'.*1 ∨ m !! k = m' !! k →
    foldl (λ m kv, <[kv.1:=kv.2]> m) m l' !! k = foldl (λ m kv, <[kv.1:=kv.2]> m) m' l' !! k)
    as Hgen; [|intros; apply Hgen; auto].
  induction l' as [|[k' v'] l' IH]; simpl; intros m m' Hk.
  - destruct Hk as [Hk|]; [by apply not_elem_of_nil in Hk|done].
  - apply IH. rewrite elem_of_cons in Hk.
    destruct (decide (k = k')) as [->|]; [right; by simplify_map_eq|].
    destruct Hk as [[|]|]; [done|by left|right; by simplify_map_eq].
Qed.

(** A worker is launched with the given program and arguments followed by its socket, and every variable it sees is one of the given entries (which win over inherited ones) or is inherited from the supervisor under an allowlisted name or the canary prefix, so no other secret of the daemon reaches it. *)
Theorem worker_environment_isolated (vars env : list (string * string)) (spawned : option N)
    (executable : string) (args : list string) (sock : string) (g g' : GenerationInfo)
    (launch : Launch) (child : N)
    (Hrun : spawn_worker_process vars spawned executable args sock env g
            = (g', Ok (launch, child))) :
  (∀ k v, environ launch !! k = Some v →
     (k, v) ∈ env ∨ (env_allowed k = true ∧ (k, v) ∈ vars)) ∧
  (∀ k, k ∈ env.*1 → environ launch !! k = command_env env !! k) ∧
  program launch = executable ∧ argv launch = (args ++ ["--socket"; sock])%list ∧
  state g' = Starting ∧ pid g' = Some child ∧ generation_id g' = generation_id g.
Proof.
  revert Hrun. unfold spawn_worker_process. destruct spawned as [c|]; [|done].
  intros [= <- <- <-]. simpl. split; [|split; [|done]].
  - intros k v Hk. apply command_env_lookup in Hk. unfold worker_environment in Hk.
    apply elem_of_app in Hk as [Hk|Hk]; [right|by left].
    rewrite list_elem_of_In in Hk. apply filter_In in Hk as [? ?].
    by rewrite list_elem_of_In.
  - intros k Hk. by apply command_env_app.
Qed.

(** ** Relative roots *)

(** With an absolute root, the active link a successful switch leaves leads to a directory that
    is there. *)
Lemma swap_absolute_resolves root limit uuid gen fs fs' :
  is_absolute (path_join (path_join root "generations") gen) = true →
  contains_byte slash uuid = false →
  present fs (path_join (path_join root "generations") gen) = true →
  atomic_symlink_swap (new_supervisor root limit) AllSucceed uuid gen fs = (fs', Ok tt) →
  active_destination (new_supervisor root limit) fs'
  = Some (path_join (path_join root "generations") gen).
Proof.
  intros Habs Hu Hp Hrun. apply swap_spec in Hrun as [[_ Hl] _]; [|done].
  unfold active_destination. rewrite Hl. simpl. unfold link_destination. by rewrite Habs.
Qed.

Module SupervisorExample.
Definition fs0 : Fs :=
  {| files := {["/b/out/bin/worker" := "ELF"; "/b/out/model" := "weights";
                "/r/generations/g1/old" := "stale"]};
     dirs := {["/b/out"; "/b/out/bin"; "/r"; "/r/generations"; "/r/generations/g1"]};
     links := {["/r/active" := "/r/generations/g0"]} |}.
Definition sup : HostSupervisor := new_supervisor "/r" 100.
Definition staged := stage_generation sup "g1" "/b/out" "d" "now" fs0.
Definition fs1 : Fs := staged.1.
Definition swapped := atomic_symlink_swap sup AllSucceed "u1" "g1" fs1.
Definition g1 : GenerationInfo :=
  {| generation_id := "g1"; installed_path := "/r/generations/g1"; manifest_digest := "d";
     state := Ready; pid := Some 7%N; socket_path := None; canary_transactions := 3%N;
     canary_errors := 0%N; max_latency_us := 5%N; total_latency_us := 10%N;
     staged_timestamp := "now" |}.
Definition proc : disk := {["/proc/7/statm" := "5000 2560 300"]}.
Definition vars : list (string * string) :=
  [("PATH", "/bin"); ("SUPERVISOR_SECRET", "s"); ("RSI_CANARY_MODE", "slow")].
End SupervisorExample.
Import SupervisorExample.

Lemma symlink_swap_atomic_witness :
  links swapped.1 !! "/r/active" = Some "/r/generations/g1".
Proof.
  assert (atomic_symlink_swap sup AllSucceed "u1" "g1" fs1 = (swapped.1, Ok tt)) as Hrun
    by (vm_compute; reflexivity).
  assert (contains_byte slash "u1" = false) as Hu by reflexivity.
  exact (proj2 (proj1 (symlink_swap_atomic "/r" 100 AllSucceed "u1" "g1" fs1 swapped.1 _ Hu Hrun))).
Defined.

Lemma stage_generation_exact_witness :
  files fs1 !! "/r/generations/g1/bin/worker" = Some "ELF" ∧
  files fs1 !! "/r/generations/g1/old" = None.
Proof.
  assert (is_ok staged.2 = true) as Hok by (vm_compute; reflexivity).
  destruct staged as [fs' [g|]] eqn:Hrun; [|discriminate].
  assert (fs1 = fs') as -> by (unfold fs1; by rewrite Hrun).
  destruct (stage_generation_exact sup "g1" "/b/out" "d" "now" fs0 fs' g) as [Hin _].
  - reflexivity.
  - reflexivity.
  - intros rel c _. refine (bool_decide_unpack _ _). by vm_compute.
  - exact Hrun.
  - split.
    + exact (eq_trans (Hin "bin/worker") ltac:(vm_compute; reflexivity)).
    + exact (eq_trans (Hin "old") ltac:(vm_compute; reflexivity)).
Defined.

Lemma canary_report_cautious_witness :
  state (record_canary_transaction sup proc 4 true 9 100 (f64_of_N 0) g1).1 = CanaryActive ∧
  state (record_canary_transaction sup proc 4 false 9 100 (f64_of_N 0) g1).1 = Reverting.
Proof.
  split.
  - destruct (record_canary_transaction _ _ _ _ _ _ _ _) as [g' r] eqn:Hrun.
    assert (is_ok r = true) as Hok by (revert Hrun; vm_compute; by intros [= <- <-]).
    destruct (canary_report_cautious sup proc 4 true 9 100 (f64_of_N 0) g1 g' r Hrun) as [-> _].
    by rewrite Hok.
  - destruct (record_canary_transaction _ _ _ _ _ _ _ _) as [g' r] eqn:Hrun.
    assert (is_ok r = false) as Hok by (revert Hrun; vm_compute; by intros [= <- <-]).
    destruct (canary_report_cautious sup proc 4 false 9 100 (f64_of_N 0) g1 g' r Hrun) as [-> _].
    by rewrite Hok.
Defined.

Lemma worker_environment_isolated_witness :
  ∃ launch g', spawn_worker_process vars (Some 8%N) "/w" [] "/s" [("SUPERVISOR_SECRET", "run")] g1
    = (g', Ok (launch, 8%N)) ∧
  environ launch !! "SUPERVISOR_SECRET" = Some "run".
Proof.
  eexists _, _. split; [reflexivity|].
  edestruct (worker_environment_isolated vars [("SUPERVISOR_SECRET", "run")] (Some 8%N) "/w" []
    "/s" g1) as [_ [Hwin _]]; [reflexivity|].
  rewrite Hwin; [by vm_compute|]. by left.
Defined.

(** With a relative root, the supervisor binary's default [.rsi], a successful switch dangles.  The link is created
    with the relative target [.rsi/generations/<id>] inside [.rsi], so it leads to
    [.rsi/.rsi/generations/<id>], which is not there: the switch reports success and leaves a
    dangling link. *)
Theorem relative_root_dangles :
  let sup := new_supervisor ".rsi" 100 in
  let fs := {| files := ∅; dirs := {[".rsi"; ".rsi/generations"; ".rsi/generations/g1"]};
               links := ∅ |} in
  let '(fs', r) := atomic_symlink_swap sup AllSucceed "u1" "g1" fs in
  r = Ok tt ∧ active_destination sup fs' = Some ".rsi/.rsi/generations/g1" ∧
  exists_path fs' (active_symlink sup) = false.
Proof. vm_compute. done. Qed.
