(* ===== verification/Digest.v ===== *)
(** SHA-256 digests: hex text, length-prefixed fields and domain separation
    ([src/canary/mod.rs], [put_field] of [src/evaluator/mod.rs]).

    SHA-256 itself comes from the [sha2] crate: it is a parameter, a function on byte strings
    whose output has 32 bytes.  Where a theorem needs that distinct inputs do not collide it
    says for which inputs ([no_collision]); nothing assumes that SHA-256 is injective. *)

From S2P Require Import Prelude RustStd.
#[local] Open Scope string_scope.

Class Sha256 := sha256 : string → string.
Class Sha256Len `{Sha256} := sha256_length : ∀ b, String.length (sha256 b) = 32%nat.

Section Digest.
Context `{Sha256}.

(** [hex::encode(Sha256::digest(bytes))]. *)
Definition sha256_hex (bytes : string) : string := hex_encode (sha256 bytes).

(** The bytes [put_field] feeds to the hasher: the length as a little-endian [u64], then the
    bytes. *)
Definition put_field (bytes : string) : string :=
  to_le_bytes (N.of_nat (String.length bytes)) +:+ bytes.

Definition put_fields (fields : list string) : string :=
  foldr (λ f acc, put_field f +:+ acc) "" fields.

Definition domain_preimage (domain : string) (fields : list string) : string :=
  put_field domain +:+ put_fields fields.

Definition domain_digest (domain : string) (fields : list string) : string :=
  sha256_hex (domain_preimage domain fields).

Definition is_hex_digest (s : string) : bool :=
  (String.length s =? 64)%nat && all_bytes is_hex_byte s.

(** No two different byte strings of [xs] hash to the same digest. *)
Definition no_collision (xs : list string) : Prop :=
  Forall (λ a, Forall (λ b, sha256 a = sha256 b → a = b) xs) xs.

#[export] Instance no_collision_dec xs : Decision (no_collision xs).
Proof. apply _. Defined.

Lemma no_collision_elim xs a b :
  no_collision xs → a ∈ xs → b ∈ xs → sha256 a = sha256 b → a = b.
Proof. unfold no_collision. rewrite Forall_forall. setoid_rewrite Forall_forall. eauto. Qed.

Lemma no_collision_same a : no_collision [a; a].
Proof. repeat constructor. Qed.

Lemma sha256_hex_inj xs a b :
  no_collision xs → a ∈ xs → b ∈ xs → sha256_hex a = sha256_hex b → a = b.
Proof. intros Hn Ha Hb Heq%hex_encode_inj. eauto using no_collision_elim. Qed.

Lemma sha256_hex_is_hex `{!Sha256Len} b : is_hex_digest (sha256_hex b) = true.
Proof.
  unfold is_hex_digest, sha256_hex.
  by rewrite hex_encode_length, sha256_length, hex_encode_hex.
Qed.

(** A hex digest contains no control byte, so it is safe in file names and lines. *)
Lemma is_hex_digest_no_byte c s :
  is_hex_digest s = true → is_hex_byte (N_of_ascii c) = false → contains_byte c s = false.
Proof. intros [_ Hs]%andb_prop Hc. by eapply contains_byte_all. Qed.

(** *** The length prefix separates the fields *)

Definition field_ok (f : string) : Prop := (N.of_nat (String.length f) <= u64_max)%N.

Lemma put_field_inj f g a b :
  field_ok f → field_ok g → put_field f +:+ a = put_field g +:+ b → f = g ∧ a = b.
Proof.
  unfold put_field. intros Hf Hg. rewrite <- !str_app_assoc. intros Heq.
  apply str_app_inj_len in Heq as [Hl Heq]; [|unfold to_le_bytes; by rewrite !le_bytes_length].
  apply to_le_bytes_inj in Hl; [|done..].
  apply str_app_inj_len in Heq; [done|]. lia.
Qed.

Lemma put_field_nonempty f a : put_field f +:+ a ≠ "".
Proof. unfold put_field, to_le_bytes. by simpl. Qed.

Lemma put_fields_inj l l' :
  Forall field_ok l → Forall field_ok l' → put_fields l = put_fields l' → l = l'.
Proof.
  intros Hl; revert l'; induction Hl as [|f l Hf Hl IH]; intros [|f' l'] Hl'; simpl.
  - done.
  - intros Heq. by destruct (put_field_nonempty f' (put_fields l')).
  - intros Heq. by destruct (put_field_nonempty f (put_fields l)).
  - decompose_Forall_hyps. intros Heq.
    apply put_field_inj in Heq as [-> Heq]; [|done..]. f_equal. by apply IH.
Qed.

Lemma domain_preimage_inj d d' l l' :
  field_ok d → field_ok d' → Forall field_ok l → Forall field_ok l' →
  domain_preimage d l = domain_preimage d' l' → d = d' ∧ l = l'.
Proof.
  unfold domain_preimage. intros Hd Hd' Hl Hl' Heq.
  apply put_field_inj in Heq as [-> Heq]; [|done..].
  split; [done|]. by apply put_fields_inj.
Qed.

Lemma put_fields_app l l' : put_fields (l ++ l') = put_fields l +:+ put_fields l'.
Proof.
  induction l as [|f l IH]; simpl; [done|]. by rewrite IH, str_app_assoc.
Qed.

End Digest.

(** A concrete function to instantiate [Sha256] in examples: a polynomial checksum spread over
    32 bytes.  It is not SHA-256. *)
Module Checksum.
Definition mask : N := Eval vm_compute in (2 ^ 48 - 1)%N.
Fixpoint poly (s : string) (acc : N) : N :=
  match s with
  | EmptyString => acc
  | String b s' =>
    poly s' (N.land (33 * acc + N_of_ascii b) mask)
  end.
Definition hash (s : string) : string := le_bytes 32 (poly s 7).
#[global] Instance sha : Sha256 := hash.
#[global] Instance sha_len : Sha256Len.
Proof. intros b. apply le_bytes_length. Qed.
End Checksum.
