(* ===== verification/Measure.v ===== *)
(** Stage measurement ([src/measure/]): stage clocks, the sample log, the execution profile, the
    percentile, the choice of samples and the pipeline graph, and the claim policy.

    The platform's answers (cores, memory, GPU, git) are inputs.  Messages that print a binary64
    in its shortest form carry the other values only.  The JSON reader and writer of a record
    are parameters ([RecordCodec]). *)

From S2P Require Import Prelude RustStd RustNum RustFloat Sorting Stats Digest Graph.
#[local] Open Scope string_scope.
#[local] Open Scope list_scope.

Definition SCHEMA_VERSION : N := 2.

(** ** Stages *)

Inductive Stage :=
  | Observe | Propose | BuildJail | JudgeEvaluation | SupervisorCanary | CortexCommit.
#[export] Instance Stage_eq_dec : EqDecision Stage.
Proof. solve_decision. Defined.

Definition all_stages : list Stage :=
  [Observe; Propose; BuildJail; JudgeEvaluation; SupervisorCanary; CortexCommit].

Definition stage_id (s : Stage) : string :=
  match s with
  | Observe => "Observe" | Propose => "Propose" | BuildJail => "BuildJail"
  | JudgeEvaluation => "JudgeEvaluation" | SupervisorCanary => "SupervisorCanary"
  | CortexCommit => "CortexCommit"
  end.

Inductive StageOutcome := StageOk | StageRefused | StageFailed.
#[export] Instance StageOutcome_eq_dec : EqDecision StageOutcome.
Proof. solve_decision. Defined.

(** The derived order: [Failed] over [Refused] over [Ok]. *)
Definition severity (o : StageOutcome) : N :=
  match o with StageOk => 0 | StageRefused => 1 | StageFailed => 2 end.
Definition worst (a b : StageOutcome) : StageOutcome :=
  if (severity a <=? severity b)%N then b else a.

Record StageSample := {
  stage : Stage;
  duration_us : N;
  outcome : StageOutcome;
  canary_protocol_version : option N
}.

(** ** The execution profile *)

Record ExecutionConfig := {
  model_url : string;
  holdouts_dir : string;
  canary_target : N;
  cortex_url : string;
  cortex_space : string;
  ratify_roots : list string
}.

(** The fields of [RsiConfig] that are read here. *)
Record RsiConfig := {
  cfg_model_url : string;
  cfg_model_id : string;
  cfg_rsi_root : string;
  cfg_holdouts_dir : option string;
  cfg_canary_target : N;
  cfg_cortex_url : string;
  cfg_cortex_space : string;
  cfg_ratify_roots : list string;
  measure_min_samples : N;
  measure_window_cycles : N;
  measure_p95_min_samples : N
}.

(** [Vec::dedup]. *)
Fixpoint dedup (l : list string) : list string :=
  match l with
  | [] => []
  | a :: l' =>
    match l' with
    | b :: _ => if bool_decide (a = b) then dedup l' else a :: dedup l'
    | [] => [a]
    end
  end.

Definition from_config (c : RsiConfig) : ExecutionConfig :=
  {| model_url := cfg_model_url c;
     holdouts_dir := default (cfg_rsi_root c +:+ "/holdouts") (cfg_holdouts_dir c);
     canary_target := cfg_canary_target c; cortex_url := cfg_cortex_url c;
     cortex_space := cfg_cortex_space c;
     ratify_roots := dedup (sort_strings (cfg_ratify_roots c)) |}.

Definition nl : string := String lf "".

(** [roots.join(",")]. *)
Definition comma : ascii := ascii_of_N 44.
Definition canonical (c : ExecutionConfig) : string :=
  concat_all ["model_url="; model_url c; nl; "holdouts_dir="; holdouts_dir c; nl;
              "canary_target="; dec (canary_target c); nl; "cortex_url="; cortex_url c; nl;
              "cortex_space="; cortex_space c; nl;
              "ratify_roots="; join_with comma (ratify_roots c); nl].

Record ExecutionProfile := {
  model : string;
  execution_config : ExecutionConfig;
  cpu_count : option N;
  memory_total_kib : option N;
  gpu : string
}.

Definition opt (v : option N) : string := match v with Some n => dec n | None => "unknown" end.

(** What the platform answers. *)
Record Platform := { cores : option N; meminfo : option string; gpu_names : option string }.

(** The value of [MemTotal] in the text of /proc/meminfo. *)
Definition read_mem_total_kib (text : option string) : option N :=
  text ← text;
  line ← List.find (starts_with "MemTotal:") (str_lines text);
  w ← split_whitespace line !! 1%nat;
  parse_uint u64_max w.

(** The bytes nvidia-smi printed, or nothing when it is absent, failed or was too slow.  Bytes
    that are not UTF-8 leave the text empty. *)
Definition probe_gpu (out : option string) : string :=
  match out with
  | None => "none"
  | Some out =>
    match List.filter (λ l, negb (bool_decide (l = ""))) (str_trim <$> str_lines (read_text out)) with
    | [] => "none"
    | names => join_with (ascii_of_N 59) names
    end
  end.

Definition detect (c : RsiConfig) (p : Platform) : ExecutionProfile :=
  {| model := cfg_model_id c; execution_config := from_config c; cpu_count := cores p;
     memory_total_kib := read_mem_total_kib (meminfo p); gpu := probe_gpu (gpu_names p) |}.

Section Profile.
Context `{Sha256}.

Definition digest_hex (domain body : string) : string := sha256_hex (domain +:+ nl +:+ body).

Definition profile_text (p : ExecutionProfile) : string :=
  concat_all ["model="; model p; nl; canonical (execution_config p);
              "cpu_count="; opt (cpu_count p); nl;
              "memory_total_kib="; opt (memory_total_kib p); nl; "gpu="; gpu p; nl].
Definition fingerprint (p : ExecutionProfile) : string :=
  digest_hex "spark-rsi/measure/execution-profile/v1" (profile_text p).

Record MeasureContext := {
  workload_key : string;
  profile : ExecutionProfile;
  ctx_fingerprint : string;
  source_commit : option string
}.

Definition workload_text (repo_identity : string) (p : ExecutionProfile) : string :=
  concat_all ["repo="; repo_identity; nl; canonical (execution_config p); "model="; model p; nl].
Definition from_parts (repo_identity : string) (p : ExecutionProfile) (commit : option string)
    : MeasureContext :=
  {| workload_key := digest_hex "spark-rsi/measure/workload-key/v1" (workload_text repo_identity p);
     profile := p; ctx_fingerprint := fingerprint p; source_commit := commit |}.
End Profile.

(** ** The stage clock *)

(** A map from stages, listed in their order. *)
Definition StageClock : Type := Stage → option (N * StageOutcome).
Definition new_clock : StageClock := λ _, None.

(** [elapsed] is in microseconds. *)
Definition record (s : Stage) (elapsed : N) (o : StageOutcome) (c : StageClock) : StageClock :=
  let us := if (elapsed <=? u64_max)%N then elapsed else u64_max in
  let '(d, w) := default (0%N, o) (c s) in
  λ s', if bool_decide (s' = s) then Some (sat_add64 d us, worst w o) else c s'.

(** A guard that ends without [complete] records a failure. *)
Definition end_guard (s : Stage) (elapsed : N) (completed : option StageOutcome) (c : StageClock)
    : StageClock := record s elapsed (default StageFailed completed) c.

Definition duration (s : Stage) (c : StageClock) : N := default 0%N (fst <$> c s).

Definition samples (protocol_version : N) (c : StageClock) : list StageSample :=
  omap (λ s, '(d, o) ← c s;
             Some {| stage := s; duration_us := d; outcome := o;
                     canary_protocol_version :=
                       if bool_decide (s = SupervisorCanary) then Some protocol_version else None |})
    all_stages.

(** ** The sample log *)

Record CycleSampleRecord := {
  schema_version : N;
  cycle_id : string;
  rec_workload_key : string;
  execution_profile_fingerprint : string;
  execution_profile : ExecutionProfile;
  stages : list StageSample;
  rec_source_commit : option string;
  recorded_at : string
}.

(** serde_json for a record. *)
Class RecordCodec := {
  record_to_json : CycleSampleRecord → string;
  record_from_json : string → option CycleSampleRecord
}.

(** The text up to and including the last newline. *)
Fixpoint complete_prefix (s : string) : string :=
  match s with
  | EmptyString => ""
  | String c s' => if contains_byte lf s then String c (complete_prefix s') else ""
  end.

Section Log.
Context `{RecordCodec}.

(** How much of the write reached the file. *)
Inductive write_fate := WriteDone | WriteTorn (n : nat) | WriteNotStarted.

(** [SampleLog::append] over the bytes of the file ([None]: no file): a torn tail is dropped
    before the line is written. *)
Definition append (fate : write_fate) (r : CycleSampleRecord) (file : option string)
    : option string * result unit :=
  if negb (schema_version r =? SCHEMA_VERSION)%N then
    (file, fail "refusing to write schema_version {} (current is {})"
             [dec (schema_version r); dec SCHEMA_VERSION])
  else
    let line := record_to_json r +:+ nl in
    let kept := complete_prefix (default "" file) in
    match fate with
    | WriteDone => (Some (kept +:+ line), Ok tt)
    | WriteTorn n => (Some (kept +:+ String.substring 0 n line), fail "write" [])
    | WriteNotStarted => (file, fail "write" [])
    end.

Fixpoint parse_lines (i : N) (lines : list string) : result (list CycleSampleRecord) :=
  match lines with
  | [] => Ok []
  | l :: lines =>
    match record_from_json l with
    | None => fail "line {}" [dec (i + 1)]
    | Some r =>
      if negb (schema_version r =? SCHEMA_VERSION)%N then
        fail "line {}: unsupported schema_version {}" [dec (i + 1); dec (schema_version r)]
      else rest ← parse_lines (i + 1) lines; Ok (r :: rest)
    end
  end.

Definition read_records (file : option string) : result (list CycleSampleRecord) :=
  match file with
  | None => Ok []
  | Some bytes =>
    let text := complete_prefix bytes in
    if negb (valid_utf8 text) then fail "not valid UTF-8" []
    else parse_lines 0 (str_lines text)
  end.
End Log.

(** ** Percentiles *)

Definition check_sample (i : nat) (v : f64) : result unit :=
  if negb (is_finite v) then fail "sample {} is not finite" [dec (N.of_nat i)]
  else if f64_lt v (f64_of_N 0) then fail "sample {} is negative" [dec (N.of_nat i)]
  else Ok tt.
Fixpoint check_samples (i : nat) (values : list f64) : result unit :=
  match values with
  | [] => Ok tt
  | v :: values => _ ← check_sample i v; check_samples (S i) values
  end.
Definition validate_samples (values : list f64) : result unit :=
  match values with [] => fail "no samples" [] | _ => check_samples 0 values end.

(** [(p * n as f64 / 100.0).ceil() as i64 - 1], clamped to [0..n]. *)
Definition rank_index (p : f64) (n : N) : N :=
  let rank := (f64_as_i64 (f64_ceil (f64_div (f64_mul p (f64_of_N n)) (f64_of_N 100))) - 1)%Z in
  Z.to_N (Z.max 0 (Z.min (Z.of_N n - 1) rank)).

(** [None] is an index out of bounds. *)
Definition percentile_nearest_rank (values : list f64) (p : f64) : result (option f64) :=
  _ ← validate_samples values;
  if negb (is_finite p) || negb (f64_le (f64_of_N 0) p && f64_le p (f64_of_N 100)) then
    fail "percentile must be within 0..=100" []
  else Ok (at_index (sort_by total_lt values) (rank_index p (len values))).

Definition median (values : list f64) : result (option f64) :=
  percentile_nearest_rank values (f64_of_N 50).

Definition p95_if_sufficient (values : list f64) (min_samples : N) : result (option (option f64)) :=
  _ ← validate_samples values;
  if (len values <? min_samples)%N then Ok (Some None)
  else v ← percentile_nearest_rank values (f64_of_N 95);
       Ok (match v with Some v => Some (Some v) | None => None end).

(** ** Choosing samples *)

Inductive StageMeasurement :=
  | StageMeasured (latency_median_us : f64) (latency_p95_us : option f64) (error_rate : f64)
      (sample_count : N)
  | StageUnavailable (reason : string) (sample_count : N).

(** The first record of each cycle that is comparable, the current one left out. *)
Fixpoint distinct_cycles (seen : list string) (l : list CycleSampleRecord) : list CycleSampleRecord :=
  match l with
  | [] => []
  | r :: l =>
    if bool_decide (cycle_id r ∈ seen) then distinct_cycles seen l
    else r :: distinct_cycles (cycle_id r :: seen) l
  end.
Definition comparable (current : string) (ctx : MeasureContext) (r : CycleSampleRecord) : bool :=
  negb (bool_decide (cycle_id r = current))
  && bool_decide (rec_workload_key r = workload_key ctx)
  && bool_decide (execution_profile_fingerprint r = ctx_fingerprint ctx).
Definition compatible (current : string) (ctx : MeasureContext) (l : list CycleSampleRecord)
    : list CycleSampleRecord :=
  distinct_cycles [] (List.filter (comparable current ctx) l).
Definition window (window_cycles : N) (l : list CycleSampleRecord) : list CycleSampleRecord :=
  drop (length l - N.to_nat window_cycles) l.

(** The durations of a stage and the number of failures. *)
Fixpoint stage_durations (s : Stage) (l : list CycleSampleRecord) : result (list f64 * N) :=
  match l with
  | [] => Ok ([], 0%N)
  | r :: l =>
    match List.filter (λ x, bool_decide (stage x = s)) (stages r) with
    | [] => stage_durations s l
    | [x] =>
      rest ← stage_durations s l;
      Ok (f64_of_N (duration_us x) :: rest.1,
          if bool_decide (outcome x = StageFailed) then (rest.2 + 1)%N else rest.2)
    | _ => fail "cycle {} records stage {} twice" [cycle_id r; stage_id s]
    end
  end.

Definition measure_stage (min_samples window_cycles p95_min_samples : N)
    (l : list CycleSampleRecord) (s : Stage) : result (option StageMeasurement) :=
  '(durations, failed) ← stage_durations s l;
  let n := len durations in
  if (n <? min_samples)%N then
    Ok (Some (StageUnavailable
      (render (Fmt "fewer than {} compatible completed samples in the last {} cycles (found {})"
         [dec min_samples; dec window_cycles; dec n])) n))
  else
    m ← median durations;
    p ← p95_if_sufficient durations p95_min_samples;
    Ok (match m, p with
        | Some m, Some p => Some (StageMeasured m p (f64_div (f64_of_N failed) (f64_of_N n)) n)
        | _, _ => None
        end).

(** A map from every stage, in order; [None] is a panic. *)
Fixpoint measure_all (min_samples window_cycles p95_min_samples : N) (l : list CycleSampleRecord)
    (ss : list Stage) : result (option (list (Stage * StageMeasurement))) :=
  match ss with
  | [] => Ok (Some [])
  | s :: ss =>
    m ← measure_stage min_samples window_cycles p95_min_samples l s;
    rest ← measure_all min_samples window_cycles p95_min_samples l ss;
    Ok (match m, rest with Some m, Some rest => Some ((s, m) :: rest) | _, _ => None end)
  end.

Definition try_measure (records : list CycleSampleRecord) (current : string) (ctx : MeasureContext)
    (min_samples window_cycles p95_min_samples : N)
    : result (option (list (Stage * StageMeasurement))) :=
  measure_all min_samples window_cycles p95_min_samples
    (window window_cycles (compatible current ctx records)) all_stages.

Definition measure_stages (records : result (list CycleSampleRecord)) (current : string)
    (ctx : MeasureContext) (c : RsiConfig) : option (list (Stage * StageMeasurement)) :=
  match r ← records;
        try_measure r current ctx (measure_min_samples c) (measure_window_cycles c)
          (measure_p95_min_samples c)
  with
  | Ok m => m
  | Err e =>
    Some ((λ s, (s, StageUnavailable (render (Fmt "stage samples were rejected: {}" [render e])) 0%N))
          <$> all_stages)
  end.

(** ** The pipeline graph *)

Definition node_meta (s : Stage) : string * string :=
  match s with
  | Observe => ("Observe Subsystem", "observe")
  | Propose => ("Propose Subsystem", "propose")
  | BuildJail => ("Build Jail", "isolation")
  | JudgeEvaluation => ("Judge Evaluation", "actor")
  | SupervisorCanary => ("Supervisor Canary", "supervisor")
  | CortexCommit => ("Cortex Commit", "ratify")
  end.

Definition measurement_of (ms : list (Stage * StageMeasurement)) (s : Stage)
    : option StageMeasurement :=
  snd <$> List.find (λ e, bool_decide (e.1 = s)) ms.

Definition stage_node (m : option StageMeasurement) (s : Stage) : result CapabilityNode :=
  let node := new_node (stage_id s) (node_meta s).1 (node_meta s).2 in
  match m with
  | Some (StageMeasured med p95 err count) => with_measured_latency med p95 err count node
  | Some (StageUnavailable reason count) => Ok (with_unavailable reason count node)
  | None => Ok (with_unavailable "stage was not measured" 0 node)
  end.

Fixpoint add_stages (ms : list (Stage * StageMeasurement)) (ss : list Stage) (g : CapabilityGraph)
    : result CapabilityGraph :=
  match ss with
  | [] => Ok g
  | s :: ss => n ← stage_node (measurement_of ms s) s; add_stages ms ss (add_node n g)
  end.

Definition add_links (ps : list (Stage * Stage)) (g : CapabilityGraph) : CapabilityGraph :=
  foldl (λ g p, add_edge (stage_id p.1) (stage_id p.2) (f64_of_N 0) (f64_of_N 1) g) g ps.

Definition build_capability_graph (ms : list (Stage * StageMeasurement)) : result CapabilityGraph :=
  g ← add_stages ms all_stages empty_graph;
  Ok (add_links (zip all_stages (tail all_stages)) g).

(** ** Claims *)

Inductive ProposalKind :=
  | Refactor | Documentation | Optimization | UnslopSanitization | InvariantFix
  | MetaEngineImprovement.
#[export] Instance ProposalKind_eq_dec : EqDecision ProposalKind.
Proof. solve_decision. Defined.

Definition requires_measured_diagnosis (kind : ProposalKind) (require_latency_improvement : bool)
    : bool := require_latency_improvement || bool_decide (kind = Optimization).

Definition check_claim (kind : ProposalKind) (require_latency_improvement diagnosis_measured : bool)
    : result unit :=
  if requires_measured_diagnosis kind require_latency_improvement && negb diagnosis_measured then
    fail "Claim refused before staging: {}, but the top-ranked stage has no measured latency (unavailable diagnosis)"
      [if require_latency_improvement then "require_latency_improvement is on"
       else "the proposal is an Optimization"]
  else Ok tt.
