(* ===== verification/MeasureProps.v ===== *)
(** The sample log loses only what was never completely written; what is measured is measured
    from comparable completed cycles, and the pipeline graph can always be ranked. *)

From S2P Require Import Prelude RustStd RustNum RustFloat Sorting Stats Digest Graph GraphProps Measure.
#[local] Open Scope string_scope.
#[local] Open Scope list_scope.

(** ** The sample log *)

Lemma complete_prefix_none t : contains_byte lf t = false → complete_prefix t = "".
Proof. destruct t as [|c t]; [done|]. cbn [complete_prefix]. by intros ->. Qed.

Lemma complete_prefix_app a b : complete_prefix (a +:+ String lf b) = a +:+ String lf (complete_prefix b).
Proof.
  assert (∀ s, contains_byte lf (s +:+ String lf b) = true) as Hs.
  { intros s. induction s as [|c s IH]; [reflexivity|]. cbn [contains_byte String.append]. rewrite IH. apply orb_true_r. }
  induction a as [|c a IH].
  - pose proof (Hs "") as E. change ("" +:+ String lf b) with (String lf b) in *.
    cbn [complete_prefix]. by rewrite E.
  - pose proof (Hs (String c a)) as E.
    change (String c a +:+ String lf b) with (String c (a +:+ String lf b)) in *.
    cbn [complete_prefix]. by rewrite E, IH.
Qed.

Section Log.
Context `{RecordCodec}.

(** What serde_json's writer promises of a record: one line that reads back. *)
Definition one_line (r : CycleSampleRecord) : Prop :=
  record_from_json (record_to_json r) = Some r ∧ contains_byte lf (record_to_json r) = false
  ∧ strip_cr (record_to_json r) = record_to_json r ∧ valid_utf8 (record_to_json r) = true.

Definition log_text (l : list CycleSampleRecord) : string :=
  concat_all ((λ r, record_to_json r +:+ nl) <$> l).

Lemma log_text_snoc l r : log_text (l ++ [r]) = log_text l +:+ record_to_json r +:+ nl.
Proof.
  unfold log_text. rewrite fmap_app, concat_all_app. f_equal. apply str_app_nil_r.
Qed.

Lemma line_app a b : (a +:+ nl) +:+ b = a +:+ String lf b.
Proof. by rewrite <- str_app_assoc. Qed.

Lemma complete_prefix_log l t : contains_byte lf t = false → complete_prefix (log_text l +:+ t) = log_text l.
Proof.
  intros Ht. unfold log_text. induction l as [|r l IH]; [by apply complete_prefix_none|].
  cbn [fmap list_fmap concat_all foldr]. rewrite <- str_app_assoc, line_app, complete_prefix_app.
  unfold concat_all in IH. by rewrite IH, line_app.
Qed.

Lemma log_lines l : Forall one_line l → str_lines (log_text l) = record_to_json <$> l.
Proof.
  unfold str_lines, log_text. induction 1 as [|r l (_ & Hr & Hcr & _) _ IH]; [done|].
  cbn [fmap list_fmap concat_all foldr]. rewrite line_app, split_on_app_sep by done.
  unfold concat_all in IH. pose proof (split_on_nonempty lf (foldr String.append "" ((λ r, record_to_json r +:+ nl) <$> l))).
  cbn [end_lines]. destruct (split_on lf _) as [|w ws] eqn:E; [done|]. by rewrite Hcr, IH.
Qed.

Lemma log_utf8 l : Forall one_line l → valid_utf8 (log_text l) = true.
Proof.
  unfold log_text. induction 1 as [|r l (_ & _ & _ & Hr) _ IH]; [done|].
  cbn [fmap list_fmap concat_all foldr]. by repeat apply valid_utf8_app.
Qed.

Definition current (r : CycleSampleRecord) : Prop := schema_version r = SCHEMA_VERSION.

Lemma parse_lines_ok i l : Forall one_line l → Forall current l →
  parse_lines i (record_to_json <$> l) = Ok l.
Proof.
  intros Hl. revert i. induction Hl as [|r l (Hr & _) _ IH]; intros i Hc; [done|].
  apply Forall_cons in Hc as [Hc Hcs]. cbn [fmap list_fmap parse_lines]. rewrite Hr, Hc.
  cbn. by rewrite IH.
Qed.

Lemma read_log l t : Forall one_line l → Forall current l → contains_byte lf t = false →
  read_records (Some (log_text l +:+ t)) = Ok l.
Proof.
  intros Hl Hc Ht. unfold read_records. rewrite complete_prefix_log, log_utf8, log_lines by done.
  by apply parse_lines_ok.
Qed.

(** The records of the appends whose line, with its newline, reached the file. *)
Definition written (op : write_fate * CycleSampleRecord) : bool :=
  (schema_version op.2 =? SCHEMA_VERSION)%N
  && match op.1 with
     | WriteDone => true
     | WriteTorn n => (String.length (record_to_json op.2) <? n)%nat
     | WriteNotStarted => false
     end.
Definition run_appends (ops : list (write_fate * CycleSampleRecord)) (file : option string) : option string :=
  foldl (λ file op, (append op.1 op.2 file).1) file ops.
Definition completed (ops : list (write_fate * CycleSampleRecord)) : list CycleSampleRecord :=
  (List.filter written ops).*2.

(** The file is missing, or the lines of some records followed by a torn tail. *)
Definition holds (l : list CycleSampleRecord) (file : option string) : Prop :=
  (file = None ∧ l = []) ∨ ∃ t, file = Some (log_text l +:+ t) ∧ contains_byte lf t = false.

Lemma holds_kept l file : holds l file → complete_prefix (default "" file) = log_text l.
Proof. intros [[-> ->]|(t & -> & Ht)]; [done|]. by apply complete_prefix_log. Qed.

Lemma contains_substring c n s : contains_byte c s = false → contains_byte c (String.substring 0 n s) = false.
Proof.
  revert n. induction s as [|x s IH]; intros [|n]; cbn; try done.
  intros [-> Hs]%orb_false_elim. by apply IH.
Qed.

Lemma append_holds l file op : holds l file → one_line op.2 →
  holds (l ++ if written op then [op.2] else []) (append op.1 op.2 file).1.
Proof.
  destruct op as [fate r]. intros Hh (_ & Hr & _ & _). unfold append, written; cbn [fst snd] in *.
  destruct (schema_version r =? SCHEMA_VERSION)%N; cbn [negb andb fst]; [|by rewrite app_nil_r].
  rewrite (holds_kept _ _ Hh). destruct fate as [|n|]; cbn [fst].
  - right. exists "". by rewrite log_text_snoc, str_app_nil_r.
  - destruct (Nat.ltb_spec (String.length (record_to_json r)) n) as [Hn|Hn].
    + right. exists "". rewrite log_text_snoc, str_app_nil_r. split; [|done].
      do 2 f_equal. apply substring_all. rewrite str_app_length. cbn. lia.
    + right. exists (String.substring 0 n (record_to_json r)). rewrite app_nil_r, substring_app_le by done.
      split; [done|]. by apply contains_substring.
  - by rewrite app_nil_r.
Qed.

(** C29: the sample log recovers.  Whatever sequence of appends was run, each complete, torn at
    any byte or never started, reading the log succeeds and returns exactly the records whose
    whole line reached the file, in order: a torn line is skipped by the reader and dropped by
    the next append, and never swallows or merges with a record around it. *)
Theorem sample_log_recovers ops
  (Hops : Forall (λ op, one_line op.2) ops) :
  read_records (run_appends ops None) = Ok (completed ops).
Proof.
  assert (∀ l file, holds l file → Forall one_line l → Forall current l →
    read_records (run_appends ops file) = Ok (l ++ completed ops)) as Hg.
  { induction Hops as [|op ops Hop Hops IH]; intros l file Hh Hl Hc.
    - unfold completed. cbn. rewrite app_nil_r.
      destruct Hh as [[-> ->]|(t & -> & Ht)]; [done|by apply read_log].
    - cbn [run_appends foldl]. pose proof (append_holds l file op Hh Hop) as Hh'.
      unfold completed. cbn [List.filter].
      destruct (written op) eqn:Ew.
      + cbn [fmap list_fmap]. rewrite (cons_middle op.2 l), app_assoc. apply IH; [done|..].
        * apply Forall_app. split; [done|by constructor; [|constructor]].
        * apply Forall_app. split; [done|]. repeat constructor.
          unfold written in Ew. apply andb_prop in Ew as [?%N.eqb_eq _]. done.
      + rewrite app_nil_r in Hh'. by apply IH. }
  apply (Hg [] None); [by left|constructor..].
Qed.
End Log.

(** ** Percentiles *)

#[export] Instance total_lt_order : WeakOrder (λ _, True) total_lt.
Proof.
  unfold total_lt. split; intros.
  - apply Z.ltb_ge. by apply Z.lt_le_incl, Z.ltb_lt.
  - rewrite Z.ltb_ge in *. lia.
Qed.

Definition at_most (v : f64) (l : list f64) : list f64 := List.filter (λ x, negb (total_lt v x)) l.
Definition below (v : f64) (l : list f64) : list f64 := List.filter (λ x, total_lt x v) l.

Lemma filter_length_perm {A} (p : A → bool) l l' : l ≡ₚ l' →
  length (List.filter p l) = length (List.filter p l').
Proof.
  induction 1 as [|x l l' _ IH|x y l|l l' l'' _ IH1 _ IH2]; cbn; try done.
  - destruct (p x); cbn; congruence.
  - by destruct (p x), (p y).
  - congruence.
Qed.

Lemma List_filter_none {A} (p : A → bool) l : (∀ a, a ∈ l → p a = false) → List.filter p l = [].
Proof.
  induction l as [|a l IH]; [done|]. cbn. intros Hp. rewrite Hp by (by left).
  apply IH. intros b Hb. apply Hp. by right.
Qed.

Lemma sorted_counts l i v : StronglySorted (not_after total_lt) l → l !! i = Some v →
  (i < length (at_most v l))%nat ∧ (length (below v l) <= i)%nat.
Proof.
  intros Hs Hi. pose proof (lookup_lt_Some _ _ _ Hi) as Hlt.
  rewrite <- (take_drop_middle _ _ _ Hi) in Hs |- *.
  assert (length (take i l) = i) as Hl by (rewrite length_take; lia).
  apply StronglySorted_app in Hs as (Hb & _ & Ha). inversion Ha as [|?? _ Hv]; subst.
  unfold at_most, below. rewrite !List.filter_app, !length_app. cbn [List.filter].
  assert (total_lt v v = false) as Hvv by (unfold total_lt; apply Z.ltb_irrefl).
  rewrite Hvv. cbn [negb length]. split.
  - rewrite (List_filter_all _ (take i l)); [lia|]. intros x Hx. apply negb_true_iff.
    apply (Hb x v Hx). by left.
  - rewrite (List_filter_none _ (drop (S i) l)); [cbn|].
    + pose proof (List.filter_length_le (λ x, total_lt x v) (take i l)). lia.
    + intros x Hx. by apply (proj1 (Forall_forall _ _) Hv).
Qed.

(** [v] is a sample that at least [p] percent of the samples do not exceed, and that fewer than
    [p] percent fall below. *)
Definition is_percentile (p : N) (l : list f64) (v : f64) : Prop :=
  v ∈ l ∧ (p * len l <= 100 * len (at_most v l))%N ∧ (100 * len (below v l) < p * len l)%N.

Definition window_limit : N := 200.

Definition exact_rank (p n : N) : bool :=
  (rank_index (f64_of_N p) n =? (p * n + 99) / 100 - 1)%N.

Lemma ranks_exact p n : p ∈ [50; 95]%N → (0 < n <= window_limit)%N →
  rank_index (f64_of_N p) n = ((p * n + 99) / 100 - 1)%N.
Proof.
  intros Hp Hn.
  assert (forallb (λ k, exact_rank 50 (N.of_nat k) && exact_rank 95 (N.of_nat k)) (seq 1 200) = true)
    as Hall by (vm_compute; reflexivity).
  rewrite forallb_forall in Hall. specialize (Hall (N.to_nat n)).
  assert (In (N.to_nat n) (seq 1 200)) as Hin by (apply in_seq; unfold window_limit in *; lia).
  apply Hall, andb_prop in Hin as [H50%N.eqb_eq H95%N.eqb_eq]. rewrite N2Nat.id in *.
  apply elem_of_cons in Hp as [-> | ->%list_elem_of_singleton]; done.
Qed.

Lemma percentile_found l p : p ∈ [50; 95]%N → (0 < len l <= window_limit)%N →
  ∃ v, at_index (sort_by total_lt l) (rank_index (f64_of_N p) (len l)) = Some v
       ∧ is_percentile p l v.
Proof.
  intros Hp Hn. rewrite (ranks_exact _ _ Hp Hn). set (i := ((p * len l + 99) / 100 - 1)%N).
  assert (0 < p <= 95)%N as Hp'.
  { apply elem_of_cons in Hp as [-> | ->%list_elem_of_singleton]; lia. }
  assert (1 <= (p * len l + 99) / 100)%N as Hone.
  { apply N.div_le_lower_bound; nia. }
  pose proof (N.Div0.div_mod (p * len l + 99) 100) as Hd.
  pose proof (N.mod_lt (p * len l + 99) 100 ltac:(lia)) as Hm.
  assert (p * len l <= 95 * len l)%N as Hx by nia. assert (0 < p * len l)%N as Hx0 by nia.
  unfold i. clear i. set (q := ((p * len l + 99) / 100)%N) in *.
  set (r := ((p * len l + 99) mod 100)%N) in *. set (x := (p * len l)%N) in *.
  assert (x = p * len l)%N as Ex by done. clearbody q r x.
  set (i := (q - 1)%N). assert (i < len l ∧ 100 * i < x ∧ x <= 100 * (i + 1))%N as (Hi & Hlo & Hhi)
    by (unfold i; lia).
  clearbody i. clear Hd Hm Hone q r. unfold at_index.
  destruct (lookup_lt_is_Some_2 (sort_by total_lt l) (N.to_nat i)) as [v Hv].
  { rewrite sort_by_length. unfold len in Hi. lia. }
  exists v. split; [exact Hv|].
  assert (StronglySorted (not_after total_lt) (sort_by total_lt l)) as Hs.
  { apply (sort_by_sorted (λ _, True) total_lt). by apply Forall_true. }
  destruct (sorted_counts _ _ _ Hs Hv) as [Ha Hb].
  unfold at_most, below in *. rewrite (filter_length_perm _ _ l) in Ha by apply sort_by_perm.
  rewrite (filter_length_perm _ _ l) in Hb by apply sort_by_perm.
  split_and!.
  - apply list_elem_of_lookup_2 in Hv. by rewrite elem_of_sort_by in Hv.
  - rewrite <- Ex. unfold at_most, len. lia.
  - rewrite <- Ex. unfold below, len. lia.
Qed.

(** ** Measurements *)

Lemma percentile_ok l p v : p ∈ [50; 95]%N → (len l <= window_limit)%N →
  percentile_nearest_rank l (f64_of_N p) = Ok v → ∃ x, v = Some x ∧ is_percentile p l x.
Proof.
  intros Hp Hn Hv. unfold percentile_nearest_rank in Hv. apply bind_ok in Hv as ([] & Hval & Hv).
  assert (0 < len l)%N as Hpos by (destruct l; [done|unfold len; cbn; lia]).
  destruct (percentile_found l p Hp ltac:(lia)) as (x & Hx & Hpx).
  assert (negb (is_finite (f64_of_N p))
    || negb (f64_le (f64_of_N 0) (f64_of_N p) && f64_le (f64_of_N p) (f64_of_N 100)) = false) as Hr.
  { apply elem_of_cons in Hp as [-> | ->%list_elem_of_singleton]; reflexivity. }
  rewrite Hr, Hx in Hv. injection Hv as <-. by exists x.
Qed.

Lemma p95_ok l k v : (len l <= window_limit)%N → p95_if_sufficient l k = Ok v →
  ∃ x, v = Some x ∧ match x with
                    | None => (len l < k)%N
                    | Some x => (k <= len l)%N ∧ is_percentile 95 l x
                    end.
Proof.
  intros Hn Hv. unfold p95_if_sufficient in Hv. apply bind_ok in Hv as (_ & _ & Hv).
  destruct (N.ltb_spec (len l) k).
  - injection Hv as <-. by exists None.
  - apply bind_ok in Hv as (y & Hy & [= <-]).
    destruct (percentile_ok l 95 y) as (x & -> & Hx); [set_solver|done|done|]. by exists (Some x).
Qed.

(** The samples the records hold of a stage. *)
Definition samples_of (s : Stage) (W : list CycleSampleRecord) : list StageSample :=
  W ≫= λ r, filter (λ x, stage x = s) (stages r).

(** What the measurement of a stage says of the samples of the records [W] it was taken from: no
    record holds two, and a refusal is no failure. *)
Definition measured_from (W : list CycleSampleRecord) (min_samples p95_min_samples : N)
    (e : Stage * StageMeasurement) : Prop :=
  let xs := samples_of e.1 W in
  let durations := (λ x, f64_of_N (duration_us x)) <$> xs in
  let failed := len (filter (λ x, outcome x = StageFailed) xs) in
  Forall (λ r, (length (filter (λ x, stage x = e.1) (stages r)) <= 1)%nat) W
  ∧ match e.2 with
    | StageMeasured m p95 err n =>
        n = len xs ∧ (min_samples <= n)%N ∧ is_percentile 50 durations m
        ∧ match p95 with
          | None => (n < p95_min_samples)%N
          | Some v => (p95_min_samples <= n)%N ∧ is_percentile 95 durations v
          end
        ∧ err = f64_div (f64_of_N failed) (f64_of_N n)
    | StageUnavailable _ n => n = len xs ∧ (n < min_samples)%N
    end.

Lemma filter_stage s (l : list StageSample) :
  List.filter (λ x, bool_decide (stage x = s)) l = filter (λ x, stage x = s) l.
Proof.
  induction l as [|x l IH]; [done|]. cbn [List.filter]. rewrite filter_cons, IH.
  by case_bool_decide; case_decide.
Qed.

Lemma stage_durations_samples s W ds failed : stage_durations s W = Ok (ds, failed) →
  ds = (λ x, f64_of_N (duration_us x)) <$> samples_of s W
  ∧ failed = len (filter (λ x, outcome x = StageFailed) (samples_of s W))
  ∧ Forall (λ r, (length (filter (λ x, stage x = s) (stages r)) <= 1)%nat) W.
Proof.
  unfold samples_of. revert ds failed. induction W as [|r W IH]; intros ds failed;
    cbn [stage_durations mbind list_bind].
  - by intros [= <- <-].
  - rewrite filter_stage. destruct (filter _ (stages r)) as [|x [|y xs]] eqn:E; [|..|done].
    + intros (-> & -> & Hall)%IH. split_and!; [done..|]. constructor; [rewrite E; cbn; lia|done].
    + intros ([ds' failed'] & Hr & [= <- <-])%bind_ok. apply IH in Hr as (-> & -> & Hall).
      cbn [fst snd app]. rewrite fmap_cons, filter_cons. split_and!; [done| |].
      * case_bool_decide; case_decide; try done. unfold len; cbn [length]; lia.
      * constructor; [rewrite E; cbn; lia|done].
Qed.

Lemma samples_length s W :
  Forall (λ r, (length (filter (λ x, stage x = s) (stages r)) <= 1)%nat) W →
  (length (samples_of s W) <= length W)%nat.
Proof.
  unfold samples_of. induction 1 as [|r W Hr _ IH]; [cbn; lia|].
  rewrite bind_cons, length_app. cbn [length]. lia.
Qed.

Lemma measure_stage_sound k w p W s r : (length W <= N.to_nat window_limit)%nat →
  measure_stage k w p W s = Ok r → ∃ m, r = Some m ∧ measured_from W k p (s, m).
Proof.
  intros HW Hr. unfold measure_stage in Hr. apply bind_ok in Hr as ([ds failed] & Hd & Hr).
  destruct (stage_durations_samples _ _ _ _ Hd) as (Eds & Ef & Hone). clear Hd.
  pose proof (samples_length _ _ Hone) as Hlen.
  assert (len ds = len (samples_of s W)) as El by (rewrite Eds; unfold len; by rewrite length_fmap).
  assert (len ds <= window_limit)%N as Hn by (rewrite El; unfold len; lia).
  unfold measured_from. cbn [fst snd]. rewrite <- Eds, <- Ef, <- El.
  destruct (N.ltb_spec (len ds) k).
  { injection Hr as <-. eexists. by split. }
  apply bind_ok in Hr as (mo & Hm & Hr). apply bind_ok in Hr as (po & Hp & [= <-]).
  destruct (percentile_ok ds 50 mo) as (m & -> & Hpm); [set_solver|done|done|].
  destruct (p95_ok ds p po Hn Hp) as (x & -> & Hx).
  eexists. split; [done|]. cbn. by split_and!.
Qed.

Lemma measure_all_sound k w p W ss r : (length W <= N.to_nat window_limit)%nat →
  measure_all k w p W ss = Ok r → ∃ ms, r = Some ms ∧ ms.*1 = ss ∧ Forall (measured_from W k p) ms.
Proof.
  intros HW. revert r. induction ss as [|s ss IH]; intros r; cbn [measure_all].
  - intros [= <-]. by exists [].
  - intros (mo & Hm & (ro & Hr & [= <-])%bind_ok)%bind_ok.
    destruct (measure_stage_sound _ _ _ _ _ _ HW Hm) as (m & -> & Hm').
    destruct (IH _ Hr) as (ms & -> & <- & Hms). exists ((s, m) :: ms). split_and!; [done..|by constructor].
Qed.

(** A record that may be measured: of another cycle, with the workload and the execution profile
    of the context. *)
Definition like (current : string) (ctx : MeasureContext) (r : CycleSampleRecord) : Prop :=
  cycle_id r ≠ current ∧ rec_workload_key r = workload_key ctx
  ∧ execution_profile_fingerprint r = ctx_fingerprint ctx.

(** The position of the first such record of a cycle. *)
Definition first_like (records : list CycleSampleRecord) (current : string) (ctx : MeasureContext)
    (seen : list string) (i : nat) : Prop :=
  ∃ r, records !! i = Some r ∧ like current ctx r ∧ (cycle_id r ∉ seen)
    ∧ ∀ j r', (j < i)%nat → records !! j = Some r' → like current ctx r' → cycle_id r' ≠ cycle_id r.

(** The records at some positions, in the order of the log. *)
Definition records_at (records : list CycleSampleRecord) (ps : list nat) (W : list CycleSampleRecord)
    : Prop :=
  StronglySorted lt ps ∧ Forall2 (λ i r, records !! i = Some r) ps W.

Lemma comparable_like current ctx r : comparable current ctx r = true ↔ like current ctx r.
Proof.
  unfold comparable, like. rewrite !andb_true_iff, negb_true_iff, bool_decide_eq_false, !bool_decide_eq_true.
  tauto.
Qed.

Lemma records_at_cons r l ps W : records_at l ps W → records_at (r :: l) (S <$> ps) W.
Proof.
  intros [Hs Hf]. split; [|by apply Forall2_fmap_l].
  clear Hf. induction Hs as [|i ps Hs IH Hi]; [constructor|]. rewrite fmap_cons. constructor; [done|].
  apply Forall_fmap. eapply Forall_impl; [exact Hi|]. intros x Hx. cbn. lia.
Qed.

Lemma first_like_S r l current ctx seen i :
  first_like (r :: l) current ctx seen (S i) ↔
  first_like l current ctx (if comparable current ctx r then cycle_id r :: seen else seen) i.
Proof.
  pose proof (comparable_like current ctx r) as Hr. unfold first_like. cbn [lookup list_lookup].
  split; intros (x & Hx & Hl & Hns & Hj); exists x.
  - split_and!; [done..| |].
    + destruct (comparable _ _ _); [|done]. apply not_elem_of_cons. split; [|done].
      intros Heq. apply (Hj 0%nat r); [lia|done|by apply Hr|done].
    + intros j r' Hji Hr'. apply (Hj (S j)); [lia|done].
  - split_and!; [done..| |].
    + destruct (comparable _ _ _); [|done]. by apply not_elem_of_cons in Hns as [_ ?].
    + intros [|j] r' Hji Hr' Hlr'; [|apply (Hj j); [lia|done..]].
      cbn in Hr'. injection Hr' as <-. apply Hr in Hlr'. rewrite Hlr' in Hns.
      apply not_elem_of_cons in Hns as [? _]. congruence.
Qed.

Lemma distinct_cycles_ext seen seen' l : (∀ c, c ∈ seen ↔ c ∈ seen') →
  distinct_cycles seen l = distinct_cycles seen' l.
Proof.
  revert seen seen'. induction l as [|r l IH]; intros seen seen' Hs; [done|]. cbn [distinct_cycles].
  rewrite (bool_decide_ext _ _ (Hs (cycle_id r))). case_bool_decide; [by apply IH|].
  f_equal. apply IH. intros c. rewrite !elem_of_cons. by rewrite Hs.
Qed.

Lemma compatible_positions current ctx l : ∀ seen,
  ∃ ps, records_at l ps (distinct_cycles seen (List.filter (comparable current ctx) l))
    ∧ ∀ i, i ∈ ps ↔ first_like l current ctx seen i.
Proof.
  induction l as [|r l IH]; intros seen.
  { exists []. split; [by split; constructor|]. intros i. rewrite elem_of_nil. split; [done|].
    intros (x & Hx & _). by rewrite lookup_nil in Hx. }
  assert (∀ seen', (if comparable current ctx r then cycle_id r :: seen else seen) = seen' →
    ¬ first_like (r :: l) current ctx seen 0 →
    distinct_cycles seen (List.filter (comparable current ctx) (r :: l))
      = distinct_cycles seen' (List.filter (comparable current ctx) l) →
    ∃ ps, records_at (r :: l) ps (distinct_cycles seen (List.filter (comparable current ctx) (r :: l)))
    ∧ ∀ i, i ∈ ps ↔ first_like (r :: l) current ctx seen i) as Hskip.
  { intros seen' <- H0 ->. destruct (IH (if comparable current ctx r then cycle_id r :: seen else seen))
      as (ps & Hat & Hin). exists (S <$> ps). split; [by apply records_at_cons|].
    intros [|i]; rewrite list_elem_of_fmap.
    - split; [by intros (? & ? & _)|done].
    - rewrite first_like_S, <- Hin. split; [by intros (? & [= ->] & ?)|]. intros ?. by exists i. }
  cbn [List.filter]. cbn [List.filter] in Hskip. pose proof (comparable_like current ctx r) as Hl.
  destruct (comparable current ctx r) eqn:Hc; [cbn [distinct_cycles] in *|].
  2:{ apply (Hskip seen); [done| |done]. intros (x & [= <-] & Hx & _). by apply Hl in Hx. }
  case_bool_decide as Hin.
  - apply (Hskip (cycle_id r :: seen)); [done| |].
    + by intros (x & [= <-] & _ & Hns & _).
    + apply distinct_cycles_ext. intros c. rewrite elem_of_cons. naive_solver.
  - destruct (IH (cycle_id r :: seen)) as (ps & [Hs Hf]%(records_at_cons r) & Hat).
    exists (0%nat :: (S <$> ps)). split.
    + split; [|by constructor]. constructor; [done|]. apply Forall_fmap, Forall_true. intros x. cbn. lia.
    + intros i. rewrite elem_of_cons, list_elem_of_fmap. destruct i as [|i].
      * split; [intros _|by left]. exists r. split_and!; [done|by apply Hl|done|]. intros; lia.
      * rewrite first_like_S, Hc, <- Hat. split.
        -- by intros [|(? & [= ->] & ?)].
        -- intros ?. right. by exists i.
Qed.

Lemma records_at_drop l ps W n : records_at l ps W → records_at l (drop n ps) (drop n W).
Proof.
  intros [Hs Hf]. split; [|by apply Forall2_drop].
  rewrite <- (take_drop n ps) in Hs. by apply StronglySorted_app in Hs as (_ & _ & ?).
Qed.

Lemma records_at_length l ps W : records_at l ps W → length ps = length W.
Proof. intros [_ Hf]. by apply Forall2_length in Hf. Qed.

(** C30: what is measured is measured from what it may be.  For windows of up to 200 cycles,
    choosing samples never indexes out of bounds, and when it succeeds it measures all six
    stages from one list of records: those at the last positions of the log, at most the window
    of them, among the first records of each cycle that is not the current one and has the same
    workload and execution profile - none of these is passed over but for as many later ones as
    the window holds.  Each record holds at most one sample of a stage.  A median is then a
    duration one of them recorded, with at least half of the durations at most it and fewer than
    half below it; the 95th percentile is one in the same sense, given exactly with enough
    samples; the error rate is the share of samples whose outcome is a failure, refusals not
    counted; and a stage is unavailable exactly for want of samples. *)
Theorem measurement_sound records current ctx k w p r (Hw : (w <= window_limit)%N)
  (Hr : try_measure records current ctx k w p = Ok r) :
  ∃ ms ps W, r = Some ms ∧ ms.*1 = all_stages ∧ records_at records ps W
  ∧ (length ps <= N.to_nat w)%nat
  ∧ (∀ i, i ∈ ps → first_like records current ctx [] i)
  ∧ (∀ i, first_like records current ctx [] i →
       i ∈ ps ∨ length ps = N.to_nat w ∧ ∀ j, j ∈ ps → (i < j)%nat)
  ∧ Forall (measured_from W k p) ms.
Proof.
  unfold try_measure in Hr. unfold compatible in Hr.
  destruct (compatible_positions current ctx records []) as (ps & Hat & Hin).
  set (V := distinct_cycles [] _) in *. unfold window in Hr. set (n := (length V - N.to_nat w)%nat) in *.
  pose proof (records_at_length _ _ _ Hat) as Hlen.
  assert (length (drop n V) <= N.to_nat w)%nat as Hd by (rewrite length_drop; lia).
  destruct (measure_all_sound k w p (drop n V) all_stages r) as (ms & -> & Hs & Hms);
    [unfold window_limit in *; lia|done|].
  exists ms, (drop n ps), (drop n V). split_and!; [done|done|by apply records_at_drop| | | |done].
  - rewrite length_drop. lia.
  - intros i Hi. apply Hin. by eapply subseteq_drop.
  - intros i [j Hj]%Hin%list_elem_of_lookup. destruct (decide (n <= j)%nat) as [Hle|Hlt].
    + left. apply list_elem_of_lookup. exists (j - n)%nat. rewrite lookup_drop. by replace (n + (j - n))%nat with j by lia.
    + right. pose proof (lookup_lt_Some _ _ _ Hj). split; [rewrite length_drop; lia|].
      intros x Hx. destruct Hat as [Hsort _]. rewrite <- (take_drop n ps) in Hsort.
      apply StronglySorted_app in Hsort as (Hcross & _ & _). apply Hcross; [|done].
      apply list_elem_of_lookup. exists j. by rewrite lookup_take_lt by lia.
Qed.

(** ** The pipeline graph *)

Lemma stage_node_id m s n : stage_node m s = Ok n → node_id n = stage_id s ∧ node_name n = (node_meta s).1.
Proof.
  unfold stage_node, with_measured_latency.
  destruct m as [[med p95 err count|reason count]|]; [|by intros [= <-]..].
  intros (_ & _ & (_ & _ & (_ & _ & Hn)%bind_ok)%bind_ok)%bind_ok.
  destruct (f64_gt err (f64_of_N 1)); [done|]. by injection Hn as <-.
Qed.

(** The nodes added for a list of stages. *)
Definition stage_nodes (ss : list Stage) (g g' : CapabilityGraph) : Prop :=
  edges g' = edges g
  ∧ (∀ s, s ∈ ss → is_Some (nodes g' !! stage_id s))
  ∧ (∀ k n, nodes g' !! k = Some n →
       nodes g !! k = Some n ∨ ∃ s, s ∈ ss ∧ k = stage_id s ∧ node_name n = (node_meta s).1).

Lemma add_stages_nodes ms ss g g' : NoDup (stage_id <$> ss) → add_stages ms ss g = Ok g' → stage_nodes ss g g'.
Proof.
  revert g. induction ss as [|s ss IH]; intros g Hd; cbn [add_stages].
  - intros [= <-]. split_and!; [done|by intros s Hs%not_elem_of_nil|by left].
  - intros (n & Hn & Hg)%bind_ok. rewrite fmap_cons in Hd. apply NoDup_cons in Hd as [Hs Hd].
    destruct (stage_node_id _ _ _ Hn) as [Hid Hname]. destruct (IH _ Hd Hg) as (He & Hin & Hout).
    split_and!; [done|..].
    + intros x [->|Hx]%elem_of_cons; [|by apply Hin].
      assert (∀ l g1 g2, add_stages ms l g1 = Ok g2 → is_Some (nodes g1 !! stage_id s) →
        is_Some (nodes g2 !! stage_id s)) as Hkeep.
      { intros l. induction l as [|y l IHl]; intros g1 g2; cbn [add_stages]; [by intros [= <-]|].
        intros (m & Hm & Hl)%bind_ok H1. eapply IHl; [exact Hl|]. cbn [add_node nodes].
        apply lookup_insert_is_Some'. by right. }
      eapply Hkeep; [exact Hg|]. cbn [add_node nodes]. rewrite Hid, lookup_insert_eq. by eexists.
    + intros k m [Hk|(x & Hx & Hk & Hm)]%Hout.
      * cbn [add_node nodes] in Hk. rewrite Hid in Hk.
        apply lookup_insert_Some in Hk as [[<- <-]|[_ Hk]]; [right|by left].
        exists s. split_and!; [by left|done|done].
      * right. exists x. split_and!; [by right|done|done].
Qed.

Lemma pipeline_shape ms g : build_capability_graph ms = Ok g →
  closed_edges g
  ∧ (∀ k n, nodes g !! k = Some n → ∃ s, k = stage_id s ∧ node_name n = (node_meta s).1)
  ∧ ∀ s, is_Some (nodes g !! stage_id s).
Proof.
  unfold build_capability_graph. intros (g1 & Hg1 & Hg)%bind_ok.
  assert (g = add_links (zip all_stages (tail all_stages)) g1) as -> by congruence. clear Hg.
  destruct (add_stages_nodes ms all_stages empty_graph g1) as (He & Hin & Hout); [|done|].
  { by apply (bool_decide_unpack _). }
  assert (∀ ps g, nodes (add_links ps g) = nodes g) as Hn.
  { intros ps. induction ps as [|p ps IH]; intros g; [done|]. exact (IH _). }
  assert (∀ s, is_Some (nodes g1 !! stage_id s)) as Hall.
  { intros s. apply Hin. apply (bool_decide_unpack (s ∈ all_stages)). by destruct s. }
  unfold closed_edges. rewrite Hn. split_and!; [|..|done].
  - assert (∀ ps g, Forall (λ e, is_Some (nodes g1 !! to_ e)) (edges g) →
      Forall (λ e, is_Some (nodes g1 !! to_ e)) (edges (add_links ps g))) as Hf.
    { intros ps. induction ps as [|p ps IH]; intros g Hg; [done|]. apply IH.
      cbn [add_edge edges]. apply Forall_app. split; [done|]. constructor; [apply Hall|constructor]. }
    apply Hf. rewrite He. constructor.
  - intros k n [Hk|(s & _ & -> & Hs)]%Hout; [done|by exists s].
Qed.

(** ** Examples *)

Module MeasureExamples.
Definition profile : ExecutionProfile :=
  {| model := "m"; execution_config :=
       {| model_url := "u"; holdouts_dir := "h"; canary_target := 5; cortex_url := "c";
          cortex_space := "s"; ratify_roots := ["src"] |};
     cpu_count := Some 8%N; memory_total_kib := None; gpu := "none" |}.
Definition cycle (id : string) (us : N) (o : StageOutcome) : CycleSampleRecord :=
  {| schema_version := SCHEMA_VERSION; cycle_id := id; rec_workload_key := "w";
     execution_profile_fingerprint := "f"; execution_profile := profile;
     stages := [{| stage := Observe; duration_us := us; outcome := o; canary_protocol_version := None |}];
     rec_source_commit := None; recorded_at := "t" |}.
Definition ctx : MeasureContext :=
  {| workload_key := "w"; Measure.profile := profile; ctx_fingerprint := "f"; source_commit := None |}.
Definition log : list CycleSampleRecord :=
  [cycle "a" 30 StageOk; cycle "b" 10 StageFailed; cycle "a" 99 StageOk; cycle "now" 7 StageOk;
   cycle "c" 20 StageRefused].
(** A codec that writes the cycle's id. *)
#[local] Instance by_id : RecordCodec :=
  {| record_to_json := cycle_id;
     record_from_json := λ t, List.find (λ r, bool_decide (cycle_id r = t)) log |}.
Definition faults : list (write_fate * CycleSampleRecord) :=
  [(WriteDone, cycle "a" 30 StageOk); (WriteTorn 1, cycle "b" 10 StageFailed);
   (WriteNotStarted, cycle "b" 10 StageFailed); (WriteTorn 2, cycle "b" 10 StageFailed);
   (WriteTorn 0, cycle "c" 20 StageRefused)].
End MeasureExamples.

Section Examples.
Import MeasureExamples.
#[local] Existing Instance by_id.

Lemma sample_log_recovers_witness :
  read_records (run_appends faults None) = Ok (completed faults)
  ∧ cycle_id <$> completed faults = ["a"; "b"].
Proof.
  split; [|vm_compute; reflexivity]. apply (sample_log_recovers faults).
  repeat constructor.
Defined.

Lemma measurement_sound_witness :
  ∃ m p e W, try_measure log "now" ctx 2 20 3 = Ok (Some ((Observe, StageMeasured m p e 3)
     :: ((λ s, (s, StageUnavailable "fewer than 2 compatible completed samples in the last 20 cycles (found 0)" 0))
         <$> [Propose; BuildJail; JudgeEvaluation; SupervisorCanary; CortexCommit])))
    ∧ m = f64_of_N 20 ∧ p = Some (f64_of_N 30)
    ∧ measured_from W 2 3 (Observe, StageMeasured m p e 3).
Proof.
  destruct (measurement_sound log "now" ctx 2 20 3 _ ltac:(vm_compute; discriminate)
    ltac:(vm_compute; reflexivity)) as (ms & ps & W & [= <-] & _ & _ & _ & _ & _ & Hms).
  apply Forall_cons in Hms as [Hm _].
  eexists _, _, _, W. split; [vm_compute; reflexivity|]. split; [reflexivity|]. split; [reflexivity|].
  exact Hm.
Defined.
End Examples.
