(* ===== verification/Dual.v ===== *)
(** Records of the constraint-pricing plane and the scarcity diagnostic read from them
    ([src/dual/records.rs], [src/dual/diagnostic.rs]).

    Bytes are strings, a 32-byte digest is a string of that length, and a [u32] or [u64] is an
    [N].  An [f64] travels as its bits; the checker refuses NaN, so a decoded number carries no
    payload.  A reader keeps the bytes it has not consumed and the first failure. *)

From S2P Require Import Prelude RustStd RustPath Sorting RustNum RustFloat Digest.
#[local] Open Scope N_scope.
#[local] Open Scope string_scope.
#[local] Open Scope list_scope.
#[local] Open Scope N_scope.

Definition FORMAT_VERSION : N := 1.
Definition MAX_RESOURCES : N := 32.
Definition DIGEST_SIZE : nat := 32.

Definition DOMAIN_RESOURCE : string := "omega.dual.resource.v1".
Definition DOMAIN_CONSTRAINT : string := "omega.dual.constraint.v1".
Definition DOMAIN_CONTROLLER : string := "omega.dual.controller.v1".
Definition DOMAIN_PRICE_VECTOR : string := "omega.dual.pricevec.v1".

Definition digest_is_zero (d : string) : bool := all_bytes (N.eqb 0) d.

(** ** Enumerations *)

Inductive Kind := KResource | KConstraint | KController | KPriceVector.
#[export] Instance Kind_eq_dec : EqDecision Kind.
Proof. solve_decision. Defined.
Definition kind_byte (k : Kind) : N :=
  match k with KResource => 1 | KConstraint => 2 | KController => 3 | KPriceVector => 4 end.

Inductive Unit :=
  | Ps | Pj | Bytes | BytesPerS | KvBlocks | PpmOccupancy | NsVerify | NsSynth | Ns | Watt
  | WattPerS | MilliCelsius | MilliCelsiusPerS | Dimensionless | Log2Ps.
#[export] Instance Unit_eq_dec : EqDecision Unit.
Proof. solve_decision. Defined.
Definition all_units : list Unit :=
  [Ps; Pj; Bytes; BytesPerS; KvBlocks; PpmOccupancy; NsVerify; NsSynth; Ns; Watt; WattPerS;
   MilliCelsius; MilliCelsiusPerS; Dimensionless; Log2Ps].
Definition unit_u32 (u : Unit) : N :=
  match u with
  | Ps => 1 | Pj => 2 | Bytes => 3 | BytesPerS => 4 | KvBlocks => 5 | PpmOccupancy => 6
  | NsVerify => 7 | NsSynth => 8 | Ns => 9 | Watt => 10 | WattPerS => 11 | MilliCelsius => 12
  | MilliCelsiusPerS => 13 | Dimensionless => 14 | Log2Ps => 15
  end.
Definition unit_from_u32 (v : N) : option Unit :=
  List.find (λ u, unit_u32 u =? v) all_units.
Definition unit_name (u : Unit) : string :=
  match u with
  | Ps => "PS" | Pj => "PJ" | Bytes => "BYTES" | BytesPerS => "BYTES_PER_S"
  | KvBlocks => "KV_BLOCKS" | PpmOccupancy => "PPM_OCCUPANCY" | NsVerify => "NS_VERIFY"
  | NsSynth => "NS_SYNTH" | Ns => "NS" | Watt => "WATT" | WattPerS => "WATT_PER_S"
  | MilliCelsius => "MILLI_CELSIUS" | MilliCelsiusPerS => "MILLI_CELSIUS_PER_S"
  | Dimensionless => "DIMENSIONLESS" | Log2Ps => "LOG2_PS"
  end.

(** The invariant class (1) and the undeclared one (0) have no constructor. *)
Inductive Class_ := Capacity | Soft.
#[export] Instance Class_eq_dec : EqDecision Class_.
Proof. solve_decision. Defined.
Definition class_u32 (c : Class_) : N := match c with Capacity => 2 | Soft => 3 end.
Definition class_from_u32 (v : N) : option Class_ :=
  List.find (λ c, class_u32 c =? v) [Capacity; Soft].

Inductive EstimateKind := Measured | Estimated | Predicted.
#[export] Instance EstimateKind_eq_dec : EqDecision EstimateKind.
Proof. solve_decision. Defined.
Definition estimate_u32 (e : EstimateKind) : N :=
  match e with Measured => 1 | Estimated => 2 | Predicted => 3 end.
Definition estimate_from_u32 (v : N) : option EstimateKind :=
  List.find (λ e, estimate_u32 e =? v) [Measured; Estimated; Predicted].

Inductive LambdaState := Fresh | Stale | Frozen | Uncalibrated | Refused.
#[export] Instance LambdaState_eq_dec : EqDecision LambdaState.
Proof. solve_decision. Defined.
Definition lambda_u32 (l : LambdaState) : N :=
  match l with Fresh => 1 | Stale => 2 | Frozen => 3 | Uncalibrated => 4 | Refused => 5 end.
Definition lambda_from_u32 (v : N) : option LambdaState :=
  List.find (λ l, lambda_u32 l =? v) [Fresh; Stale; Frozen; Uncalibrated; Refused].

(** ** Refusals *)

Inductive Refusal :=
  | RNonFinite | RUnit | RClass | RScale | RRange | RKind | REncoding | RResource | RDigest
  | RGeneration | RCalibration.
#[export] Instance Refusal_eq_dec : EqDecision Refusal.
Proof. solve_decision. Defined.

(** [c_status], without its sign. *)
Definition c_status (r : Refusal) : N :=
  match r with
  | RNonFinite => 2 | RUnit => 3 | RClass => 4 | RScale => 5 | RRange => 6 | RKind => 7
  | REncoding => 8 | RResource => 9 | RDigest => 10 | RGeneration => 11 | RCalibration => 17
  end.
Definition refusal_name (r : Refusal) : string :=
  match r with
  | RNonFinite => "NonFinite" | RUnit => "Unit" | RClass => "Class" | RScale => "Scale"
  | RRange => "Range" | RKind => "Kind" | REncoding => "Encoding" | RResource => "Resource"
  | RDigest => "Digest" | RGeneration => "Generation" | RCalibration => "Calibration"
  end.
Definition refusal_text (r : Refusal) : string :=
  refusal_name r +:+ " (RxDualStatus -" +:+ dec (c_status r) +:+ ")".

(** The outcome of a decoder. *)
Inductive checked (A : Type) := Accept (a : A) | Refuse (r : Refusal).
Arguments Accept {A} a.
Arguments Refuse {A} r.
#[export] Instance checked_ret : MRet checked := λ A a, Accept a.
#[export] Instance checked_bind : MBind checked := λ A B f m,
  match m with Accept a => f a | Refuse r => Refuse r end.
Definition or_refuse {A} (o : option A) (r : Refusal) : checked A :=
  match o with Some a => Accept a | None => Refuse r end.

(** ** Records *)

Record Resource := {
  res_id : N;
  res_unit : Unit;
  scale : f64;
  contract : string
}.

Record ConstraintState := {
  resource_id : N;
  con_unit : Unit;
  class : Class_;
  budget : f64;
  budget_contract : string;
  observation_ref : string;
  estimate_ref : string;
  estimate_kind : EstimateKind;
  estimate : f64;
  uncertainty : f64;
  calibration_ref : string;
  lambda : f64;
  lambda_state : LambdaState;
  controller_id : string;
  con_generation : N;
  tick : N;
  evidence_root : string;
  parent : string
}.

Definition is_fresh_calibrated (s : ConstraintState) : bool :=
  bool_decide (lambda_state s = Fresh) && negb (digest_is_zero (calibration_ref s)).

Record Controller := {
  eta : f64;
  rho : f64;
  k_sigma : f64;
  max_age : N;
  cadence : N;
  limits : list (N * f64)
}.

Record PriceVector := {
  generation : N;
  context : string;
  states : list (N * string)
}.

(** ** The reader *)

Record Reader := { unread : string; st : option Refusal }.

(** A read passes the reader on. *)
Definition Rd (A : Type) : Type := Reader → A * Reader.
#[export] Instance Rd_ret : MRet Rd := λ A a r, (a, r).
#[export] Instance Rd_bind : MBind Rd := λ A B f m r, let '(a, r) := m r in f a r.

Definition new_reader (p : string) : Reader := {| unread := p; st := None |}.
Definition rd_fail (why : Refusal) (r : Reader) : Reader :=
  match st r with None => {| unread := unread r; st := Some why |} | Some _ => r end.

Definition need (n : nat) (r : Reader) : bool * Reader :=
  match st r with
  | Some _ => (false, r)
  | None => if (String.length (unread r) <? n)%nat then (false, rd_fail REncoding r) else (true, r)
  end.

(** The next [n] bytes, or [None] after a failure. *)
Definition read_bytes (n : nat) : Rd (option string) := λ r,
  let '(ok, r) := need n r in
  if ok then (Some (String.substring 0 n (unread r)),
              {| unread := str_skip n (unread r); st := st r |})
  else (None, r).

Definition read_int (k : nat) : Rd N := b ← read_bytes k; mret (default 0 (le_value <$> b)).
Definition read_f64 : Rd f64 := bits ← read_int 8; mret (f64_from_bits bits).
Definition zero_digest : string := String.string_of_list_ascii (repeat (byte 0) DIGEST_SIZE).
Definition read_digest : Rd string := b ← read_bytes DIGEST_SIZE; mret (default zero_digest b).

Definition read_header (want : Kind) : Rd unit := λ r,
  let '(k, r) := read_int 1 r in
  let '(v, r) := read_int 1 r in
  (tt, match st r with
       | Some _ => r
       | None =>
         if negb (k =? kind_byte want) then rd_fail RKind r
         else if negb (v =? FORMAT_VERSION) then rd_fail REncoding r
         else r
       end).

Definition read_end (r : Reader) : checked unit :=
  match st r with
  | Some why => Refuse why
  | None => if bool_decide (unread r = "") then Accept tt else Refuse REncoding
  end.

Fixpoint read_entries {A} (n : nat) (value : Rd A) : Rd (list (N * A)) :=
  match n with
  | O => mret []
  | S n =>
    id ← read_int 4;
    v ← value;
    rest ← read_entries n value;
    mret ((id, v) :: rest)
  end.

(** ** The checks *)

Definition lt_zero (a : f64) : bool := f64_lt a (f64_of_N 0).
Definition le_zero (a : f64) : bool := f64_le a (f64_of_N 0).

Definition refuse_if (c : bool) (why : Refusal) : checked unit :=
  if c then Refuse why else Accept tt.

Definition check_resource (id unit : N) (sc : f64) (con : string) : checked Resource :=
  u ← or_refuse (unit_from_u32 unit) RUnit;
  _ ← refuse_if (negb (is_finite sc)) RNonFinite;
  _ ← refuse_if (le_zero sc) RScale;
  _ ← refuse_if (digest_is_zero con) RDigest;
  Accept {| res_id := id; res_unit := u; scale := sc; contract := con |}.

(** A constraint as it was read, before its enumerations are converted. *)
Record RawConstraint := {
  raw_resource_id : N;
  raw_unit : N;
  raw_cls : N;
  raw_budget : f64;
  raw_budget_contract : string;
  raw_observation_ref : string;
  raw_estimate_ref : string;
  raw_estimate_kind : N;
  raw_estimate : f64;
  raw_uncertainty : f64;
  raw_calibration_ref : string;
  raw_lambda : f64;
  raw_lambda_state : N;
  raw_controller_id : string;
  raw_generation : N;
  raw_tick : N;
  raw_evidence_root : string;
  raw_parent : string
}.

Definition check_raw (s : RawConstraint) : checked ConstraintState :=
  u ← or_refuse (unit_from_u32 (raw_unit s)) RUnit;
  c ← or_refuse (class_from_u32 (raw_cls s)) RClass;
  _ ← refuse_if (negb (is_finite (raw_budget s) && is_finite (raw_estimate s)
                       && is_finite (raw_uncertainty s) && is_finite (raw_lambda s))) RNonFinite;
  _ ← refuse_if (lt_zero (raw_uncertainty s) || lt_zero (raw_lambda s)) RRange;
  k ← or_refuse (estimate_from_u32 (raw_estimate_kind s)) RKind;
  l ← or_refuse (lambda_from_u32 (raw_lambda_state s)) RRange;
  _ ← refuse_if (digest_is_zero (raw_budget_contract s) || digest_is_zero (raw_estimate_ref s)
                 || digest_is_zero (raw_controller_id s) || digest_is_zero (raw_evidence_root s))
        RDigest;
  _ ← refuse_if (bool_decide (k = Measured) && digest_is_zero (raw_observation_ref s)) RDigest;
  _ ← refuse_if (digest_is_zero (raw_calibration_ref s) && bool_decide (l = Fresh)) RCalibration;
  _ ← refuse_if (negb (Bool.eqb (raw_tick s =? 0) (digest_is_zero (raw_parent s)))) RDigest;
  Accept {| resource_id := raw_resource_id s; con_unit := u; class := c; budget := raw_budget s;
    budget_contract := raw_budget_contract s; observation_ref := raw_observation_ref s;
    estimate_ref := raw_estimate_ref s; estimate_kind := k; estimate := raw_estimate s;
    uncertainty := raw_uncertainty s; calibration_ref := raw_calibration_ref s;
    lambda := raw_lambda s; lambda_state := l; controller_id := raw_controller_id s;
    con_generation := raw_generation s; tick := raw_tick s;
    evidence_root := raw_evidence_root s; parent := raw_parent s |}.

Fixpoint ids_ascending {A} (l : list (N * A)) : bool :=
  match l with
  | [] => true
  | a :: l' => match l' with b :: _ => (a.1 <? b.1) && ids_ascending l' | [] => true end
  end.

Definition count_refused (n : N) : bool := (n =? 0) || (MAX_RESOURCES <? n).
Definition entries_refused {A} (entries : list A) : bool :=
  count_refused (N.of_nat (length entries)).

Fixpoint check_limits (l : list (N * f64)) : checked unit :=
  match l with
  | [] => Accept tt
  | (_, lambda_max) :: l =>
    _ ← refuse_if (negb (is_finite lambda_max)) RNonFinite;
    _ ← refuse_if (le_zero lambda_max) RRange;
    check_limits l
  end.

Definition check_controller (c : Controller) : checked unit :=
  _ ← refuse_if (negb (is_finite (eta c) && is_finite (rho c) && is_finite (k_sigma c))) RNonFinite;
  _ ← refuse_if (lt_zero (eta c) || lt_zero (rho c) || f64_gt (rho c) (f64_of_N 1)
                 || lt_zero (k_sigma c)) RRange;
  _ ← refuse_if ((max_age c =? 0) || (cadence c =? 0)) RRange;
  _ ← refuse_if (entries_refused (limits c)) RRange;
  _ ← refuse_if (negb (ids_ascending (limits c))) RResource;
  check_limits (limits c).

Definition check_price_vector (v : PriceVector) : checked unit :=
  _ ← refuse_if (digest_is_zero (context v)) RDigest;
  _ ← refuse_if (entries_refused (states v)) RRange;
  _ ← refuse_if (negb (ids_ascending (states v))) RResource;
  refuse_if (existsb (λ e, digest_is_zero e.2) (states v)) RDigest.

(** ** Decoders *)

Definition decode_resource (buf : string) : checked Resource :=
  let '((id, unit, sc, con), r) :=
    (_ ← read_header KResource;
     id ← read_int 4;
     unit ← read_int 4;
     sc ← read_f64;
     con ← read_digest;
     mret (id, unit, sc, con)) (new_reader buf) in
  _ ← read_end r;
  check_resource id unit sc con.

Definition read_constraint : Rd RawConstraint :=
  _ ← read_header KConstraint;
  id ← read_int 4; u ← read_int 4; c ← read_int 4;
  b ← read_f64; bc ← read_digest; orf ← read_digest; er ← read_digest;
  ek ← read_int 4; e ← read_f64; un ← read_f64; cr ← read_digest;
  la ← read_f64; ls ← read_int 4; ci ← read_digest;
  g ← read_int 8; t ← read_int 8; ev ← read_digest; pa ← read_digest;
  mret {| raw_resource_id := id; raw_unit := u; raw_cls := c; raw_budget := b;
    raw_budget_contract := bc; raw_observation_ref := orf; raw_estimate_ref := er;
    raw_estimate_kind := ek; raw_estimate := e; raw_uncertainty := un;
    raw_calibration_ref := cr; raw_lambda := la; raw_lambda_state := ls;
    raw_controller_id := ci; raw_generation := g; raw_tick := t; raw_evidence_root := ev;
    raw_parent := pa |}.
Definition decode_constraint (buf : string) : checked ConstraintState :=
  let '(raw, r) := read_constraint (new_reader buf) in
  _ ← read_end r;
  check_raw raw.

(** The number of entries is checked before they are read. *)
Definition decode_controller (buf : string) : checked Controller :=
  let '((e, rh, k, ma, ca, n), r) :=
    (_ ← read_header KController;
     e ← read_f64; rh ← read_f64; k ← read_f64;
     ma ← read_int 8; ca ← read_int 8; n ← read_int 4;
     mret (e, rh, k, ma, ca, n)) (new_reader buf) in
  match st r with
  | Some why => Refuse why
  | None =>
    if count_refused n then Refuse RRange
    else
      let '(entries, r) := read_entries (N.to_nat n) read_f64 r in
      _ ← read_end r;
      let c := {| eta := e; rho := rh; k_sigma := k; max_age := ma; cadence := ca;
                  limits := entries |} in
      _ ← check_controller c;
      Accept c
  end.

Definition decode_price_vector (buf : string) : checked PriceVector :=
  let '((g, c, n), r) :=
    (_ ← read_header KPriceVector;
     g ← read_int 8; c ← read_digest; n ← read_int 4;
     mret (g, c, n)) (new_reader buf) in
  match st r with
  | Some why => Refuse why
  | None =>
    if count_refused n then Refuse RRange
    else
      let '(entries, r) := read_entries (N.to_nat n) read_digest r in
      _ ← read_end r;
      let v := {| generation := g; context := c; states := entries |} in
      _ ← check_price_vector v;
      Accept v
  end.

(** ** Encoders *)

Definition w_u32 (n : N) : string := le_bytes 4 n.
Definition w_u64 (n : N) : string := le_bytes 8 n.
(** Both zeros are written as zero bits. *)
Definition w_f64 (d : f64) : string :=
  w_u64 (match d with S754_zero _ => 0 | _ => f64_to_bits d end).
Definition w_header (k : Kind) : string := le_bytes 1 (kind_byte k) +:+ le_bytes 1 FORMAT_VERSION.

Definition encode_resource (x : Resource) : string :=
  concat_all [w_header KResource; w_u32 (res_id x); w_u32 (unit_u32 (res_unit x));
              w_f64 (scale x); contract x].

Definition encode_constraint (s : ConstraintState) : string :=
  concat_all
    [w_header KConstraint; w_u32 (resource_id s); w_u32 (unit_u32 (con_unit s));
     w_u32 (class_u32 (class s)); w_f64 (budget s); budget_contract s; observation_ref s;
     estimate_ref s; w_u32 (estimate_u32 (estimate_kind s)); w_f64 (estimate s);
     w_f64 (uncertainty s); calibration_ref s; w_f64 (lambda s);
     w_u32 (lambda_u32 (lambda_state s)); controller_id s; w_u64 (con_generation s);
     w_u64 (tick s); evidence_root s; parent s].

(** [entries.len() as u32]. *)
Definition w_count {A} (l : list A) : string := w_u32 (N.of_nat (length l) mod 2 ^ 32).
Definition w_entries {A} (w : A → string) (l : list (N * A)) : string :=
  concat_all ((λ e, w_u32 e.1 +:+ w e.2) <$> l).

Definition encode_controller (c : Controller) : string :=
  concat_all [w_header KController; w_f64 (eta c); w_f64 (rho c); w_f64 (k_sigma c);
              w_u64 (max_age c); w_u64 (cadence c); w_count (limits c);
              w_entries w_f64 (limits c)].

Definition encode_price_vector (v : PriceVector) : string :=
  concat_all [w_header KPriceVector; w_u64 (generation v); context v; w_count (states v);
              w_entries id (states v)].

(** ** Identity *)

(** A record of any kind. *)
Inductive record :=
  | ResourceRecord (x : Resource)
  | ConstraintRecord (x : ConstraintState)
  | ControllerRecord (x : Controller)
  | PriceVectorRecord (x : PriceVector).

Definition kind_of (r : record) : Kind :=
  match r with
  | ResourceRecord _ => KResource | ConstraintRecord _ => KConstraint
  | ControllerRecord _ => KController | PriceVectorRecord _ => KPriceVector
  end.
Definition encode (r : record) : string :=
  match r with
  | ResourceRecord x => encode_resource x | ConstraintRecord x => encode_constraint x
  | ControllerRecord x => encode_controller x | PriceVectorRecord x => encode_price_vector x
  end.
Definition decode (k : Kind) (buf : string) : checked record :=
  match k with
  | KResource => x ← decode_resource buf; Accept (ResourceRecord x)
  | KConstraint => x ← decode_constraint buf; Accept (ConstraintRecord x)
  | KController => x ← decode_controller buf; Accept (ControllerRecord x)
  | KPriceVector => x ← decode_price_vector buf; Accept (PriceVectorRecord x)
  end.
Definition domain_of (k : Kind) : string :=
  match k with
  | KResource => DOMAIN_RESOURCE | KConstraint => DOMAIN_CONSTRAINT
  | KController => DOMAIN_CONTROLLER | KPriceVector => DOMAIN_PRICE_VECTOR
  end.

Section Identity.
Context `{Sha256}.

Definition domain_preimage (domain encoding : string) : string :=
  domain +:+ String (byte 0) encoding.
Definition domain_digest (domain encoding : string) : string :=
  sha256 (domain_preimage domain encoding).

Definition digest_resource (x : Resource) : string :=
  domain_digest DOMAIN_RESOURCE (encode_resource x).
Definition digest_constraint (x : ConstraintState) : string :=
  domain_digest DOMAIN_CONSTRAINT (encode_constraint x).
Definition digest_controller (x : Controller) : string :=
  domain_digest DOMAIN_CONTROLLER (encode_controller x).
Definition digest_price_vector (x : PriceVector) : string :=
  domain_digest DOMAIN_PRICE_VECTOR (encode_price_vector x).
Definition digest_record (r : record) : string :=
  match r with
  | ResourceRecord x => digest_resource x | ConstraintRecord x => digest_constraint x
  | ControllerRecord x => digest_controller x | PriceVectorRecord x => digest_price_vector x
  end.

Inductive VerifyError := VRefused (r : Refusal) | DigestMismatch_ (expected actual : string).

(** [None] is success. *)
Definition verify_digest (k : Kind) (bytes expected : string) : option VerifyError :=
  match decode k bytes with
  | Refuse r => Some (VRefused r)
  | Accept x =>
    if bool_decide (digest_record x = expected) then None
    else Some (DigestMismatch_ expected (digest_record x))
  end.

(** ** The scarcity diagnostic *)

Inductive UnavailableReason :=
  | UMissing | UStale | UFrozen | UUncalibrated | URefused | UDigestMismatch | UMalformed.

Inductive ScarcityDiagnostic :=
  | Available (id : N) (u : Unit) (c : Class_) (diagnostic_only : bool) (la : f64) (gen : N)
      (root : string)
  | Unavailable (reason : UnavailableReason) (detail : string).

Definition is_available (d : ScarcityDiagnostic) : bool :=
  match d with Available _ _ _ _ _ _ _ => true | Unavailable _ _ => false end.

Definition not_configured : ScarcityDiagnostic :=
  Unavailable UMissing "no price vector configured".

Definition unavailable (reason : UnavailableReason) (t : string) (l : list string)
    : ScarcityDiagnostic := Unavailable reason (render (Fmt t l)).

Definition refusal (what : string) (r : Refusal) : ScarcityDiagnostic :=
  unavailable (match r with RKind | REncoding => UMalformed | _ => URefused end)
    "{} refused: {}" [what; refusal_text r].

(** [s.lambda > b.lambda || (s.lambda == b.lambda && s.resource_id < b.resource_id)]. *)
Definition dominates (s b : ConstraintState) : bool :=
  f64_gt (lambda s) (lambda b)
  || (f64_le (lambda s) (lambda b) && f64_ge (lambda s) (lambda b)
      && (resource_id s <? resource_id b)).

Definition better (best : option ConstraintState) (s : ConstraintState) : option ConstraintState :=
  if negb (is_fresh_calibrated s) then best
  else match best with
       | None => Some s
       | Some b => if dominates s b then Some s else Some b
       end.
Definition dominant (l : list ConstraintState) : option ConstraintState := foldl better None l.

Definition has_state (l : list ConstraintState) (x : LambdaState) : bool :=
  existsb (λ s, bool_decide (lambda_state s = x)) l.

Definition select_dominant (v : PriceVector) (l : list ConstraintState) : ScarcityDiagnostic :=
  match dominant l with
  | Some b =>
    Available (resource_id b) (con_unit b) (class b) (bool_decide (class b = Capacity)) (lambda b)
      (generation v) (hex_encode (evidence_root b))
  | None =>
    let '(reason, name) :=
      if has_state l Refused then (URefused, "REFUSED")
      else if has_state l Stale then (UStale, "STALE")
      else if has_state l Frozen then (UFrozen, "FROZEN")
      else (UUncalibrated, "UNCALIBRATED") in
    unavailable reason
      "no FRESH calibrated price in a verified vector of {} at generation {}; states include {}"
      [dec (N.of_nat (length l)); dec (generation v); name]
  end.

(** The constraint records with their digests, or the first refusal. *)
Fixpoint decode_all (i : N) (l : list string)
    : ScarcityDiagnostic + list (string * ConstraintState) :=
  match l with
  | [] => inr []
  | bytes :: l =>
    match decode_constraint bytes with
    | Refuse r => inl (refusal ("constraint record " +:+ dec i) r)
    | Accept s =>
      match decode_all (i + 1) l with
      | inl d => inl d
      | inr rest => inr ((digest_constraint s, s) :: rest)
      end
    end
  end.

(** The states the vector names, in order, or the reason one of them is not usable. *)
Fixpoint resolve_states (gen : N) (decoded : list (string * ConstraintState))
    (entries : list (N * string)) : ScarcityDiagnostic + list ConstraintState :=
  match entries with
  | [] => inr []
  | (id, d) :: entries =>
    match List.find (λ e, bool_decide (e.1 = d)) decoded with
    | None => inl (unavailable UMissing
        "no supplied constraint record has digest {} (resource {})" [hex_encode d; dec id])
    | Some (_, s) =>
      if negb (resource_id s =? id) then
        inl (unavailable UDigestMismatch
          "state digest for resource {} names a record for resource {}" [dec id; dec (resource_id s)])
      else if negb (con_generation s =? gen) then
        inl (unavailable URefused "resource {} generation {} differs from vector generation {} ({})"
          [dec id; dec (con_generation s); dec gen; refusal_text RGeneration])
      else
        match resolve_states gen decoded entries with
        | inl e => inl e
        | inr rest => inr (s :: rest)
        end
    end
  end.

Definition from_records (price_vector : string) (constraints : list string)
    (expected : option string) : ScarcityDiagnostic :=
  match decode_price_vector price_vector with
  | Refuse r => refusal "price vector" r
  | Accept v =>
    let actual := digest_price_vector v in
    if bool_decide (expected = None ∨ expected = Some actual) then
      match decode_all 0 constraints with
      | inl d => d
      | inr decoded =>
        match resolve_states (generation v) decoded (states v) with
        | inl d => d
        | inr l => select_dominant v l
        end
      end
    else unavailable UDigestMismatch "price vector digest {} does not match expected {}"
           [hex_encode actual; hex_encode (default "" expected)]
  end.

(** ** Reading a directory *)

(** What the directory answers: the bytes of a file or the text of the error, and the names of
    its entries. *)
Record Directory := {
  contents : string → string + string;
  listing : string + list string
}.

(** An unreadable file, or one that is not UTF-8, counts as absent. *)
Definition expected_digest (d : Directory) : ScarcityDiagnostic + option string :=
  match contents d "price_vector.sha256" with
  | inl _ => inr None
  | inr text =>
    if negb (valid_utf8 text) then inr None
    else match hex_decode (str_trim text) with
         | Some v =>
           if (String.length v =? 32)%nat then inr (Some v)
           else inl (Unavailable UMalformed "price_vector.sha256 is not 32 bytes of hex")
         | None => inl (Unavailable UMalformed "price_vector.sha256 is not 32 bytes of hex")
         end
  end.

Definition is_constraint_name (name : string) : bool :=
  valid_utf8 name && ends_with ".constraint.bin" name.

Fixpoint read_all (dir : string) (d : Directory) (names : list string)
    : ScarcityDiagnostic + list string :=
  match names with
  | [] => inr []
  | n :: names =>
    match contents d n with
    | inl e => inl (unavailable UMissing "cannot read {}: {}" [from_utf8_lossy (path_join dir n); e])
    | inr b => match read_all dir d names with inl x => inl x | inr rest => inr (b :: rest) end
    end
  end.

Definition load_from_dir (dir : string) (d : Directory) : ScarcityDiagnostic :=
  match contents d "price_vector.bin" with
  | inl e =>
    unavailable UMissing "cannot read {}: {}" [from_utf8_lossy (path_join dir "price_vector.bin"); e]
  | inr pv_bytes =>
    match expected_digest d with
    | inl x => x
    | inr expected =>
      match listing d with
      | inl e => unavailable UMissing "cannot list {}: {}" [from_utf8_lossy dir; e]
      | inr names =>
        match read_all dir d (sort_strings (List.filter is_constraint_name names)) with
        | inl x => x
        | inr files => from_records pv_bytes files expected
        end
      end
    end
  end.
End Identity.
