(* ===== verification/DualProps.v ===== *)
(** The record codec accepts exactly the texts of well-formed records (an encoder writes the one
    without negative zeros), a digest identifies a
    record and its kind, and the diagnostic names the largest fresh calibrated price. *)

From S2P Require Import Prelude RustStd Sorting RustNum RustFloat Digest Dual.
#[local] Open Scope N_scope.
#[local] Open Scope string_scope.
#[local] Open Scope list_scope.
#[local] Open Scope N_scope.

(** ** Reading what was written *)

Definition at_text (t : string) : Reader := {| unread := t; st := None |}.

Lemma rd_step {A B} (m : Rd A) (f : A → Rd B) r a r' : m r = (a, r') → (m ≫= f) r = f a r'.
Proof. intros H. unfold mbind, Rd_bind. by rewrite H. Qed.

Lemma rd_back {A B} (m : Rd A) (f : A → Rd B) r b r' : (m ≫= f) r = (b, r') →
  ∃ a r1, m r = (a, r1) ∧ f a r1 = (b, r').
Proof. unfold mbind, Rd_bind. destruct (m r) as [a r1]. eauto. Qed.

Lemma read_bytes_app b t : read_bytes (String.length b) (at_text (b +:+ t)) = (Some b, at_text t).
Proof.
  unfold read_bytes, need; cbn [st at_text unread].
  rewrite (proj2 (Nat.ltb_ge _ _)) by (rewrite str_app_length; lia).
  cbn [unread at_text st]. by rewrite substring_app, str_skip_app.
Qed.

Lemma read_int_app k n t : n < 256 ^ N.of_nat k →
  read_int k (at_text (le_bytes k n +:+ t)) = (n, at_text t).
Proof.
  intros Hn. unfold read_int. rewrite <- (le_bytes_length k n) at 1.
  erewrite rd_step by apply read_bytes_app. unfold mret, Rd_ret. cbn [fmap option_fmap option_map default].
  by rewrite le_value_bytes.
Qed.

(** The one representation of a number: negative zero becomes zero. *)
Definition canon (d : f64) : f64 := match d with S754_zero _ => S754_zero false | _ => d end.
Definition number (d : f64) : Prop := valid_binary prec emax d = true ∧ is_finite d = true.

Lemma canon_number d : number d → number (canon d).
Proof. by destruct d. Qed.

(** A number as its own bits, the sign of a zero included. *)
Definition w_bits (d : f64) : string := le_bytes 8 (f64_to_bits d).

Lemma w_f64_canon d : w_f64 d = w_bits (canon d).
Proof. by destruct d as [[]| | |]. Qed.

Lemma read_f64_app d t : number d → read_f64 (at_text (w_bits d +:+ t)) = (d, at_text t).
Proof.
  intros [Hv Hf]. unfold read_f64, w_bits, w_u64.
  destruct (from_to_bits d Hv ltac:(by destruct d)) as [E Hb].
  erewrite rd_step by (apply read_int_app; exact Hb). unfold mret, Rd_ret. by rewrite E.
Qed.

Lemma read_digest_app d t : String.length d = DIGEST_SIZE →
  read_digest (at_text (d +:+ t)) = (d, at_text t).
Proof.
  intros Hd. unfold read_digest. rewrite <- Hd. by erewrite rd_step by apply read_bytes_app.
Qed.

Lemma read_header_app k t : read_header k (at_text (w_header k +:+ t)) = (tt, at_text t).
Proof.
  unfold read_header, w_header. rewrite <- str_app_assoc.
  rewrite (read_int_app 1) by (by destruct k). rewrite (read_int_app 1) by done.
  cbn [st at_text]. by rewrite N.eqb_refl.
Qed.

Lemma read_end_app : read_end (at_text "") = Accept tt.
Proof. reflexivity. Qed.

Lemma read_entries_app {A} (value : Rd A) (w : A → string) l t :
  Forall (λ e, e.1 < 2 ^ 32) l →
  (∀ e t, e ∈ l → value (at_text (w e.2 +:+ t)) = (e.2, at_text t)) →
  read_entries (length l) value (at_text (w_entries w l +:+ t)) = (l, at_text t).
Proof.
  intros Hid Hv. induction Hid as [|[id v] l Hid Hl IH]; cbn [read_entries length]; [done|].
  unfold w_entries. cbn [fmap list_fmap concat_all foldr fst snd]. rewrite <- !str_app_assoc.
  erewrite rd_step by (apply (read_int_app 4); done).
  erewrite rd_step by (apply (Hv (id, v)); by left).
  erewrite rd_step by (apply IH; intros; apply Hv; by right). done.
Qed.

(** ** Reading backwards *)

Lemma read_bytes_back n r b r' : read_bytes n r = (b, r') → st r' = None →
  st r = None ∧ ∃ s, b = Some s ∧ String.length s = n ∧ unread r = s +:+ unread r'.
Proof.
  unfold read_bytes, need. destruct (st r) as [why|] eqn:Est.
  { intros [= <- <-] H. by rewrite Est in H. }
  destruct (String.length (unread r) <? n)%nat eqn:El.
  { intros [= <- <-]. unfold rd_fail. rewrite Est. done. }
  intros [= <- <-] _. split; [done|]. cbn [unread]. apply Nat.ltb_ge in El. eexists. split; [done|].
  generalize (unread r) El. clear. intros s. revert n. induction s as [|c s IH]; intros [|n] Hn; cbn in *.
  - done.
  - lia.
  - done.
  - destruct (IH n) as [E1 E2]; [lia|]. by rewrite E1, <- E2.
Qed.

Lemma read_int_back k r v r' : read_int k r = (v, r') → st r' = None →
  st r = None ∧ v < 256 ^ N.of_nat k ∧ unread r = le_bytes k v +:+ unread r'.
Proof.
  unfold read_int. intros (b & r1 & Hb & [= <- <-])%rd_back Hst.
  destruct (read_bytes_back _ _ _ _ Hb Hst) as (H1 & s & -> & Hl & Hu). split; [done|].
  cbn [fmap option_fmap option_map default]. rewrite <- Hl at 1. split; [by apply le_value_lt|].
  rewrite Hu. f_equal. symmetry. rewrite <- Hl. by apply le_bytes_value.
Qed.

Lemma read_f64_back r d r' : read_f64 r = (d, r') → st r' = None →
  st r = None ∧ valid_binary prec emax d = true
  ∧ (is_finite d = true → unread r = w_bits d +:+ unread r').
Proof.
  unfold read_f64. intros (bits & r1 & Hb & [= <- <-])%rd_back Hst.
  destruct (read_int_back _ _ _ _ Hb Hst) as (H1 & Hlt & Hu). split; [done|].
  split; [by apply from_bits_valid|]. intros Hf.
  assert (f64_from_bits bits ≠ S754_nan) as Hn by (by destruct (f64_from_bits bits)).
  unfold w_bits. by rewrite (to_from_bits bits Hlt Hn).
Qed.

Lemma read_digest_back r d r' : read_digest r = (d, r') → st r' = None →
  st r = None ∧ String.length d = DIGEST_SIZE ∧ unread r = d +:+ unread r'.
Proof.
  unfold read_digest. intros (b & r1 & Hb & [= <- <-])%rd_back Hst.
  by destruct (read_bytes_back _ _ _ _ Hb Hst) as (H1 & s & -> & Hl & Hu).
Qed.

Lemma read_header_back k r u r' : read_header k r = (u, r') → st r' = None →
  st r = None ∧ unread r = w_header k +:+ unread r'.
Proof.
  unfold read_header. destruct (read_int 1 r) as [a r1] eqn:E1. destruct (read_int 1 r1) as [v r2] eqn:E2.
  intros [= _ <-] Hst. destruct (st r2) as [why|] eqn:E; [by rewrite E in Hst|].
  unfold rd_fail in Hst. rewrite E in Hst.
  destruct (N.eqb_spec a (kind_byte k)) as [->|]; [|done].
  destruct (N.eqb_spec v FORMAT_VERSION) as [->|]; [|done]. cbn [negb].
  destruct (read_int_back _ _ _ _ E2 E) as (S1 & _ & U2).
  destruct (read_int_back _ _ _ _ E1 S1) as (S0 & _ & U1). split; [done|].
  unfold w_header. by rewrite U1, U2, str_app_assoc.
Qed.

Lemma read_end_ok r u : read_end r = Accept u → st r = None ∧ unread r = "".
Proof. unfold read_end. destruct (st r); [done|]. by destruct (bool_decide_reflect (unread r = "")). Qed.

(** ** Well-formed records *)

Definition digest32 (d : string) : Prop := String.length d = DIGEST_SIZE.
Definition present (d : string) : Prop := digest32 d ∧ digest_is_zero d = false.

Definition resource_wf (x : Resource) : Prop :=
  res_id x < 2 ^ 32 ∧ number (scale x) ∧ le_zero (scale x) = false ∧ present (contract x).

Definition constraint_wf (s : ConstraintState) : Prop :=
  resource_id s < 2 ^ 32 ∧ con_generation s < 2 ^ 64 ∧ tick s < 2 ^ 64
  ∧ number (budget s) ∧ number (estimate s) ∧ number (uncertainty s) ∧ number (lambda s)
  ∧ lt_zero (uncertainty s) = false ∧ lt_zero (lambda s) = false
  ∧ present (budget_contract s) ∧ present (estimate_ref s) ∧ present (controller_id s)
  ∧ present (evidence_root s)
  ∧ digest32 (observation_ref s) ∧ (estimate_kind s = Measured → present (observation_ref s))
  ∧ digest32 (calibration_ref s) ∧ (lambda_state s = Fresh → present (calibration_ref s))
  ∧ digest32 (parent s) ∧ (tick s = 0 ↔ digest_is_zero (parent s) = true).

Definition entries_wf {A} (l : list (N * A)) : Prop :=
  entries_refused l = false ∧ ids_ascending l = true ∧ Forall (λ e, e.1 < 2 ^ 32) l.

Definition controller_wf (c : Controller) : Prop :=
  number (eta c) ∧ number (rho c) ∧ number (k_sigma c)
  ∧ lt_zero (eta c) = false ∧ lt_zero (rho c) = false ∧ f64_gt (rho c) (f64_of_N 1) = false
  ∧ lt_zero (k_sigma c) = false
  ∧ 0 < max_age c < 2 ^ 64 ∧ 0 < cadence c < 2 ^ 64
  ∧ entries_wf (limits c) ∧ Forall (λ e, number e.2 ∧ le_zero e.2 = false) (limits c).

Definition price_vector_wf (v : PriceVector) : Prop :=
  generation v < 2 ^ 64 ∧ present (context v) ∧ entries_wf (states v)
  ∧ Forall (λ e, present e.2) (states v).

(** The text of a record field by field, every number as its own bits: the kind, format
    version 1, then the fields, little-endian. *)
Definition wire_resource (x : Resource) : string :=
  concat_all [le_bytes 1 1; le_bytes 1 1; le_bytes 4 (res_id x); le_bytes 4 (unit_u32 (res_unit x));
              w_bits (scale x); contract x].
Definition wire_constraint (s : ConstraintState) : string :=
  concat_all
    [le_bytes 1 2; le_bytes 1 1; le_bytes 4 (resource_id s); le_bytes 4 (unit_u32 (con_unit s));
     le_bytes 4 (class_u32 (class s)); w_bits (budget s); budget_contract s; observation_ref s;
     estimate_ref s; le_bytes 4 (estimate_u32 (estimate_kind s)); w_bits (estimate s);
     w_bits (uncertainty s); calibration_ref s; w_bits (lambda s);
     le_bytes 4 (lambda_u32 (lambda_state s)); controller_id s; le_bytes 8 (con_generation s);
     le_bytes 8 (tick s); evidence_root s; parent s].
Definition w_entry {A} (w : A → string) (e : N * A) : string := le_bytes 4 e.1 +:+ w e.2.
Definition wire_controller (c : Controller) : string :=
  concat_all ([le_bytes 1 3; le_bytes 1 1; w_bits (eta c); w_bits (rho c); w_bits (k_sigma c);
               le_bytes 8 (max_age c); le_bytes 8 (cadence c); le_bytes 4 (N.of_nat (length (limits c)))]
              ++ (w_entry w_bits <$> limits c)).
Definition wire_price_vector (v : PriceVector) : string :=
  concat_all ([le_bytes 1 4; le_bytes 1 1; le_bytes 8 (generation v); context v;
               le_bytes 4 (N.of_nat (length (states v)))] ++ (w_entry id <$> states v)).

(** The records as they are written: negative zeros replaced. *)
Definition canon_resource (x : Resource) : Resource :=
  {| res_id := res_id x; res_unit := res_unit x; scale := canon (scale x); contract := contract x |}.
Definition canon_constraint (s : ConstraintState) : ConstraintState :=
  {| resource_id := resource_id s; con_unit := con_unit s; class := class s;
     budget := canon (budget s); budget_contract := budget_contract s;
     observation_ref := observation_ref s; estimate_ref := estimate_ref s;
     estimate_kind := estimate_kind s; estimate := canon (estimate s);
     uncertainty := canon (uncertainty s); calibration_ref := calibration_ref s;
     lambda := canon (lambda s); lambda_state := lambda_state s;
     controller_id := controller_id s; con_generation := con_generation s; tick := tick s;
     evidence_root := evidence_root s; parent := parent s |}.
Definition canon_controller (c : Controller) : Controller :=
  {| eta := canon (eta c); rho := canon (rho c); k_sigma := canon (k_sigma c);
     max_age := max_age c; cadence := cadence c;
     limits := (λ e, (e.1, canon e.2)) <$> limits c |}.

Lemma units_back u : unit_from_u32 (unit_u32 u) = Some u ∧ unit_u32 u < 2 ^ 32.
Proof. by destruct u. Qed.
Lemma class_back c : class_from_u32 (class_u32 c) = Some c ∧ class_u32 c < 2 ^ 32.
Proof. by destruct c. Qed.
Lemma estimate_back e : estimate_from_u32 (estimate_u32 e) = Some e ∧ estimate_u32 e < 2 ^ 32.
Proof. by destruct e. Qed.
Lemma lambda_back l : lambda_from_u32 (lambda_u32 l) = Some l ∧ lambda_u32 l < 2 ^ 32.
Proof. by destruct l. Qed.

Lemma find_value {A} (f : A → N) l v x : List.find (λ a, f a =? v) l = Some x → f x = v.
Proof. intros H. apply find_some in H as [_ H]. by apply N.eqb_eq. Qed.

Lemma canon_signs d : lt_zero (canon d) = lt_zero d ∧ le_zero (canon d) = le_zero d
  ∧ is_finite (canon d) = is_finite d ∧ f64_gt (canon d) (f64_of_N 1) = f64_gt d (f64_of_N 1).
Proof. by destruct d as [[]|[]| |[]]. Qed.

Lemma refuse_if_ok c why u : refuse_if c why = Accept u ↔ c = false.
Proof. destruct u. by destruct c. Qed.

Lemma bind_accept {A B} (f : A → checked B) m b : (m ≫= f) = Accept b ↔ ∃ a, m = Accept a ∧ f a = Accept b.
Proof. destruct m; cbn; naive_solver. Qed.

(** Reads a field that was written in front of the remaining text. *)
Ltac read_field :=
  lazymatch goal with
  | |- context [(read_header ?k ≫= ?f) ?r] =>
    erewrite (rd_step (read_header k) f r) by apply read_header_app
  | |- context [(read_int 4 ≫= ?f) ?r] =>
    erewrite (rd_step (read_int 4) f r) by (apply (read_int_app 4); first [apply units_back
      | apply class_back | apply estimate_back | apply lambda_back | done | lia])
  | |- context [(read_int 8 ≫= ?f) ?r] =>
    erewrite (rd_step (read_int 8) f r) by (apply (read_int_app 8); first [done | lia])
  | |- context [(read_f64 ≫= ?f) ?r] =>
    erewrite (rd_step read_f64 f r) by (apply read_f64_app; done)
  | |- context [(read_digest ≫= ?f) ?r] =>
    erewrite (rd_step read_digest f r) by (apply read_digest_app; done)
  end.

Ltac start_reading :=
  match goal with |- context [{| unread := ?t; st := None |}] =>
    change {| unread := t; st := None |} with (at_text t) end.

Lemma resource_round_trip x : resource_wf x → decode_resource (wire_resource x) = Accept x.
Proof.
  intros (Hid & Hs & Hp & Hc & Hz). unfold decode_resource, wire_resource, new_reader.
  cbn [concat_all foldr]. start_reading. unfold w_u32. repeat read_field.
  unfold mret at 1, Rd_ret at 1. rewrite read_end_app. cbn [mbind checked_bind].
  unfold check_resource. destruct (units_back (res_unit x)) as [-> _].
  destruct Hs as [_ ->]. rewrite Hp, Hz. by destruct x.
Qed.

Lemma constraint_round_trip s : constraint_wf s →
  decode_constraint (wire_constraint s) = Accept s.
Proof.
  intros (Hid & Hg & Ht & Hb & He & Hu & Hl & Hu0 & Hl0 & [Hbc Zbc] & [Her Zer] & [Hci Zci]
    & [Hev Zev] & Hob & Mob & Hcal & Fcal & Hpa & Tpa).
  unfold decode_constraint, wire_constraint, read_constraint, new_reader.
  cbn [concat_all foldr]. start_reading. unfold w_u32, w_u64. repeat read_field.
  unfold mret at 1, Rd_ret at 1. rewrite read_end_app. cbn [mbind checked_bind].
  unfold check_raw. cbn [raw_unit raw_cls raw_budget raw_estimate raw_uncertainty raw_lambda
    raw_estimate_kind raw_lambda_state raw_budget_contract raw_estimate_ref raw_controller_id
    raw_evidence_root raw_observation_ref raw_calibration_ref raw_tick raw_parent].
  destruct (units_back (con_unit s)) as [-> _], (class_back (class s)) as [-> _],
    (estimate_back (estimate_kind s)) as [-> _], (lambda_back (lambda_state s)) as [-> _].
  destruct Hb as [_ ->], He as [_ ->], Hu as [_ ->], Hl as [_ ->].
  rewrite Hu0, Hl0, Zbc, Zer, Zci, Zev. cbn [or_refuse mbind checked_bind andb orb negb refuse_if].
  assert (bool_decide (estimate_kind s = Measured) && digest_is_zero (observation_ref s) = false) as ->.
  { destruct (decide (estimate_kind s = Measured)) as [E|E].
    - destruct (Mob E) as [_ ->]. by rewrite andb_false_r.
    - by rewrite bool_decide_eq_false_2. }
  assert (digest_is_zero (calibration_ref s) && bool_decide (lambda_state s = Fresh) = false) as ->.
  { destruct (decide (lambda_state s = Fresh)) as [E|E].
    - by destruct (Fcal E) as [_ ->].
    - by rewrite (bool_decide_eq_false_2 (lambda_state s = Fresh)), andb_false_r. }
  assert (Bool.eqb (tick s =? 0) (digest_is_zero (parent s)) = true) as ->.
  { apply eqb_true_iff. destruct (digest_is_zero (parent s)), (N.eqb_spec (tick s) 0) as [E|E]; try done.
    - by apply Tpa in E || (destruct E; by apply Tpa).
    - by apply Tpa in E. }
  by destruct s.
Qed.

Lemma entries_count {A} (l : list (N * A)) : entries_wf l →
  w_count l = le_bytes 4 (N.of_nat (length l)) ∧ N.of_nat (length l) < 2 ^ 32
  ∧ count_refused (N.of_nat (length l)) = false.
Proof.
  intros (Hc & _ & _). unfold entries_refused in Hc. pose proof Hc as Hc'.
  unfold count_refused, MAX_RESOURCES in Hc'. apply orb_false_elim in Hc' as [_ Hm%N.ltb_ge].
  assert (N.of_nat (length l) < 2 ^ 32) by (change (2 ^ 32) with 4294967296; lia).
  split; [|done]. unfold w_count, w_u32. by rewrite N.mod_small.
Qed.

Lemma ids_ascending_fmap {A B} (f : A → B) (l : list (N * A)) :
  ids_ascending ((λ e, (e.1, f e.2)) <$> l) = ids_ascending l.
Proof.
  induction l as [|a l IH]; [done|]. rewrite fmap_cons. cbn [ids_ascending]. rewrite IH.
  by destruct l.
Qed.

Lemma check_limits_ok l : check_limits l = Accept tt ↔
  Forall (λ e, is_finite e.2 = true ∧ le_zero e.2 = false) l.
Proof.
  induction l as [|[id m] l IH]; [done|]. cbn [check_limits]. rewrite Forall_cons, <- IH. cbn [snd].
  unfold refuse_if. destruct (is_finite m), (le_zero m); cbn; tauto || (split; [done|intros [[? ?] ?]; done]).
Qed.

Lemma controller_round_trip c : controller_wf c → decode_controller (wire_controller c) = Accept c.
Proof.
  intros (He & Hr & Hk & He0 & Hr0 & Hr1 & Hk0 & Hm & Hc & Hl & Hv).
  destruct (entries_count _ Hl) as (_ & Hn & Hcount).
  unfold decode_controller, wire_controller, new_reader. rewrite concat_all_app.
  change (concat_all (w_entry w_bits <$> limits c)) with (w_entries w_bits (limits c)).
  cbn [concat_all foldr]. rewrite <- ?str_app_assoc. start_reading.
  unfold w_u64, w_u32. repeat read_field.
  unfold mret at 1, Rd_ret at 1. cbn [st at_text]. rewrite Hcount, Nat2N.id.
  rewrite <- (str_app_nil_r (w_entries _ _)). change ("" +:+ ?t) with t.
  rewrite (read_entries_app _ w_bits).
  2: { by destruct Hl as (_ & _ & ?). }
  2: { intros e t He'. apply read_f64_app. by apply (proj1 (Forall_forall _ _) Hv). }
  rewrite read_end_app. cbn [mbind checked_bind].
  destruct Hl as (Hl1 & Hl2 & Hl3). unfold check_controller; cbn [eta rho k_sigma max_age cadence limits].
  destruct He as [_ ->], Hr as [_ ->], Hk as [_ ->]. rewrite He0, Hr0, Hr1, Hk0.
  rewrite (proj2 (N.eqb_neq (max_age c) 0)), (proj2 (N.eqb_neq (cadence c) 0)) by lia.
  rewrite Hl1, Hl2. cbn [negb andb orb refuse_if mbind checked_bind].
  rewrite (proj2 (check_limits_ok _)); [by destruct c|]. eapply Forall_impl; [exact Hv|].
  by intros e [[_ Hf] Hz].
Qed.

Lemma price_vector_round_trip v : price_vector_wf v →
  decode_price_vector (wire_price_vector v) = Accept v.
Proof.
  intros (Hg & [Hc Zc] & Hl & Hv). destruct (entries_count _ Hl) as (_ & Hn & Hcount).
  unfold decode_price_vector, wire_price_vector, new_reader. rewrite concat_all_app.
  change (concat_all (w_entry id <$> states v)) with (w_entries id (states v)).
  cbn [concat_all foldr]. rewrite <- ?str_app_assoc. start_reading.
  unfold w_u64, w_u32. repeat read_field.
  unfold mret at 1, Rd_ret at 1. cbn [st at_text]. rewrite Hcount, Nat2N.id.
  rewrite <- (str_app_nil_r (w_entries _ _)). change ("" +:+ ?t) with t.
  rewrite (read_entries_app _ id).
  2: { by destruct Hl as (_ & _ & ?). }
  2: { intros e t He'. apply read_digest_app. by apply (proj1 (Forall_forall _ _) Hv). }
  rewrite read_end_app. cbn [mbind checked_bind].
  destruct Hl as (Hl1 & Hl2 & Hl3). unfold check_price_vector; cbn [context states].
  rewrite Zc, Hl1, Hl2. cbn [negb refuse_if mbind checked_bind].
  assert (existsb (λ e : N * string, digest_is_zero e.2) (states v) = false) as ->.
  { clear -Hv. induction Hv as [|e l [_ He] _ IH]; [done|]. cbn [existsb]. by rewrite He, IH. }
  by destruct v.
Qed.

(** ** Nothing else is accepted *)

(** Takes a read apart, last step first, once the reader ended without a failure. *)
Ltac unread_steps :=
  repeat match goal with
  | E : (_ ≫= _) _ = (_, _) |- _ => apply rd_back in E as (? & ? & ? & E)
  | E : mret _ _ = (_, _) |- _ => unfold mret, Rd_ret in E; injection E as ?; subst
  end;
  repeat match goal with
  | Hs : st ?r' = None, H : read_int _ _ = (_, ?r') |- _ =>
    apply (read_int_back _ _ _ _ H) in Hs as (Hs & ? & ?); clear H
  | Hs : st ?r' = None, H : read_f64 _ = (_, ?r') |- _ =>
    apply (read_f64_back _ _ _ H) in Hs as (Hs & ? & ?); clear H
  | Hs : st ?r' = None, H : read_digest _ = (_, ?r') |- _ =>
    apply (read_digest_back _ _ _ H) in Hs as (Hs & ? & ?); clear H
  | Hs : st ?r' = None, H : read_header _ _ = (_, ?r') |- _ =>
    apply (read_header_back _ _ _ _ H) in Hs as (Hs & ?); clear H
  end.

(** Chains the texts the steps consumed. *)
Ltac join_text :=
  repeat match goal with
  | H : unread ?r = _ |- context [unread ?r] => rewrite H; clear H
  end.

Ltac accepted H :=
  repeat (apply bind_accept in H as (? & ? & H));
  repeat match goal with
  | H : refuse_if _ _ = Accept _ |- _ => apply refuse_if_ok in H
  | H : or_refuse ?o _ = Accept _ |- _ => destruct o eqn:?; [injection H as <-|discriminate H]
  end.

Ltac join_floats :=
  repeat match goal with
  | H : is_finite ?d = true → unread _ = _ |- _ => specialize (H ltac:(assumption))
  end.

Lemma resource_decoded buf x : decode_resource buf = Accept x →
  resource_wf x ∧ buf = wire_resource x.
Proof.
  unfold decode_resource.
  destruct ((_ ← read_header KResource; _) (new_reader buf)) as [[[[id u] sc] con] r] eqn:E.
  intros Hd. apply bind_accept in Hd as (? & [Hs Hend]%read_end_ok & Hd).
  unfold check_resource in Hd. accepted Hd. injection Hd as <-.
  unread_steps. guards.
  match goal with H : unit_from_u32 _ = Some _ |- _ => apply find_value in H as <- end.
  split; [by repeat split|].
  change buf with (unread (new_reader buf)).
  unfold wire_resource; cbn [concat_all foldr res_id res_unit scale contract].
  join_floats. by join_text.
Qed.

Lemma flagged_present P `{Decision P} d : digest32 d → bool_decide P && digest_is_zero d = false →
  P → present d.
Proof. intros Hd Hz HP. rewrite bool_decide_eq_true_2 in Hz by done. by split. Qed.

Lemma constraint_decoded buf s : decode_constraint buf = Accept s →
  constraint_wf s ∧ buf = wire_constraint s.
Proof.
  unfold decode_constraint. destruct (read_constraint (new_reader buf)) as [raw r] eqn:E.
  unfold read_constraint in E.
  intros Hd. apply bind_accept in Hd as (? & [Hs Hend]%read_end_ok & Hd).
  unread_steps. unfold check_raw in Hd. cbn [raw_unit raw_cls raw_budget raw_estimate
    raw_uncertainty raw_lambda raw_estimate_kind raw_lambda_state raw_budget_contract
    raw_estimate_ref raw_controller_id raw_evidence_root raw_observation_ref raw_calibration_ref
    raw_tick raw_parent raw_resource_id raw_generation] in Hd.
  accepted Hd. injection Hd as <-.
  rewrite (andb_comm (digest_is_zero _)) in *.
  repeat match goal with
  | H : @bool_decide ?p _ && digest_is_zero ?d = false |- _ =>
    pose proof (λ Hd, flagged_present p d Hd H); clear H
  | H : negb (Bool.eqb _ _) = false |- _ => apply negb_false_iff in H; apply -> eqb_true_iff in H
  | H : List.find _ _ = Some _ |- _ => apply find_value in H as <-
  | H : unit_from_u32 _ = Some _ |- _ => apply find_value in H as <-
  | H : class_from_u32 _ = Some _ |- _ => apply find_value in H as <-
  | H : estimate_from_u32 _ = Some _ |- _ => apply find_value in H as <-
  | H : lambda_from_u32 _ = Some _ |- _ => apply find_value in H as <-
  end.
  guards. split.
  - unfold constraint_wf, number;
      cbn [resource_id con_generation tick budget estimate uncertainty lambda budget_contract
      estimate_ref controller_id evidence_root observation_ref estimate_kind calibration_ref
      lambda_state parent].
    split_and!; try assumption; try (by split);
      try match goal with H : digest32 ?d → _ |- _ → present ?d => exact (H ltac:(assumption)) end.
    match goal with H : (?t =? 0) = _ |- ?t = 0 ↔ _ => by rewrite <- H, N.eqb_eq end.
  - change buf with (unread (new_reader buf)).
    unfold wire_constraint; cbn [concat_all foldr resource_id con_generation tick budget estimate
      uncertainty lambda budget_contract estimate_ref controller_id evidence_root observation_ref
      estimate_kind calibration_ref lambda_state parent con_unit class].
    join_floats. by join_text.
Qed.

Lemma read_entries_back {A} (value : Rd A) (w : A → string) (P good : A → Prop) :
  (∀ r v r', value r = (v, r') → st r' = None →
     st r = None ∧ P v ∧ (good v → unread r = w v +:+ unread r')) →
  ∀ n r l r', read_entries n value r = (l, r') → st r' = None →
  st r = None ∧ length l = n ∧ Forall (λ e, e.1 < 2 ^ 32) l ∧ Forall (λ e, P e.2) l
  ∧ (Forall (λ e, good e.2) l → unread r = w_entries w l +:+ unread r').
Proof.
  intros Hv n. induction n as [|n IH]; intros r l r' E Hs; cbn [read_entries] in E.
  { unfold mret, Rd_ret in E. injection E as <- <-. by repeat split. }
  apply rd_back in E as (id & r1 & E1 & E). apply rd_back in E as (v & r2 & E2 & E).
  apply rd_back in E as (rest & r3 & E3 & [= <- <-]).
  destruct (IH _ _ _ E3 Hs) as (S2 & <- & Hid & HP & Hu3).
  destruct (Hv _ _ _ E2 S2) as (S1 & Hp & Hu2).
  destruct (read_int_back _ _ _ _ E1 S1) as (S0 & Hlt & Hu1).
  split_and!; try done; try by constructor.
  intros [Hg Hgs]%Forall_cons. rewrite Hu1, (Hu2 Hg), (Hu3 Hgs).
  unfold w_entries. cbn [fmap list_fmap concat_all foldr fst snd]. by rewrite <- !str_app_assoc.
Qed.

Lemma limits_back n r (l : list (N * f64)) r' :
  read_entries n read_f64 r = (l, r') → st r' = None →
  st r = None ∧ length l = n ∧ Forall (λ e, e.1 < 2 ^ 32) l
  ∧ Forall (λ e, valid_binary prec emax e.2 = true) l
  ∧ (Forall (λ e, is_finite e.2 = true) l → unread r = w_entries w_bits l +:+ unread r').
Proof.
  apply (read_entries_back read_f64 w_bits (λ d, valid_binary prec emax d = true)
    (λ d, is_finite d = true)).
  intros r0 v r1 E Hs. destruct (read_f64_back _ _ _ E Hs) as (S0 & Hv & Hw).
  by split_and!.
Qed.

Lemma digests_back n r (l : list (N * string)) r' :
  read_entries n read_digest r = (l, r') → st r' = None →
  st r = None ∧ length l = n ∧ Forall (λ e, e.1 < 2 ^ 32) l ∧ Forall (λ e, digest32 e.2) l
  ∧ unread r = w_entries id l +:+ unread r'.
Proof.
  intros E Hs.
  destruct (read_entries_back read_digest id digest32 (λ _, True)) with n r l r'
    as (S0 & Hl & Hi & Hd & Hu); try done.
  - intros r0 v r1 E1 Hs1. by destruct (read_digest_back _ _ _ E1 Hs1) as (S0 & Hl & Hu).
  - split_and!; try done. apply Hu. by apply Forall_true.
Qed.

Lemma entries_checked {A} (l : list (N * A)) : Forall (λ e, e.1 < 2 ^ 32) l →
  entries_refused l = false → negb (ids_ascending l) = false → entries_wf l.
Proof. intros ? ? ?%negb_false_iff. by repeat split. Qed.

Lemma controller_decoded buf c : decode_controller buf = Accept c →
  controller_wf c ∧ buf = wire_controller c.
Proof.
  unfold decode_controller.
  destruct ((_ ← read_header KController; _) (new_reader buf)) as [[[[[[e rh] k] ma] ca] n] r] eqn:E.
  destruct (st r) as [|] eqn:Hs; [done|]. destruct (count_refused n) eqn:Hn; [done|].
  destruct (read_entries _ read_f64 r) as [l r'] eqn:El.
  intros Hd. apply bind_accept in Hd as (? & [Hs' Hend]%read_end_ok & Hd).
  destruct (limits_back _ _ _ _ El Hs') as (_ & Hlen & Hid & Hval & Hu).
  apply bind_accept in Hd as (? & Hc & [= <-]). unfold check_controller in Hc. accepted Hc.
  cbn [eta rho k_sigma max_age cadence limits] in *.
  unread_steps.
  assert (Forall (λ e, is_finite e.2 = true ∧ le_zero e.2 = false) l) as Hlim.
  { match goal with H : check_limits l = Accept ?u |- _ => destruct u; by apply check_limits_ok end. }
  match goal with H : negb (ids_ascending l) = false |- _ =>
    pose proof (entries_checked l Hid ltac:(assumption) H) as Hwf end.
  guards. split.
  - unfold controller_wf, number; cbn [eta rho k_sigma max_age cadence limits].
    change (2 ^ 64) with (256 ^ N.of_nat 8). split_and!; try assumption; try lia.
    apply Forall_and; split; [|by eapply Forall_impl; [exact Hlim|intros ? [??]]].
    apply Forall_and; split; [done|by eapply Forall_impl; [exact Hlim|intros ? [??]]].
  - change buf with (unread (new_reader buf)). unfold wire_controller. rewrite concat_all_app.
    change (concat_all (w_entry w_bits <$> limits _)) with (w_entries w_bits l).
    cbn [concat_all foldr eta rho k_sigma max_age cadence limits].
    rewrite Hlen, N2Nat.id, <- ?str_app_assoc. join_floats. join_text.
    rewrite Hend in Hu. rewrite Hu by (by eapply Forall_impl; [exact Hlim|intros ? [??]]).
    unfold w_u64. by rewrite ?str_app_nil_r.
Qed.

Lemma price_vector_decoded buf v : decode_price_vector buf = Accept v →
  price_vector_wf v ∧ buf = wire_price_vector v.
Proof.
  unfold decode_price_vector.
  destruct ((_ ← read_header KPriceVector; _) (new_reader buf)) as [[[g c] n] r] eqn:E.
  destruct (st r) as [|] eqn:Hs; [done|]. destruct (count_refused n) eqn:Hn; [done|].
  destruct (read_entries _ read_digest r) as [l r'] eqn:El.
  intros Hd. apply bind_accept in Hd as (? & [Hs' Hend]%read_end_ok & Hd).
  destruct (digests_back _ _ _ _ El Hs') as (_ & Hlen & Hid & Hval & Hu).
  apply bind_accept in Hd as (? & Hc & [= <-]). unfold check_price_vector in Hc. accepted Hc.
  cbn [generation context states] in *. unread_steps.
  match goal with H : negb (ids_ascending l) = false |- _ =>
    pose proof (entries_checked l Hid ltac:(assumption) H) as Hwf end.
  split.
  - unfold price_vector_wf, present; cbn [generation context states]. split_and!; try assumption.
    apply Forall_and; split; [done|]. apply Forall_forall. intros e He.
    destruct (digest_is_zero e.2) eqn:Z; [|done]. exfalso.
    match goal with H : existsb _ l = false |- _ =>
      rewrite (proj2 (existsb_exists _ l)) in H; [done|] end.
    exists e. split; [by apply list_elem_of_In|exact Z].
  - change buf with (unread (new_reader buf)). unfold wire_price_vector. rewrite concat_all_app.
    change (concat_all (w_entry id <$> states _)) with (w_entries id l).
    cbn [concat_all foldr generation context states].
    rewrite Hlen, N2Nat.id, <- ?str_app_assoc. join_text.
    unfold w_u64. by rewrite ?str_app_nil_r.
Qed.

(** ** All kinds *)

Definition record_wf (r : record) : Prop :=
  match r with
  | ResourceRecord x => resource_wf x | ConstraintRecord x => constraint_wf x
  | ControllerRecord x => controller_wf x | PriceVectorRecord x => price_vector_wf x
  end.
Definition canonical (r : record) : record :=
  match r with
  | ResourceRecord x => ResourceRecord (canon_resource x)
  | ConstraintRecord x => ConstraintRecord (canon_constraint x)
  | ControllerRecord x => ControllerRecord (canon_controller x)
  | PriceVectorRecord x => PriceVectorRecord x
  end.

Definition wire (r : record) : string :=
  match r with
  | ResourceRecord x => wire_resource x | ConstraintRecord x => wire_constraint x
  | ControllerRecord x => wire_controller x | PriceVectorRecord x => wire_price_vector x
  end.

Lemma record_round_trip r : record_wf r → decode (kind_of r) (wire r) = Accept r.
Proof.
  destruct r; cbn [record_wf decode kind_of wire]; intros Hw.
  - by rewrite (resource_round_trip _ Hw).
  - by rewrite (constraint_round_trip _ Hw).
  - by rewrite (controller_round_trip _ Hw).
  - by rewrite (price_vector_round_trip _ Hw).
Qed.

Lemma record_decoded k buf r : decode k buf = Accept r →
  kind_of r = k ∧ record_wf r ∧ buf = wire r.
Proof.
  destruct k; cbn [decode]; intros (x & Hd & [= <-])%bind_accept; cbn [kind_of record_wf wire].
  - by destruct (resource_decoded _ _ Hd).
  - by destruct (constraint_decoded _ _ Hd).
  - by destruct (controller_decoded _ _ Hd).
  - by destruct (price_vector_decoded _ _ Hd).
Qed.

(** An encoder writes the plain text of the record with its negative zeros replaced. *)
Lemma encode_wire r : record_wf r → encode r = wire (canonical r).
Proof.
  destruct r as [x|x|x|x]; cbn [record_wf encode canonical wire]; intros Hw.
  - unfold encode_resource, wire_resource. by rewrite w_f64_canon.
  - unfold encode_constraint, wire_constraint. by rewrite !w_f64_canon.
  - destruct Hw as (_ & _ & _ & _ & _ & _ & _ & _ & _ & Hl & _).
    unfold encode_controller, wire_controller. rewrite concat_all_app, !w_f64_canon.
    destruct (entries_count _ Hl) as (-> & _ & _). cbn [canon_controller limits].
    rewrite length_fmap. unfold w_entries.
    assert ((λ e : N * f64, w_u32 e.1 +:+ w_f64 e.2) <$> limits x
            = w_entry w_bits <$> ((λ e, (e.1, canon e.2)) <$> limits x)) as ->.
    { rewrite <- list_fmap_compose. apply list_fmap_ext. intros ? [? ?] _.
      unfold w_entry, compose. cbn [fst snd]. by rewrite w_f64_canon. }
    cbn [concat_all foldr]. by rewrite <- ?str_app_assoc, str_app_nil_r.
  - destruct Hw as (_ & _ & Hl & _). unfold encode_price_vector, wire_price_vector.
    rewrite concat_all_app. destruct (entries_count _ Hl) as (-> & _ & _).
    cbn [concat_all foldr]. by rewrite <- ?str_app_assoc, str_app_nil_r.
Qed.

Lemma canonical_wf r : record_wf r → record_wf (canonical r) ∧ kind_of (canonical r) = kind_of r.
Proof.
  destruct r as [x|x|x|x]; cbn [record_wf canonical kind_of]; intros Hw; (split; [|done]); [| | |done].
  - destruct Hw as (? & ?%canon_number & ? & ?). unfold resource_wf.
    cbn [canon_resource res_id scale contract].
    destruct (canon_signs (scale x)) as (_ & -> & _). by split_and!.
  - destruct Hw as (? & ? & ? & ?%canon_number & ?%canon_number & ?%canon_number & ?%canon_number & Hw).
    unfold constraint_wf. cbn [canon_constraint resource_id con_generation tick budget estimate
      uncertainty lambda budget_contract estimate_ref controller_id evidence_root observation_ref
      estimate_kind calibration_ref lambda_state parent].
    destruct (canon_signs (uncertainty x)) as (-> & _), (canon_signs (lambda x)) as (-> & _).
    do 7 (split; [assumption|]). exact Hw.
  - destruct Hw as (?%canon_number & ?%canon_number & ?%canon_number & ? & ? & ? & ? & ? & ? & Hl & Hv).
    unfold controller_wf. cbn [canon_controller eta rho k_sigma max_age cadence limits].
    destruct (canon_signs (eta x)) as (-> & _), (canon_signs (rho x)) as (-> & _ & _ & ->),
      (canon_signs (k_sigma x)) as (-> & _).
    do 9 (split; [assumption|]). split.
    + destruct Hl as (Hlen & Hasc & Hid). unfold entries_wf, entries_refused in *.
      rewrite ids_ascending_fmap, length_fmap. split_and!; try done. by apply Forall_fmap.
    + apply Forall_fmap. eapply Forall_impl; [exact Hv|]. intros [i d] [?%canon_number ?].
      cbn in *. split; [done|]. by destruct (canon_signs d) as (_ & -> & _).
Qed.

Lemma canonical_idempotent r : canonical (canonical r) = canonical r.
Proof.
  assert (∀ d, canon (canon d) = canon d) as Hd by (by intros []).
  destruct r as [x|x|x|x]; cbn; unfold canon_resource, canon_constraint, canon_controller; cbn;
    rewrite ?Hd; try done.
  rewrite <- list_fmap_compose. do 2 f_equal. apply list_fmap_ext. intros ? [? ?] _. cbn. by rewrite Hd.
Qed.

Lemma wire_inj r r' : record_wf r → record_wf r' → wire r = wire r' → r = r'.
Proof.
  intros Hw Hw' Heq. pose proof (record_round_trip _ Hw) as H. pose proof (record_round_trip _ Hw') as H'.
  assert (kind_of r = kind_of r') as Hk by (destruct r, r'; try done; discriminate Heq).
  rewrite Heq, Hk, H' in H. by injection H.
Qed.

(** C36: the record codec is exact.  The decoder of a kind returns a record on exactly one byte
    string, the fields of that record in order with every number as its own bits, and exactly
    when the record is of that kind and well formed: every field in its width, numbers finite and
    in range, required digests nonzero, entries counted and in strictly ascending order.  No
    truncated, padded or reordered text decodes.  The encoder of a well-formed record writes that
    string with every negative zero replaced by zero, and decoding it gives the record with the
    same replacement: a text with a negative zero is accepted, and is no record's encoding. *)
Theorem codec_exact k buf r :
  (decode k buf = Accept r ↔ kind_of r = k ∧ record_wf r ∧ buf = wire r)
  ∧ (record_wf r → encode r = wire (canonical r)
       ∧ decode (kind_of r) (encode r) = Accept (canonical r)
       ∧ (canonical r ≠ r → ∀ r', record_wf r' → encode r' ≠ wire r)).
Proof.
  split; [split|].
  - by apply record_decoded.
  - intros (<- & Hw & ->). by apply record_round_trip.
  - intros Hw. rewrite (encode_wire r Hw). split; [done|].
    destruct (canonical_wf r Hw) as [Hc Kc]. split.
    + rewrite <- Kc. by apply record_round_trip.
    + intros Hne r' Hw' Heq. apply Hne. rewrite (encode_wire r' Hw') in Heq.
      apply wire_inj in Heq as <-; [apply canonical_idempotent| |done].
      by apply canonical_wf.
Qed.

Lemma encode_inj r r' : record_wf r → record_wf r' → kind_of r = kind_of r' → encode r = encode r' →
  canonical r = canonical r'.
Proof.
  intros Hw Hw' Hk He. rewrite !encode_wire in He by done.
  destruct (canonical_wf r Hw) as [Hc Kc], (canonical_wf r' Hw') as [Hc' Kc'].
  pose proof (record_round_trip _ Hc) as H. rewrite He, Kc, Hk, <- Kc' in H.
  rewrite record_round_trip in H by done. by injection H.
Qed.

Section Verified.
Context `{Sha256}.

Lemma kind_preimage_inj k k' e e' :
  domain_preimage (domain_of k) e = domain_preimage (domain_of k') e' → k = k' ∧ e = e'.
Proof. destruct k, k'; unfold domain_preimage; cbn; intros Heq; simplify_eq; done. Qed.

Lemma digest_record_eq r : digest_record r = domain_digest (domain_of (kind_of r)) (encode r).
Proof. by destruct r. Qed.

Lemma verify_digest_ok k buf d : verify_digest k buf d = None ↔
  ∃ r, decode k buf = Accept r ∧ digest_record r = d.
Proof.
  unfold verify_digest. destruct (decode k buf) as [r|why].
  - case_bool_decide; naive_solver.
  - naive_solver.
Qed.

(** What is hashed when a text is verified. *)
Definition verified_preimage (k : Kind) (buf : string) : list string :=
  match decode k buf with
  | Accept r => [domain_preimage (domain_of k) (encode r)]
  | Refuse _ => []
  end.

(** one digest names one record of one kind.  Two texts that verify against the same
    expected digest, even as records of different kinds, are of the same kind and decode to
    the same record up to the sign of zeros, unless SHA-256 collides on their two preimages:
    the domain strings keep the kinds apart and the encoding keeps the records of a kind
    apart. *)
Theorem digest_names_record k k' buf buf' d
  (Hd : verify_digest k buf d = None) (Hd' : verify_digest k' buf' d = None)
  (Hx : no_collision (verified_preimage k buf ++ verified_preimage k' buf')) :
  k = k' ∧ ∃ r r', decode k buf = Accept r ∧ decode k' buf' = Accept r' ∧ canonical r = canonical r'.
Proof.
  apply verify_digest_ok in Hd as (r & Hr & <-). apply verify_digest_ok in Hd' as (r' & Hr' & Heq).
  unfold verified_preimage in Hx. rewrite Hr, Hr' in Hx.
  destruct (record_decoded _ _ _ Hr) as (<- & Hw & _), (record_decoded _ _ _ Hr') as (<- & Hw' & _).
  rewrite !digest_record_eq in Heq. unfold domain_digest in Heq.
  apply (no_collision_elim _ _ _ Hx) in Heq as [Hk He]%kind_preimage_inj; [|by right; left|by left].
  split; [done|]. exists r, r'. split_and!; try done. by apply encode_inj.
Qed.

(** ** The diagnostic *)

Lemma decode_all_refuses i cs d : decode_all i cs = inl d → is_available d = false.
Proof.
  revert i. induction cs as [|b cs IH]; intros i; cbn [decode_all]; [done|].
  destruct (decode_constraint b) as [s|why]; [|intros [= <-]; by destruct why].
  destruct (decode_all (i + 1) cs) as [d'|] eqn:E; [|done]. intros [= <-]. by eapply IH.
Qed.

Lemma resolve_states_refuses gen decoded entries d :
  resolve_states gen decoded entries = inl d → is_available d = false.
Proof.
  induction entries as [|[i x] entries IH]; cbn [resolve_states]; [done|].
  destruct (List.find _ decoded) as [[d' s]|]; [|by intros [= <-]].
  destruct (negb _); [by intros [= <-]|]. destruct (negb _); [by intros [= <-]|].
  destruct (resolve_states gen decoded entries) as [d''|]; [|done]. intros [= <-]. by apply IH.
Qed.

(** [b] is the choice among [l]: fresh and calibrated, of the largest price, and first in
    resource order among those of its price. *)
Definition chosen (b : ConstraintState) (l : list ConstraintState) : Prop :=
  b ∈ l ∧ is_fresh_calibrated b = true
  ∧ ∀ s, s ∈ l → is_fresh_calibrated s = true →
      f64_lt (lambda b) (lambda s) = false
      ∧ (f64_lt (lambda s) (lambda b) = false → resource_id b <= resource_id s).

Definition price_key (s : ConstraintState) : Z := f64_key (lambda s).

Lemma dominates_key s b : number (lambda s) → number (lambda b) →
  dominates s b = (price_key b <? price_key s)%Z
                  || ((price_key s =? price_key b)%Z && (resource_id s <? resource_id b)).
Proof.
  intros [Vs Fs] [Vb Fb]. unfold dominates, f64_gt, f64_ge.
  change (SFltb (lambda b) (lambda s)) with (f64_lt (lambda b) (lambda s)).
  change (SFleb (lambda b) (lambda s)) with (f64_le (lambda b) (lambda s)).
  rewrite lt_key, !le_key by done. fold (price_key s) (price_key b). f_equal. f_equal.
  destruct (Z.eqb_spec (price_key s) (price_key b)); lia.
Qed.

Lemma fold_better l : Forall (λ s, number (lambda s)) l →
  match dominant l with
  | Some b => b ∈ l ∧ is_fresh_calibrated b = true
      ∧ ∀ s, s ∈ l → is_fresh_calibrated s = true →
          (price_key s < price_key b)%Z ∨ price_key s = price_key b ∧ resource_id b <= resource_id s
  | None => ∀ s, s ∈ l → is_fresh_calibrated s = false
  end.
Proof.
  induction l as [|s l IH] using rev_ind; intros Hn.
  { intros s Hs. by apply not_elem_of_nil in Hs. }
  apply Forall_app in Hn as [Hn [Hs _]%Forall_cons]. specialize (IH Hn).
  unfold dominant in *. rewrite foldl_snoc. set (best := foldl better None l) in *. clearbody best.
  unfold better. destruct (is_fresh_calibrated s) eqn:Ef; cbn [negb].
  - destruct best as [b|].
    + destruct IH as (Hb & Hfb & Hmax). rewrite dominates_key; [|done|].
      2: { by apply (proj1 (Forall_forall _ _) Hn). }
      destruct (_ || _) eqn:Ed.
      * assert ((price_key b < price_key s)%Z ∨ price_key s = price_key b ∧ resource_id s < resource_id b)
          as Hd by (apply orb_true_iff in Ed as [?%Z.ltb_lt|[?%Z.eqb_eq ?%N.ltb_lt]%andb_prop]; auto).
        split_and!; [apply elem_of_app; right; by left|done|].
        intros x [Hx| ->%list_elem_of_singleton]%elem_of_app Hfx; [|lia].
        specialize (Hmax x Hx Hfx). lia.
      * assert ((price_key s < price_key b)%Z ∨ price_key s = price_key b ∧ resource_id b <= resource_id s)
          as Hd by (apply orb_false_elim in Ed as [?%Z.ltb_ge [?%Z.eqb_neq|?%N.ltb_ge]%andb_false_iff]; lia).
        split_and!; [apply elem_of_app; by left|done|].
        intros x [Hx| ->%list_elem_of_singleton]%elem_of_app Hfx; [by apply Hmax|lia].
    + split_and!; [apply elem_of_app; right; by left|done|].
      intros x [Hx| ->%list_elem_of_singleton]%elem_of_app Hfx; [|lia].
      by rewrite IH in Hfx.
  - destruct best as [b|].
    + destruct IH as (Hb & Hfb & Hmax). split_and!; [apply elem_of_app; by left|done|].
      intros x [Hx| ->%list_elem_of_singleton]%elem_of_app Hfx; [by apply Hmax|congruence].
    + intros x [Hx| ->%list_elem_of_singleton]%elem_of_app; by auto.
Qed.

Lemma chosen_keys b l : Forall (λ s, number (lambda s)) l →
  chosen b l ↔ b ∈ l ∧ is_fresh_calibrated b = true
    ∧ ∀ s, s ∈ l → is_fresh_calibrated s = true →
        (price_key s < price_key b)%Z ∨ price_key s = price_key b ∧ resource_id b <= resource_id s.
Proof.
  intros Hn. pose proof (proj1 (Forall_forall _ _) Hn) as Hk. cbn beta in Hk.
  assert (b ∈ l → ∀ s, s ∈ l → f64_lt (lambda b) (lambda s) = (price_key b <? price_key s)%Z
    ∧ f64_lt (lambda s) (lambda b) = (price_key s <? price_key b)%Z) as Hlt.
  { intros Hb s Hs. destruct (Hk s Hs), (Hk b Hb). by rewrite !lt_key. }
  split; intros (Hb & Hf & Hc); (split_and!; [done..|]); intros s Hs Hfs; specialize (Hc s Hs Hfs);
    destruct (Hlt Hb s Hs) as [E1 E2]; rewrite E1, E2, ?Z.ltb_ge in *; lia.
Qed.

Lemma dominant_chosen l : Forall (λ s, number (lambda s)) l →
  match dominant l with Some b => chosen b l | None => ∀ s, s ∈ l → is_fresh_calibrated s = false end.
Proof.
  intros Hn. pose proof (fold_better l Hn) as Hb. destruct (dominant l) as [b|]; [|done].
  by apply chosen_keys.
Qed.

Lemma ascending_cons {A} (a : N * A) l : ids_ascending (a :: l) = true →
  Forall (λ b, a.1 < b.1) l ∧ ids_ascending l = true.
Proof.
  revert a. induction l as [|b l IH]; intros a; [by split; [constructor|]|].
  cbn [ids_ascending]. intros [Hlt%N.ltb_lt Hl]%andb_prop.
  destruct (IH b Hl) as [Hb Hl']. split; [|exact Hl]. constructor; [done|].
  eapply Forall_impl; [exact Hb|]. cbn. intros; lia.
Qed.

Lemma ascending_NoDup {A} (l : list (N * A)) : ids_ascending l = true → NoDup l.*1.
Proof.
  induction l as [|a l IH]; intros Ha; [by constructor|].
  apply ascending_cons in Ha as [Hf Hl]. rewrite fmap_cons. constructor; [|by apply IH].
  intros (b & Hb & Hin)%list_elem_of_fmap. apply (proj1 (Forall_forall _ _) Hf) in Hin. lia.
Qed.

Lemma chosen_unique b b' l : Forall (λ s, number (lambda s)) l → NoDup (resource_id <$> l) →
  chosen b l → chosen b' l → b = b'.
Proof.
  intros Hn Hd (Hb & Hf & Hm)%(chosen_keys _ _ Hn) (Hb' & Hf' & Hm')%(chosen_keys _ _ Hn).
  specialize (Hm b' Hb' Hf'). specialize (Hm' b Hb Hf).
  assert (resource_id b = resource_id b') as Hid by lia.
  apply list_elem_of_lookup in Hb as [i Hi]. apply list_elem_of_lookup in Hb' as [j Hj].
  assert (i = j) as ->; [|congruence].
  apply (NoDup_lookup (resource_id <$> l) i j (resource_id b)); rewrite ?list_lookup_fmap, ?Hi, ?Hj;
    cbn; congruence.
Qed.

Definition from_supplied (decoded : list (string * ConstraintState)) (d : string)
    (s : ConstraintState) : Prop :=
  List.find (λ e, bool_decide (e.1 = d)) decoded = Some (d, s).

(** The supplied texts verify: the vector decodes and has the expected digest, every constraint
    text decodes, and [l] are the records the vector names, in its order, each found by its
    digest and of the resource and the generation the vector gives it. *)
Definition usable (pv : string) (cs : list string) (expected : option string) (v : PriceVector)
    (l : list ConstraintState) : Prop :=
  decode_price_vector pv = Accept v
  ∧ (expected = None ∨ expected = Some (digest_price_vector v))
  ∧ ∃ supplied, Forall2 (λ t s, decode_constraint t = Accept s) cs supplied
    ∧ Forall2 (λ e s, from_supplied ((λ x, (digest_constraint x, x)) <$> supplied) e.2 s
        ∧ resource_id s = e.1 ∧ con_generation s = generation v) (states v) l.

Lemma decode_all_iff i cs l : decode_all i cs = inr l ↔
  ∃ supplied, Forall2 (λ t s, decode_constraint t = Accept s) cs supplied
    ∧ l = (λ x, (digest_constraint x, x)) <$> supplied.
Proof.
  revert i l. induction cs as [|b cs IH]; intros i l; cbn [decode_all].
  { split.
    - intros [= <-]. by exists [].
    - by intros (? & ->%Forall2_nil_inv_l & ->). }
  split.
  - destruct (decode_constraint b) as [s|] eqn:E; [|done].
    destruct (decode_all (i + 1) cs) as [|rest] eqn:E'; [done|]. intros [= <-].
    apply IH in E' as (supplied & Hs & ->). exists (s :: supplied). by split; [constructor|].
  - intros (? & (s & supplied & E & Hs & ->)%Forall2_cons_inv_l & ->). rewrite E.
    erewrite (proj2 (IH (i + 1) _)); [done|]. by eauto.
Qed.

Lemma resolve_states_iff gen decoded entries l : resolve_states gen decoded entries = inr l ↔
  Forall2 (λ e s, from_supplied decoded e.2 s ∧ resource_id s = e.1 ∧ con_generation s = gen) entries l.
Proof.
  revert l. induction entries as [|[i d] entries IH]; intros l; cbn [resolve_states].
  { split; [by intros [= <-]|by intros ->%Forall2_nil_inv_l]. }
  split.
  - destruct (List.find _ decoded) as [[d' s]|] eqn:E; [|done].
    pose proof (find_some _ _ E) as [_ Hd]. apply bool_decide_eq_true_1 in Hd. cbn in Hd. subst d'.
    destruct (N.eqb_spec (resource_id s) i); [|done]. destruct (N.eqb_spec (con_generation s) gen); [|done].
    destruct (resolve_states gen decoded entries) as [|rest]; [done|]. intros [= <-].
    constructor; [done|by apply IH].
  - intros (s & rest & (E & Hi & Hg) & Hl%IH & ->)%Forall2_cons_inv_l.
    unfold from_supplied in E. cbn [fst snd] in E, Hi. rewrite E, Hi, Hg, !N.eqb_refl. cbn [negb].
    by rewrite Hl.
Qed.

Lemma usable_wf pv cs expected v l : usable pv cs expected v l →
  Forall (λ s, number (lambda s)) l ∧ NoDup (resource_id <$> l).
Proof.
  intros (Hv & _ & supplied & Hs & Hl).
  apply price_vector_decoded in Hv as [(_ & _ & (_ & Ha & _) & _) _]. apply ascending_NoDup in Ha.
  split.
  - assert (Forall (λ s, number (lambda s)) supplied) as Hn.
    { eapply Forall2_Forall_r; [exact Hs|]. apply Forall_true. intros t s Ht.
      by apply constraint_decoded in Ht as [(_ & _ & _ & _ & _ & _ & ? & _) _]. }
    eapply Forall2_Forall_r; [exact Hl|]. apply Forall_true. intros e s (Hf & _).
    apply find_some in Hf as [Hf _]. apply list_elem_of_In, list_elem_of_fmap in Hf as (x & [= _ ->] & Hx).
    by apply (proj1 (Forall_forall _ _) Hn).
  - assert (resource_id <$> l = (states v).*1) as ->; [|done].
    clear -Hl. induction Hl as [|e s entries l (_ & He & _) _ IH]; [done|]. by rewrite !fmap_cons, He, IH.
Qed.

(** the diagnostic reads a price exactly when it may.  It is available exactly when the
    texts verify (the vector decodes and has the expected digest, each entry is found among the
    decoded constraint records by its digest and matches in resource and generation) and some
    state among the entries is fresh and calibrated; it then reports the state of the largest
    price, the lowest resource on a tie, under the vector's generation, and marks a capacity
    price as diagnostic only. *)
Theorem diagnostic_exact pv cs expected i u c diag la gen root :
  from_records pv cs expected = Available i u c diag la gen root ↔
  ∃ v l b, usable pv cs expected v l ∧ chosen b l
    ∧ i = resource_id b ∧ u = con_unit b ∧ c = class b ∧ diag = bool_decide (class b = Capacity)
    ∧ la = lambda b ∧ gen = generation v ∧ root = hex_encode (evidence_root b).
Proof.
  unfold from_records. split.
  - destruct (decode_price_vector pv) as [v|] eqn:Ev; [|done]. case_bool_decide as Hx; [|done].
    destruct (decode_all 0 cs) as [d|decoded] eqn:Ed.
    { intros ->. by apply decode_all_refuses in Ed. }
    destruct (resolve_states _ _ _) as [d|l] eqn:El.
    { intros ->. by apply resolve_states_refuses in El. }
    apply decode_all_iff in Ed as (supplied & Hs & ->). apply resolve_states_iff in El.
    assert (usable pv cs expected v l) as Hu by (split_and!; [done..|by exists supplied]).
    destruct (usable_wf _ _ _ _ _ Hu) as [Hn _]. pose proof (dominant_chosen l Hn) as Hb.
    unfold select_dominant. destruct (dominant l) as [b|].
    + intros [= <- <- <- <- <- <- <-]. exists v, l, b. by split_and!.
    + by repeat case_match.
  - intros (v & l & b & Hu & Hb & -> & -> & -> & -> & -> & -> & ->).
    destruct (usable_wf _ _ _ _ _ Hu) as [Hn Hd]. destruct Hu as (-> & Hx & supplied & Hs & Hl).
    rewrite bool_decide_eq_true_2 by done.
    rewrite (proj2 (decode_all_iff 0 cs _)) by eauto. rewrite (proj2 (resolve_states_iff _ _ _ _) Hl).
    pose proof (dominant_chosen l Hn) as Hb'. unfold select_dominant. destruct (dominant l) as [b'|].
    + by rewrite (chosen_unique b' b l).
    + destruct Hb as (Hin & Hf & _). by rewrite Hb' in Hf.
Qed.

(** A directory whose digest file can be read is only available when its vector has that
    digest. *)
Lemma loaded_digest_checked dir d text pv :
  contents d "price_vector.sha256" = inr text → valid_utf8 text = true →
  contents d "price_vector.bin" = inr pv → is_available (load_from_dir dir d) = true →
  ∃ v, decode_price_vector pv = Accept v ∧ hex_decode (str_trim text) = Some (digest_price_vector v).
Proof.
  intros Ht Hu Hp. unfold load_from_dir, expected_digest. rewrite Hp, Ht, Hu. cbn [negb].
  destruct (hex_decode (str_trim text)) as [x|]; [|done].
  destruct (String.length x =? 32)%nat; [|done].
  destruct (listing d) as [|names]; [done|].
  destruct (read_all dir d _) as [y|files] eqn:Er.
  { intros Hy. exfalso. revert y Er Hy. induction (sort_strings _) as [|n l IH]; intros y; cbn [read_all]; [done|].
    destruct (contents d n); [by intros [= <-]|].
    destruct (read_all dir d l) as [z|]; [|done]. intros [= <-]. by apply IH. }
  unfold from_records. destruct (decode_price_vector pv) as [v|why]; [|by destruct why].
  case_bool_decide as Hx; [|done]. intros _. exists v. split; [done|]. by destruct Hx as [|[= ->]].
Qed.

(** A digest file that cannot be read, for whatever reason, counts as absent. *)
Lemma unreadable_digest_ignored d e :
  contents d "price_vector.sha256" = inl e → expected_digest d = inr None.
Proof. unfold expected_digest. by intros ->. Qed.
End Verified.

(** ** A controller, a constraint and a price vector *)

Module DualExamples.
Definition filled (n : N) : string := String.string_of_list_ascii (repeat (byte n) DIGEST_SIZE).
Definition half : f64 := f64_lit 5 1.
Definition controller : Controller :=
  {| eta := S754_zero false; rho := half; k_sigma := half; max_age := 10; cadence := 1;
     limits := [(3, half); (5, half)] |}.
(** The same controller with a negative zero for [eta]. *)
Definition negative_zero_text : string :=
  concat_all [w_header KController; w_u64 (2 ^ 63); w_f64 half; w_f64 half; w_u64 10; w_u64 1;
              w_count (limits controller); w_entries w_f64 (limits controller)].

Definition state (id : N) (price : f64) (l : LambdaState) : ConstraintState :=
  {| resource_id := id; con_unit := Watt; class := Soft; budget := half;
     budget_contract := filled 1; observation_ref := filled 2; estimate_ref := filled 3;
     estimate_kind := Measured; estimate := half; uncertainty := half; calibration_ref := filled 4;
     lambda := price; lambda_state := l; controller_id := filled 5; con_generation := 9; tick := 1;
     evidence_root := filled 6; parent := filled 7 |}.
Definition offered : list ConstraintState :=
  [state 3 (f64_of_N 7) Stale; state 5 half Fresh; state 8 (f64_of_N 2) Fresh].
End DualExamples.

Section Examples.
Import Checksum DualExamples.

Definition vector_of (l : list ConstraintState) : PriceVector :=
  {| generation := 9; context := filled 8;
     states := (λ s, (resource_id s, digest_constraint s)) <$> l |}.

Lemma controller_is_wf : record_wf (ControllerRecord controller).
Proof. repeat split; try reflexivity; repeat constructor. Qed.

(** The text with a negative zero is accepted, and as another text than the record's encoding. *)
Lemma codec_exact_witness :
  decode KController (encode (ControllerRecord controller)) = Accept (ControllerRecord controller)
  ∧ (∀ buf, decode KController buf = Accept (ControllerRecord controller) →
      buf = encode (ControllerRecord controller))
  ∧ decode KController negative_zero_text
    = Accept (ControllerRecord {| eta := S754_zero true; rho := half; k_sigma := half; max_age := 10;
                                  cadence := 1; limits := limits controller |}).
Proof.
  split; [|split].
  - exact (proj1 (proj2 (proj2 (codec_exact KController "" (ControllerRecord controller))
      controller_is_wf))).
  - intros buf Hb. exact (proj2 (proj2 (proj1 (proj1 (codec_exact KController buf
      (ControllerRecord controller))) Hb))).
  - apply (proj1 (codec_exact KController _ _)). split_and!; [reflexivity| |reflexivity].
    repeat split; try reflexivity; repeat constructor.
Defined.

Lemma digest_names_record_witness :
  encode (ControllerRecord controller) ≠ negative_zero_text
  ∧ ∃ r r', decode KController (encode (ControllerRecord controller)) = Accept r
    ∧ decode KController negative_zero_text = Accept r' ∧ canonical r = canonical r'.
Proof.
  split; [vm_compute; congruence|].
  apply (digest_names_record KController KController _ _ (digest_controller controller)).
  - vm_compute; reflexivity.
  - vm_compute; reflexivity.
  - apply (bool_decide_unpack _). vm_compute. reflexivity.
Defined.

(** The stale price is larger, and is not reported. *)
Example diagnostic_reports :
  from_records (encode_price_vector (vector_of offered)) (encode_constraint <$> offered)
    (Some (digest_price_vector (vector_of offered)))
  = Available 8 Watt Soft false (f64_of_N 2) 9 (hex_encode (filled 6)).
Proof. vm_compute. reflexivity. Qed.

Example stale_only :
  is_available (from_records (encode_price_vector (vector_of (take 1 offered)))
                  (encode_constraint <$> offered) None) = false.
Proof. vm_compute. reflexivity. Qed.
End Examples.
