(* ===== verification/Json.v ===== *)
(** Canonical JSON: keys in byte order at every level and no white space
    ([canonical_json], [write_canonical] of [src/canary/mod.rs]).

    A record is first turned into a [value] tree, as [serde_json::to_value] does following the
    record's [serde] attributes.  The quoting and escaping of a string is done by [serde_json],
    so it is a parameter. *)

From stdpp Require Import sorting.
From S2P Require Import Prelude RustStd.
#[local] Open Scope string_scope.
#[local] Set Warnings "-register-all".

(** [serde_json::to_string] on a string: the quoted and escaped text. *)
Class JsonStr := json_str : string → string.

Definition newline : ascii := ascii_of_N 10.

(** [serde_json] escapes every control character, so the text never contains a newline. *)
Class JsonStrSpec `{JsonStr} := json_str_line : ∀ s, contains_byte newline (json_str s) = false.

(** The canary records hold strings, integers and nothing wider; an object is the list of its
    entries in the order the map type yields them. *)
Inductive value :=
  | Null
  | Bool (b : bool)
  | Number (n : N)
  | Str (s : string)
  | Array (items : list value)
  | Object (entries : list (string * value)).

Definition key_le (p q : string * string) : Prop := String.le p.1 q.1.

#[export] Instance key_le_dec p q : Decision (key_le p q).
Proof. unfold key_le. apply _. Defined.
#[export] Instance key_le_trans : Transitive key_le.
Proof. intros p q r. unfold key_le. apply transitivity. Qed.
#[export] Instance key_le_total : Total key_le.
Proof. intros p q. unfold key_le. apply String.le_total. Qed.

Section Json.
Context `{JsonStr}.

Definition write_entry (p : string * string) : string := json_str p.1 +:+ ":" +:+ p.2.

(** The entries are encoded first and then put in the byte order of their keys: the same text
    as sorting the keys and encoding each entry in turn. *)
Fixpoint write_canonical (v : value) : string :=
  match v with
  | Null => "null"
  | Bool b => if b then "true" else "false"
  | Number n => dec n
  | Str s => json_str s
  | Array items => "[" +:+ join_with "," (write_canonical <$> items) +:+ "]"
  | Object m =>
    "{" +:+ join_with ","
        (write_entry <$> merge_sort key_le ((λ kv, (kv.1, write_canonical kv.2)) <$> m)) +:+ "}"
  end.

(** *** The order in which a map yields its entries does not matter *)

Lemma sorted_keys_unique (l l' : list (string * string)) :
  NoDup l.*1 → l ≡ₚ l' → merge_sort key_le l = merge_sort key_le l'.
Proof.
  intros Hnd Hp. apply (Sorted_unique_strong key_le).
  - intros p q Hin Hin' Hle Hle'. destruct p as [k v], q as [k' v'].
    assert (k = k') as <- by (apply (anti_symm String.le); done).
    rewrite merge_sort_Permutation in Hin, Hin'. rewrite <- Hp in Hin'. f_equal.
    apply list_elem_of_lookup in Hin as [i Hi], Hin' as [j Hj].
    assert (i = j) as <-; [|congruence].
    eapply NoDup_lookup; [exact Hnd|rewrite list_lookup_fmap, Hi|rewrite list_lookup_fmap, Hj];
      done.
  - apply (Sorted_merge_sort key_le).
  - apply (Sorted_merge_sort key_le).
  - by rewrite !merge_sort_Permutation.
Qed.

Lemma write_canonical_perm m m' :
  NoDup m.*1 → m ≡ₚ m' → write_canonical (Object m) = write_canonical (Object m').
Proof.
  intros Hnd Hp. simpl. do 4 f_equal. apply sorted_keys_unique.
  - by rewrite <- list_fmap_compose.
  - by rewrite Hp.
Qed.

(** *** A canonical text is a single line *)

Lemma dec_all_digits p n : (∀ d, (48 <= d <= 57)%N → p d = true) → all_bytes p (dec n) = true.
Proof.
  intros Hp. unfold dec, pretty, pretty_N. case_decide.
  { simpl. by rewrite Hp. }
  generalize (eq_refl : all_bytes p "" = true). generalize "".
  induction (N.lt_wf_0 n) as [n _ IH]; intros s Hs.
  destruct (decide (0 < n)%N).
  - rewrite pretty_N_go_step by done.
    destruct (decide (n `div` 10 = 0)%N) as [E|].
    + rewrite E. simpl. rewrite Hs, andb_true_r. apply Hp.
      unfold pretty_N_char. repeat case_match; compute; split; congruence.
    + apply IH; [by apply N.div_lt|done|]. simpl. rewrite Hs, andb_true_r. apply Hp.
      unfold pretty_N_char. repeat case_match; compute; split; congruence.
  - assert (n = 0%N) as -> by lia. done.
Qed.

Lemma dec_line n : contains_byte newline (dec n) = false.
Proof.
  apply (contains_byte_all (λ d, (48 <=? d) && (d <=? 57))%N); [|done].
  apply dec_all_digits. intros d [? ?].
  apply andb_true_intro; split; by apply N.leb_le.
Qed.

Lemma join_line l :
  Forall (λ w, contains_byte newline w = false) l →
  contains_byte newline (join_with "," l) = false.
Proof.
  induction 1 as [|w [|w' l] Hw Hl IH]; [done|done|].
  change (join_with "," (w :: w' :: l)) with (w +:+ "," +:+ join_with "," (w' :: l)).
  rewrite !contains_byte_app, Hw, IH. done.
Qed.

Section Line.
Context `{!JsonStrSpec}.

Lemma write_entry_line p :
  contains_byte newline p.2 = false → contains_byte newline (write_entry p) = false.
Proof.
  intros Hp. unfold write_entry. rewrite !contains_byte_app, json_str_line, Hp. done.
Qed.

Lemma canonical_line : ∀ v, contains_byte newline (write_canonical v) = false.
Proof.
  fix IH 1. intros [|b|n|s|items|m].
  - done.
  - by destruct b.
  - apply dec_line.
  - apply json_str_line.
  - simpl. rewrite contains_byte_app. apply orb_false_intro; [|done]. apply join_line.
    induction items as [|v items IHi]; simpl; constructor; [apply IH|apply IHi].
  - simpl. rewrite contains_byte_app. apply orb_false_intro; [|done]. apply join_line.
    apply Forall_fmap. rewrite merge_sort_Permutation. apply Forall_fmap.
    induction m as [|[k v] m IHm]; constructor; [|apply IHm].
    apply write_entry_line, IH.
Qed.
End Line.
End Json.

(** A concrete escaping function to instantiate [JsonStr] in examples: quotes, backslashes and
    the control characters are escaped, every other byte is copied. *)
Module PlainJson.
Definition backslash : ascii := ascii_of_N 92.
Definition escape_byte (b : ascii) : string :=
  let n := N_of_ascii b in
  if (n =? 34)%N then String "\" (String b "")
  else if (n =? 92)%N then String "\" (String b "")
  else if (n <? 32)%N then "\u00" +:+ hex_encode (String b "")
  else String b "".
Definition quote : ascii := ascii_of_N 34.
Fixpoint escape (s : string) : string :=
  match s with
  | EmptyString => ""
  | String b s' => escape_byte b +:+ escape s'
  end.
#[global] Instance json : JsonStr := λ s, String quote (escape s +:+ String quote "").

Lemma escape_byte_line b : contains_byte newline (escape_byte b) = false.
Proof. destruct b as [[] [] [] [] [] [] [] []]; reflexivity. Qed.
Lemma escape_line s : contains_byte newline (escape s) = false.
Proof.
  induction s as [|b s IH]; simpl; [done|].
  by rewrite contains_byte_app, escape_byte_line, IH.
Qed.
#[global] Instance json_spec : JsonStrSpec.
Proof.
  intros s. unfold json_str, json. simpl. by rewrite contains_byte_app, escape_line.
Qed.
End PlainJson.
