(* ===== verification/Identity.v ===== *)
(** The bound candidate identity chain ([src/canary/identity.rs]): patch digest, evaluated tree
    digest, executable digest and generation id. *)

From S2P Require Import Prelude RustStd Digest Json.
#[local] Open Scope string_scope.

Definition IDENTITY_VERSION : N := 1.
Definition IDENTITY_DOMAIN : string := "spark-rsi/candidate-identity/v1".

Record CandidateIdentity := {
  identity_version : N;
  patch_digest : string;
  tree_digest : string;
  executable_digest : string;
  generation_id : string;
}.

#[export] Instance CandidateIdentity_eq_dec : EqDecision CandidateIdentity.
Proof. solve_decision. Defined.

(** [CandidateIdentity::new]. *)
Definition new_identity (patch tree executable generation : string) : CandidateIdentity :=
  {| identity_version := IDENTITY_VERSION; patch_digest := patch; tree_digest := tree;
     executable_digest := executable; generation_id := generation |}.

(** The loop of [validate] over the [(name, value)] pairs. *)
Fixpoint check_hex_fields (t : string) (fields : list (string * string)) : result unit :=
  match fields with
  | [] => Ok tt
  | (name, v) :: rest =>
    if negb (is_hex_digest v) then fail t [name] else check_hex_fields t rest
  end.

Definition validate (i : CandidateIdentity) : result unit :=
  if negb (identity_version i =? IDENTITY_VERSION)%N then
    fail "candidate identity version {} is not supported (expected {})"
      [dec (identity_version i); dec IDENTITY_VERSION]
  else
    _ ← check_hex_fields "candidate identity {} is not a hex SHA-256"
          [("patch_digest", patch_digest i); ("tree_digest", tree_digest i);
           ("executable_digest", executable_digest i)];
    if trim_is_empty (generation_id i) then
      fail "candidate identity generation id is required" []
    else Ok tt.

(** [serde_json::to_value] on the derived [Serialize]. *)
Definition identity_value (i : CandidateIdentity) : value :=
  Object [("identity_version", Number (identity_version i));
          ("patch_digest", Str (patch_digest i)); ("tree_digest", Str (tree_digest i));
          ("executable_digest", Str (executable_digest i));
          ("generation_id", Str (generation_id i))].

Lemma check_hex_fields_ok t fields :
  check_hex_fields t fields = Ok tt ↔ Forall (λ f, is_hex_digest f.2 = true) fields.
Proof.
  induction fields as [|[n v] fields IH]; simpl; [split; constructor|].
  rewrite Forall_cons, <- IH. simpl.
  destruct (is_hex_digest v); simpl; split; [done|by intros []|done|by intros []].
Qed.

Record identity_wf (i : CandidateIdentity) : Prop := {
  wf_version : identity_version i = IDENTITY_VERSION;
  wf_patch : is_hex_digest (patch_digest i) = true;
  wf_tree : is_hex_digest (tree_digest i) = true;
  wf_executable : is_hex_digest (executable_digest i) = true;
  wf_generation : trim_is_empty (generation_id i) = false;
}.

Lemma identity_validate_ok i : validate i = Ok tt ↔ identity_wf i.
Proof.
  unfold validate. split.
  - intros. run_guards. conv check_hex_fields_ok. decompose_Forall_hyps.
    by constructor.
  - intros [-> Hp Ht He Hg]. simpl. by rewrite Hp, Ht, He, Hg.
Qed.

Section Identity.
Context `{Sha256} `{JsonStr}.

Definition canonical_bytes (i : CandidateIdentity) : string := write_canonical (identity_value i).

Definition binding_preimage (i : CandidateIdentity) : string :=
  domain_preimage IDENTITY_DOMAIN
    [patch_digest i; tree_digest i; executable_digest i; generation_id i].

(** [binding_digest]. *)
Definition binding_digest (i : CandidateIdentity) : string :=
  domain_digest IDENTITY_DOMAIN
    [patch_digest i; tree_digest i; executable_digest i; generation_id i].

Definition digest_file (d : disk) (path : string) : result string :=
  bytes ← read_file d path "cannot read {:?} for hashing: {}";
  Ok (sha256_hex bytes).

Definition verify_executable (d : disk) (i : CandidateIdentity) (path : string) : result unit :=
  actual ← digest_file d path;
  if negb (bool_decide (actual = executable_digest i)) then
    fail "executable {:?} hashes to {}, not the candidate's {}; refusing to launch"
      [path; actual; executable_digest i]
  else Ok tt.

Lemma verify_executable_ok d i path :
  verify_executable d i path = Ok tt ↔
  ∃ bytes, d !! path = Some bytes ∧ sha256_hex bytes = executable_digest i.
Proof.
  unfold verify_executable, digest_file, read_file. split.
  - intros. run_guards. eauto.
  - intros (bytes & -> & <-). simpl. by rewrite bool_decide_true.
Qed.
End Identity.
