(* ===== verification/Workload.v ===== *)
(** The digest-pinned canary workload ([src/canary/workload.rs]). *)

From S2P Require Import Prelude RustStd Digest Json.
#[local] Open Scope string_scope.

Definition CANARY_PROTOCOL_VERSION : N := 1.
Definition WORKLOAD_VERSION : N := 1.
Definition WORKLOAD_DOMAIN : string := "spark-rsi/canary-workload/v1".
Definition REQUEST_DOMAIN : string := "spark-rsi/canary-request/v1".

Inductive Nondeterminism := Exact.

(** [Nondeterminism::as_str]. *)
Definition nd_as_str (n : Nondeterminism) : string := match n with Exact => "exact" end.

Record CanaryRequestSpec := {
  request_id : string;
  input : string;
  expected_output : string;
  deadline_ms : N;
  nondeterminism : Nondeterminism;
}.

#[export] Instance Nondeterminism_eq_dec : EqDecision Nondeterminism.
Proof. solve_decision. Defined.
#[export] Instance CanaryRequestSpec_eq_dec : EqDecision CanaryRequestSpec.
Proof. solve_decision. Defined.

Definition matches_output (r : CanaryRequestSpec) (output : string) : bool :=
  match nondeterminism r with Exact => bool_decide (output = expected_output r) end.

(** [CanaryRequestSpec::validate]. *)
Definition validate_request (r : CanaryRequestSpec) : result unit :=
  if trim_is_empty (request_id r) then fail "canary request id is required" []
  else if any_control (request_id r) then
    fail "canary request id {:?} contains a control character" [request_id r]
  else if (deadline_ms r =? 0)%N then
    fail "canary request {} has a zero deadline" [request_id r]
  else Ok tt.

Record CanaryWorkloadManifest := {
  workload_version : N;
  workload_id : string;
  protocol_version : N;
  requests : list CanaryRequestSpec;
}.

#[export] Instance CanaryWorkloadManifest_eq_dec : EqDecision CanaryWorkloadManifest.
Proof. solve_decision. Defined.

(** The loop over the requests, with the set of ids seen so far. *)
Fixpoint validate_requests (ids : gset string) (reqs : list CanaryRequestSpec) : result unit :=
  match reqs with
  | [] => Ok tt
  | req :: rest =>
    _ ← validate_request req;
    if bool_decide (request_id req ∈ ids) then
      fail "canary workload repeats request id {}" [request_id req]
    else validate_requests ({[request_id req]} ∪ ids) rest
  end.

(** [CanaryWorkloadManifest::validate]. *)
Definition validate (w : CanaryWorkloadManifest) : result unit :=
  if negb (workload_version w =? WORKLOAD_VERSION)%N then
    fail "canary workload version {} is not supported (expected {})"
      [dec (workload_version w); dec WORKLOAD_VERSION]
  else if negb (protocol_version w =? CANARY_PROTOCOL_VERSION)%N then
    fail "canary workload protocol version {} is not supported (expected {})"
      [dec (protocol_version w); dec CANARY_PROTOCOL_VERSION]
  else if trim_is_empty (workload_id w) || any_control (workload_id w) then
    fail "canary workload id is required and must be printable" []
  else if bool_decide (requests w = []) then fail "canary workload has no requests" []
  else validate_requests ∅ (requests w).

(** [CanaryWorkloadManifest::request]. *)
Definition request (w : CanaryWorkloadManifest) (id : string) : option CanaryRequestSpec :=
  List.find (λ r, bool_decide (request_id r = id)) (requests w).

Definition request_value (r : CanaryRequestSpec) : value :=
  Object [("request_id", Str (request_id r)); ("input", Str (input r));
          ("expected_output", Str (expected_output r));
          ("deadline_ms", Number (deadline_ms r));
          ("nondeterminism", Str (nd_as_str (nondeterminism r)))].

Definition workload_value (w : CanaryWorkloadManifest) : value :=
  Object [("workload_version", Number (workload_version w));
          ("workload_id", Str (workload_id w));
          ("protocol_version", Number (protocol_version w));
          ("requests", Array (request_value <$> requests w))].

Section Workload.
Context `{Sha256} `{JsonStr}.

Definition request_preimage (workload_id : string) (r : CanaryRequestSpec) : string :=
  domain_preimage REQUEST_DOMAIN
    [workload_id; request_id r; input r; expected_output r; to_le_bytes (deadline_ms r);
     nd_as_str (nondeterminism r)].

Definition request_digest (workload_id : string) (r : CanaryRequestSpec) : string :=
  domain_digest REQUEST_DOMAIN
    [workload_id; request_id r; input r; expected_output r; to_le_bytes (deadline_ms r);
     nd_as_str (nondeterminism r)].

Definition expected_result_digest (r : CanaryRequestSpec) : string :=
  sha256_hex (expected_output r).

Definition canonical_bytes (w : CanaryWorkloadManifest) : string :=
  write_canonical (workload_value w).

Definition digest (w : CanaryWorkloadManifest) : string :=
  domain_digest WORKLOAD_DOMAIN [canonical_bytes w].

Record PinnedWorkload := {
  manifest : CanaryWorkloadManifest;
  pinned_digest : string;
  path : string;
}.

(** Reading a workload file.  [from_slice] is [serde_json]'s deserializer for the manifest. *)
Context (from_slice : string → option CanaryWorkloadManifest).

Definition parse (bytes : string) : result CanaryWorkloadManifest :=
  m ← ok_or (from_slice bytes) (Fmt "canary workload does not parse: {}" []);
  _ ← validate m;
  Ok m.

Definition load (d : disk) (p : string) : result PinnedWorkload :=
  bytes ← read_file d p "cannot read canary workload {:?}: {}";
  m ← parse bytes;
  Ok {| manifest := m; pinned_digest := digest m; path := p |}.

Definition load_pinned (d : disk) (p expected : string) : result PinnedWorkload :=
  loaded ← load d p;
  if negb (bool_decide (pinned_digest loaded = expected)) then
    fail "canary workload {:?} has digest {}, pinned digest is {}"
      [p; pinned_digest loaded; expected]
  else Ok loaded.
End Workload.

(** ** What validation establishes *)

Definition request_wf (r : CanaryRequestSpec) : Prop :=
  trim_is_empty (request_id r) = false ∧ any_control (request_id r) = false
  ∧ deadline_ms r ≠ 0%N.

Lemma validate_request_ok r : validate_request r = Ok tt ↔ request_wf r.
Proof.
  unfold validate_request, request_wf. split.
  - intros. run_guards. done.
  - intros (-> & -> & Hd). by apply N.eqb_neq in Hd as ->.
Qed.

Lemma validate_requests_ok ids reqs :
  validate_requests ids reqs = Ok tt ↔
  Forall request_wf reqs ∧ NoDup (request_id <$> reqs) ∧ Forall (λ r, request_id r ∉ ids) reqs.
Proof.
  revert ids; induction reqs as [|r reqs IH]; intros ids; simpl; [repeat split; constructor|].
  rewrite !Forall_cons, NoDup_cons, bind_ok.
  split.
  - intros ([] & Hr%validate_request_ok & Hrest). run_guards.
    apply IH in Hrest as (Hwf & Hnd & Hids).
    split_and!; try done.
    + intros (r' & Heq & Hin)%list_elem_of_fmap.
      rewrite Forall_forall in Hids. apply (Hids _ Hin). set_solver.
    + eapply Forall_impl; [exact Hids|]. set_solver.
  - intros ([Hr Hwf] & [Hnin Hnd] & [Hid Hids]). exists tt. split; [by apply validate_request_ok|].
    rewrite bool_decide_false by done. apply IH. split_and!; [done..|].
    rewrite Forall_forall in Hids |- *. intros r' Hin.
    rewrite not_elem_of_union, not_elem_of_singleton. split; [|by apply Hids].
    intros Heq. apply Hnin. rewrite <- Heq. by apply list_elem_of_fmap_2.
Qed.

Record workload_wf (w : CanaryWorkloadManifest) : Prop := {
  wf_version : workload_version w = WORKLOAD_VERSION;
  wf_protocol : protocol_version w = CANARY_PROTOCOL_VERSION;
  wf_id : trim_is_empty (workload_id w) = false ∧ any_control (workload_id w) = false;
  wf_requests : requests w ≠ [];
  wf_each : Forall request_wf (requests w);
  wf_nodup : NoDup (request_id <$> requests w);
}.

Lemma workload_validate_ok w : validate w = Ok tt ↔ workload_wf w.
Proof.
  unfold validate. split.
  - intros. run_guards. conv validate_requests_ok. destruct_and!. by constructor.
  - intros [-> -> [-> ->] Hne Hwf Hnd]. simpl. rewrite bool_decide_false by done.
    apply validate_requests_ok. split_and!; [done..|]. apply Forall_forall. set_solver.
Qed.

Lemma request_some w id r : request w id = Some r → r ∈ requests w ∧ request_id r = id.
Proof.
  unfold request. intros [Hin Hb]%find_some. apply bool_decide_eq_true in Hb.
  split; [by apply list_elem_of_In|done].
Qed.

Lemma request_found w r : workload_wf w → r ∈ requests w → request w (request_id r) = Some r.
Proof.
  intros [_ _ _ _ _ Hnd] Hin. unfold request.
  induction (requests w) as [|r' rs IH]; [by apply not_elem_of_nil in Hin|].
  simpl in *. apply NoDup_cons in Hnd as [Hnin Hnd].
  apply elem_of_cons in Hin as [->|Hin]; [by rewrite bool_decide_true|].
  rewrite bool_decide_false; [by apply IH|].
  intros Heq. apply Hnin. rewrite Heq. by apply list_elem_of_fmap_2.
Qed.
