(* ===== verification/Observation.v ===== *)
(** The version 2 canary observation: the supervisor's verified record of one issued request
    ([src/canary/observation.rs]). *)

From S2P Require Import Prelude RustStd Digest Json.
#[local] Open Scope string_scope.

Definition OBSERVATION_RECORD_VERSION : N := 2.
Definition OBSERVATION_DOMAIN : string := "spark-rsi/canary-observation/v2".
Definition OBSERVATION_ID_DOMAIN : string := "spark-rsi/canary-observation-id/v2".

Inductive VerifiedStatus :=
  | VerifiedSuccess
  | WrongResult
  | Timeout
  | InvalidResponse
  | ConnectionClosed.

Inductive Provenance := Measured | Synthetic.

#[export] Instance VerifiedStatus_eq_dec : EqDecision VerifiedStatus.
Proof. solve_decision. Defined.
#[export] Instance Provenance_eq_dec : EqDecision Provenance.
Proof. solve_decision. Defined.

(** The derived [Debug] text. *)
Definition status_debug (s : VerifiedStatus) : string :=
  match s with
  | VerifiedSuccess => "VerifiedSuccess" | WrongResult => "WrongResult" | Timeout => "Timeout"
  | InvalidResponse => "InvalidResponse" | ConnectionClosed => "ConnectionClosed"
  end.

(** [#[serde(rename_all = "snake_case")]]. *)
Definition status_value (s : VerifiedStatus) : value :=
  Str match s with
      | VerifiedSuccess => "verified_success" | WrongResult => "wrong_result"
      | Timeout => "timeout" | InvalidResponse => "invalid_response"
      | ConnectionClosed => "connection_closed"
      end.
Definition provenance_value (p : Provenance) : value :=
  Str match p with Measured => "measured" | Synthetic => "synthetic" end.

Record CanaryObservationV2 := {
  record_version : N;
  observation_id : string;
  generation_id : string;
  request_id : string;
  request_digest : string;
  workload_digest : string;
  candidate_executable_digest : string;
  result_digest : option string;
  elapsed_us : N;
  observed_at_ms : N;
  status : VerifiedStatus;
  provenance : Provenance;
}.

#[export] Instance CanaryObservationV2_eq_dec : EqDecision CanaryObservationV2.
Proof. solve_decision. Defined.

(** Everything the supervisor binds into one observation, before the id is derived. *)
Record ObservationInput := {
  in_generation_id : string;
  in_request_id : string;
  in_request_digest : string;
  in_workload_digest : string;
  in_candidate_executable_digest : string;
  in_result_digest : option string;
  in_elapsed_us : N;
  in_observed_at_ms : N;
  in_status : VerifiedStatus;
  in_provenance : Provenance;
}.

Definition opt_value (o : option string) : value := match o with Some s => Str s | None => Null end.

Definition observation_value (o : CanaryObservationV2) : value :=
  Object [("record_version", Number (record_version o));
          ("observation_id", Str (observation_id o));
          ("generation_id", Str (generation_id o)); ("request_id", Str (request_id o));
          ("request_digest", Str (request_digest o));
          ("workload_digest", Str (workload_digest o));
          ("candidate_executable_digest", Str (candidate_executable_digest o));
          ("result_digest", opt_value (result_digest o));
          ("elapsed_us", Number (elapsed_us o));
          ("observed_at_ms", Number (observed_at_ms o));
          ("status", status_value (status o)); ("provenance", provenance_value (provenance o))].

(** [is_qualifying]. *)
Definition is_qualifying (o : CanaryObservationV2) : bool :=
  bool_decide (provenance o = Measured) && bool_decide (status o = VerifiedSuccess)
  && bool_decide (is_Some (result_digest o)).

(** The loop of [validate] over the digests of the record. *)
Fixpoint check_digest_fields (fields : list (string * string)) : result unit :=
  match fields with
  | [] => Ok tt
  | (name, v) :: rest =>
    if negb (is_hex_digest v) then fail "observation {} is not a hex SHA-256" [name]
    else check_digest_fields rest
  end.

(** The [match] on the result digest and the status. *)
Definition check_result_digest (d : option string) (s : VerifiedStatus) : result unit :=
  match d, s with
  | Some d, _ =>
    if negb (is_hex_digest d) then fail "observation result_digest is not a hex SHA-256" []
    else Ok tt
  | None, VerifiedSuccess | None, WrongResult =>
    fail "observation status {:?} requires a result digest" [status_debug s]
  | None, _ => Ok tt
  end.

Section Observation.
Context `{Sha256} `{JsonStr}.

(** The free function [observation_id]. *)
Definition derive_id (generation request digest : string) : string :=
  domain_digest OBSERVATION_ID_DOMAIN [generation; request; digest].

Definition id_preimage (generation request digest : string) : string :=
  domain_preimage OBSERVATION_ID_DOMAIN [generation; request; digest].

(** The free function [result_digest]. *)
Definition digest_result (output : string) : string := sha256_hex output.

Definition new (i : ObservationInput) : CanaryObservationV2 :=
  {| record_version := OBSERVATION_RECORD_VERSION;
     observation_id := derive_id (in_generation_id i) (in_request_id i) (in_request_digest i);
     generation_id := in_generation_id i; request_id := in_request_id i;
     request_digest := in_request_digest i; workload_digest := in_workload_digest i;
     candidate_executable_digest := in_candidate_executable_digest i;
     result_digest := in_result_digest i; elapsed_us := in_elapsed_us i;
     observed_at_ms := in_observed_at_ms i; status := in_status i;
     provenance := in_provenance i |}.

Definition canonical_bytes (o : CanaryObservationV2) : string :=
  write_canonical (observation_value o).

Definition digest_preimage (o : CanaryObservationV2) : string :=
  domain_preimage OBSERVATION_DOMAIN [canonical_bytes o].

Definition digest_hex (o : CanaryObservationV2) : string :=
  domain_digest OBSERVATION_DOMAIN [canonical_bytes o].

Definition validate (o : CanaryObservationV2) : result unit :=
  if negb (record_version o =? OBSERVATION_RECORD_VERSION)%N then
    fail "observation record version {} is not supported (expected {})"
      [dec (record_version o); dec OBSERVATION_RECORD_VERSION]
  else if trim_is_empty (generation_id o) then
    fail "observation generation id is required" []
  else if trim_is_empty (request_id o) then fail "observation request id is required" []
  else
    _ ← check_digest_fields
          [("request_digest", request_digest o); ("workload_digest", workload_digest o);
           ("candidate_executable_digest", candidate_executable_digest o)];
    _ ← check_result_digest (result_digest o) (status o);
    if negb (bool_decide (observation_id o =
          derive_id (generation_id o) (request_id o) (request_digest o))) then
      fail "observation id {} does not derive from its generation, request and request digest"
        [observation_id o]
    else Ok tt.

(** ** What validation establishes *)

Lemma check_digest_fields_ok fields :
  check_digest_fields fields = Ok tt ↔ Forall (λ f, is_hex_digest f.2 = true) fields.
Proof.
  induction fields as [|[n v] fields IH]; simpl; [split; constructor|].
  rewrite Forall_cons, <- IH. simpl.
  destruct (is_hex_digest v); simpl; split; [done|by intros []|done|by intros []].
Qed.

(** A result digest is present whenever the status says that a result was received. *)
Definition result_wf (d : option string) (s : VerifiedStatus) : Prop :=
  match d with
  | Some d => is_hex_digest d = true
  | None => s ≠ VerifiedSuccess ∧ s ≠ WrongResult
  end.

Lemma check_result_digest_ok d s : check_result_digest d s = Ok tt ↔ result_wf d s.
Proof.
  destruct d as [d|], s; simpl; try destruct (is_hex_digest d); simpl; split; try done;
    by intros [].
Qed.

Record observation_wf (o : CanaryObservationV2) : Prop := {
  wf_version : record_version o = OBSERVATION_RECORD_VERSION;
  wf_generation : trim_is_empty (generation_id o) = false;
  wf_request : trim_is_empty (request_id o) = false;
  wf_request_digest : is_hex_digest (request_digest o) = true;
  wf_workload_digest : is_hex_digest (workload_digest o) = true;
  wf_executable : is_hex_digest (candidate_executable_digest o) = true;
  wf_result : result_wf (result_digest o) (status o);
  wf_id : observation_id o = derive_id (generation_id o) (request_id o) (request_digest o);
}.

Lemma observation_validate_ok o : validate o = Ok tt ↔ observation_wf o.
Proof.
  unfold validate. split.
  - intros. run_guards. conv check_digest_fields_ok. conv check_result_digest_ok.
    decompose_Forall_hyps. by constructor.
  - intros [-> -> -> Hr Hw He Hres Hid]. simpl. rewrite Hr, Hw, He. simpl.
    apply check_result_digest_ok in Hres as ->. simpl. by rewrite bool_decide_true.
Qed.

Lemma new_wf i :
  trim_is_empty (in_generation_id i) = false → trim_is_empty (in_request_id i) = false →
  is_hex_digest (in_request_digest i) = true → is_hex_digest (in_workload_digest i) = true →
  is_hex_digest (in_candidate_executable_digest i) = true →
  result_wf (in_result_digest i) (in_status i) → observation_wf (new i).
Proof. intros. by constructor. Qed.

(** The id is a function of the request: two well-formed observations of one generation with
    the same request id and request digest have the same id. *)
Lemma same_request_same_id o o' :
  observation_wf o → observation_wf o' → generation_id o = generation_id o' →
  request_id o = request_id o' → request_digest o = request_digest o' →
  observation_id o = observation_id o'.
Proof. intros [] [] Hg Hr Hd. congruence. Qed.

Lemma is_qualifying_ok o :
  is_qualifying o = true ↔
  provenance o = Measured ∧ status o = VerifiedSuccess ∧ is_Some (result_digest o).
Proof. unfold is_qualifying. rewrite !andb_true_iff, !bool_decide_eq_true. tauto. Qed.
End Observation.
