(* ===== verification/ObservationLog.v ===== *)
(** The per-generation observation log ([src/canary/log.rs]): canonical JSON lines opened by a
    header and closed by a seal. *)

From S2P Require Import Prelude RustStd Digest Json Observation.
#[local] Open Scope string_scope.

Definition OBSERVATION_LOG_VERSION : N := 1.
Definition LOG_DOMAIN : string := "spark-rsi/canary-observation-log/v1".

(** ** Records *)

Record LogHeader := {
  log_version : N;
  h_generation_id : string;
  h_workload_digest : string;
  h_candidate_executable_digest : string;
  opened_at_ms : N;
}.

Record LogObservation := { observation : CanaryObservationV2; observation_digest : string }.

Record LogRejection := { reason : string; rejected_at_ms : N }.

Record LogSeal := {
  observation_count : N;
  qualifying_count : N;
  log_digest : string;
  sealed_at_ms : N;
}.

Inductive LogRecord :=
  | RHeader (h : LogHeader)
  | RObservation (o : LogObservation)
  | RRejection (r : LogRejection)
  | RSeal (s : LogSeal).

#[export] Instance LogHeader_eq_dec : EqDecision LogHeader.
Proof. solve_decision. Defined.
#[export] Instance LogObservation_eq_dec : EqDecision LogObservation.
Proof. solve_decision. Defined.
#[export] Instance LogRejection_eq_dec : EqDecision LogRejection.
Proof. solve_decision. Defined.
#[export] Instance LogSeal_eq_dec : EqDecision LogSeal.
Proof. solve_decision. Defined.
#[export] Instance LogRecord_eq_dec : EqDecision LogRecord.
Proof. solve_decision. Defined.

Inductive AppendOutcome := Appended | Idempotent.

Inductive LogState :=
  | Missing
  | Unsealed (observations : nat) (partial_tail : bool)
  | Sealed (observations : nat)
  | Invalid (e : error).

(** [LogHeader::new]. *)
Definition new_header (generation workload executable : string) (opened : N) : LogHeader :=
  {| log_version := OBSERVATION_LOG_VERSION; h_generation_id := generation;
     h_workload_digest := workload; h_candidate_executable_digest := executable;
     opened_at_ms := opened |}.

Definition validate_header (h : LogHeader) : result unit :=
  if negb (log_version h =? OBSERVATION_LOG_VERSION)%N then
    fail "observation log version {} is not supported (expected {})"
      [dec (log_version h); dec OBSERVATION_LOG_VERSION]
  else if trim_is_empty (h_generation_id h) then
    fail "observation log generation id is required" []
  else if negb (is_hex_digest (h_workload_digest h)) then
    fail "observation log workload digest is not a hex SHA-256" []
  else if negb (is_hex_digest (h_candidate_executable_digest h)) then
    fail "observation log candidate executable digest is not a hex SHA-256" []
  else Ok tt.

(** The derived [Serialize] of each record, and of the enum with
    [#[serde(tag = "kind", content = "record", rename_all = "snake_case")]]. *)
Definition header_value (h : LogHeader) : value :=
  Object [("log_version", Number (log_version h)); ("generation_id", Str (h_generation_id h));
          ("workload_digest", Str (h_workload_digest h));
          ("candidate_executable_digest", Str (h_candidate_executable_digest h));
          ("opened_at_ms", Number (opened_at_ms h))].
Definition log_observation_value (o : LogObservation) : value :=
  Object [("observation", observation_value (observation o));
          ("observation_digest", Str (observation_digest o))].
Definition rejection_value (r : LogRejection) : value :=
  Object [("reason", Str (reason r)); ("observed_at_ms", Number (rejected_at_ms r))].
Definition seal_value (s : LogSeal) : value :=
  Object [("observation_count", Number (observation_count s));
          ("qualifying_count", Number (qualifying_count s));
          ("log_digest", Str (log_digest s)); ("sealed_at_ms", Number (sealed_at_ms s))].

Definition tagged (kind : string) (v : value) : value :=
  Object [("kind", Str kind); ("record", v)].
Definition record_value (r : LogRecord) : value :=
  match r with
  | RHeader h => tagged "header" (header_value h)
  | RObservation o => tagged "observation" (log_observation_value o)
  | RRejection r => tagged "rejection" (rejection_value r)
  | RSeal s => tagged "seal" (seal_value s)
  end.

Definition check_bindings (h : LogHeader) (o : CanaryObservationV2) : result unit :=
  if negb (bool_decide (generation_id o = h_generation_id h)) then
    fail "observation {} belongs to generation {}, log is for {}"
      [observation_id o; generation_id o; h_generation_id h]
  else if negb (bool_decide (workload_digest o = h_workload_digest h)) then
    fail "observation {} carries workload digest {}, log is for {}"
      [observation_id o; workload_digest o; h_workload_digest h]
  else if negb (bool_decide (candidate_executable_digest o = h_candidate_executable_digest h))
  then
    fail "observation {} carries executable digest {}, log is for {}"
      [observation_id o; candidate_executable_digest o; h_candidate_executable_digest h]
  else Ok tt.

(** ** Parsing *)

(** What the parser found in a log's bytes. *)
Record Parsed := {
  p_header : option LogHeader;
  p_observations : list CanaryObservationV2;
  p_rejections : list LogRejection;
  p_seal : option (LogSeal * nat);
  complete_end : nat;
  partial_tail : bool;
}.

(** The parser's loop variables: what was found so far, the ids seen with their digests, the
    number of the last line. [complete_end] is also the offset of the next line. *)
Record ParseState := {
  parsed : Parsed;
  seen : gmap string string;
  line_no : nat;
}.

Definition parse_init : ParseState :=
  {| parsed := {| p_header := None; p_observations := []; p_rejections := []; p_seal := None;
                  complete_end := 0; partial_tail := false |};
     seen := ∅; line_no := 0 |}.

(** The newline-terminated lines, without their newline, and the bytes after the last one. *)
Fixpoint split_lines (s : string) : list string * string :=
  match s with
  | EmptyString => ([], "")
  | String b s' =>
    let '(ls, tail) := split_lines s' in
    if bool_decide (b = newline) then ("" :: ls, tail)
    else match ls with
         | [] => ([], String b tail)
         | l :: ls' => (String b l :: ls', tail)
         end
  end.

(** The text of a list of complete lines. *)
Definition unlines (ls : list string) : string :=
  foldr (λ l acc, l +:+ String newline acc) "" ls.

Definition with_header (p : Parsed) (h : LogHeader) : Parsed :=
  {| p_header := Some h; p_observations := p_observations p; p_rejections := p_rejections p;
     p_seal := p_seal p; complete_end := complete_end p; partial_tail := partial_tail p |}.
Definition push_observation (p : Parsed) (o : CanaryObservationV2) : Parsed :=
  {| p_header := p_header p; p_observations := p_observations p ++ [o];
     p_rejections := p_rejections p; p_seal := p_seal p; complete_end := complete_end p;
     partial_tail := partial_tail p |}.
Definition push_rejection (p : Parsed) (r : LogRejection) : Parsed :=
  {| p_header := p_header p; p_observations := p_observations p;
     p_rejections := p_rejections p ++ [r]; p_seal := p_seal p; complete_end := complete_end p;
     partial_tail := partial_tail p |}.
Definition with_seal (p : Parsed) (s : LogSeal) (start : nat) : Parsed :=
  {| p_header := p_header p; p_observations := p_observations p;
     p_rejections := p_rejections p; p_seal := Some (s, start); complete_end := complete_end p;
     partial_tail := partial_tail p |}.
Definition with_end (p : Parsed) (e : nat) : Parsed :=
  {| p_header := p_header p; p_observations := p_observations p;
     p_rejections := p_rejections p; p_seal := p_seal p; complete_end := e;
     partial_tail := partial_tail p |}.
Definition with_tail (p : Parsed) (t : bool) : Parsed :=
  {| p_header := p_header p; p_observations := p_observations p;
     p_rejections := p_rejections p; p_seal := p_seal p; complete_end := complete_end p;
     partial_tail := t |}.

Section Log.
Context `{Sha256} `{JsonStr}.
(** [serde_json::from_slice::<LogRecord>]. *)
Context (from_slice : string → option LogRecord).

Definition record_line (r : LogRecord) : string := write_canonical (record_value r).

(** [LogRecord::to_line]. *)
Definition to_line (r : LogRecord) : string := record_line r +:+ String newline "".

Definition log_preimage (bytes_before_seal : string) : string :=
  domain_preimage LOG_DOMAIN [bytes_before_seal].
Definition log_digest_of (bytes_before_seal : string) : string :=
  domain_digest LOG_DOMAIN [bytes_before_seal].

(** The [match record] of the loop: line [n] starts at offset [start]. *)
Definition parse_record (st : ParseState) (n start : nat) (record : LogRecord)
    : result (Parsed * gmap string string) :=
  let p := parsed st in
  match record with
  | RHeader h =>
    if negb (n =? 1)%nat then
      fail "observation log line {} is a header; only line 1 may be" [dec (N.of_nat n)]
    else
      _ ← validate_header h;
      Ok (with_header p h, seen st)
  | RObservation o =>
    h ← ok_or (p_header p) (Fmt "observation log has no header" []);
    _ ← validate (observation o);
    let digest := digest_hex (observation o) in
    if negb (bool_decide (observation_digest o = digest)) then
      fail "observation {} carries digest {} but hashes to {}"
        [observation_id (observation o); observation_digest o; digest]
    else
      _ ← check_bindings h (observation o);
      match seen st !! observation_id (observation o) with
      | Some previous =>
        if bool_decide (previous = digest) then Ok (p, seen st)
        else fail "observation id {} conflicts with a different record"
               [observation_id (observation o)]
      | None =>
        Ok (push_observation p (observation o),
            <[observation_id (observation o) := digest]> (seen st))
      end
  | RRejection r =>
    if bool_decide (p_header p = None) then fail "observation log has no header" []
    else Ok (push_rejection p r, seen st)
  | RSeal s =>
    if bool_decide (p_header p = None) then fail "observation log has no header" []
    else Ok (with_seal p s start, seen st)
  end.

(** One round of the loop on a complete line. *)
Definition parse_line (st : ParseState) (line : string) : result ParseState :=
  let start := complete_end (parsed st) in
  let offset := (start + String.length line + 1)%nat in
  let n := S (line_no st) in
  if bool_decide (is_Some (p_seal (parsed st))) then
    fail "observation log line {} comes after the seal" [dec (N.of_nat n)]
  else
    record ← ok_or (from_slice line)
               (Fmt "observation log line {} does not parse: {}" [dec (N.of_nat n)]);
    if negb (bool_decide (to_line record = line +:+ String newline "")) then
      fail "observation log line {} is not in canonical encoding" [dec (N.of_nat n)]
    else
      '(p, s) ← parse_record st n start record;
      Ok {| parsed := with_end p offset; seen := s; line_no := n |}.

Fixpoint parse_lines (st : ParseState) (lines : list string) : result ParseState :=
  match lines with
  | [] => Ok st
  | line :: rest => st' ← parse_line st line; parse_lines st' rest
  end.

Definition parse_log (bytes : string) : result Parsed :=
  let '(lines, tail) := split_lines bytes in
  st ← parse_lines parse_init lines;
  let p := with_tail (parsed st) (negb (bool_decide (tail = ""))) in
  if bool_decide (p_header p = None) && (0 <? complete_end p)%nat then
    fail "observation log has no header" []
  else Ok p.

Definition count_qualifying (l : list CanaryObservationV2) : N :=
  N.of_nat (length (List.filter is_qualifying l)).

(** [inspect]. *)
Definition inspect (d : disk) (path : string) : LogState :=
  match d !! path with
  | None => Missing
  | Some bytes =>
    match parse_log bytes with
    | Err e => Invalid e
    | Ok p =>
      match p_seal p with
      | Some _ => Sealed (length (p_observations p))
      | None => Unsealed (length (p_observations p)) (partial_tail p)
      end
    end
  end.

(** ** The sealed log *)

Record SealedObservationLog := {
  s_path : option string;
  s_header : LogHeader;
  s_observations : list CanaryObservationV2;
  s_rejections : list LogRejection;
  s_seal : LogSeal;
}.

Definition verify_bytes (bytes : string) : result SealedObservationLog :=
  p ← parse_log bytes;
  header ← ok_or (p_header p) (Fmt "observation log has no header" []);
  '(seal, seal_start) ← ok_or (p_seal p) (Fmt "observation log is not sealed" []);
  if partial_tail p || negb (complete_end p =? String.length bytes)%nat then
    fail "observation log has bytes after the seal" []
  else
    let expected := log_digest_of (String.substring 0 seal_start bytes) in
    if negb (bool_decide (log_digest seal = expected)) then
      fail "observation log seal digest {} does not match the log bytes ({})"
        [log_digest seal; expected]
    else if negb (observation_count seal =? N.of_nat (length (p_observations p)))%N then
      fail "observation log seal counts {} observations, log holds {}"
        [dec (observation_count seal); dec (N.of_nat (length (p_observations p)))]
    else if negb (qualifying_count seal =? count_qualifying (p_observations p))%N then
      fail "observation log seal counts {} qualifying observations, log holds {}"
        [dec (qualifying_count seal); dec (count_qualifying (p_observations p))]
    else
      Ok {| s_path := None; s_header := header; s_observations := p_observations p;
            s_rejections := p_rejections p; s_seal := seal |}.

Definition load (d : disk) (path : string) : result SealedObservationLog :=
  bytes ← read_file d path "cannot read observation log {:?}: {}";
  s ← verify_bytes bytes;
  Ok {| s_path := Some path; s_header := s_header s; s_observations := s_observations s;
        s_rejections := s_rejections s; s_seal := s_seal s |}.

Definition qualifying (s : SealedObservationLog) : list CanaryObservationV2 :=
  List.filter is_qualifying (s_observations s).

(** ** The writer *)

(** What the disk does with one [write_all] and [sync_all]: both succeed, [write_all] fails
    after some bytes, or the bytes are written and [sync_all] fails. *)
Inductive write_fate := WriteOk | WriteFails (k : nat) | SyncFails.

Record ObservationLogWriter := {
  w_path : string;
  w_header : LogHeader;
  w_seen : gmap string string;
}.

Definition append_bytes (path s : string) (d : disk) : disk :=
  <[path := default "" (d !! path) +:+ s]> d.

(** [write_synced] on a file opened at its end. *)
Definition write_synced (fate : write_fate) (path line : string) : M disk unit := λ d,
  match fate with
  | WriteOk => (append_bytes path line d, Ok tt)
  | WriteFails k =>
    (append_bytes path (String.substring 0 k line) d,
     fail "cannot append to observation log: {}" [])
  | SyncFails => (append_bytes path line d, fail "cannot sync observation log: {}" [])
  end.

(** [create]: [OpenOptions::create_new] fails when the file exists. *)
Definition create (fate : write_fate) (path : string) (h : LogHeader)
    : M disk ObservationLogWriter :=
  _ ← mlift (validate_header h);
  d ← mget;
  if bool_decide (is_Some (d !! path)) then
    mlift (fail "cannot create observation log {:?}: {}" [path])
  else
    _ ← mmodify (λ d, <[path := ""]> d);
    _ ← write_synced fate path (to_line (RHeader h));
    mret {| w_path := path; w_header := h; w_seen := ∅ |}.

(** [reopen]: a partial trailing record is cut off ([set_len]), a sealed log is refused. *)
Definition reopen (path : string) (expected : LogHeader) : M disk ObservationLogWriter :=
  _ ← mlift (validate_header expected);
  d ← mget;
  bytes ← mlift (read_file d path "cannot read observation log {:?}: {}");
  p ← mlift (parse_log bytes);
  header ← mlift (ok_or (p_header p) (Fmt "observation log {:?} has no header" [path]));
  if negb (bool_decide (header = expected)) then
    mlift (fail
      "observation log {:?} was opened for generation {} with other bindings; refusing"
      [path; h_generation_id header])
  else if bool_decide (is_Some (p_seal p)) then
    mlift (fail "observation log {:?} is already sealed; a sealed log is never reopened" [path])
  else
    _ ← mmodify (λ d, if partial_tail p
                      then <[path := String.substring 0 (complete_end p) bytes]> d else d);
    mret {| w_path := path; w_header := header;
            w_seen := list_to_map
              ((λ o, (observation_id o, digest_hex o)) <$> p_observations p) |}.

Definition contains (w : ObservationLogWriter) (id : string) : bool :=
  bool_decide (is_Some (w_seen w !! id)).

Definition stored_count (w : ObservationLogWriter) : nat := size (w_seen w).

Definition append_observation (fate : write_fate) (w : ObservationLogWriter)
    (o : CanaryObservationV2) : M disk (ObservationLogWriter * AppendOutcome) :=
  _ ← mlift (validate o);
  _ ← mlift (check_bindings (w_header w) o);
  let digest := digest_hex o in
  match w_seen w !! observation_id o with
  | Some previous =>
    if bool_decide (previous = digest) then mret (w, Idempotent)
    else mlift (fail "observation id {} conflicts with a different record" [observation_id o])
  | None =>
    _ ← write_synced fate (w_path w)
          (to_line (RObservation {| observation := o; observation_digest := digest |}));
    mret ({| w_path := w_path w; w_header := w_header w;
             w_seen := <[observation_id o := digest]> (w_seen w) |}, Appended)
  end.

Definition append_rejection (fate : write_fate) (w : ObservationLogWriter) (why : string)
    (at_ms : N) : M disk unit :=
  write_synced fate (w_path w) (to_line (RRejection {| reason := why; rejected_at_ms := at_ms |})).

Definition seal (fate : write_fate) (w : ObservationLogWriter) (at_ms : N)
    : M disk SealedObservationLog :=
  d ← mget;
  bytes ← mlift (read_file d (w_path w) "cannot re-read observation log {:?}: {}");
  p ← mlift (parse_log bytes);
  if bool_decide (is_Some (p_seal p)) then
    mlift (fail "observation log {:?} is already sealed" [w_path w])
  else if partial_tail p then
    mlift (fail "observation log {:?} ends in a partial record; refusing to seal" [w_path w])
  else
    _ ← write_synced fate (w_path w)
          (to_line (RSeal {| observation_count := N.of_nat (length (p_observations p));
                             qualifying_count := count_qualifying (p_observations p);
                             log_digest := log_digest_of bytes; sealed_at_ms := at_ms |}));
    d' ← mget;
    mlift (load d' (w_path w)).
End Log.

#[global] Arguments record_line : simpl never.
#[global] Arguments to_line : simpl never.
