(* ===== verification/Ipc.v ===== *)
(** The supervisor's connections to its workers ([src/supervisor/ipc.rs]): messages,
    per-connection authentication state, framing and the HMAC session answer.

    A connection carries the frames its peer will send, each with the time it arrives.  Times
    are nanoseconds of the supervisor's monotonic clock.  [serde_json] and the [Debug] text of a
    message are parameters. *)

From S2P Require Import Prelude RustStd Digest Workload.
#[local] Open Scope string_scope.

Inductive SupervisorMessage :=
  | DrainStart (timeout_secs : N)
  | RevertOrder (reason : string)
  | ShutdownAck (pid : N)
  | Ping
  | AuthChallenge (nonce : string)
  | ExecuteRequest (protocol_version : N) (generation_id request_id request_digest
      workload_digest input : string) (deadline_ms : N).

Inductive WorkerMessage :=
  | ReadyMsg (generation_id : string) (pid : N) (auth_token : string) (protocol_version : N)
  | Heartbeat (generation_id : string) (timestamp_secs active_requests memory_mb : N)
  | DrainComplete (generation_id : string)
  | CanaryReport (generation_id : string) (transaction_id : N) (success : bool)
      (latency_us : N) (err : option string)
  | Pong
  | AuthResponse (response : string)
  | ExecuteResult (protocol_version : N) (generation_id request_id output : string)
      (worker_latency_us : option N).

#[export] Instance SupervisorMessage_eq_dec : EqDecision SupervisorMessage.
Proof. solve_decision. Defined.
#[export] Instance WorkerMessage_eq_dec : EqDecision WorkerMessage.
Proof. solve_decision. Defined.

(** ** Authentication state *)

Inductive ConnectionAuthState :=
  | Unauthenticated
  | Authenticated (generation_id : string) (pid protocol_version : N).

#[export] Instance ConnectionAuthState_eq_dec : EqDecision ConnectionAuthState.
Proof. solve_decision. Defined.

Definition is_authenticated_for (s : ConnectionAuthState) (generation_id : string) : bool :=
  match s with
  | Authenticated g _ _ => bool_decide (g = generation_id)
  | Unauthenticated => false
  end.

Definition can_execute_for (s : ConnectionAuthState) (generation_id : string) : bool :=
  match s with
  | Authenticated g _ version =>
    bool_decide (g = generation_id) && (version =? CANARY_PROTOCOL_VERSION)%N
  | Unauthenticated => false
  end.

(** ** Connections *)

(** What a read of at least one byte yields: the text of the line (up to the line break or the
    end of the stream), or an error of the operating system. *)
Inductive line_read := Line (text : string) | ReadFails (os_error : string).

(** A line, when it arrives, and how long after its arrival the clock is next read. *)
Record incoming := { arrives : N; lag : N; content : line_read }.

(** [closed_at]: when the peer closes its end, [None] if it never does.
    [broken_at]: when writing starts to fail, [None] if it never does. *)
Record IpcConnection := {
  inbox : list incoming;
  closed_at : option N;
  broken_at : option N;
  sent : list SupervisorMessage;
}.

Definition new_connection (inbox : list incoming) (closed_at broken_at : option N)
    : IpcConnection :=
  {| inbox := inbox; closed_at := closed_at; broken_at := broken_at; sent := [] |}.

(** [serde_json::from_str(line.trim())], with the text of its error, and the [Debug] texts
    of a message and of a duration. *)
Class WorkerCodec := {
  decode_worker : string → string + WorkerMessage;
  debug_worker : WorkerMessage → string;
  debug_duration : N → string;
}.

(** The outcome of awaiting a message under a deadline.  [Blocked]: nothing ever arrives and
    there is no deadline. *)
Inductive received :=
  | Got (msg : WorkerMessage)
  | RecvError (text : string)
  | TimedOut
  | Blocked.

Section Connection.
Context `{WorkerCodec}.

Definition send (msg : SupervisorMessage) (now : N) (c : IpcConnection)
    : IpcConnection * (string + unit) :=
  match broken_at c with
  | Some t => if (t <=? now)%N then (c, inl "Failed to write IPC frame: ")
              else ({| inbox := inbox c; closed_at := closed_at c; broken_at := broken_at c;
                       sent := sent c ++ [msg] |}, inr tt)
  | None => ({| inbox := inbox c; closed_at := closed_at c; broken_at := broken_at c;
                sent := sent c ++ [msg] |}, inr tt)
  end.

Definition decode_line (l : line_read) : received :=
  match l with
  | ReadFails e => RecvError ("Failed to read IPC frame: " +:+ e)
  | Line text =>
    match decode_worker text with
    | inl e => RecvError ("Failed to deserialize IPC message: " +:+ e)
    | inr msg => Got msg
    end
  end.

(** [timeout_at(deadline, conn.recv())].  What has already arrived is returned even when the
    deadline has passed, because the timer is consulted only when the read would wait. *)
Definition expires (deadline : option N) (now at_ : N) : bool :=
  match deadline with Some d => (now <? at_)%N && (d <? at_)%N | None => false end.

Definition recv (deadline : option N) (now : N) (c : IpcConnection)
    : IpcConnection * N * received :=
  match inbox c with
  | i :: rest =>
    if expires deadline now (arrives i)
    then (c, N.max now (default 0%N deadline), TimedOut)
    else ({| inbox := rest; closed_at := closed_at c; broken_at := broken_at c;
             sent := sent c |},
          (N.max now (arrives i) + lag i)%N, decode_line (content i))
  | [] =>
    match closed_at c, deadline with
    | Some t, _ =>
      if expires deadline now t then (c, N.max now (default 0%N deadline), TimedOut)
      else (c, N.max now t, RecvError "IPC connection closed by peer")
    | None, Some d => (c, N.max now d, TimedOut)
    | None, None => (c, now, Blocked)
    end
  end.
End Connection.

(** [IpcServer::accept] on Linux: only a peer with the supervisor's own user id is served. *)
Definition accept (peer_uid current_uid : N) (c : IpcConnection) : result IpcConnection :=
  if negb (peer_uid =? current_uid)%N
  then fail "Unauthorized peer UID: {} != expected current UID {}"
         [dec peer_uid; dec current_uid]
  else Ok c.

(** ** Session authentication: HMAC-SHA256 (RFC 2104) *)

Module SessionAuth.
Section Hmac.
Context `{Sha256}.

(** [n] bytes of value [v]. *)
Fixpoint repeat_byte (v : N) (n : nat) : string :=
  match n with O => "" | S n => String (byte v) (repeat_byte v n) end.

(** [copy_from_slice] of at most 64 bytes into a zeroed block. *)
Definition key_block (shared_secret : string) : string :=
  let k := if (64 <? String.length shared_secret)%nat then sha256 shared_secret
           else shared_secret in
  k +:+ repeat_byte 0 (64 - String.length k).

Fixpoint xor_pad (pad : N) (block : string) : string :=
  match block with
  | EmptyString => ""
  | String b rest => String (byte (N.lxor pad (N_of_ascii b))) (xor_pad pad rest)
  end.

Definition inner_input (shared_secret message : string) : string :=
  xor_pad 54 (key_block shared_secret) +:+ message.
Definition outer_input (shared_secret message : string) : string :=
  xor_pad 92 (key_block shared_secret) +:+ sha256 (inner_input shared_secret message).

Definition compute_hmac (shared_secret message : string) : string :=
  hex_encode (sha256 (outer_input shared_secret message)).

(** The difference accumulated over both byte strings, [zip] stopping at the shorter. *)
Fixpoint diff_bytes (a b : string) (diff : N) : N :=
  match a, b with
  | String x a, String y b =>
    diff_bytes a b (N.lor diff (N.lxor (N_of_ascii x) (N_of_ascii y)))
  | _, _ => diff
  end.

Definition verify_hmac (shared_secret message candidate : string) : bool :=
  let expected := compute_hmac shared_secret message in
  if negb (String.length expected =? String.length candidate)%nat then false
  else (diff_bytes expected candidate 0 =? 0)%N.

Definition compute_token (nonce shared_secret : string) : string :=
  compute_hmac shared_secret nonce.
Definition verify_token (nonce shared_secret candidate_token : string) : bool :=
  verify_hmac shared_secret nonce candidate_token.

(** *** Lemmas *)

Lemma diff_bytes_zero a b d :
  String.length a = String.length b → (diff_bytes a b d = 0%N ↔ d = 0%N ∧ a = b).
Proof.
  revert b d; induction a as [|x a IH]; intros [|y b] d; simpl; try done.
  - naive_solver.
  - intros [= Hl]. rewrite IH by done. rewrite N.lor_eq_0_iff, N.lxor_eq_0_iff. split.
    + intros [[-> Hxy] ->]. split; [done|]. f_equal.
      by rewrite <- (ascii_N_embedding x), Hxy, ascii_N_embedding.
    + by intros [-> [= -> ->]].
Qed.

(** The constant-time comparison decides equality. *)
Lemma verify_hmac_eq secret message candidate :
  verify_hmac secret message candidate = true ↔ candidate = compute_hmac secret message.
Proof.
  unfold verify_hmac. destruct (Nat.eqb_spec (String.length (compute_hmac secret message))
    (String.length candidate)) as [Hl|Hl]; simpl.
  - rewrite N.eqb_eq, diff_bytes_zero by done. naive_solver.
  - split; [done|]. by intros ->.
Qed.

Lemma repeat_byte_length v n : String.length (repeat_byte v n) = n.
Proof. induction n; simpl; congruence. Qed.

Lemma key_block_length `{!Sha256Len} secret : String.length (key_block secret) = 64.
Proof.
  unfold key_block. rewrite str_app_length, repeat_byte_length.
  destruct (Nat.ltb_spec 64 (String.length secret)); [rewrite sha256_length|]; lia.
Qed.

Lemma hmac_message_inj secret m m' :
  no_collision [outer_input secret m; outer_input secret m'] →
  no_collision [inner_input secret m; inner_input secret m'] →
  compute_hmac secret m = compute_hmac secret m' → m = m'.
Proof.
  intros Ho Hi Heq%hex_encode_inj.
  apply (no_collision_elim _ _ _ Ho) in Heq; [|set_solver..].
  apply str_app_inj_l in Heq.
  apply (no_collision_elim _ _ _ Hi) in Heq; [|set_solver..].
  by apply str_app_inj_l in Heq.
Qed.
End Hmac.
End SessionAuth.

(** ** The worker's side of the handshake *)

Section Worker.
Context `{Sha256}.

(** [perform_worker_handshake] up to the supervisor's final message: the [Ready] it sends, and
    its answer to what it receives. *)
Definition worker_ready (generation_id : string) (pid : N) : WorkerMessage :=
  ReadyMsg generation_id pid "" CANARY_PROTOCOL_VERSION.

Definition worker_answer (generation_id shared_secret : string) (challenge : SupervisorMessage)
    : result WorkerMessage :=
  match challenge with
  | AuthChallenge nonce =>
    Ok (AuthResponse
          (SessionAuth.compute_hmac shared_secret (generation_id +:+ ":" +:+ nonce)))
  | _ => fail "Expected AuthChallenge from supervisor, got {:?}" []
  end.
End Worker.

Lemma send_ok msg now c c' :
  send msg now c = (c', inr tt) → inbox c' = inbox c ∧ closed_at c' = closed_at c ∧
    broken_at c' = broken_at c ∧ sent c' = (sent c ++ [msg])%list.
Proof. unfold send. repeat case_match; intros [= <-]; done. Qed.
