(* ===== verification/Daemon.v ===== *)
(** The supervisor daemon ([src/supervisor/daemon.rs]): the readiness handshake, the handling of
    worker messages, the instant rollback and the service of one connection.

    The tokio mutexes are taken and released inside one handler, so a handler is one step on the
    daemon's state.  What the outside world decides during a step (the nonce, system call
    outcomes, clocks, [/proc]) comes from an [Env]. *)

From S2P Require Import Prelude RustStd RustPath RustNum Digest Json Workload Observation.
From S2P Require Import ObservationLog Supervisor Ipc.
#[local] Open Scope string_scope.

Definition seconds (n : N) : N := (n * 1000000000)%N.
Definition READINESS_DEADLINE : N := seconds 10.

Inductive ReadinessFailureKind :=
  Timeout | Closed | OldProtocol | WrongGeneration | BadHmac | Unexpected.

Definition kind_debug (k : ReadinessFailureKind) : string :=
  match k with
  | Timeout => "Timeout" | Closed => "Closed" | OldProtocol => "OldProtocol"
  | WrongGeneration => "WrongGeneration" | BadHmac => "BadHmac" | Unexpected => "Unexpected"
  end.

Record ReadinessFailure := { kind : ReadinessFailureKind; detail : string }.

(** [to_string], by the [Display] instance. *)
Definition failure_text (f : ReadinessFailure) : string :=
  "worker not ready (" +:+ kind_debug (kind f) +:+ "): " +:+ detail f.

Definition recv_failure (err : string) : ReadinessFailure :=
  {| kind := if str_contains "closed by peer" err then Closed else Unexpected; detail := err |}.

(** ** State *)

Record SupervisorConfig := {
  rsi_root : string;
  config_socket_path : string;
  config_memory_limit_mb : N;
  canary_target : N;
  config_max_latency_us : N;
  max_error_rate : f64;
  shared_secret : string
}.

Record SupervisorDaemon := {
  active_generation : option GenerationInfo;
  canary_generation : option GenerationInfo;
  observation_log : option ObservationLogWriter;
  fs : Fs;
  log_disk : disk
}.

Definition set_canary (c : option GenerationInfo) (d : SupervisorDaemon) : SupervisorDaemon :=
  {| active_generation := active_generation d; canary_generation := c;
     observation_log := observation_log d; fs := fs d; log_disk := log_disk d |}.
Definition set_fs (f : Fs) (d : SupervisorDaemon) : SupervisorDaemon :=
  {| active_generation := active_generation d; canary_generation := canary_generation d;
     observation_log := observation_log d; fs := f; log_disk := log_disk d |}.
Definition set_log (w : option ObservationLogWriter) (k : disk) (d : SupervisorDaemon)
    : SupervisorDaemon :=
  {| active_generation := active_generation d; canary_generation := canary_generation d;
     observation_log := w; fs := fs d; log_disk := k |}.

(** What the outside world decides during one step. *)
Record Env := {
  nonce_uuid : string;
  log_fate : write_fate;
  now_ms : N;
  swap_fate : SwapFate;
  sock_fate : SwapFate;
  swap_uuid : string;
  sock_uuid : string;
  proc : disk;
  page_size_kb : N
}.

Section Daemon.
Context `{Sha256} `{JsonStr} `{WorkerCodec}.

(** ** The handshake *)

Definition check_ready (expected_generation : string) (msg : WorkerMessage)
    : ReadinessFailure + (N * N) :=
  match msg with
  | ReadyMsg generation_id pid _ protocol_version =>
    if negb (protocol_version =? CANARY_PROTOCOL_VERSION)%N then
      inl {| kind := OldProtocol;
             detail := "Ready states protocol version " +:+ dec protocol_version
                       +:+ ", expected " +:+ dec CANARY_PROTOCOL_VERSION |}
    else if negb (bool_decide (generation_id = expected_generation)) then
      inl {| kind := WrongGeneration;
             detail := "Ready names generation " +:+ generation_id +:+ ", expected "
                       +:+ expected_generation |}
    else inr (pid, protocol_version)
  | other =>
    inl {| kind := Unexpected;
           detail := "expected a versioned Ready first, got " +:+ debug_worker other |}
  end.

(** The outcome of awaiting under a deadline: the timer may win, or nothing may ever come. *)
Inductive awaited (A : Type) := Done (a : A) | Expired | Never.
Arguments Done {A} a.
Arguments Expired {A}.
Arguments Never {A}.

Definition nonce_of (uuid : string) : string := "challenge-" +:+ uuid.
Definition message_to_sign (generation_id nonce : string) : string :=
  generation_id +:+ ":" +:+ nonce.

Definition challenge_worker (uuid : string) (deadline : option N) (generation_id secret : string)
    (now : N) (c : IpcConnection) : IpcConnection * N * awaited (ReadinessFailure + unit) :=
  match send (AuthChallenge (nonce_of uuid)) now c with
  | (c, inl e) => (c, now, Done (inl (recv_failure e)))
  | (c, inr _) =>
    match recv deadline now c with
    | (c, now, TimedOut) => (c, now, Expired)
    | (c, now, Blocked) => (c, now, Never)
    | (c, now, RecvError e) => (c, now, Done (inl (recv_failure e)))
    | (c, now, Got (AuthResponse candidate)) =>
      if negb (SessionAuth.verify_hmac secret
                 (message_to_sign generation_id (nonce_of uuid)) candidate)
      then (c, now, Done (inl {| kind := BadHmac;
              detail := "HMAC for generation " +:+ generation_id +:+ " did not verify" |}))
      else (c, now, Done (inr tt))
    | (c, now, Got other) =>
      (c, now, Done (inl {| kind := Unexpected;
         detail := "expected AuthResponse, got " +:+ debug_worker other |}))
    end
  end.

(** The handshake future, polled until [until]. *)
Definition handshake (uuid : string) (expected secret : string) (until : N) (now : N)
    (c : IpcConnection)
    : IpcConnection * N * awaited (ReadinessFailure + ConnectionAuthState) :=
  match recv (Some until) now c with
  | (c, now, TimedOut) => (c, now, Expired)
  | (c, now, Blocked) => (c, now, Never)
  | (c, now, RecvError e) => (c, now, Done (inl (recv_failure e)))
  | (c, now, Got first) =>
    match check_ready expected first with
    | inl f => (c, now, Done (inl f))
    | inr (pid, protocol_version) =>
      match challenge_worker uuid (Some until) expected secret now c with
      | (c, now, Expired) => (c, now, Expired)
      | (c, now, Never) => (c, now, Never)
      | (c, now, Done (inl f)) => (c, now, Done (inl f))
      | (c, now, Done (inr _)) =>
        match send Ping now c with
        | (c, inl e) => (c, now, Done (inl (recv_failure e)))
        | (c, inr _) => (c, now, Done (inr (Authenticated expected pid protocol_version)))
        end
      end
    end
  end.

Definition authenticate_worker_connection (uuid : string) (expected secret : string) (deadline : N)
    (now : N) (c : IpcConnection)
    : IpcConnection * N * (ReadinessFailure + ConnectionAuthState) :=
  match handshake uuid expected secret (now + deadline)%N now c with
  | (c, now, Done r) => (c, now, r)
  | (c, now, _) =>
    (c, now, inl {| kind := Timeout;
        detail := "no completed handshake within " +:+ debug_duration deadline |})
  end.

(** ** Operations of the daemon *)

Context (config : SupervisorConfig).

Definition supervisor : HostSupervisor :=
  new_supervisor (rsi_root config) (config_memory_limit_mb config).

Definition new_daemon (f : Fs) (k : disk) : SupervisorDaemon :=
  {| active_generation := None; canary_generation := None; observation_log := None;
     fs := f; log_disk := k |}.

Definition stage_canary (generation_id artifacts_dir digest now : string)
    : M SupervisorDaemon GenerationInfo := λ d,
  match stage_generation supervisor generation_id artifacts_dir digest now (fs d) with
  | (f, Err e) => (set_fs f d, Err e)
  | (f, Ok gen) => (set_canary (Some gen) (set_fs f d), Ok gen)
  end.

Definition attach_observation_log (w : ObservationLogWriter) (d : SupervisorDaemon)
    : SupervisorDaemon := set_log (Some w) (log_disk d) d.
Definition detach_observation_log (d : SupervisorDaemon)
    : SupervisorDaemon * option ObservationLogWriter :=
  (set_log None (log_disk d) d, observation_log d).

(** [reject]: records the reason when a log is open; a failure to record it is only traced. *)
Definition reject (env : Env) (why : string) (d : SupervisorDaemon) : SupervisorDaemon :=
  match observation_log d with
  | Some w =>
    set_log (Some w) (append_rejection (log_fate env) w why (now_ms env) (log_disk d)).1 d
  | None => d
  end.

Definition trigger_instant_rollback (env : Env) (active_socket_link : string)
    : M SupervisorDaemon unit := λ d,
  let finish d :=
    (set_canary (set_state Reverted <$> canary_generation d) d, Ok tt) in
  match active_generation d with
  | Some parent =>
    let parent_sock :=
      path_join (rsi_root config) ("workers/" +:+ generation_id parent +:+ ".sock") in
    match rollback_to_parent supervisor (swap_fate env) (sock_fate env) (swap_uuid env)
            (sock_uuid env) (generation_id parent) (Some active_socket_link)
            (Some parent_sock) (fs d) with
    | (f, Err e) => (set_fs f d, Err e)
    | (f, Ok _) => finish (set_fs f d)
    end
  | None => finish d
  end.

Definition claimed (msg : WorkerMessage) : option string :=
  match msg with
  | Heartbeat g _ _ _ | DrainComplete g | CanaryReport g _ _ _ _ | ExecuteResult _ g _ _ _ =>
    Some g
  | _ => None
  end.

(** The result of handling one frame: [inl] closes the connection. *)
Record handled := {
  h_conn : IpcConnection;
  h_auth : ConnectionAuthState;
  h_now : N;
  h_state : SupervisorDaemon;
  h_reply : string + option SupervisorMessage
}.

(** The canary becomes ready: its state and process id are recorded. *)
Definition mark_ready (expected : string) (pid : N) (g : GenerationInfo) : GenerationInfo :=
  if bool_decide (generation_id g = expected)
  then {| generation_id := generation_id g; installed_path := installed_path g;
          manifest_digest := manifest_digest g; state := Supervisor.Ready; pid := Some pid;
          socket_path := socket_path g; canary_transactions := canary_transactions g;
          canary_errors := canary_errors g; max_latency_us := max_latency_us g;
          total_latency_us := total_latency_us g; staged_timestamp := staged_timestamp g |}
  else g.

(** The [Ready] arm. *)
Definition process_ready (env : Env) (c : IpcConnection) (auth : ConnectionAuthState) (now : N)
    (msg : WorkerMessage) (d : SupervisorDaemon) : handled :=
  let refuse c now why :=
    {| h_conn := c; h_auth := auth; h_now := now; h_state := reject env why d;
       h_reply := inl why |} in
  if negb (bool_decide (auth = Unauthenticated))
  then refuse c now "repeated Ready on an authenticated connection"
  else match canary_generation d with
  | None => refuse c now "Ready while no canary generation is staged"
  | Some canary =>
    let expected := generation_id canary in
    match check_ready expected msg with
    | inl f => refuse c now (failure_text f)
    | inr (pid, protocol_version) =>
      match challenge_worker (nonce_uuid env) (Some (now + READINESS_DEADLINE)%N) expected
              (shared_secret config) now c with
      | (c, now, Done (inl f)) => refuse c now (failure_text f)
      | (c, now, Done (inr _)) =>
        {| h_conn := c; h_auth := Authenticated expected pid protocol_version; h_now := now;
           h_state := set_canary (mark_ready expected pid <$> canary_generation d) d;
           h_reply := inr (Some Ping) |}
      | (c, now, _) =>
        refuse c now "HMAC challenge not answered before the readiness deadline"
      end
    end
  end.

(** The [Heartbeat] arm, once the frame is known to come from the generation it names. *)
Definition process_heartbeat (env : Env) (active_socket_link named : string) (memory_mb : N)
    (d : SupervisorDaemon) : SupervisorDaemon * (string + option SupervisorMessage) :=
  let exceeded c :=
    bool_decide (generation_id c = named) && (config_memory_limit_mb config <? memory_mb)%N in
  match canary_generation d with
  | Some canary =>
    if exceeded canary
    then match trigger_instant_rollback env active_socket_link
                 (set_canary (Some (set_state Reverting canary)) d) with
         | (d, Err e) => (d, inl (render e))
         | (d, Ok _) =>
           (d, inr (Some (RevertOrder
              ("Memory budget exceeded: " +:+ dec memory_mb +:+ " MB > "
               +:+ dec (config_memory_limit_mb config) +:+ " MB limit"))))
         end
    else (d, inr (Some Ping))
  | None => (d, inr (Some Ping))
  end.

(** The [CanaryReport] arm. *)
Definition process_report (env : Env) (active_socket_link named : string) (success : bool)
    (latency_us : N) (err : option string) (d : SupervisorDaemon)
    : SupervisorDaemon * (string + option SupervisorMessage) :=
  match canary_generation d with
  | Some canary =>
    if bool_decide (generation_id canary = named)
    then
      match record_canary_transaction supervisor (proc env) (page_size_kb env) success latency_us
              (config_max_latency_us config) (max_error_rate config) canary with
      | (canary, Ok _) => (set_canary (Some canary) d, inr None)
      | (canary, Err budget_err) =>
        let reason := match err with
                      | Some orig => orig +:+ ": " +:+ render budget_err
                      | None => render budget_err
                      end in
        match trigger_instant_rollback env active_socket_link
                (set_canary (Some canary) d) with
        | (d, Err e) => (d, inl (render e))
        | (d, Ok _) => (d, inr (Some (RevertOrder reason)))
        end
      end
    else (d, inr None)
  | None => (d, inr None)
  end.

Definition process_worker_message (env : Env) (c : IpcConnection) (auth : ConnectionAuthState)
    (now : N) (msg : WorkerMessage) (active_socket_link : string) (d : SupervisorDaemon)
    : handled :=
  let close why :=
    {| h_conn := c; h_auth := auth; h_now := now; h_state := reject env why d;
       h_reply := inl why |} in
  let answer '(d, reply) :=
    {| h_conn := c; h_auth := auth; h_now := now; h_state := d; h_reply := reply |} in
  match msg with
  | ReadyMsg _ _ _ _ => process_ready env c auth now msg d
  | _ =>
    match auth with
    | Unauthenticated =>
      close ("message on an unauthenticated connection: " +:+ debug_worker msg)
    | Authenticated generation_id _ _ =>
      if match claimed msg with
         | Some named => negb (bool_decide (named = generation_id)) | None => false end
      then close ("connection authenticated for generation " +:+ generation_id
                  +:+ " sent a message naming generation " +:+ default "" (claimed msg))
      else match msg with
      | Heartbeat _ _ _ memory_mb =>
        answer (process_heartbeat env active_socket_link generation_id memory_mb d)
      | CanaryReport _ _ success latency_us err =>
        answer (process_report env active_socket_link generation_id success latency_us err d)
      | DrainComplete _ | Pong => answer (d, inr None)
      | AuthResponse _ => close "AuthResponse outside a handshake"
      | ExecuteResult _ _ request_id _ _ =>
        answer (reject env ("unsolicited ExecuteResult for request " +:+ request_id) d, inr None)
      | ReadyMsg _ _ _ _ => answer (d, inr None)
      end
    end
  end.

(** ** Serving one accepted connection: the inner loop of [run_server]

    [envs i] is the environment of the [i]-th turn.  Every turn that continues has consumed a
    frame, so one more than the number of frames is enough fuel; [None] is only for a loop out
    of fuel. *)
Inductive served := Broken (d : SupervisorDaemon) | Waiting (d : SupervisorDaemon).

Definition served_state (s : served) : SupervisorDaemon :=
  match s with Broken d | Waiting d => d end.

Fixpoint serve_connection (fuel : nat) (envs : nat → Env) (active_link : string)
    (c : IpcConnection) (auth : ConnectionAuthState) (now : N) (d : SupervisorDaemon)
    : option served :=
  match fuel with
  | O => None
  | S fuel =>
    let env := envs 0%nat in
    let deadline := if bool_decide (auth = Unauthenticated)
                    then Some (now + READINESS_DEADLINE)%N else None in
    match recv deadline now c with
    | (_, _, TimedOut) =>
      Some (Broken (reject env "connection silent past the readiness deadline" d))
    | (_, _, Blocked) => Some (Waiting d)
    | (_, _, RecvError _) => Some (Broken d)
    | (c, now, Got msg) =>
      let h := process_worker_message env c auth now msg active_link d in
      match h_reply h with
      | inl _ => Some (Broken (h_state h))
      | inr reply =>
        let c := match reply with
                 | Some m => (send m (h_now h) (h_conn h)).1 | None => h_conn h end in
        serve_connection fuel (λ i, envs (S i)) active_link c (h_auth h) (h_now h) (h_state h)
      end
    end
  end.
End Daemon.
Arguments Done {A} a.
Arguments Expired {A}.
Arguments Never {A}.
