(* ===== verification/DaemonProps.v ===== *)
(** Properties of the supervisor daemon: who becomes authenticated, what unauthenticated and
    foreign frames can do, that no sequence of worker frames makes a generation durable, and that
    serving a connection ends. *)

From S2P Require Import Prelude RustStd RustPath RustNum Digest Json Workload Observation.
From S2P Require Import ObservationLog Supervisor SupervisorProps Ipc Daemon.
#[local] Open Scope string_scope.

Section Props.
Context `{Sha256} `{JsonStr} `{WorkerCodec}.

(** ** Reading and writing *)

Definition writable (c : IpcConnection) (now : N) : Prop :=
  ∀ t, broken_at c = Some t → (now < t)%N.

(** The connection after one more message is written, and after its next frame is read. *)
Definition wrote (m : SupervisorMessage) (c : IpcConnection) : IpcConnection :=
  {| inbox := inbox c; closed_at := closed_at c; broken_at := broken_at c;
     sent := (sent c ++ [m])%list |}.
Definition consumed (rest : list incoming) (c : IpcConnection) : IpcConnection :=
  {| inbox := rest; closed_at := closed_at c; broken_at := broken_at c; sent := sent c |}.
Definition after (now : N) (i : incoming) : N := (N.max now (arrives i) + lag i)%N.

Lemma send_inr m now c c' :
  send m now c = (c', inr tt) ↔ writable c now ∧ c' = wrote m c.
Proof.
  unfold send, writable, wrote. destruct (broken_at c) as [t|] eqn:Hb.
  - destruct (N.leb_spec t now); split.
    + done.
    + intros [Hw _]. specialize (Hw t eq_refl). lia.
    + intros [= <-]. split; [|done]. by intros ? [= <-].
    + by intros [_ ->].
  - split; [by intros [= <-]|by intros [_ ->]].
Qed.

Lemma send_inl m now c c' e : send m now c = (c', inl e) → c' = c.
Proof. unfold send. repeat case_match; congruence. Qed.

Lemma recv_got dl now c c' now' msg :
  recv dl now c = (c', now', Got msg) ↔
  ∃ i rest, inbox c = i :: rest ∧ expires dl now (arrives i) = false ∧
    decode_line (content i) = Got msg ∧ c' = consumed rest c ∧ now' = after now i.
Proof.
  unfold recv, consumed, after. destruct (inbox c) as [|i rest].
  - split; [|by intros (? & ? & [=] & _)]. destruct (closed_at c), dl; by repeat case_match.
  - destruct (expires _ _ _) eqn:He; split.
    + done.
    + intros (? & ? & [= <- <-] & He' & _). congruence.
    + intros [= <- <- Hd]. eauto 10.
    + intros (? & ? & [= <- <-] & _ & -> & -> & ->). done.
Qed.

(** A connection some frames later: a rest of the same inbox, closing at the same time. *)
Definition later (c c' : IpcConnection) : Prop :=
  inbox c' `suffix_of` inbox c ∧ closed_at c' = closed_at c.

#[local] Instance later_refl : Reflexive later.
Proof. by split. Qed.
#[local] Instance later_trans : Transitive later.
Proof. intros c1 c2 c3 [? ?] [? ?]. split; [by etrans|congruence]. Qed.

Lemma send_later m now c : later c (send m now c).1.
Proof. unfold send. by repeat case_match. Qed.

(** A read leaves a rest of the inbox, and one that yields a frame shortens it. *)
Lemma recv_later dl now c c' now' r : recv dl now c = (c', now', r) →
  later c c' ∧ (∀ msg, r = Got msg → length (inbox c) = S (length (inbox c'))).
Proof.
  unfold recv. destruct (inbox c) as [|i rest] eqn:Hi.
  - destruct (closed_at c), dl; repeat case_match; intros [= <- <- <-]; by split.
  - destruct (expires _ _ _); intros [= <- <- <-]; simpl; [by split|]. split; [|done].
    split; simpl; [|done]. rewrite Hi. by apply suffix_cons_r.
Qed.

(** ** The challenge *)

(** The next frame answers the challenge of this environment for [gen] in time. *)
Definition answers (uuid : string) (dl : option N) (gen secret : string) (now : N) (i : incoming)
    : Prop :=
  expires dl now (arrives i) = false ∧
  decode_line (content i)
  = Got (AuthResponse (SessionAuth.compute_hmac secret (message_to_sign gen (nonce_of uuid)))).

Lemma challenge_ok uuid dl gen secret now c c' now' :
  challenge_worker uuid dl gen secret now c = (c', now', Done (inr tt)) ↔
  writable c now ∧ ∃ i rest, inbox c = i :: rest ∧ answers uuid dl gen secret now i ∧
    c' = consumed rest (wrote (AuthChallenge (nonce_of uuid)) c) ∧ now' = after now i.
Proof.
  unfold challenge_worker, answers.
  destruct (send _ now c) as [c1 [e|[]]] eqn:Hs.
  - split; [done|]. intros (Hw & _). exfalso. clear -Hs Hw.
    assert (send (AuthChallenge (nonce_of uuid)) now c
            = (wrote (AuthChallenge (nonce_of uuid)) c, inr tt)) by (by apply send_inr).
    congruence.
  - apply send_inr in Hs as [Hw ->].
    destruct (recv dl now _) as [[c2 now2] r] eqn:Hr. split.
    + destruct r as [[]| | |]; try done. destruct (SessionAuth.verify_hmac _ _ _) eqn:Hv; [|done].
      simpl. intros [= <- <-]. apply SessionAuth.verify_hmac_eq in Hv as ->.
      apply recv_got in Hr as (i & rest & Hi & He & Hd & -> & ->). eauto 12.
    + intros (_ & i & rest & Hi & (He & Hd) & -> & ->).
      assert (recv dl now (wrote (AuthChallenge (nonce_of uuid)) c)
        = (consumed rest (wrote (AuthChallenge (nonce_of uuid)) c), after now i,
           Got (AuthResponse (SessionAuth.compute_hmac secret
                                (message_to_sign gen (nonce_of uuid)))))) as Hr'
        by (apply recv_got; eauto 12).
      rewrite Hr in Hr'. injection Hr' as -> -> ->.
      by rewrite (proj2 (SessionAuth.verify_hmac_eq _ _ _) eq_refl).
Qed.

Lemma challenge_later uuid dl gen secret now c c' now' r :
  challenge_worker uuid dl gen secret now c = (c', now', r) → later c c'.
Proof.
  unfold challenge_worker.
  pose proof (send_later (AuthChallenge (nonce_of uuid)) now c) as Hl.
  destruct (send _ now c) as [c1 [e|[]]]; simpl in Hl; [by intros [= <- _ _]|].
  destruct (recv _ _ _) as [[c2 now2] r2] eqn:Hr. apply recv_later in Hr as [Hr _].
  repeat case_match; intros [= <- _ _]; by etrans.
Qed.

Lemma check_ready_ok expected msg pid version :
  check_ready expected msg = inr (pid, version) ↔
  version = CANARY_PROTOCOL_VERSION ∧ ∃ token, msg = ReadyMsg expected pid token version.
Proof.
  unfold check_ready. destruct msg as [g p token v| | | | | |];
    try (split; [done|by intros [_ [? ?]]]).
  destruct (N.eqb_spec v CANARY_PROTOCOL_VERSION) as [->|]; simpl.
  - case_bool_decide as Hg; simpl; split; try done.
    + intros [= -> <-]. split; [done|]. eexists. by rewrite Hg.
    + by intros [-> [? [= -> -> _]]].
    + by intros [_ [? [= -> _ _ _]]].
  - split; [done|]. by intros [-> [? [= _ _ _ ->]]].
Qed.

(** ** The handshake *)

(** A connection becomes ready exactly when its first frame is a [Ready] of the current protocol version for the expected generation, its second frame is the HMAC of this handshake's own challenge under the shared secret, both arrive before the one deadline and both writes succeed; the supervisor has then sent exactly the challenge and the ping. *)
Theorem handshake_iff (uuid : string) (expected secret : string) (deadline now : N)
    (c c' : IpcConnection) (now' : N) (s : ConnectionAuthState) :
  authenticate_worker_connection uuid expected secret deadline now c = (c', now', inr s) ↔
  ∃ i1 i2 rest pid token,
    let until := Some (now + deadline)%N in
    inbox c = i1 :: i2 :: rest ∧
    expires until now (arrives i1) = false ∧
    decode_line (content i1) = Got (ReadyMsg expected pid token CANARY_PROTOCOL_VERSION) ∧
    answers uuid until expected secret (after now i1) i2 ∧
    writable c (after now i1) ∧ writable c now' ∧ now' = after (after now i1) i2 ∧
    s = Authenticated expected pid CANARY_PROTOCOL_VERSION ∧
    c' = consumed rest (wrote Ping (wrote (AuthChallenge (nonce_of uuid)) c)).
Proof.
  unfold authenticate_worker_connection, handshake. simpl.
  destruct (recv _ now c) as [[c1 now1] r1] eqn:Hr1. split.
  - destruct r1 as [first| | |]; try done.
    destruct (check_ready expected first) as [|[pid v]] eqn:Hc; [done|].
    apply recv_got in Hr1 as (i1 & rest & Hi1 & He1 & Hd1 & -> & ->).
    apply check_ready_ok in Hc as [-> [token ->]].
    destruct (challenge_worker _ _ _ _ _ _) as [[c2 now2] [[|[]]| |]] eqn:Hch; try done.
    apply challenge_ok in Hch as (Hw & i2 & rest2 & Hi2 & Ha & -> & ->).
    destruct (send Ping _ _) as [c3 [|[]]] eqn:Hp; [done|].
    apply send_inr in Hp as [Hw2 ->]. intros [= <- <- <-]. simpl in Hi2. subst rest.
    exists i1, i2, rest2, pid, token. done.
  - intros (i1 & i2 & rest & pid & token & Hi & He1 & Hd1 & Ha & Hw1 & Hw2 & -> & -> & ->).
    assert (recv (Some (now + deadline)%N) now c
            = (consumed (i2 :: rest) c, after now i1,
               Got (ReadyMsg expected pid token CANARY_PROTOCOL_VERSION))) as Hr
      by (apply recv_got; eauto 12).
    rewrite Hr1 in Hr. injection Hr as -> -> ->.
    rewrite (proj2 (check_ready_ok _ _ _ _)) by eauto.
    assert (challenge_worker uuid (Some (now + deadline)%N) expected secret (after now i1)
              (consumed (i2 :: rest) c)
            = (consumed rest (wrote (AuthChallenge (nonce_of uuid)) (consumed (i2 :: rest) c)),
               after (after now i1) i2, Done (inr tt))) as ->
      by (apply challenge_ok; eauto 12).
    set (c2 := consumed rest _).
    assert (send Ping (after (after now i1) i2) c2
            = (wrote Ping c2, inr tt)) as -> by (by apply send_inr).
    done.
Qed.

Context (config : SupervisorConfig).

Abbreviation process := (process_worker_message config).

Lemma authenticates env c auth now msg link d :
  h_auth (process env c auth now msg link d) ≠ auth →
  ∃ canary pid token i,
    auth = Unauthenticated ∧ canary_generation d = Some canary ∧
    msg = ReadyMsg (generation_id canary) pid token CANARY_PROTOCOL_VERSION ∧
    hd_error (inbox c) = Some i ∧
    answers (nonce_uuid env) (Some (now + READINESS_DEADLINE)%N) (generation_id canary)
      (shared_secret config) now i ∧
    process env c auth now msg link d
    = {| h_conn := consumed (tl (inbox c)) (wrote (AuthChallenge (nonce_of (nonce_uuid env))) c);
         h_auth := Authenticated (generation_id canary) pid CANARY_PROTOCOL_VERSION;
         h_now := after now i;
         h_state := set_canary (mark_ready (generation_id canary) pid <$> canary_generation d) d;
         h_reply := inr (Some Ping) |}.
Proof.
  intros Hchanged.
  destruct msg as [g p tok v| | | | | |]; simpl in *;
    try (exfalso; apply Hchanged; clear Hchanged; destruct auth; simpl; repeat case_match; done).
  unfold process_ready in *.
  destruct (decide (auth = Unauthenticated)) as [->|Hauth];
    [rewrite bool_decide_true in * by done|rewrite bool_decide_false in * by done; done].
  cbn [negb] in *. destruct (canary_generation d) as [canary|] eqn:Hcan; [|done].
  destruct (check_ready _ _) as [|[pid version]] eqn:Hc; [done|].
  apply check_ready_ok in Hc as [-> [token Hmsg]].
  destruct (challenge_worker _ _ _ _ _ _) as [[c2 now2] [[|[]]| |]] eqn:Hch; try done.
  apply challenge_ok in Hch as (Hw & i & rest & Hi & Ha & -> & ->).
  exists canary, pid, token, i. rewrite Hi. by split_and!.
Qed.

(** C13: Handling a frame changes a connection's authentication state only when the connection was unauthenticated, the frame is a current [Ready] for the staged canary generation, and the next frame is the HMAC of a fresh challenge under the supervisor's secret; only then is the canary marked ready. *)
Theorem authentication_sound (env : Env) (c : IpcConnection) (auth : ConnectionAuthState) (now : N)
    (msg : WorkerMessage) (link : string) (d : SupervisorDaemon)
    (Hchanged : h_auth (process env c auth now msg link d) ≠ auth) :
  ∃ canary pid token i,
    auth = Unauthenticated ∧ canary_generation d = Some canary ∧
    msg = ReadyMsg (generation_id canary) pid token CANARY_PROTOCOL_VERSION ∧
    hd_error (inbox c) = Some i ∧
    answers (nonce_uuid env) (Some (now + READINESS_DEADLINE)%N) (generation_id canary)
      (shared_secret config) now i ∧
    let h := process env c auth now msg link d in
    h_auth h = Authenticated (generation_id canary) pid CANARY_PROTOCOL_VERSION ∧
    h_reply h = inr (Some Ping) ∧
    (state <$> canary_generation (h_state h)) = Some Supervisor.Ready.
Proof.
  apply authenticates in Hchanged
    as (canary & pid & token & i & Hauth & Hcan & Hmsg & Hi & Ha & ->).
  exists canary, pid, token, i. split_and!; try done. simpl. rewrite Hcan. simpl.
  unfold mark_ready. by rewrite bool_decide_true.
Qed.

(** ** Frames that are refused *)

(** The daemon after a refusal: nothing but the observation log may have grown. *)
Definition only_log_changed (d d' : SupervisorDaemon) : Prop :=
  active_generation d' = active_generation d ∧ canary_generation d' = canary_generation d ∧
  fs d' = fs d ∧ observation_log d' = observation_log d.

Lemma reject_only_log env why d : only_log_changed d (reject env why d).
Proof. unfold reject, only_log_changed. destruct (observation_log d) eqn:?; by split_and!. Qed.

(** A frame the state of the connection does not allow: anything but [Ready] before
    authentication; afterwards a second [Ready], an answer outside a handshake, or a frame that
    names another generation. *)
Definition not_allowed (auth : ConnectionAuthState) (msg : WorkerMessage) : Prop :=
  match auth, msg with
  | Unauthenticated, ReadyMsg _ _ _ _ => False
  | Unauthenticated, _ => True
  | Authenticated _ _ _, (ReadyMsg _ _ _ _ | AuthResponse _) => True
  | Authenticated g _ _, _ => ∃ named, claimed msg = Some named ∧ named ≠ g
  end.

(** A frame that the connection's authentication state does not allow closes the connection, is never answered, and changes neither the generations, the file system nor the authentication state; it leaves at most a rejection record. *)
Theorem refused_frame_inert (env : Env) (c : IpcConnection) (auth : ConnectionAuthState) (now : N)
    (msg : WorkerMessage) (link : string) (d : SupervisorDaemon)
    (Hnot : not_allowed auth msg) :
  let h := process env c auth now msg link d in
  (∃ why, h_reply h = inl why ∧ h_state h = reject env why d) ∧
  only_log_changed d (h_state h) ∧ h_auth h = auth ∧ h_conn h = c.
Proof.
  assert (∀ h : handled, (∃ why, h_reply h = inl why ∧ h_state h = reject env why d) →
    h_auth h = auth ∧ h_conn h = c →
    (∃ why, h_reply h = inl why ∧ h_state h = reject env why d) ∧
    only_log_changed d (h_state h) ∧ h_auth h = auth ∧ h_conn h = c) as Hgen.
  { intros h (why & Hr & Hs) [Ha Hc]. rewrite Hs. split; [by eauto|].
    split; [apply reject_only_log|done]. }
  apply Hgen; clear Hgen.
  all: destruct auth as [|g p v], msg; simpl in Hnot; try done; simpl; eauto.
  all: destruct Hnot as (named & [= <-] & Hne); rewrite bool_decide_false by done; simpl; eauto.
Qed.

(** ** No worker frame promotes *)

(** How the canary's record may move while worker frames are handled: the same generation, the
    same installation, and [Durable] only if it was already. *)
Definition canary_moves (g g' : GenerationInfo) : Prop :=
  generation_id g' = generation_id g ∧ installed_path g' = installed_path g ∧
  manifest_digest g' = manifest_digest g ∧
  (state g' = Durable → state g = Durable).

Record cautious (d d' : SupervisorDaemon) : Prop := {
  c_active : active_generation d' = active_generation d;
  c_canary : option_relation canary_moves (λ _, False) (λ _, False)
               (canary_generation d) (canary_generation d');
  c_files : files (fs d') = files (fs d);
  c_no_parent : active_generation d = None → fs d' = fs d;
  c_log : observation_log d' = observation_log d
}.

Lemma canary_moves_state s g : s ≠ Durable → canary_moves g (set_state s g).
Proof. intros Hs. by split_and!. Qed.

#[local] Instance cautious_refl : Reflexive cautious.
Proof. intros d. split; try done. by destruct (canary_generation d). Qed.

#[local] Instance cautious_trans : Transitive cautious.
Proof.
  intros d1 d2 d3 [A1 C1 F1 N1 L1] [A2 C2 F2 N2 L2]. split; try congruence.
  - destruct (canary_generation d1), (canary_generation d2), (canary_generation d3);
      simpl in *; try done. unfold canary_moves in *. intuition congruence.
  - intros Hn. rewrite N2, N1; congruence.
Qed.

Lemma reject_cautious env why d : cautious d (reject env why d).
Proof.
  destruct (reject_only_log env why d) as (Ha & Hc & Hf & Hl). split; try congruence.
  rewrite Hc. by destruct (canary_generation d).
Qed.

Lemma set_canary_cautious g g' d :
  canary_generation d = Some g → canary_moves g g' → cautious d (set_canary (Some g') d).
Proof. intros Hg Hm. split; try done. by rewrite Hg. Qed.

Lemma replace_link_files fate parent link tmp target cf rf f f' r :
  replace_link fate parent link tmp target cf rf f = (f', r) → files f' = files f.
Proof. unfold replace_link. repeat case_match; intros [= <- <-]; by subst. Qed.

Lemma rollback_files sup fate sfate u su gen link sock f f' r :
  rollback_to_parent sup fate sfate u su gen link sock f = (f', r) → files f' = files f.
Proof.
  unfold rollback_to_parent, mbind, M_bind.
  destruct (atomic_symlink_swap _ _ _ _ _) as [f1 r1] eqn:Hs.
  assert (files f1 = files f) as Hf.
  { revert Hs. unfold atomic_symlink_swap. repeat case_match; try congruence.
    apply replace_link_files. }
  destruct r1; [|congruence].
  destruct link, sock; try (intros [= <- <-]; done).
  unfold switch_active_socket. case_match; [|congruence].
  intros Hr%replace_link_files. congruence.
Qed.

Lemma rollback_cautious env link d d' r :
  trigger_instant_rollback config env link d = (d', r) → cautious d d'.
Proof.
  unfold trigger_instant_rollback.
  assert (∀ f, files f = files (fs d) → (active_generation d = None → f = fs d) →
    cautious d (set_fs f d) ∧
    cautious d (set_canary (set_state Reverted <$> canary_generation d) (set_fs f d))) as Hgen.
  { intros f Hf Hn. split; split; try done; simpl; by destruct (canary_generation d). }
  destruct (active_generation d) as [parent|] eqn:Hp.
  - destruct (rollback_to_parent _ _ _ _ _ _ _ _ _) as [f [|]] eqn:Hr;
      apply rollback_files in Hr; intros [= <- <-]; by apply Hgen.
  - intros [= <- <-]. apply (Hgen (fs d)); done.
Qed.

Lemma record_moves (proc : disk) page success lat lim rate g g' r :
  record_canary_transaction (supervisor config) proc page success lat lim rate g = (g', r) →
  canary_moves g g'.
Proof.
  unfold record_canary_transaction. simpl.
  repeat case_match; intros [= <- _]; by split_and!.
Qed.

Lemma heartbeat_cautious env link named mb d d' r :
  process_heartbeat config env link named mb d = (d', r) → cautious d d'.
Proof.
  unfold process_heartbeat. destruct (canary_generation d) as [g|] eqn:Hg;
    [|by intros [= <- _]].
  case_match; [|by intros [= <- _]].
  destruct (trigger_instant_rollback _ _ _ _) as [d1 [|]] eqn:Hr; intros [= <- _];
    apply rollback_cautious in Hr; (etrans; [|exact Hr]);
    by eapply set_canary_cautious, canary_moves_state.
Qed.

Lemma report_cautious env link named success lat err d d' r :
  process_report config env link named success lat err d = (d', r) → cautious d d'.
Proof.
  unfold process_report. destruct (canary_generation d) as [g|] eqn:Hg; [|by intros [= <- _]].
  case_match; [|by intros [= <- _]].
  destruct (record_canary_transaction _ _ _ _ _ _ _ _) as [g' [|]] eqn:Hrec;
    apply record_moves in Hrec; [intros [= <- _]; by eapply set_canary_cautious|].
  destruct (trigger_instant_rollback _ _ _ _) as [d1 [|]] eqn:Hr; intros [= <- _];
    apply rollback_cautious in Hr; (etrans; [|exact Hr]); by eapply set_canary_cautious.
Qed.

Lemma process_cautious env c auth now msg link d :
  cautious d (h_state (process env c auth now msg link d)).
Proof.
  destruct msg; simpl;
    try (destruct auth; simpl; repeat case_match; simpl; first [done|apply reject_cautious]).
  - unfold process_ready. destruct (canary_generation d) as [g|] eqn:Hg;
      repeat case_match; simpl; try apply reject_cautious.
    eapply set_canary_cautious; [done|]. unfold mark_ready. case_match; by split_and!.
  - destruct auth; simpl; [apply reject_cautious|]. case_match; [apply reject_cautious|].
    destruct (process_heartbeat _ _ _ _ _ _) eqn:Hh. by eapply heartbeat_cautious.
  - destruct auth; simpl; [apply reject_cautious|]. case_match; [apply reject_cautious|].
    destruct (process_report _ _ _ _ _ _ _ _) eqn:Hh. by eapply report_cautious.
Qed.

(** C12: However many frames a peer sends, in whatever order and whatever they say, serving its connection never makes a generation durable, never replaces the staged or the active generation, never changes an installed file, and touches no link at all while there is no parent to roll back to. *)
Theorem serving_never_promotes (fuel : nat) (envs : nat → Env) (link : string) (c : IpcConnection)
    (auth : ConnectionAuthState) (now : N) (d : SupervisorDaemon) (s : served)
    (Hserve : serve_connection config fuel envs link c auth now d = Some s) :
  cautious d (served_state s).
Proof.
  revert envs c auth now d Hserve. induction fuel as [|fuel IH]; intros envs c auth now d; [done|].
  cbn [serve_connection]. destruct (recv _ now c) as [[c1 now1] [msg| | |]].
  - pose proof (process_cautious (envs 0%nat) c1 auth now1 msg link d) as Hp. revert Hp.
    generalize (process (envs 0%nat) c1 auth now1 msg link d) as h. intros h Hp.
    destruct (h_reply h) as [why|reply].
    + intros [= <-]. done.
    + intros Hs%IH. by etrans.
  - intros [= <-]. done.
  - intros [= <-]. apply reject_cautious.
  - intros [= <-]. done.
Qed.

Lemma process_later env c auth now msg link d :
  later c (h_conn (process env c auth now msg link d)).
Proof.
  destruct msg; simpl; try (destruct auth; simpl; repeat case_match; simpl; done).
  unfold process_ready. case_match; [done|]. case_match; [|done]. case_match; [done|].
  case_match. destruct (challenge_worker _ _ _ _ _ _) as [[c2 now2] r] eqn:Hch.
  apply challenge_later in Hch. by repeat case_match; simplify_eq.
Qed.

(** The peer sends, somewhere among its frames, the HMAC of a challenge of this daemon under its
    secret. *)
Definition answered (envs : nat → Env) (c : IpcConnection) : Prop :=
  ∃ i n gen, i ∈ inbox c ∧
    decode_line (content i)
    = Got (AuthResponse (SessionAuth.compute_hmac (shared_secret config)
             (message_to_sign gen (nonce_of (nonce_uuid (envs n)))))).

(** No frame arrives, and the peer does not close the connection, up to time [t]. *)
Definition silent_until (t : N) (c : IpcConnection) : Prop :=
  match inbox c with
  | i :: _ => (t < arrives i)%N
  | [] => ∀ e, closed_at c = Some e → (t < e)%N
  end.

Lemma silent_times_out deadline now c : silent_until (now + deadline) c →
  (recv (Some (now + deadline)%N) now c).2 = TimedOut.
Proof.
  unfold silent_until, recv, expires. destruct (inbox c) as [|i rest].
  - destruct (closed_at c) as [e|]; [|done]. intros Ht%(λ H, H e eq_refl).
    by rewrite !(proj2 (N.ltb_lt _ _)) by lia.
  - intros Ht. by rewrite !(proj2 (N.ltb_lt _ _)) by lia.
Qed.

(** Only a read without a deadline waits for ever, and only while the peer keeps an idle
    connection open. *)
Lemma recv_blocked dl now c c' now' : recv dl now c = (c', now', Blocked) →
  dl = None ∧ closed_at c = None.
Proof.
  unfold recv. destruct (inbox c) as [|i rest].
  - destruct (closed_at c), dl; repeat case_match; done.
  - destruct (expires _ _ _); [done|]. unfold decode_line. by repeat case_match.
Qed.

Lemma answered_later (envs : nat → Env) n c c' : later c c' →
  answered (λ i, envs (n + i)%nat) c' → answered envs c.
Proof.
  intros [[l Hl] _] (i & k & gen & Hi & Hd). exists i, (n + k)%nat, gen. split; [|done].
  rewrite Hl. apply elem_of_app. by right.
Qed.

Lemma turn_answered env c auth now msg link d (envs : nat → Env) :
  auth = Unauthenticated → h_auth (process env c auth now msg link d) ≠ Unauthenticated →
  envs 0%nat = env → answered envs c.
Proof.
  intros -> Hne <-. apply authenticates in Hne as (canary & pid & token & i & _ & _ & _ & Hi & Ha & _).
  exists i, 0%nat, (generation_id canary). split; [|by apply Ha].
  destruct (inbox c); [done|]. injection Hi as ->. by left.
Qed.

(** A connection left waiting was authenticated. *)
Lemma waiting_authenticated fuel envs link c auth now d d' :
  serve_connection config fuel envs link c auth now d = Some (Waiting d') →
  closed_at c = None ∧ (auth = Unauthenticated → answered envs c).
Proof.
  revert envs c auth now d. induction fuel as [|fuel IH]; intros envs c auth now d; [done|].
  cbn [serve_connection]. destruct (recv _ now c) as [[c1 now1] r] eqn:Hr.
  destruct r as [msg| | |]; try done.
  2: { apply recv_blocked in Hr as [Hdl Hc]. intros _. split; [done|]. intros ->. done. }
  apply recv_later in Hr as [Hl _].
  pose proof (process_later (envs 0%nat) c1 auth now1 msg link d) as Hp.
  pose proof (turn_answered (envs 0%nat) c1 auth now1 msg link d envs) as Ht. revert Hp Ht.
  generalize (process (envs 0%nat) c1 auth now1 msg link d) as h. intros h Hp Ht.
  destruct (h_reply h) as [|reply]; [done|]. intros Hs%IH.
  assert (later c match reply with
                  | Some m => (send m (h_now h) (h_conn h)).1 | None => h_conn h end) as Hlater.
  { etrans; [exact Hl|]. etrans; [exact Hp|]. destruct reply; [apply send_later|done]. }
  destruct Hs as [Hcl Ha]. split; [by rewrite <- (proj2 Hlater)|]. intros Hauth.
  destruct (decide (h_auth h = Unauthenticated)) as [E|E].
  - apply (answered_later envs 1 _ _ Hlater). by apply Ha.
  - apply (answered_later envs 0 _ _ Hl). by apply Ht.
Qed.

Lemma serving_ends fuel envs link c auth now d : (length (inbox c) < fuel)%nat →
  is_Some (serve_connection config fuel envs link c auth now d).
Proof.
  revert envs c auth now d. induction fuel as [|fuel IH]; intros envs c auth now d Hf; [lia|].
  cbn [serve_connection]. destruct (recv _ now c) as [[c1 now1] r] eqn:Hr.
  apply recv_later in Hr as [_ Hgot]. destruct r as [msg| | |]; try by eexists.
  specialize (Hgot msg eq_refl).
  pose proof (process_later (envs 0%nat) c1 auth now1 msg link d) as Hp. revert Hp.
  generalize (process (envs 0%nat) c1 auth now1 msg link d) as h.
  intros h [Hp%suffix_length _].
  destruct (h_reply h) as [why|reply]; [by eexists|]. apply IH.
  destruct reply as [m|]; [|lia].
  destruct (send_later m (h_now h) (h_conn h)) as [Hm%suffix_length _]. lia.
Qed.

(** C32: Serving a connection comes to an end after at most one turn more than the frames the peer sends.  It is left waiting for frames that never come only while the peer keeps the connection open, and only once the connection is authenticated: one that was not has answered a challenge of this daemon under its secret.  An unauthenticated peer that is silent for the readiness deadline is cut off: the loop breaks, and the reason is recorded when a log is open. *)
Theorem serving_terminates (fuel : nat) (envs : nat → Env) (link : string) (c : IpcConnection)
    (auth : ConnectionAuthState) (now : N) (d : SupervisorDaemon)
    (Hfuel : (length (inbox c) < fuel)%nat) :
  ∃ s, serve_connection config fuel envs link c auth now d = Some s ∧
  (∀ d', s = Waiting d' → closed_at c = None ∧ (auth = Unauthenticated → answered envs c)) ∧
  (auth = Unauthenticated → silent_until (now + seconds 10) c →
   s = Broken (reject (envs 0%nat) "connection silent past the readiness deadline" d)).
Proof.
  destruct (serving_ends fuel envs link c auth now d Hfuel) as [s Hs]. exists s. split_and!.
  - done.
  - intros d' ->. by eapply waiting_authenticated.
  - intros -> Hq%silent_times_out. destruct fuel as [|fuel]; [done|]. cbn [serve_connection] in Hs.
    destruct (recv _ now c) as [[c1 now1] r] eqn:Hr. unfold READINESS_DEADLINE in Hr.
    rewrite bool_decide_true in Hr by done. cbn [snd] in Hq. subst r.
    by injection Hs as <-.
Qed.
End Props.

(** ** Examples *)

Module DaemonExample.
#[global] Instance codec : WorkerCodec := {|
  decode_worker := λ text,
    if bool_decide (text = "ready") then inr (ReadyMsg "g1" 7 "" 1)
    else if bool_decide (text = "heavy") then inr (Heartbeat "g1" 0 0 999)
    else if bool_decide (text = "foreign") then inr (CanaryReport "g2" 1 true 5 None)
    else match strip_prefix "auth:" text with
         | Some r => inr (AuthResponse r)
         | None => inl "expected value at line 1 column 1"
         end;
  debug_worker := λ _, "message";
  debug_duration := λ n, dec n |}.

Definition config : SupervisorConfig :=
  {| rsi_root := "/r"; config_socket_path := "/r/supervisor.sock";
     config_memory_limit_mb := 100; canary_target := 2; config_max_latency_us := 1000;
     max_error_rate := f64_of_N 0; shared_secret := "k" |}.
Definition env : Env :=
  {| nonce_uuid := "u"; log_fate := WriteOk; now_ms := 1; swap_fate := AllSucceed;
     sock_fate := AllSucceed; swap_uuid := "a"; sock_uuid := "b"; proc := ∅;
     page_size_kb := 4 |}.
Definition answer : string :=
  SessionAuth.compute_hmac "k" (message_to_sign "g1" "challenge-u").
Definition frame (t : N) (text : string) : incoming :=
  {| arrives := t; lag := 0; content := Line text |}.
Definition conn (texts : list string) : IpcConnection :=
  new_connection (frame 5 <$> texts) (Some 9%N) None.
Definition daemon : SupervisorDaemon :=
  {| active_generation := None; canary_generation := Some SupervisorExample.g1;
     observation_log := None; fs := SupervisorExample.fs1; log_disk := ∅ |}.
End DaemonExample.
Import DaemonExample Checksum PlainJson.

Lemma authentication_sound_witness :
  h_auth (process_worker_message config env (conn ["auth:" +:+ answer]) Unauthenticated 0
            (ReadyMsg "g1" 7 "" 1) "/r/active.sock" daemon) = Authenticated "g1" 7 1.
Proof.
  destruct (authentication_sound config env (conn ["auth:" +:+ answer]) Unauthenticated 0
    (ReadyMsg "g1" 7 "" 1) "/r/active.sock" daemon) as (canary & pid & token & i & H).
  - vm_compute. discriminate.
  - destruct H as (_ & Hcan & Hmsg & _ & _ & Hauth & _).
    injection Hcan as <-. injection Hmsg as <- _. exact Hauth.
Defined.

Lemma refused_frame_inert_witness :
  h_state (process_worker_message config env (conn []) (Authenticated "g1" 7 1) 0
             (CanaryReport "g2" 1 true 5 None) "/r/active.sock" daemon) = daemon.
Proof.
  destruct (refused_frame_inert config env (conn []) (Authenticated "g1" 7 1) 0
    (CanaryReport "g2" 1 true 5 None) "/r/active.sock" daemon) as [(why & _ & ->) _].
  - exists "g2". by split.
  - reflexivity.
Defined.

(** The worker authenticates and then reports too much memory: it is reverted. *)
Lemma serving_never_promotes_witness :
  ∃ s, serve_connection config 4 (λ _, env) "/r/active.sock"
         (conn ["ready"; "auth:" +:+ answer; "heavy"]) Unauthenticated 0 daemon = Some s ∧
  (state <$> canary_generation (served_state s)) = Some Reverted ∧
  cautious daemon (served_state s).
Proof.
  destruct (serve_connection config 4 (λ _, env) "/r/active.sock"
         (conn ["ready"; "auth:" +:+ answer; "heavy"]) Unauthenticated 0 daemon) as [s|] eqn:Hs;
    [|vm_compute in Hs; discriminate].
  exists s. split; [done|]. split.
  - vm_compute in Hs. by injection Hs as <-.
  - exact (serving_never_promotes config 4 (λ _, env) "/r/active.sock" _ Unauthenticated 0
             daemon s Hs).
Defined.

Definition ends_after (texts : list string) (t : option N) : option served :=
  serve_connection config 4 (λ _, env) "/r/active.sock"
    (new_connection (frame 5 <$> texts) t None) Unauthenticated 0 daemon.

(** A peer that answers the challenge may then stay silent; one that does not is cut off. *)
Lemma serving_terminates_witness :
  (∃ s, ends_after ["ready"; "auth:" +:+ answer] None = Some s ∧
     s = Waiting (served_state s) ∧
     answered config (λ _, env) (new_connection (frame 5 <$> ["ready"; "auth:" +:+ answer]) None None))
  ∧ ends_after [] None = Some (Broken daemon).
Proof.
  split.
  - destruct (serving_terminates config 4 (λ _, env) "/r/active.sock"
      (new_connection (frame 5 <$> ["ready"; "auth:" +:+ answer]) None None) Unauthenticated 0 daemon)
      as (s & Hs & Hw & _); [vm_compute; lia|].
    exists s. split; [exact Hs|].
    assert (s = Waiting (served_state s)) as E
      by (vm_compute in Hs; injection Hs as <-; reflexivity).
    split; [exact E|]. exact (proj2 (Hw _ E) eq_refl).
  - destruct (serving_terminates config 4 (λ _, env) "/r/active.sock"
      (new_connection [] None None) Unauthenticated 0 daemon) as (s & Hs & _ & Hq);
      [vm_compute; lia|].
    unfold ends_after. cbn [fmap list_fmap]. rewrite Hs, (Hq eq_refl); [reflexivity|].
    by intros e [=].
Defined.

(** The decoder's error text may quote what the worker sent, so a worker can have an undecodable
    frame classified as a closed connection. *)
Example undecodable_as_closed :
  kind (recv_failure ("Failed to deserialize IPC message: " +:+
    "unknown variant `closed by peer`, expected one of `Ready`, `Heartbeat`")) = Closed.
Proof. reflexivity. Qed.
