(* ===== verification/ObservationLogProps.v ===== *)
(** What the observation log guarantees: the parser accepts exactly well-formed logs, a sealed
    log commits its contents, and the writer refines an abstract append-only list of entries,
    also across a crash and a restart. *)

From S2P Require Import Prelude RustStd Digest Json Observation ObservationLog.

(** ** Lines *)

Lemma unlines_app ls ls' : unlines (ls ++ ls') = unlines ls +:+ unlines ls'.
Proof.
  induction ls as [|l ls IH]; simpl; [done|]. rewrite IH. by rewrite <- str_app_assoc.
Qed.

Lemma split_lines_line l s :
  contains_byte newline l = false →
  split_lines (l +:+ String newline s) = (l :: (split_lines s).1, (split_lines s).2).
Proof.
  induction l as [|b l IH]; intros Hl; simpl in *.
  - by destruct (split_lines s).
  - apply orb_false_elim in Hl as [Hb Hl]. rewrite (IH Hl). by rewrite Hb.
Qed.

Lemma split_lines_tail t : contains_byte newline t = false → split_lines t = ([], t).
Proof.
  induction t as [|b t IH]; intros Ht; simpl in *; [done|].
  apply orb_false_elim in Ht as [Hb Ht]. by rewrite (IH Ht), Hb.
Qed.

Lemma split_unlines ls t :
  Forall (λ l, contains_byte newline l = false) ls → contains_byte newline t = false →
  split_lines (unlines ls +:+ t) = (ls, t).
Proof.
  intros Hls Ht. induction Hls as [|l ls Hl Hls IH]; simpl.
  - by apply split_lines_tail.
  - rewrite <- str_app_assoc. simpl. by rewrite (split_lines_line _ _ Hl), IH.
Qed.

Lemma split_lines_text s ls t : split_lines s = (ls, t) → s = unlines ls +:+ t.
Proof.
  revert ls t; induction s as [|b s IH]; intros ls t; simpl; [by intros [= <- <-]|].
  destruct (split_lines s) as [ls' t'] eqn:E. rewrite (IH _ _ eq_refl).
  case_bool_decide as Hb; [by intros [= <- <-]; subst|].
  destruct ls' as [|l ls']; by intros [= <- <-].
Qed.

Lemma unlines_length_snoc ls l :
  String.length (unlines (ls ++ [l])) = (String.length (unlines ls) + String.length l + 1)%nat.
Proof. rewrite unlines_app, str_app_length. simpl. rewrite str_app_length. simpl. lia. Qed.

Lemma split_lines_clean s ls t :
  split_lines s = (ls, t) →
  Forall (λ l, contains_byte newline l = false) ls ∧ contains_byte newline t = false.
Proof.
  revert ls t; induction s as [|b s IH]; intros ls t; simpl; [by intros [= <- <-]|].
  destruct (split_lines s) as [ls' t'] eqn:E. destruct (IH _ _ eq_refl) as [Hls Ht].
  case_bool_decide as Hb; [intros [= <- <-]; by split; [constructor|]|].
  destruct Hls as [|l ls' Hl Hls]; intros [= <- <-]; simpl; rewrite ?bool_decide_false by done;
    [done|]. split; [|done]. constructor; [|done]. simpl. by rewrite bool_decide_false.
Qed.

Lemma substring_clean c k s :
  contains_byte c s = false → contains_byte c (String.substring 0 k s) = false.
Proof.
  revert k; induction s as [|b s IH]; intros [|k]; simpl; try done.
  intros [-> Hs]%orb_false_elim. by apply IH.
Qed.

Section LogProps.
Context `{Sha256} `{JsonStr} `{!JsonStrSpec}.
Context (from_slice : string → option LogRecord).

Lemma record_line_clean r : contains_byte newline (record_line r) = false.
Proof. apply canonical_line. Qed.

(** ** What the header checks establish *)

Record header_wf (h : LogHeader) : Prop := {
  hwf_version : log_version h = OBSERVATION_LOG_VERSION;
  hwf_generation : trim_is_empty (h_generation_id h) = false;
  hwf_workload : is_hex_digest (h_workload_digest h) = true;
  hwf_executable : is_hex_digest (h_candidate_executable_digest h) = true;
}.

Lemma validate_header_ok h : validate_header h = Ok tt ↔ header_wf h.
Proof.
  unfold validate_header. split.
  - intros. run_guards. by constructor.
  - intros [-> -> -> ->]. done.
Qed.

Definition bound (h : LogHeader) (o : CanaryObservationV2) : Prop :=
  generation_id o = h_generation_id h ∧ workload_digest o = h_workload_digest h
  ∧ candidate_executable_digest o = h_candidate_executable_digest h.

Lemma check_bindings_ok h o : check_bindings h o = Ok tt ↔ bound h o.
Proof.
  unfold check_bindings, bound. split.
  - intros. run_guards. done.
  - intros (-> & -> & ->). by rewrite !bool_decide_true.
Qed.

(** ** Soundness of the parser *)

(** The invariant of the parser's loop after the lines [ls]. *)
Record parse_inv (ls : list string) (st : ParseState) : Prop := {
  pi_end : complete_end (parsed st) = String.length (unlines ls);
  pi_lines : line_no st = length ls;
  pi_header : ∀ h, p_header (parsed st) = Some h → header_wf h;
  pi_obs : ∀ o, o ∈ p_observations (parsed st) →
    observation_wf o ∧ ∃ h, p_header (parsed st) = Some h ∧ bound h o;
  pi_nodup : NoDup (observation_id <$> p_observations (parsed st));
  pi_seen : ∀ o, o ∈ p_observations (parsed st) →
    seen st !! observation_id o = Some (digest_hex o);
  pi_seen_dom : ∀ id, is_Some (seen st !! id) →
    id ∈ observation_id <$> p_observations (parsed st);
  pi_seal : ∀ s start, p_seal (parsed st) = Some (s, start) →
    ∃ ls', ls = ls' ++ [record_line (RSeal s)] ∧ start = String.length (unlines ls');
  pi_header_first : ls ≠ [] → is_Some (p_header (parsed st));
  pi_tail : partial_tail (parsed st) = false;
  pi_start : ls = [] → st = parse_init;
}.

Lemma parse_inv_init : parse_inv [] parse_init.
Proof.
  constructor; simpl; try done.
  - by intros ? ?%not_elem_of_nil.
  - constructor.
  - by intros ? ?%not_elem_of_nil.
  - by intros id [].
Qed.

(** A line the parser accepted is the canonical text of its record. *)
Lemma parse_line_ok st line st' :
  parse_line from_slice st line = Ok st' →
  ∃ r p s, from_slice line = Some r ∧ line = record_line r
    ∧ p_seal (parsed st) = None
    ∧ parse_record st (S (line_no st)) (complete_end (parsed st)) r = Ok (p, s)
    ∧ st' = {| parsed := with_end p (complete_end (parsed st) + String.length line + 1);
               seen := s; line_no := S (line_no st) |}.
Proof.
  unfold parse_line. intros. run_guards. destruct x0 as [p s]. run_guards.
  exists x, p, s. split_and!; try done.
  - unfold to_line in *. conv str_app_inj_r. done.
  - destruct (p_seal (parsed st)); [|done]. by destruct Heqb.
Qed.

(** What [parse_record] does to the loop's variables. *)
Inductive record_effect (st : ParseState) (n start : nat) :
    LogRecord → Parsed → gmap string string → Prop :=
  | eff_header h : n = 1%nat → header_wf h →
      record_effect st n start (RHeader h) (with_header (parsed st) h) (seen st)
  | eff_new o h :
      p_header (parsed st) = Some h → observation_wf o → bound h o →
      seen st !! observation_id o = None →
      record_effect st n start
        (RObservation {| observation := o; observation_digest := digest_hex o |})
        (push_observation (parsed st) o) (<[observation_id o := digest_hex o]> (seen st))
  | eff_again o h :
      p_header (parsed st) = Some h → observation_wf o → bound h o →
      seen st !! observation_id o = Some (digest_hex o) →
      record_effect st n start
        (RObservation {| observation := o; observation_digest := digest_hex o |})
        (parsed st) (seen st)
  | eff_rejection r :
      is_Some (p_header (parsed st)) →
      record_effect st n start (RRejection r) (push_rejection (parsed st) r) (seen st)
  | eff_seal s :
      is_Some (p_header (parsed st)) →
      record_effect st n start (RSeal s) (with_seal (parsed st) s start) (seen st).

Lemma not_none {A} (o : option A) : o ≠ None → is_Some o.
Proof. by destruct o. Qed.

Lemma parse_record_ok st n start r p s :
  parse_record st n start r = Ok (p, s) ↔ record_effect st n start r p s.
Proof.
  split.
  - destruct r as [h|[o d]|r|sl]; simpl; intros.
    + run_guards. apply Nat.eqb_eq in Heqb. conv validate_header_ok. by constructor.
    + run_guards. conv observation_validate_ok. conv check_bindings_ok.
      destruct (seen st !! observation_id o) eqn:Es; run_guards; by econstructor.
    + run_guards. constructor. by apply not_none.
    + run_guards. constructor. by apply not_none.
  - destruct 1 as [h -> Hh|o h Hh Ho Hb Hs|o h Hh Ho Hb Hs|r [h Hh]|sl [h Hh]]; simpl.
    + apply validate_header_ok in Hh as ->. done.
    + rewrite Hh, (proj2 (observation_validate_ok o) Ho). simpl. rewrite bool_decide_true by done. simpl.
      rewrite (proj2 (check_bindings_ok h o) Hb). simpl. by rewrite Hs.
    + rewrite Hh, (proj2 (observation_validate_ok o) Ho). simpl. rewrite bool_decide_true by done. simpl.
      rewrite (proj2 (check_bindings_ok h o) Hb). simpl. rewrite Hs.
      by rewrite bool_decide_true.
    + by rewrite Hh, bool_decide_false.
    + by rewrite Hh, bool_decide_false.
Qed.

Lemma parse_line_inv ls st line st' :
  parse_inv ls st → parse_line from_slice st line = Ok st' → parse_inv (ls ++ [line]) st'.
Proof.
  intros [He Hn Hh Ho Hnd Hs Hd Hsl Hf Ht Hi].
  intros (r & p & s & _ & -> & Hnone & Heff%parse_record_ok & ->)%parse_line_ok.
  assert (Hend : (complete_end (parsed st) + String.length (record_line r) + 1)%nat
                 = String.length (unlines (ls ++ [record_line r])))
    by (rewrite He, unlines_length_snoc; lia).
  assert (Hlen : S (line_no st) = length (ls ++ [record_line r]))
    by (rewrite Hn, length_app; simpl; lia).
  assert (Hne : ls ++ [record_line r] ≠ []) by (by destruct ls).
  destruct Heff as [h H1' Hwf|o h Hh' Hwf Hb Hnew|o h Hh' Hwf Hb Hold|rj Hsome|sl Hsome].
  - destruct ls as [|l ls]; [|simpl in *; lia]. rewrite (Hi eq_refl) in *.
    constructor; simpl in *; try done.
    + by intros h' [= <-].
    + by intros o ?%not_elem_of_nil.
  - constructor; simpl; try done; try by intros; congruence.
    + intros o' [Ho'| ->%list_elem_of_singleton]%elem_of_app; [by apply Ho|eauto].
    + rewrite fmap_app. apply NoDup_app. split_and!; [done| |by apply NoDup_singleton].
      intros id (o' & -> & Hin)%list_elem_of_fmap Hin'%list_elem_of_singleton.
      rewrite <- Hin', (Hs _ Hin) in Hnew. done.
    + intros o' [Ho'| ->%list_elem_of_singleton]%elem_of_app; [|by rewrite lookup_insert_eq].
      rewrite lookup_insert_ne; [by apply Hs|]. intros Heq. rewrite Heq, (Hs _ Ho') in Hnew. done.
    + intros id. rewrite fmap_app, elem_of_app.
      destruct (decide (observation_id o = id)) as [<-|]; [right; simpl; by apply list_elem_of_singleton|].
      rewrite lookup_insert_ne by done. left. by apply Hd.
  - constructor; simpl; try done; try by intros; congruence.
  - constructor; simpl; try done; by intros; congruence.
  - constructor; simpl; try done; try by intros; congruence.
    intros s' start [= <- <-]. exists ls. split; [done|]. by rewrite He.
Qed.

Lemma parse_lines_inv ls0 st lines st' :
  parse_inv ls0 st → parse_lines from_slice st lines = Ok st' → parse_inv (ls0 ++ lines) st'.
Proof.
  revert ls0 st; induction lines as [|l lines IH]; intros ls0 st Hinv; simpl.
  - intros [= <-]. by rewrite app_nil_r.
  - intros (st1 & Hl & Hrest)%bind_ok.
    rewrite (cons_middle l ls0 lines), (app_assoc ls0 [l] lines).
    eapply IH; [|exact Hrest]. by eapply parse_line_inv.
Qed.

(** Everything the parser promises about a log it accepts. *)
Lemma parse_log_inv bytes p :
  parse_log from_slice bytes = Ok p →
  ∃ lines tail st, split_lines bytes = (lines, tail) ∧ parse_inv lines st
    ∧ parse_lines from_slice parse_init lines = Ok st
    ∧ p = with_tail (parsed st) (negb (bool_decide (tail = ""))).
Proof.
  unfold parse_log. destruct (split_lines bytes) as [lines tail] eqn:E.
  intros (st & Hst & Hp)%bind_ok. exists lines, tail, st.
  split_and!; try done; [exact (parse_lines_inv _ _ _ _ parse_inv_init Hst)|].
  destruct (_ && _) in Hp; run_guards. done.
Qed.

(** The parts of a log that verifies: the lines before the seal, and the parser's state after
    them. *)
Record sealed_text (bytes : string) (s : SealedObservationLog) (ls : list string)
    (st : ParseState) : Prop := {
  st_bytes : bytes = unlines ls +:+ to_line (RSeal (s_seal s));
  st_clean : Forall (λ l, contains_byte newline l = false) ls;
  st_inv : parse_inv ls st;
  st_parse : parse_lines from_slice parse_init ls = Ok st;
  st_header : p_header (parsed st) = Some (s_header s);
  st_observations : p_observations (parsed st) = s_observations s;
  st_rejections : p_rejections (parsed st) = s_rejections s;
  st_digest : log_digest (s_seal s) = log_digest_of (unlines ls);
  st_count : observation_count (s_seal s) = N.of_nat (length (s_observations s));
  st_qualifying : qualifying_count (s_seal s) = count_qualifying (s_observations s);
}.

Lemma parse_lines_app st ls ls' st' :
  parse_lines from_slice st (ls ++ ls') = Ok st' ↔
  ∃ st1, parse_lines from_slice st ls = Ok st1 ∧ parse_lines from_slice st1 ls' = Ok st'.
Proof.
  revert st; induction ls as [|l ls IH]; intros st; simpl.
  - split; [eauto|]. by intros (? & [= ->] & ?).
  - rewrite bind_ok. setoid_rewrite bind_ok. setoid_rewrite IH. naive_solver.
Qed.

(** The state of the parser before the seal it found. *)
Lemma parse_before_seal st0 ls st s start :
  parse_lines from_slice st0 (ls ++ [record_line (RSeal s)]) = Ok st →
  p_seal (parsed st) = Some (s, start) →
  ∃ st1, parse_lines from_slice st0 ls = Ok st1 ∧ p_header (parsed st) = p_header (parsed st1)
    ∧ p_observations (parsed st) = p_observations (parsed st1)
    ∧ p_rejections (parsed st) = p_rejections (parsed st1).
Proof.
  intros (st1 & Hls & Hl)%parse_lines_app Hseal. exists st1. split; [done|].
  simpl in Hl. apply bind_ok in Hl as (st2 & Hl & [= ->]).
  apply parse_line_ok in Hl as (r & p & sn & _ & Hline & Hnone & Heff%parse_record_ok & ->).
  destruct Heff; simpl in *; try congruence; done.
Qed.

Lemma verify_bytes_text bytes s :
  verify_bytes from_slice bytes = Ok s → ∃ ls st, sealed_text bytes s ls st.
Proof.
  unfold verify_bytes. intros. run_guards. destruct x1 as [sl start]. run_guards.
  destruct (parse_log_inv _ _ H2) as (lines & tail & st & Hsplit & Hinv & Hst & ->).
  simpl in *. destruct (split_lines_clean _ _ _ Hsplit) as [Hclean _].
  apply split_lines_text in Hsplit as ->.
  destruct (pi_seal _ _ Hinv _ _ H4) as (ls & -> & ->).
  destruct (parse_before_seal _ _ _ _ _ Hst H4) as (st1 & Hst1 & Hh & Ho & Hr).
  apply Forall_app in Hclean as [Hclean _].
  assert (tail = "") as -> by (by guards).
  exists ls, st1. constructor; simpl; try done; try congruence.
  - rewrite unlines_app, str_app_nil_r. done.
  - exact (parse_lines_inv _ _ _ _ parse_inv_init Hst1).
  - rewrite Heqb0. f_equal. rewrite unlines_app, <- !str_app_assoc. apply substring_app.
Qed.

(** ** The abstract log

    A log is a header and a list of entries.  [text] is what it looks like on disk. *)

Inductive entry := EObs (o : CanaryObservationV2) | ERej (r : LogRejection).

Definition entry_record (e : entry) : LogRecord :=
  match e with
  | EObs o => RObservation {| observation := o; observation_digest := digest_hex o |}
  | ERej r => RRejection r
  end.

Definition obs_of (es : list entry) : list CanaryObservationV2 :=
  omap (λ e, match e with EObs o => Some o | ERej _ => None end) es.
Definition rej_of (es : list entry) : list LogRejection :=
  omap (λ e, match e with ERej r => Some r | EObs _ => None end) es.

Definition entry_lines (es : list entry) : list string :=
  (λ e, record_line (entry_record e)) <$> es.

Definition text (h : LogHeader) (es : list entry) : string :=
  unlines (record_line (RHeader h) :: entry_lines es).

(** The deserializer reads a record back from its canonical text. *)
Definition reads_back (r : LogRecord) : Prop := from_slice (record_line r) = Some r.

Record log_wf (h : LogHeader) (es : list entry) : Prop := {
  lw_header : header_wf h;
  lw_obs : Forall (λ o, observation_wf o ∧ bound h o) (obs_of es);
  lw_nodup : NoDup (observation_id <$> obs_of es);
  lw_reads : Forall reads_back (RHeader h :: (entry_record <$> es));
}.

Lemma lines_clean h es :
  Forall (λ l, contains_byte newline l = false) (record_line (RHeader h) :: entry_lines es).
Proof.
  constructor; [apply record_line_clean|]. apply Forall_fmap, Forall_true.
  intros. apply record_line_clean.
Qed.

Lemma text_snoc h es e : text h (es ++ [e]) = text h es +:+ to_line (entry_record e).
Proof.
  unfold text, entry_lines. rewrite fmap_app, app_comm_cons, unlines_app. done.
Qed.

Lemma parse_line_back st r p s :
  reads_back r → p_seal (parsed st) = None →
  record_effect st (S (line_no st)) (complete_end (parsed st)) r p s →
  parse_line from_slice st (record_line r) =
    Ok {| parsed := with_end p (complete_end (parsed st) + String.length (record_line r) + 1);
          seen := s; line_no := S (line_no st) |}.
Proof.
  intros Hr Hn Heff%parse_record_ok. unfold parse_line. rewrite Hn, Hr. simpl.
  rewrite bool_decide_true by done. simpl. by rewrite Heff.
Qed.

Lemma parse_entries h es st :
  Forall reads_back (entry_record <$> es) →
  p_header (parsed st) = Some h → p_seal (parsed st) = None →
  Forall (λ o, observation_wf o ∧ bound h o ∧ seen st !! observation_id o = None) (obs_of es) →
  NoDup (observation_id <$> obs_of es) →
  ∃ st', parse_lines from_slice st (entry_lines es) = Ok st'
    ∧ p_header (parsed st') = Some h ∧ p_seal (parsed st') = None
    ∧ p_observations (parsed st') = p_observations (parsed st) ++ obs_of es
    ∧ p_rejections (parsed st') = p_rejections (parsed st) ++ rej_of es.
Proof.
  revert st; induction es as [|e es IH]; intros st Hrb Hh Hs Ho Hnd.
  { exists st. cbn. by rewrite !app_nil_r. }
  cbn in Hrb. apply Forall_cons in Hrb as [Hre Hrb]. cbn [entry_lines fmap list_fmap parse_lines].
  destruct e as [o|r].
  - cbn in Ho, Hnd. apply Forall_cons in Ho as [(Hwf & Hb & Hnew) Ho].
    apply NoDup_cons in Hnd as [Hnin Hnd].
    erewrite parse_line_back; [|done|done|by eapply eff_new]. cbn [mbind result_bind].
    edestruct (IH) as (st' & Hp & Hh' & Hs' & Hobs & Hrej); [done|..]; cycle 4.
    + exists st'. split; [exact Hp|]. split_and!; [done|done| |done].
      rewrite Hobs. simpl. by rewrite <- app_assoc.
    + done.
    + done.
    + rewrite Forall_forall in Ho |- *. intros o' Hin. destruct (Ho o' Hin) as (? & ? & ?).
      simpl. split_and!; [done..|].
      rewrite lookup_insert_ne; [done|]. intros Heq. apply Hnin. rewrite Heq.
      by apply list_elem_of_fmap_2.
    + done.
  - erewrite parse_line_back; [|done|done|by eapply eff_rejection]. cbn [mbind result_bind].
    edestruct (IH) as (st' & Hp & Hh' & Hs' & Hobs & Hrej); [done|..]; cycle 4.
    + exists st'. split; [exact Hp|]. split_and!; [done|done|done|].
      rewrite Hrej. simpl. by rewrite <- app_assoc.
    + done.
    + done.
    + done.
    + done.
Qed.

Lemma parse_text h es tail :
  log_wf h es → contains_byte newline tail = false →
  parse_log from_slice (text h es +:+ tail) =
    Ok {| p_header := Some h; p_observations := obs_of es; p_rejections := rej_of es;
          p_seal := None; complete_end := String.length (text h es);
          partial_tail := negb (bool_decide (tail = "")) |}.
Proof.
  intros [Hh Ho Hnd Hrb] Htail. unfold parse_log.
  unfold text. rewrite split_unlines by (done || apply lines_clean).
  apply Forall_cons in Hrb as [Hrh Hrb]. cbn [parse_lines].
  erewrite (parse_line_back parse_init (RHeader h)); [|done|done|by apply eff_header].
  cbn [mbind result_bind].
  match goal with |- context [parse_lines from_slice ?st _] => set (st1 := st) end.
  destruct (parse_entries h es st1) as (st' & Hp & Hh' & Hs' & Hobs & Hrej); [done..| |done|].
  { eapply Forall_impl; [exact Ho|]. simpl. intros o [? ?]. by split_and!. }
  rewrite Hp. simpl. rewrite Hh'. simpl.
  assert (Hinv : parse_inv (record_line (RHeader h) :: entry_lines es) st').
  { apply (parse_lines_inv [] parse_init); [apply parse_inv_init|]. simpl.
    erewrite (parse_line_back parse_init (RHeader h)); [|done|done|by apply eff_header].
    exact Hp. }
  pose proof (pi_end _ _ Hinv) as He. simpl in He. rewrite <- He. unfold with_tail. by rewrite Hh', Hs', Hobs, Hrej.
Qed.

(** ** The writer refines the abstract log *)

Definition abs_append (h : LogHeader) (es : list entry) (o : CanaryObservationV2)
    : result (list entry * AppendOutcome) :=
  _ ← validate o; _ ← check_bindings h o;
  match list_find (λ o', observation_id o' = observation_id o) (obs_of es) with
  | Some (_, o') =>
    if bool_decide (digest_hex o' = digest_hex o) then Ok (es, Idempotent)
    else fail "observation id {} conflicts with a different record" [observation_id o]
  | None => Ok (es ++ [EObs o], Appended)
  end.

Record log_rep (d : disk) (w : ObservationLogWriter) (es : list entry) : Prop := {
  lr_disk : d !! w_path w = Some (text (w_header w) es);
  lr_wf : log_wf (w_header w) es;
  lr_seen : ∀ o, o ∈ obs_of es → w_seen w !! observation_id o = Some (digest_hex o);
  lr_dom : ∀ id, is_Some (w_seen w !! id) → id ∈ observation_id <$> obs_of es;
}.

Lemma obs_of_snoc es o : obs_of (es ++ [EObs o]) = obs_of es ++ [o].
Proof. unfold obs_of. by rewrite omap_app. Qed.
Lemma obs_of_snoc_rej es r : obs_of (es ++ [ERej r]) = obs_of es.
Proof. unfold obs_of. rewrite omap_app. simpl. by rewrite app_nil_r. Qed.

Lemma log_wf_rej h es r :
  log_wf h es → reads_back (RRejection r) → log_wf h (es ++ [ERej r]).
Proof.
  intros [? ? ? Hrb] Hr. constructor; rewrite ?obs_of_snoc_rej; try done.
  rewrite fmap_app, app_comm_cons. apply Forall_app. split; [done|]. by apply Forall_singleton.
Qed.

Lemma log_wf_obs h es o :
  log_wf h es → observation_wf o → bound h o → observation_id o ∉ observation_id <$> obs_of es →
  reads_back (entry_record (EObs o)) → log_wf h (es ++ [EObs o]).
Proof.
  intros [? ? ? Hrb] Hwf Hb Hnin Hr. constructor; rewrite ?obs_of_snoc; try done.
  - apply Forall_app. split; [done|]. by apply Forall_singleton.
  - rewrite fmap_app. apply NoDup_app. split_and!; [done| |apply NoDup_singleton].
    intros id Hin Hid%list_elem_of_singleton. simpl in Hid. by subst.
  - rewrite fmap_app, app_comm_cons. apply Forall_app. split; [done|]. by apply Forall_singleton.
Qed.

(** What an append does to the disk, for every fate of the write. *)
Lemma append_refines d w es o fate :
  log_rep d w es →
  match abs_append (w_header w) es o with
  | Err e => append_observation fate w o d = (d, Err e)
  | Ok (es', Idempotent) =>
    es' = es ∧ append_observation fate w o d = (d, Ok (w, Idempotent))
  | Ok (es', Appended) =>
    let line := to_line (entry_record (EObs o)) in
    observation_wf o ∧ bound (w_header w) o ∧ es' = es ++ [EObs o]
    ∧ (observation_id o ∉ observation_id <$> obs_of es)
    ∧ (append_observation fate w o d =
      match fate with
      | WriteOk => (append_bytes (w_path w) line d,
          Ok ({| w_path := w_path w; w_header := w_header w;
                 w_seen := <[observation_id o := digest_hex o]> (w_seen w) |}, Appended))
      | WriteFails k => (append_bytes (w_path w) (String.substring 0 k line) d,
          fail "cannot append to observation log: {}" [])
      | SyncFails => (append_bytes (w_path w) line d,
          fail "cannot sync observation log: {}" [])
      end)
  end.
Proof.
  intros [Hd Hwf Hs Hdom]. unfold abs_append, append_observation.
  cbn [mlift mbind M_bind result_bind].
  destruct (validate o) as [[]|e] eqn:Ev; [|done]. cbn [mlift mbind M_bind result_bind].
  destruct (check_bindings (w_header w) o) as [[]|e] eqn:Eb; [|done].
  cbn [mlift mbind M_bind result_bind].
  destruct (list_find _ _) as [[i o']|] eqn:Ef.
  - apply list_find_Some in Ef as (Hl & Hid & _). apply list_elem_of_lookup_2 in Hl.
    rewrite <- Hid, (Hs _ Hl). by case_bool_decide.
  - apply list_find_None in Ef.
    assert (Hnin : observation_id o ∉ observation_id <$> obs_of es).
    { intros (o' & Heq & Hin)%list_elem_of_fmap. rewrite Forall_forall in Ef.
      by apply (Ef _ Hin). }
    assert (w_seen w !! observation_id o = None) as ->.
    { apply eq_None_not_Some. intros Hsome. by apply Hnin, Hdom. }
    split_and!; [by apply observation_validate_ok|by apply check_bindings_ok|done|done|]. by destruct fate.
Qed.

Lemma create_refines d path h :
  header_wf h → d !! path = None → reads_back (RHeader h) →
  ∃ d' w, create WriteOk path h d = (d', Ok w) ∧ w_path w = path ∧ w_header w = h
    ∧ log_rep d' w [] ∧ (∀ q, q ≠ path → d' !! q = d !! q).
Proof.
  intros Hh Hd Hrb. unfold create.
  pose proof (proj2 (validate_header_ok h) Hh) as ->.
  unfold mlift, mget, mmodify, mbind, M_bind. rewrite Hd. cbn. eexists _, _. split; [done|]. split_and!; [done|done| |].
  - constructor; simpl.
    + unfold append_bytes. by rewrite !lookup_insert_eq.
    + constructor; cbn; [done|constructor|constructor|by apply Forall_singleton].
    + by intros o ?%not_elem_of_nil.
    + by intros id [].
  - intros q Hq. unfold append_bytes. by rewrite !lookup_insert_ne.
Qed.

Lemma log_rep_snoc d w es o :
  log_rep d w es → observation_wf o → bound (w_header w) o →
  observation_id o ∉ observation_id <$> obs_of es → reads_back (entry_record (EObs o)) →
  log_rep (append_bytes (w_path w) (to_line (entry_record (EObs o))) d)
    {| w_path := w_path w; w_header := w_header w;
       w_seen := <[observation_id o := digest_hex o]> (w_seen w) |} (es ++ [EObs o]).
Proof.
  intros [Hd Hwf Hs Hdom] Ho Hb Hnin Hr.
  constructor; cbn [w_path w_header w_seen]; rewrite ?obs_of_snoc, ?fmap_app.
  - unfold append_bytes. rewrite lookup_insert_eq, Hd. cbn [default]. by rewrite text_snoc.
  - by apply log_wf_obs.
  - intros o' [Hin| ->%list_elem_of_singleton]%elem_of_app; [|by rewrite lookup_insert_eq].
    rewrite lookup_insert_ne; [by apply Hs|]. intros Heq. apply Hnin. rewrite Heq.
    by apply list_elem_of_fmap_2.
  - intros id. rewrite elem_of_app.
    destruct (decide (observation_id o = id)) as [<-|].
    + right. simpl. by apply list_elem_of_singleton.
    + rewrite lookup_insert_ne by done. left. by apply Hdom.
Qed.

Lemma rejection_refines d w es why at_ms :
  log_rep d w es → reads_back (RRejection {| reason := why; rejected_at_ms := at_ms |}) →
  ∃ d', append_rejection WriteOk w why at_ms d = (d', Ok tt)
    ∧ log_rep d' w (es ++ [ERej {| reason := why; rejected_at_ms := at_ms |}])
    ∧ (∀ q, q ≠ w_path w → d' !! q = d !! q).
Proof.
  intros [Hd Hwf Hs Hdom] Hr. eexists. split; [done|]. split.
  - constructor; rewrite ?obs_of_snoc_rej; try done.
    + unfold append_bytes. rewrite lookup_insert_eq, Hd. cbn [default]. by rewrite text_snoc.
    + by apply log_wf_rej.
  - intros q Hq. unfold append_bytes. by rewrite lookup_insert_ne.
Qed.

(** Reopening after a crash: the file holds the entries and a record cut short. *)
Lemma reopen_refines d path h es tail :
  log_wf h es → d !! path = Some (text h es +:+ tail) → contains_byte newline tail = false →
  ∃ d' w, reopen from_slice path h d = (d', Ok w) ∧ w_path w = path ∧ w_header w = h
    ∧ log_rep d' w es ∧ (∀ q, q ≠ path → d' !! q = d !! q).
Proof.
  intros Hwf Hd Ht. unfold reopen.
  pose proof (proj2 (validate_header_ok h) (lw_header _ _ Hwf)) as ->.
  unfold mlift, mget, mmodify, mbind, M_bind, mret, M_ret, read_file. rewrite Hd. cbn [ok_or].
  rewrite (parse_text h es tail Hwf Ht). cbn [p_header p_seal ok_or partial_tail].
  rewrite (bool_decide_true (h = h)) by done.
  cbn [negb complete_end p_observations].
  rewrite bool_decide_false by (by intros []).
  eexists _, _. split; [done|]. split_and!; [done|done| |].
  - constructor; cbn [w_path w_header w_seen].
    + case_bool_decide as He; cbn [negb].
      * by rewrite Hd, He, str_app_nil_r.
      * by rewrite lookup_insert_eq, substring_app.
    + done.
    + intros o Hin. apply elem_of_list_to_map_1.
      * rewrite <- list_fmap_compose. exact (lw_nodup _ _ Hwf).
      * apply list_elem_of_fmap. eauto.
    + intros id Hid. destruct (decide (id ∈ observation_id <$> obs_of es)); [done|].
      rewrite not_elem_of_list_to_map_1 in Hid; [by destruct Hid|].
      by rewrite <- list_fmap_compose.
  - intros q Hq. case_bool_decide; cbn [negb]; [done|]. by rewrite lookup_insert_ne.
Qed.

(** *** Runs of the supervisor over one log

    An event is a successful append, a rejection record, or an append during which the process
    crashes after [k] bytes of the line reached the disk, followed by a restart. *)

Inductive event :=
  | Append (o : CanaryObservationV2)
  | Reject (why : string) (at_ms : N)
  | Crash (k : nat) (o : CanaryObservationV2).

(** A refused append leaves the writer as it was. *)
Definition keep_writer (w : ObservationLogWriter)
    (r : disk * result (ObservationLogWriter * AppendOutcome)) : disk * ObservationLogWriter :=
  (r.1, match r.2 with Ok (w', _) => w' | Err _ => w end).

Definition run_event (w : ObservationLogWriter) (ev : event) : M disk ObservationLogWriter := λ d,
  match ev with
  | Append o =>
    let '(d', w') := keep_writer w (append_observation WriteOk w o d) in (d', Ok w')
  | Reject why at_ms => (_ ← append_rejection WriteOk w why at_ms; mret w) d
  | Crash k o =>
    let '(d', _) := append_observation (WriteFails k) w o d in
    reopen from_slice (w_path w) (w_header w) d'
  end.

Fixpoint run_events (w : ObservationLogWriter) (evs : list event) : M disk ObservationLogWriter :=
  match evs with
  | [] => mret w
  | ev :: evs => w' ← run_event w ev; run_events w' evs
  end.

(** The same run on the abstract log: an append adds the observation unless it is refused or
    already there; a crash loses the entry unless its whole line reached the disk. *)
Definition abs_obs (h : LogHeader) (es : list entry) (o : CanaryObservationV2) : list entry :=
  match abs_append h es o with Ok (es', _) => es' | Err _ => es end.

Definition abs_event (h : LogHeader) (es : list entry) (ev : event) : list entry :=
  match ev with
  | Append o => abs_obs h es o
  | Reject why at_ms => es ++ [ERej {| reason := why; rejected_at_ms := at_ms |}]
  | Crash k o =>
    if (k <=? String.length (record_line (entry_record (EObs o))))%nat then es
    else abs_obs h es o
  end.

Definition event_record (ev : event) : LogRecord :=
  match ev with
  | Append o | Crash _ o => entry_record (EObs o)
  | Reject why at_ms => RRejection {| reason := why; rejected_at_ms := at_ms |}
  end.

Lemma append_ok_refines d w es o :
  log_rep d w es → reads_back (entry_record (EObs o)) →
  ∃ d' w', keep_writer w (append_observation WriteOk w o d) = (d', w')
    ∧ w_path w' = w_path w ∧ w_header w' = w_header w
    ∧ log_rep d' w' (abs_obs (w_header w) es o) ∧ (∀ q, q ≠ w_path w → d' !! q = d !! q).
Proof.
  intros Hrep Hr. pose proof (append_refines d w es o WriteOk Hrep) as Ha. unfold abs_obs.
  destruct (abs_append _ _ _) as [[es' []]|e].
  - destruct Ha as (Ho & Hb & -> & Hnin & ->). eexists _, _. split; [done|]. cbn.
    split_and!; [done|done|by apply log_rep_snoc|].
    intros q Hq. unfold append_bytes. by rewrite lookup_insert_ne.
  - destruct Ha as [-> ->]. by eexists _, _.
  - rewrite Ha. by eexists _, _.
Qed.

Lemma crash_refines d w es o k :
  log_rep d w es → reads_back (entry_record (EObs o)) →
  ∃ d' w', run_event w (Crash k o) d = (d', Ok w')
    ∧ w_path w' = w_path w ∧ w_header w' = w_header w
    ∧ log_rep d' w' (abs_event (w_header w) es (Crash k o))
    ∧ (∀ q, q ≠ w_path w → d' !! q = d !! q).
Proof.
  intros Hrep Hr. cbn [run_event abs_event].
  pose proof (append_refines d w es o (WriteFails k) Hrep) as Ha. unfold abs_obs.
  destruct Hrep as [Hd Hwf Hs Hdom].
  assert (Hsame : ∃ d' w', reopen from_slice (w_path w) (w_header w) d = (d', Ok w')
    ∧ w_path w' = w_path w ∧ w_header w' = w_header w ∧ log_rep d' w' es
    ∧ (∀ q, q ≠ w_path w → d' !! q = d !! q)).
  { eapply (reopen_refines _ _ _ _ ""); [done| |done]. by rewrite str_app_nil_r. }
  set (line := record_line (entry_record (EObs o))) in *.
  destruct (abs_append _ _ _) as [[es' []]|e].
  - destruct Ha as (Ho & Hb & -> & Hnin & ->).
    set (d1 := append_bytes _ _ _).
    assert (Hother : ∀ q, q ≠ w_path w → d1 !! q = d !! q)
      by (intros q Hq; by apply lookup_insert_ne).
    destruct (Nat.leb_spec k (String.length line)) as [Hk|Hk].
    + destruct (reopen_refines d1 (w_path w) (w_header w) es (String.substring 0 k line))
        as (d' & w' & ? & ? & ? & ? & Hq); [done| | |].
      * unfold d1, append_bytes. rewrite lookup_insert_eq, Hd. cbn [default].
        unfold to_line. by rewrite substring_app_le.
      * apply substring_clean, record_line_clean.
      * eexists _, _. split_and!; try done. intros q Hq'. by rewrite Hq, Hother.
    + destruct (reopen_refines d1 (w_path w) (w_header w) (es ++ [EObs o]) "")
        as (d' & w' & ? & ? & ? & ? & Hq); [by apply log_wf_obs| |done|].
      * unfold d1, append_bytes. rewrite lookup_insert_eq, Hd, text_snoc, str_app_nil_r.
        rewrite substring_all; [done|]. unfold to_line. fold line.
        rewrite str_app_length. cbn [String.length]. lia.
      * eexists _, _. split_and!; try done. intros q Hq'. by rewrite Hq, Hother.
  - destruct Ha as [-> ->]. destruct (_ <=? _)%nat; exact Hsame.
  - rewrite Ha. destruct (_ <=? _)%nat; exact Hsame.
Qed.

Lemma run_events_refines d w es evs :
  log_rep d w es → Forall (λ ev, reads_back (event_record ev)) evs →
  ∃ d' w', run_events w evs d = (d', Ok w')
    ∧ w_path w' = w_path w ∧ w_header w' = w_header w
    ∧ log_rep d' w' (foldl (abs_event (w_header w)) es evs)
    ∧ (∀ q, q ≠ w_path w → d' !! q = d !! q).
Proof.
  intros Hrep Hevs. revert d w es Hrep.
  induction Hevs as [|ev evs Hev Hevs IH]; intros d w es Hrep.
  { by eexists _, _. }
  assert (∃ d1 w1, run_event w ev d = (d1, Ok w1) ∧ w_path w1 = w_path w
    ∧ w_header w1 = w_header w ∧ log_rep d1 w1 (abs_event (w_header w) es ev)
    ∧ (∀ q, q ≠ w_path w → d1 !! q = d !! q)) as (d1 & w1 & Hrun & Hp & Hh & Hrep1 & Hq).
  { destruct ev as [o|why at_ms|k o].
    - destruct (append_ok_refines d w es o) as (d1 & w1 & Hk & Hrest); [done|done|].
      exists d1, w1. unfold run_event. by rewrite Hk.
    - destruct (rejection_refines d w es why at_ms) as (d1 & Hk & Hrep1 & Hq); [done|done|].
      exists d1, w. unfold run_event, mbind, M_bind. rewrite Hk.
      by split_and!.
    - by apply crash_refines. }
  destruct (IH d1 w1 _ Hrep1) as (d2 & w2 & Hrun2 & Hp2 & Hh2 & Hrep2 & Hq2).
  exists d2, w2. split_and!.
  - cbn [run_events]. unfold mbind, M_bind. by rewrite Hrun.
  - congruence.
  - congruence.
  - cbn [foldl]. by rewrite Hh in Hrep2.
  - intros q Hne. rewrite Hq2 by congruence. by apply Hq.
Qed.

(** *** Sealing *)

Definition seal_of (h : LogHeader) (es : list entry) (at_ms : N) : LogSeal :=
  {| observation_count := N.of_nat (length (obs_of es));
     qualifying_count := count_qualifying (obs_of es);
     log_digest := log_digest_of (text h es); sealed_at_ms := at_ms |}.

Definition sealed_of (path : option string) (h : LogHeader) (es : list entry) (at_ms : N)
    : SealedObservationLog :=
  {| s_path := path; s_header := h; s_observations := obs_of es; s_rejections := rej_of es;
     s_seal := seal_of h es at_ms |}.

Lemma verify_text h es at_ms :
  log_wf h es → reads_back (RSeal (seal_of h es at_ms)) →
  verify_bytes from_slice (text h es +:+ to_line (RSeal (seal_of h es at_ms)))
    = Ok (sealed_of None h es at_ms).
Proof.
  intros Hwf Hrb. set (sl := seal_of h es at_ms) in *.
  pose proof (parse_text h es "" Hwf eq_refl) as Hp. rewrite str_app_nil_r in Hp.
  destruct (parse_log_inv _ _ Hp) as (lines & tail & st & Hsplit & Hinv & Hst & Heq).
  unfold text in Hsplit. rewrite <- (str_app_nil_r (unlines _)) in Hsplit.
  rewrite split_unlines in Hsplit by (done || apply lines_clean).
  injection Hsplit as <- <-.
  pose proof (f_equal p_header Heq : Some h = p_header (parsed st)) as Hh.
  pose proof (f_equal p_observations Heq : obs_of es = p_observations (parsed st)) as Ho.
  pose proof (f_equal p_rejections Heq : rej_of es = p_rejections (parsed st)) as Hr.
  pose proof (f_equal p_seal Heq : None = p_seal (parsed st)) as Hs.
  pose proof (f_equal complete_end Heq : String.length (text h es) = complete_end (parsed st))
    as He. clear Heq Hp.
  pose proof (record_line_clean (RSeal sl)) as Hclean.
  set (body := text h es) in *. set (start := String.length body) in *.
  set (bytes := body +:+ to_line (RSeal sl)).
  assert (Hbytes : bytes = unlines ((record_line (RHeader h) :: entry_lines es)
                                      ++ [record_line (RSeal sl)]) +:+ "")
    by (by rewrite str_app_nil_r, unlines_app).
  assert (Hpl : parse_log from_slice bytes =
    Ok {| p_header := Some h; p_observations := obs_of es; p_rejections := rej_of es;
          p_seal := Some (sl, start); complete_end := String.length bytes;
          partial_tail := false |}).
  { rewrite Hbytes at 1. unfold parse_log.
    rewrite split_unlines; [|apply Forall_app; split; [apply lines_clean|]|done].
    2: { by apply Forall_singleton. }
    assert (parse_lines from_slice parse_init
      ((record_line (RHeader h) :: entry_lines es) ++ [record_line (RSeal sl)]) =
      Ok {| parsed := with_end (with_seal (parsed st) sl start)
              (start + String.length (record_line (RSeal sl)) + 1);
            seen := seen st; line_no := S (line_no st) |}) as ->.
    { apply parse_lines_app. exists st. split; [done|]. cbn [parse_lines].
      erewrite parse_line_back; [|done|done|by apply eff_seal]. by rewrite <- He. }
    cbn [mbind result_bind parsed with_tail with_end with_seal p_header].
    rewrite <- Hh, bool_decide_false by done. cbn [andb].
    unfold with_tail, with_end, with_seal.
    cbn [p_header p_observations p_rejections p_seal complete_end].
    rewrite <- Hh, <- Ho, <- Hr, bool_decide_true by done. do 2 f_equal. unfold bytes, to_line.
    rewrite !str_app_length. cbn [String.length]. fold start. lia. }
  unfold verify_bytes. rewrite Hpl. cbn. rewrite Nat.eqb_refl. cbn.
  unfold bytes, start. rewrite substring_app.
  rewrite bool_decide_true by done. cbn. by rewrite !N.eqb_refl.
Qed.

Lemma seal_refines d w es at_ms :
  log_rep d w es → reads_back (RSeal (seal_of (w_header w) es at_ms)) →
  ∃ d', seal from_slice WriteOk w at_ms d = (d', Ok (sealed_of (Some (w_path w)) (w_header w) es at_ms))
    ∧ load from_slice d' (w_path w) = Ok (sealed_of (Some (w_path w)) (w_header w) es at_ms)
    ∧ d' !! w_path w = Some (text (w_header w) es +:+ to_line (RSeal (seal_of (w_header w) es at_ms)))
    ∧ (∀ q, q ≠ w_path w → d' !! q = d !! q).
Proof.
  intros [Hd Hwf _ _] Hrb.
  set (d' := append_bytes (w_path w) (to_line (RSeal (seal_of (w_header w) es at_ms))) d).
  assert (Hd' : d' !! w_path w =
    Some (text (w_header w) es +:+ to_line (RSeal (seal_of (w_header w) es at_ms)))).
  { unfold d', append_bytes. by rewrite lookup_insert_eq, Hd. }
  assert (Hload : load from_slice d' (w_path w)
    = Ok (sealed_of (Some (w_path w)) (w_header w) es at_ms)).
  { unfold load, read_file. rewrite Hd'. cbn [ok_or mbind result_bind].
    by rewrite verify_text. }
  exists d'. split_and!; [|done|done|].
  - unfold seal, mlift, mget, mbind, M_bind, read_file. rewrite Hd. cbn [ok_or].
    pose proof (parse_text _ _ "" Hwf eq_refl) as Hp. rewrite str_app_nil_r in Hp. rewrite Hp.
    cbn [p_seal partial_tail p_observations]. rewrite bool_decide_false by (by intros []).
    rewrite bool_decide_true by done. cbn [negb write_synced]. fold d'.
    by rewrite <- Hload.
  - intros q Hq. unfold d', append_bytes. by rewrite lookup_insert_ne.
Qed.

(** The bytes a verified log's seal commits: everything before the seal line. *)
Definition sealed_body (bytes : string) (s : SealedObservationLog) : string :=
  String.substring 0 (String.length bytes - String.length (to_line (RSeal (s_seal s)))) bytes.

Lemma sealed_body_text bytes s ls st :
  sealed_text bytes s ls st → sealed_body bytes s = unlines ls.
Proof.
  intros Hs. unfold sealed_body. rewrite (st_bytes _ _ _ _ Hs), str_app_length, Nat.add_sub.
  apply substring_app.
Qed.

(** ** Properties *)

(** C4: The log writer refines an append-only list of entries, across crashes and restarts.
    Whatever sequence of appends, rejections and mid-append crashes the supervisor goes through
    after creating a log, every step succeeds, and sealing yields exactly the abstract list: each
    accepted observation once, in order, refused ones absent, a record cut short by a crash
    dropped; the sealed file reads back as the same sealed log and no other file changes. *)
Theorem log_writer_refines d path h evs at_ms :
  header_wf h → d !! path = None → reads_back (RHeader h) →
  Forall (λ ev, reads_back (event_record ev)) evs →
  let es := foldl (abs_event h) [] evs in
  reads_back (RSeal (seal_of h es at_ms)) →
  ∃ d1 w1 d2 w2 d3,
    create WriteOk path h d = (d1, Ok w1) ∧ run_events w1 evs d1 = (d2, Ok w2)
    ∧ seal from_slice WriteOk w2 at_ms d2 = (d3, Ok (sealed_of (Some path) h es at_ms))
    ∧ load from_slice d3 path = Ok (sealed_of (Some path) h es at_ms)
    ∧ (∀ q, q ≠ path → d3 !! q = d !! q).
Proof.
  intros Hh Hd Hrb Hevs es Hseal.
  destruct (create_refines d path h) as (d1 & w1 & Hc & Hp & Hwh & Hrep & Hq1); [done..|].
  subst path h.
  destruct (run_events_refines d1 w1 [] evs Hrep Hevs) as (d2 & w2 & Hr & Hp2 & Hh2 & Hrep2 & Hq2).
  destruct (seal_refines d2 w2 es at_ms) as (d3 & Hs & Hl & _ & Hq3); [done|by rewrite Hh2|].
  exists d1, w1, d2, w2, d3. rewrite Hp2, Hh2 in *. split_and!; try done.
  intros q Hq. by rewrite Hq3, Hq2, Hq1.
Qed.

(** C9: A log that verifies is well formed.  Its header is valid; every observation is valid
    and bound to the header's generation, workload and executable; no observation id occurs
    twice; the seal carries the digest of exactly the bytes before it and the true counts, and
    it is the last line of the file. *)
Theorem verify_bytes_sound bytes s :
  verify_bytes from_slice bytes = Ok s →
  header_wf (s_header s)
  ∧ (∀ o, o ∈ s_observations s → observation_wf o ∧ bound (s_header s) o)
  ∧ NoDup (observation_id <$> s_observations s)
  ∧ bytes = sealed_body bytes s +:+ to_line (RSeal (s_seal s))
  ∧ log_digest (s_seal s) = log_digest_of (sealed_body bytes s)
  ∧ observation_count (s_seal s) = N.of_nat (length (s_observations s))
  ∧ qualifying_count (s_seal s) = N.of_nat (length (qualifying s)).
Proof.
  intros (ls & st & Hs)%verify_bytes_text.
  rewrite (sealed_body_text _ _ _ _ Hs). destruct Hs as [Hb Hc Hinv Hp Hh Ho Hr Hd Hn Hq].
  split_and!; try done.
  - by apply (pi_header _ _ Hinv).
  - intros o Hin. rewrite <- Ho in Hin. destruct (pi_obs _ _ Hinv o Hin) as (Hwf & h & Hh' & Hb').
    split; [done|]. congruence.
  - rewrite <- Ho. apply (pi_nodup _ _ Hinv).
Qed.

(** C11: A seal is tamper evident.  Two logs that verify under the same seal digest, whose sealed
    bytes do not collide under SHA-256, hold the same header, the same observations and the same
    rejections. *)
Theorem sealed_log_tamper_evident bytes1 bytes2 s1 s2 :
  verify_bytes from_slice bytes1 = Ok s1 → verify_bytes from_slice bytes2 = Ok s2 →
  log_digest (s_seal s1) = log_digest (s_seal s2) →
  field_ok (sealed_body bytes1 s1) → field_ok (sealed_body bytes2 s2) →
  no_collision [log_preimage (sealed_body bytes1 s1); log_preimage (sealed_body bytes2 s2)] →
  s_header s1 = s_header s2 ∧ s_observations s1 = s_observations s2
  ∧ s_rejections s1 = s_rejections s2.
Proof.
  intros (ls1 & st1 & H1s)%verify_bytes_text (ls2 & st2 & H2s)%verify_bytes_text Heq Hf1 Hf2 Hnc.
  rewrite (sealed_body_text _ _ _ _ H1s), (sealed_body_text _ _ _ _ H2s) in *.
  rewrite (st_digest _ _ _ _ H1s), (st_digest _ _ _ _ H2s) in Heq.
  assert (Hbody : unlines ls1 = unlines ls2).
  { apply (sha256_hex_inj _ _ _ Hnc) in Heq; [|by constructor|by repeat constructor].
    apply domain_preimage_inj in Heq as [_ [= ->]]; try done; by apply Forall_singleton. }
  assert (ls1 = ls2) as <-.
  { pose proof (split_unlines _ "" (st_clean _ _ _ _ H1s) eq_refl) as E1.
    pose proof (split_unlines _ "" (st_clean _ _ _ _ H2s) eq_refl) as E2.
    rewrite Hbody in E1. congruence. }
  pose proof (st_parse _ _ _ _ H1s). pose proof (st_parse _ _ _ _ H2s).
  destruct H1s, H2s. simplify_eq. split_and!; congruence.
Qed.
End LogProps.

(** ** A concrete log *)
Module LogExample.
Definition hexd (s : string) : string := sha256_hex s.
Definition h : LogHeader := new_header "gen-0001" (hexd "workload") (hexd "exe") 1700000000000.
Definition obs (req : string) (st : VerifiedStatus) (elapsed : N) : CanaryObservationV2 :=
  new {| in_generation_id := "gen-0001"; in_request_id := req;
         in_request_digest := hexd req; in_workload_digest := hexd "workload";
         in_candidate_executable_digest := hexd "exe"; in_result_digest := Some (hexd "pong");
         in_elapsed_us := elapsed; in_observed_at_ms := 5; in_status := st;
         in_provenance := Measured |}.
Definition o1 := obs "req-001" VerifiedSuccess 500.
Definition o2 := obs "req-002" WrongResult 900.
Definition evs : list event :=
  [Append o1; Append o1; Crash 40 o2; Reject "late result" 7; Append o2;
   Append (obs "req-001" VerifiedSuccess 501)].
Definition records : list LogRecord :=
  [RHeader h; entry_record (EObs o1); entry_record (EObs o2);
   RRejection {| reason := "late result"; rejected_at_ms := 7 |};
   entry_record (EObs (obs "req-001" VerifiedSuccess 501));
   RSeal (seal_of h (foldl (abs_event h) [] evs) 99);
   RSeal (seal_of h (foldl (abs_event h) [] evs) 100)].
(** A deserializer that knows these records. *)
Definition from_slice (s : string) : option LogRecord :=
  List.find (λ r, bool_decide (record_line r = s)) records.

Definition entries : list entry := foldl (abs_event h) [] evs.
Definition bytes : string :=
  text h entries +:+ to_line (RSeal (seal_of h entries 99)).
Definition sealed : SealedObservationLog := sealed_of None h entries 99.
(** The same log sealed a moment later. *)
Definition later : SealedObservationLog := sealed_of None h entries 100.
Definition later_bytes : string :=
  text h entries +:+ to_line (RSeal (seal_of h entries 100)).

Lemma h_wf : header_wf h.
Proof. apply validate_header_ok. by vm_compute. Qed.
Lemma verifies : verify_bytes from_slice bytes = Ok sealed.
Proof. by vm_compute. Qed.
Lemma later_verifies : verify_bytes from_slice later_bytes = Ok later.
Proof. by vm_compute. Qed.
Lemma same_body :
  sealed_body later_bytes later = sealed_body bytes sealed.
Proof. by vm_compute. Qed.
End LogExample.

Lemma log_writer_refines_witness :
  let es := foldl (abs_event LogExample.h) [] LogExample.evs in
  length (obs_of es) = 2%nat ∧ length (rej_of es) = 1%nat ∧
  ∃ d1 w1 d2 w2 d3,
    create WriteOk "gen.jsonl" LogExample.h ∅ = (d1, Ok w1)
    ∧ run_events LogExample.from_slice w1 LogExample.evs d1 = (d2, Ok w2)
    ∧ seal LogExample.from_slice WriteOk w2 99 d2
      = (d3, Ok (sealed_of (Some "gen.jsonl") LogExample.h es 99))
    ∧ load LogExample.from_slice d3 "gen.jsonl"
      = Ok (sealed_of (Some "gen.jsonl") LogExample.h es 99)
    ∧ (∀ q, q ≠ "gen.jsonl" → d3 !! q = (∅ : disk) !! q).
Proof.
  split; [by vm_compute|]. split; [by vm_compute|].
  apply (log_writer_refines LogExample.from_slice).
  - exact LogExample.h_wf.
  - reflexivity.
  - vm_compute; reflexivity.
  - repeat apply Forall_cons_2; [vm_compute; reflexivity..|apply Forall_nil_2].
  - vm_compute; reflexivity.
Defined.

Lemma verify_bytes_sound_witness :
  NoDup (observation_id <$> s_observations LogExample.sealed)
  ∧ length (s_observations LogExample.sealed) = 2%nat
  ∧ qualifying_count (s_seal LogExample.sealed) = 1%N.
Proof.
  destruct (verify_bytes_sound LogExample.from_slice LogExample.bytes LogExample.sealed)
    as (_ & _ & Hnd & _); [exact LogExample.verifies|].
  split; [exact Hnd|]. split; by vm_compute.
Defined.

Lemma sealed_log_tamper_evident_witness :
  LogExample.bytes ≠ LogExample.later_bytes
  ∧ s_observations LogExample.sealed = s_observations LogExample.later.
Proof.
  split; [by vm_compute|].
  apply (sealed_log_tamper_evident LogExample.from_slice LogExample.bytes LogExample.later_bytes);
    rewrite ?LogExample.same_body.
  - exact LogExample.verifies.
  - exact LogExample.later_verifies.
  - reflexivity.
  - by vm_compute.
  - by vm_compute.
  - apply no_collision_same.
Defined.
