(* ===== verification/Admission.v ===== *)
(** The quota validator: the hand-off from a sealed observation log to the decision that enough
    verified evidence exists ([src/canary/admission.rs]), and the version 1 quota of
    [src/canary_observation.rs]. *)

From S2P Require Import Prelude RustStd Digest Json Identity Workload Observation.
From S2P Require Import ObservationLog ObservationLogProps.

Record SealedQuotaDecision := {
  counted : N;
  target : N;
  d_generation_id : string;
  d_candidate_executable_digest : string;
  d_workload_digest : string;
  d_log_digest : string;
}.

Section Admission.
Context `{Sha256} `{JsonStr}.

(** The body of the loop for one observation, up to the insertion in [seen]. *)
Definition check_observation (identity : CandidateIdentity) (workload : CanaryWorkloadManifest)
    (obs : CanaryObservationV2) : result unit :=
  _ ← Observation.validate obs;
  if negb (bool_decide (Observation.generation_id obs = Identity.generation_id identity))
     || negb (bool_decide (candidate_executable_digest obs = executable_digest identity))
     || negb (bool_decide (workload_digest obs = Workload.digest workload)) then
    fail "observation {} is not bound to this generation, executable and workload"
      [observation_id obs]
  else if negb (bool_decide (provenance obs = Measured)) then
    fail "observation {} is a synthetic rehearsal; it cannot satisfy the production canary quota"
      [observation_id obs]
  else if negb (bool_decide (status obs = VerifiedSuccess)) then
    fail "canary observed a {:?} on request {}; the candidate is not promotable"
      [status_debug (status obs); Observation.request_id obs]
  else
    spec ← ok_or (request workload (Observation.request_id obs))
      (Fmt "observation {} answers request {} which is not in the pinned workload"
         [observation_id obs; Observation.request_id obs]);
    let expected_request := Workload.request_digest (workload_id workload) spec in
    if negb (bool_decide (Observation.request_digest obs = expected_request)) then
      fail "observation {} carries request digest {}, workload request {} has {}"
        [observation_id obs; Observation.request_digest obs; Workload.request_id spec;
         expected_request]
    else
      let expected_result := expected_result_digest spec in
      if negb (bool_decide (result_digest obs = Some expected_result)) then
        fail
          "observation {} result digest {:?} does not equal the expected outcome of request {}"
          [observation_id obs; default "None" (result_digest obs); Workload.request_id spec]
      else if (sat_mul64 (deadline_ms spec) 1000 <? elapsed_us obs)%N then
        fail "observation {} took {} us, over the {} ms deadline of request {}"
          [observation_id obs; dec (elapsed_us obs); dec (deadline_ms spec);
           Workload.request_id spec]
      else Ok tt.

(** The loop, with the set of ids seen and the count. *)
Fixpoint count_observations (identity : CandidateIdentity) (workload : CanaryWorkloadManifest)
    (seen : gset string) (counted : N) (obs : list CanaryObservationV2) : result N :=
  match obs with
  | [] => Ok counted
  | o :: rest =>
    _ ← check_observation identity workload o;
    if bool_decide (observation_id o ∈ seen)
    then count_observations identity workload seen counted rest
    else count_observations identity workload ({[observation_id o]} ∪ seen) (counted + 1) rest
  end.

Definition admit_sealed_quota (sealed : SealedObservationLog) (identity : CandidateIdentity)
    (workload : CanaryWorkloadManifest) (target : N) : result SealedQuotaDecision :=
  if (target =? 0)%N then fail "production canary quota target must be at least 1" []
  else
    _ ← Identity.validate identity;
    _ ← Workload.validate workload;
    let wd := Workload.digest workload in
    let header := s_header sealed in
    if negb (bool_decide (h_generation_id header = Identity.generation_id identity)) then
      fail "observation log is for generation {}, candidate is generation {}"
        [h_generation_id header; Identity.generation_id identity]
    else if negb (bool_decide
              (h_candidate_executable_digest header = executable_digest identity)) then
      fail "observation log executable digest {} does not match the candidate executable {}"
        [h_candidate_executable_digest header; executable_digest identity]
    else if negb (bool_decide (h_workload_digest header = wd)) then
      fail "observation log workload digest {} does not match the pinned workload {}"
        [h_workload_digest header; wd]
    else
      n ← count_observations identity workload ∅ 0 (s_observations sealed);
      if (n <? target)%N then
        fail "production canary quota requires {} verified observations, received {}"
          [dec target; dec n]
      else
        Ok {| counted := n; target := target;
              d_generation_id := Identity.generation_id identity;
              d_candidate_executable_digest := executable_digest identity;
              d_workload_digest := wd; d_log_digest := log_digest (s_seal sealed) |}.

(** ** What one observation must satisfy *)

Record counts_for (i : CandidateIdentity) (w : CanaryWorkloadManifest)
    (o : CanaryObservationV2) (spec : CanaryRequestSpec) : Prop := {
  cf_valid : observation_wf o;
  cf_generation : Observation.generation_id o = Identity.generation_id i;
  cf_executable : candidate_executable_digest o = executable_digest i;
  cf_workload : workload_digest o = Workload.digest w;
  cf_measured : provenance o = Measured;
  cf_success : status o = VerifiedSuccess;
  cf_request : request w (Observation.request_id o) = Some spec;
  cf_request_digest : Observation.request_digest o = Workload.request_digest (workload_id w) spec;
  cf_result : result_digest o = Some (expected_result_digest spec);
  cf_deadline : (elapsed_us o <= sat_mul64 (deadline_ms spec) 1000)%N;
}.

Lemma check_observation_ok i w o :
  check_observation i w o = Ok tt ↔ ∃ spec, counts_for i w o spec.
Proof.
  unfold check_observation. split.
  - intros. run_guards. conv (observation_validate_ok o). eexists. by constructor.
  - intros (spec & [Hv Hg He Hw Hm Hs Hr Hd Hres Hdl]).
    rewrite (proj2 (observation_validate_ok o) Hv). cbn [mbind result_bind].
    rewrite !bool_decide_true by done. cbn [negb orb]. rewrite Hr. cbn [ok_or mbind result_bind].
    rewrite !bool_decide_true by done. cbn [negb]. apply N.ltb_ge in Hdl as ->. done.
Qed.

(** The number of different observation ids outside [seen]. *)
Fixpoint distinct (seen : gset string) (obs : list CanaryObservationV2) : N :=
  match obs with
  | [] => 0
  | o :: rest =>
    if bool_decide (observation_id o ∈ seen) then distinct seen rest
    else (1 + distinct ({[observation_id o]} ∪ seen) rest)%N
  end.

Lemma count_observations_ok i w seen c obs n :
  count_observations i w seen c obs = Ok n ↔
  (∀ o, o ∈ obs → ∃ spec, counts_for i w o spec) ∧ n = (c + distinct seen obs)%N.
Proof.
  revert seen c; induction obs as [|o obs IH]; intros seen c; simpl.
  - split; [intros [= ->]|intros [_ ->]]; [split|f_equal; lia]; [|lia].
    by intros ? ?%not_elem_of_nil.
  - rewrite bind_ok. split.
    + intros ([] & Ho%check_observation_ok & Hrest).
      case_bool_decide; apply IH in Hrest as [Hall ->]; (split; [|lia]);
        intros o' [->|Hin]%elem_of_cons; eauto.
    + intros [Hall ->]. exists tt. split.
      { apply check_observation_ok, Hall. by left. }
      case_bool_decide; apply IH; (split; [|lia]); intros o' Hin; apply Hall; by right.
Qed.

Lemma distinct_nodup seen obs :
  NoDup (observation_id <$> obs) → (∀ o, o ∈ obs → observation_id o ∉ seen) →
  distinct seen obs = N.of_nat (length obs).
Proof.
  revert seen; induction obs as [|o obs IH]; intros seen; [done|].
  cbn [fmap list_fmap distinct length]. intros [Hnin Hnd]%NoDup_cons Hout.
  rewrite bool_decide_false by (apply Hout; by left). rewrite IH; [lia|done|].
  intros o' Hin. apply not_elem_of_union. split; [|apply Hout; by right].
  rewrite not_elem_of_singleton. intros Heq. apply Hnin. rewrite <- Heq.
  by apply list_elem_of_fmap_2.
Qed.

Definition ids (obs : list CanaryObservationV2) : gset string :=
  list_to_set (observation_id <$> obs).

Lemma distinct_size seen obs : distinct seen obs = N.of_nat (size (ids obs ∖ seen)).
Proof.
  revert seen; induction obs as [|o obs IH]; intros seen; cbn [distinct ids fmap list_fmap].
  - change (ids []) with (∅ : gset string).
    assert ((∅ : gset string) ∖ seen = ∅) as -> by set_solver. by rewrite size_empty.
  - change (ids (o :: obs)) with ({[observation_id o]} ∪ ids obs).
    case_bool_decide as Hin.
    + rewrite IH. f_equal. f_equal. set_solver.
    + rewrite IH.
      assert (({[observation_id o]} ∪ ids obs) ∖ seen =
        {[observation_id o]} ∪ ids obs ∖ ({[observation_id o]} ∪ seen)) as ->.
      { apply set_eq. intros k. rewrite elem_of_difference, !elem_of_union, elem_of_singleton.
        rewrite elem_of_difference, elem_of_union, elem_of_singleton.
        destruct (decide (k = observation_id o)) as [->|]; tauto. }
      assert (Hdisj : ({[observation_id o]} : gset string)
        ## ids obs ∖ ({[observation_id o]} ∪ seen)) by set_solver.
      pose proof (size_union _ _ Hdisj) as ->. rewrite size_singleton. lia.
Qed.

Record log_bound (s : SealedObservationLog) (i : CandidateIdentity) (w : CanaryWorkloadManifest)
    : Prop := {
  lb_generation : h_generation_id (s_header s) = Identity.generation_id i;
  lb_executable : h_candidate_executable_digest (s_header s) = executable_digest i;
  lb_workload : h_workload_digest (s_header s) = Workload.digest w;
}.

(** ** Properties *)

Lemma admit_quota_spec s i w t dcn :
  admit_sealed_quota s i w t = Ok dcn ↔
  t ≠ 0%N ∧ identity_wf i ∧ workload_wf w ∧ log_bound s i w
  ∧ (∀ o, o ∈ s_observations s → ∃ spec, counts_for i w o spec)
  ∧ (t <= N.of_nat (size (ids (s_observations s))))%N
  ∧ dcn = {| counted := N.of_nat (size (ids (s_observations s))); target := t;
             d_generation_id := Identity.generation_id i;
             d_candidate_executable_digest := executable_digest i;
             d_workload_digest := Workload.digest w; d_log_digest := log_digest (s_seal s) |}.
Proof.
  assert (Hsize : (0 + distinct ∅ (s_observations s))%N
    = N.of_nat (size (ids (s_observations s)))).
  { rewrite distinct_size, N.add_0_l. do 2 f_equal. set_solver. }
  unfold admit_sealed_quota. split.
  - intros. run_guards. conv identity_validate_ok. conv (workload_validate_ok w).
    match goal with H : count_observations _ _ _ _ _ = _ |- _ =>
      apply count_observations_ok in H as [Hall ->] end.
    rewrite Hsize in *. by split_and!.
  - intros (Ht & Hi & Hw & [Hg He Hwd] & Hall & Hle & ->).
    apply N.eqb_neq in Ht as ->. apply identity_validate_ok in Hi as ->.
    rewrite (proj2 (workload_validate_ok w) Hw). cbn [mbind result_bind].
    rewrite !bool_decide_true by done. cbn [negb].
    assert (count_observations i w ∅ 0 (s_observations s)
      = Ok (N.of_nat (size (ids (s_observations s))))) as ->
      by (apply count_observations_ok; by rewrite Hsize).
    cbn [mbind result_bind]. apply N.ltb_ge in Hle as ->. done.
Qed.

(** C10: The quota validator admits exactly the sealed logs that carry enough verified evidence.
    It answers [Ok] if and only if the target is at least 1, the identity and the workload are
    valid, the log's header is bound to both, every observation in the log is a measured success
    of a request of this workload with its pinned digest, the expected result and within the
    deadline, and the number of different observation ids reaches the target; the decision then
    reports that number and the digests it was made on. *)
Theorem admit_sealed_quota_iff s i w t dcn :
  admit_sealed_quota s i w t = Ok dcn ↔
  t ≠ 0%N ∧ identity_wf i ∧ workload_wf w ∧ log_bound s i w
  ∧ (∀ o, o ∈ s_observations s → ∃ spec, counts_for i w o spec)
  ∧ (t <= N.of_nat (size (ids (s_observations s))))%N
  ∧ dcn = {| counted := N.of_nat (size (ids (s_observations s))); target := t;
             d_generation_id := Identity.generation_id i;
             d_candidate_executable_digest := executable_digest i;
             d_workload_digest := Workload.digest w; d_log_digest := log_digest (s_seal s) |}.
Proof. apply admit_quota_spec. Qed.

(** The evidence is never counted beyond the workload: an observation's id is determined by
    the request it answers, so no log, however long, is admitted with a count above the number
    of requests in the pinned workload. *)
Theorem admitted_count_bounded s i w t dcn :
  admit_sealed_quota s i w t = Ok dcn →
  (t <= counted dcn)%N ∧ (counted dcn <= N.of_nat (length (requests w)))%N.
Proof.
  intros (_ & _ & Hw & _ & Hall & Hle & ->)%admit_quota_spec. cbn [counted].
  split; [done|].
  set (answer := λ spec, derive_id (Identity.generation_id i) (Workload.request_id spec)
                  (Workload.request_digest (workload_id w) spec)).
  assert (Hsub : ids (s_observations s) ⊆ list_to_set (answer <$> requests w)).
  { intros id. unfold ids. rewrite !elem_of_list_to_set.
    intros (o & -> & Hin)%list_elem_of_fmap. destruct (Hall o Hin) as [spec Hc].
    destruct (request_some _ _ _ (cf_request _ _ _ _ Hc)) as [Hspec Hid].
    apply list_elem_of_fmap. exists spec. split; [|done]. unfold answer.
    rewrite (wf_id _ (cf_valid _ _ _ _ Hc)), (cf_generation _ _ _ _ Hc), Hid.
    by rewrite (cf_request_digest _ _ _ _ Hc). }
  apply subseteq_size in Hsub.
  pose proof (size_list_to_set_le (answer <$> requests w)) as Hlen.
  rewrite length_fmap in Hlen. lia.
Qed.

(** On a log that log_verifies, the decision agrees with the seal: the count is the number of
    observations and the number of qualifying observations the seal commits, and the decision
    names the seal's digest. *)
Theorem admitted_matches_seal from_slice bytes s i w t dcn :
  verify_bytes from_slice bytes = Ok s → admit_sealed_quota s i w t = Ok dcn →
  counted dcn = observation_count (s_seal s) ∧ counted dcn = qualifying_count (s_seal s)
  ∧ d_log_digest dcn = log_digest (s_seal s).
Proof.
  intros (ls & st & [Hb Hc Hinv Hp Hh Ho Hr Hd Hn Hq])%verify_bytes_text.
  intros (_ & _ & _ & _ & Hall & _ & ->)%admit_quota_spec. cbn [counted d_log_digest].
  assert (Hids : NoDup (observation_id <$> s_observations s))
    by (rewrite <- Ho; apply (pi_nodup _ _ Hinv)).
  assert (Hsz : size (ids (s_observations s)) = length (s_observations s)).
  { unfold ids. rewrite size_list_to_set by done. by rewrite length_fmap. }
  assert (Hfilter : List.filter is_qualifying (s_observations s) = s_observations s).
  { apply List_filter_all. intros o Hin. destruct (Hall o Hin) as [spec []].
    apply is_qualifying_ok. split_and!; [done..|]. eauto. }
  rewrite Hn, Hq, Hsz. unfold count_qualifying. by rewrite Hfilter.
Qed.
End Admission.

(** ** A concrete canary *)
Module AdmissionExample.
Definition req (id input output : string) : CanaryRequestSpec :=
  {| Workload.request_id := id; input := input; expected_output := output;
     deadline_ms := 2000; nondeterminism := Exact |}.
Definition workload : CanaryWorkloadManifest :=
  {| workload_version := 1; workload_id := "fixture-v1"; protocol_version := 1;
     requests := [req "req-001" "ping" "pong"; req "req-002" "add 2 3" "5"] |}.
Definition identity : CandidateIdentity :=
  new_identity (sha256_hex "patch") (sha256_hex "tree") (sha256_hex "exe") "gen-0001".
Definition answer (r : CanaryRequestSpec) (elapsed : N) (st : VerifiedStatus)
    : CanaryObservationV2 :=
  new {| in_generation_id := "gen-0001"; in_request_id := Workload.request_id r;
         in_request_digest := Workload.request_digest "fixture-v1" r;
         in_workload_digest := Workload.digest workload;
         in_candidate_executable_digest := sha256_hex "exe";
         in_result_digest := Some (expected_result_digest r);
         in_elapsed_us := elapsed; in_observed_at_ms := 9; in_status := st;
         in_provenance := Measured |}.
Definition h : LogHeader :=
  new_header "gen-0001" (Workload.digest workload) (sha256_hex "exe") 3.
Definition log (st : VerifiedStatus) : list entry :=
  [EObs (answer (req "req-001" "ping" "pong") 700 VerifiedSuccess);
   EObs (answer (req "req-002" "add 2 3" "5") 900 st)].
Definition sealed (st : VerifiedStatus) : SealedObservationLog := sealed_of None h (log st) 10.
Definition bytes : string :=
  text h (log VerifiedSuccess) +:+ to_line (RSeal (seal_of h (log VerifiedSuccess) 10)).
Definition from_slice (s : string) : option LogRecord :=
  List.find (λ r, bool_decide (record_line r = s))
    (RHeader h :: RSeal (seal_of h (log VerifiedSuccess) 10)
       :: (entry_record <$> log VerifiedSuccess)).
Definition decision : SealedQuotaDecision :=
  {| counted := 2; target := 2; d_generation_id := "gen-0001";
     d_candidate_executable_digest := sha256_hex "exe";
     d_workload_digest := Workload.digest workload;
     d_log_digest := log_digest (s_seal (sealed VerifiedSuccess)) |}.

Lemma admitted : admit_sealed_quota (sealed VerifiedSuccess) identity workload 2 = Ok decision.
Proof. by vm_compute. Qed.
Example one_failure_refuses :
  admit_sealed_quota (sealed WrongResult) identity workload 1
  = fail "canary observed a {:?} on request {}; the candidate is not promotable"
      ["WrongResult"; "req-002"].
Proof. by vm_compute. Qed.
Lemma log_verifies : verify_bytes from_slice bytes = Ok (sealed VerifiedSuccess).
Proof. by vm_compute. Qed.
End AdmissionExample.

Lemma admitted_count_bounded_witness :
  (2 <= counted AdmissionExample.decision)%N ∧ (counted AdmissionExample.decision <= 2)%N.
Proof.
  apply (admitted_count_bounded (AdmissionExample.sealed VerifiedSuccess)
    AdmissionExample.identity AdmissionExample.workload 2).
  exact AdmissionExample.admitted.
Defined.

Lemma admitted_matches_seal_witness :
  counted AdmissionExample.decision
  = observation_count (s_seal (AdmissionExample.sealed VerifiedSuccess)).
Proof.
  destruct (admitted_matches_seal AdmissionExample.from_slice AdmissionExample.bytes
    (AdmissionExample.sealed VerifiedSuccess) AdmissionExample.identity
    AdmissionExample.workload 2 AdmissionExample.decision) as (Hc & _).
  - exact AdmissionExample.log_verifies.
  - exact AdmissionExample.admitted.
  - exact Hc.
Defined.
