(* ===== verification/Executor.v ===== *)
(** The canary executor ([src/supervisor/canary_exec.rs]): the supervisor issues every request of
    the pinned workload itself, times and checks the answers, records one observation per
    request in the log, stops at the first failure and seals the log.

    [World] is what a run changes: the disk, the generation record, the monotonic clock, and
    the number of log writes so far.  [w_written] is a history variable of the model: the header,
    observations and rejections handed to the log writer, in order.  [Oracle] is what the outside world decides. *)

From S2P Require Import Prelude RustStd RustPath RustNum Digest Json Identity Workload.
From S2P Require Import Observation ObservationLog Supervisor Ipc Daemon.
#[local] Open Scope string_scope.

Definition millis (n : N) : N := (n * 1000000)%N.

Record ExecutorConfig := {
  readiness_deadline : N;
  settle_window : N;
  deadline_cap_ms : option N;
  request_limit : option nat;
  halt_after_requests : option nat;
  worker_env : list (string * string)
}.

Definition default_config : ExecutorConfig :=
  {| readiness_deadline := seconds 10; settle_window := millis 150; deadline_cap_ms := None;
     request_limit := None; halt_after_requests := None; worker_env := [] |}.

Record ExecutionSummary := {
  requests_planned : nat;
  recovered : nat;
  issued : nat;
  verified_success : nat;
  wrong_result : nat;
  timeout : nat;
  invalid_response : nat;
  connection_closed : nat;
  rejections : nat;
  ready : bool;
  first_failure : option string;
  reverted : bool
}.

Definition start_summary (planned : nat) : ExecutionSummary :=
  {| requests_planned := planned; recovered := 0; issued := 0; verified_success := 0;
     wrong_result := 0; timeout := 0; invalid_response := 0; connection_closed := 0;
     rejections := 0; ready := false; first_failure := None; reverted := false |}.

(** Updates of single fields of the summary. *)
Definition set_recovered n s : ExecutionSummary :=
  {| requests_planned := requests_planned s; recovered := n; issued := issued s;
     verified_success := verified_success s; wrong_result := wrong_result s;
     timeout := timeout s; invalid_response := invalid_response s;
     connection_closed := connection_closed s; rejections := rejections s; ready := ready s;
     first_failure := first_failure s; reverted := reverted s |}.
Definition add_issued s : ExecutionSummary :=
  {| requests_planned := requests_planned s; recovered := recovered s; issued := S (issued s);
     verified_success := verified_success s; wrong_result := wrong_result s;
     timeout := timeout s; invalid_response := invalid_response s;
     connection_closed := connection_closed s; rejections := rejections s; ready := ready s;
     first_failure := first_failure s; reverted := reverted s |}.
Definition add_rejection s : ExecutionSummary :=
  {| requests_planned := requests_planned s; recovered := recovered s; issued := issued s;
     verified_success := verified_success s; wrong_result := wrong_result s;
     timeout := timeout s; invalid_response := invalid_response s;
     connection_closed := connection_closed s; rejections := S (rejections s);
     ready := ready s; first_failure := first_failure s; reverted := reverted s |}.
Definition set_ready s : ExecutionSummary :=
  {| requests_planned := requests_planned s; recovered := recovered s; issued := issued s;
     verified_success := verified_success s; wrong_result := wrong_result s;
     timeout := timeout s; invalid_response := invalid_response s;
     connection_closed := connection_closed s; rejections := rejections s; ready := true;
     first_failure := first_failure s; reverted := reverted s |}.
Definition set_failure why s : ExecutionSummary :=
  {| requests_planned := requests_planned s; recovered := recovered s; issued := issued s;
     verified_success := verified_success s; wrong_result := wrong_result s;
     timeout := timeout s; invalid_response := invalid_response s;
     connection_closed := connection_closed s; rejections := rejections s; ready := ready s;
     first_failure := Some why; reverted := reverted s |}.
Definition set_reverted s : ExecutionSummary :=
  {| requests_planned := requests_planned s; recovered := recovered s; issued := issued s;
     verified_success := verified_success s; wrong_result := wrong_result s;
     timeout := timeout s; invalid_response := invalid_response s;
     connection_closed := connection_closed s; rejections := rejections s; ready := ready s;
     first_failure := first_failure s; reverted := true |}.
(** The counter of the status just recorded. *)
Definition count_status (st : VerifiedStatus) s : ExecutionSummary :=
  let bump c n := if bool_decide (st = c) then S n else n in
  {| requests_planned := requests_planned s; recovered := recovered s; issued := issued s;
     verified_success := bump VerifiedSuccess (verified_success s);
     wrong_result := bump WrongResult (wrong_result s);
     timeout := bump Observation.Timeout (timeout s);
     invalid_response := bump InvalidResponse (invalid_response s);
     connection_closed := bump ConnectionClosed (connection_closed s);
     rejections := rejections s; ready := ready s; first_failure := first_failure s;
     reverted := reverted s |}.

Inductive ExecutionOutcome :=
  | SealedOutcome (sealed : SealedObservationLog) (summary : ExecutionSummary)
  | Halted (summary : ExecutionSummary).

Definition summary_of (o : ExecutionOutcome) : ExecutionSummary :=
  match o with SealedOutcome _ s | Halted s => s end.
Definition sealed_log (o : ExecutionOutcome) : option SealedObservationLog :=
  match o with SealedOutcome l _ => Some l | Halted _ => None end.

(** ** The world of a run *)

Record World := {
  w_disk : disk;
  w_gen : GenerationInfo;
  w_clock : N;
  w_ops : nat;
  w_written : list LogRecord
}.

(** One turn of waiting on the listening socket: a candidate connection or a failed accept after
    some time, or a quiet tick. *)
Inductive accept_event :=
  | Candidate (waited : N) (c : IpcConnection)
  | AcceptFailed (waited : N)
  | Quiet.

(** Log writes are numbered by [w_ops]; requests by their position. *)
Record Oracle := {
  fate : nat → write_fate;
  wall_ms : nat → N;
  bind_ok : bool;
  spawned : option N;
  vars : list (string * string);
  run_uuid : string;
  handshake_uuid : nat → string;
  accepts : list accept_event;
  exited_at : option N;
  proc_at : nat → disk;
  page_kb : N;
  strays : nat → list string
}.

Definition set_disk (d : disk) (w : World) : World :=
  {| w_disk := d; w_gen := w_gen w; w_clock := w_clock w; w_ops := w_ops w;
     w_written := w_written w |}.
Definition set_gen (g : GenerationInfo) (w : World) : World :=
  {| w_disk := w_disk w; w_gen := g; w_clock := w_clock w; w_ops := w_ops w;
     w_written := w_written w |}.
Definition set_clock (t : N) (w : World) : World :=
  {| w_disk := w_disk w; w_gen := w_gen w; w_clock := t; w_ops := w_ops w;
     w_written := w_written w |}.

(** A write to the log: the disk changes, the record joins the history. *)
Definition log_write {A} (r : LogRecord) (m : M disk A) : M World A := λ w,
  let '(d, res) := m (w_disk w) in
  ({| w_disk := d; w_gen := w_gen w; w_clock := w_clock w; w_ops := S (w_ops w);
      w_written := w_written w ++ [r] |}, res).

Definition observation_log_path (rsi_root generation_id : string) : string :=
  path_join (path_join (path_join rsi_root "canary") "observations") (generation_id +:+ ".jsonl").
Definition generation_socket_path (rsi_root generation_id : string) : string :=
  path_join (path_join rsi_root "workers") (generation_id +:+ ".sock").

Section Executor.
Context `{Sha256} `{JsonStr} `{WorkerCodec}.
(** [serde_json::from_slice::<LogRecord>]. *)
Context (from_slice : string → option LogRecord).

Fixpoint records_of_lines (path : string) (lines : list string) : result (list LogRecord) :=
  match lines with
  | [] => Ok []
  | line :: rest =>
    r ← ok_or (from_slice line) (Fmt "observation log {:?} has an unreadable record: {}" [path]);
    rs ← records_of_lines path rest;
    Ok (r :: rs)
  end.

Definition stored_records (d : disk) (path : string) : result (list LogRecord) :=
  bytes ← read_file d path "cannot read observation log {:?}: {}";
  records_of_lines path (split_lines bytes).1.

(** *** The executor *)

Context (sup : HostSupervisor) (config : SupervisorConfig) (workload : PinnedWorkload)
  (identity : CandidateIdentity) (executable : string) (args : list string)
  (exec : ExecutorConfig) (oracle : Oracle).

Definition gen_id : string := Identity.generation_id identity.
Definition log_path : string := observation_log_path (rsi_root config) gen_id.
Definition sock_path : string := generation_socket_path (rsi_root config) gen_id.

(** [requests]. *)
Definition planned : list CanaryRequestSpec :=
  let all := requests (manifest workload) in
  match request_limit exec with
  | Some n => take (Nat.min n (length all)) all
  | None => all
  end.

Definition wanted_header (now : N) : LogHeader :=
  new_header gen_id (pinned_digest workload) (executable_digest identity) now.

(** A call of the log module that writes, or does not, the header. *)
Definition on_disk {A} (m : M disk A) : M World A := λ w,
  let '(d, res) := m (w_disk w) in (set_disk d w, res).

Definition open_log : M World ObservationLogWriter := λ w,
  let wanted := wanted_header (wall_ms oracle (w_ops w)) in
  if negb (bool_decide (is_Some (w_disk w !! log_path)))
  then log_write (RHeader wanted) (create (fate oracle (w_ops w)) log_path wanted) w
  else match stored_records (w_disk w) log_path with
  | Err e => (w, Err e)
  | Ok (RHeader existing :: _) =>
    if negb (bool_decide (h_generation_id existing = h_generation_id wanted))
       || negb (bool_decide (h_workload_digest existing = h_workload_digest wanted))
       || negb (bool_decide (h_candidate_executable_digest existing
                             = h_candidate_executable_digest wanted))
    then (w, fail
      "observation log {:?} is bound to another generation, workload or executable; refusing"
      [log_path])
    else on_disk (reopen from_slice log_path existing) w
  | Ok _ => (w, fail "observation log {:?} has no header; refusing" [log_path])
  end.

(** [record_rejection]: a rejection that cannot be written is only traced. *)
Definition record_rejection (writer : ObservationLogWriter) (why : string)
    (s : ExecutionSummary) : M World ExecutionSummary := λ w,
  let at_ms := wall_ms oracle (w_ops w) in
  let '(w, r) := log_write (RRejection {| reason := why; rejected_at_ms := at_ms |})
                   (append_rejection (fate oracle (w_ops w)) writer why at_ms) w in
  (w, Ok (if is_ok r then add_rejection s else s)).

Fixpoint drain_strays (writer : ObservationLogWriter) (reasons : list string)
    (s : ExecutionSummary) : M World ExecutionSummary :=
  match reasons with
  | [] => mret s
  | why :: rest => s ← record_rejection writer why s; drain_strays writer rest s
  end.

(** [finish]: marks an early safety revert, then seals. *)
Definition finish (writer : ObservationLogWriter) (s : ExecutionSummary) (revert : bool)
    : M World ExecutionOutcome := λ w,
  let '(w, s) := if revert then (set_gen (set_state Reverting (w_gen w)) w, set_reverted s)
                 else (w, s) in
  let '(d, r) := seal from_slice (fate oracle (w_ops w)) writer (wall_ms oracle (w_ops w))
                   (w_disk w) in
  ({| w_disk := d; w_gen := w_gen w; w_clock := w_clock w; w_ops := S (w_ops w);
      w_written := w_written w |},
   match r with Ok sealed => Ok (SealedOutcome sealed s) | Err e => Err e end).

(** *** Readiness *)

Definition TICK : N := millis 50.

(** The worker has exited by time [t]. *)
Definition has_exited (t : N) : bool :=
  match exited_at oracle with Some e => (e <=? t)%N | None => false end.

(** The loop that waits for an authenticated connection, turn [n]; when nothing more comes it
    ticks on until the worker exits or the deadline passes. *)
Fixpoint wait_ready (writer : ObservationLogWriter) (ready_by : N) (run_secret : string) (n : nat)
    (events : list accept_event) (s : ExecutionSummary)
    : M World (option IpcConnection * ExecutionSummary) := λ w,
  let timed_out :=
    set_failure ("no authenticated versioned readiness within "
                 +:+ debug_duration (readiness_deadline exec)) s in
  let exited := set_failure "worker exited before it became ready" s in
  if (ready_by <=? w_clock w)%N then (w, Ok (None, timed_out))
  else
    let tick := N.min (ready_by - w_clock w) TICK in
    match events with
    | [] =>
      if match exited_at oracle with Some e => (e <=? ready_by)%N | None => false end
      then (set_clock (N.max (w_clock w) (default 0%N (exited_at oracle))) w, Ok (None, exited))
      else (set_clock ready_by w, Ok (None, timed_out))
    | Quiet :: events =>
      let w := set_clock (w_clock w + tick)%N w in
      if has_exited (w_clock w) then (w, Ok (None, exited))
      else wait_ready writer ready_by run_secret (S n) events s w
    | AcceptFailed waited :: events =>
      wait_ready writer ready_by run_secret (S n) events s
        (set_clock (w_clock w + N.min waited tick)%N w)
    | Candidate waited c :: events =>
      let w := set_clock (w_clock w + N.min waited tick)%N w in
      let remaining := (ready_by - w_clock w)%N in
      match authenticate_worker_connection (handshake_uuid oracle n) gen_id run_secret remaining
              (w_clock w) c with
      | (c, now, inr auth) =>
        if can_execute_for auth gen_id then (set_clock now w, Ok (Some c, s))
        else wait_ready writer ready_by run_secret (S n) events s (set_clock now w)
      | (c, now, inl f) =>
        (s ← record_rejection writer (failure_text f) s;
         wait_ready writer ready_by run_secret (S n) events s) (set_clock now w)
      end
    end.

(** *** Waiting for one result *)

(** What the frame [msg] does to the wait for the result of [spec]: end it with a status and
    an output, reject it and go on, reject it and close, or ignore it. *)
Inductive frame_effect :=
  | Ends (st : VerifiedStatus) (output : option string)
  | Rejects (why : string)
  | RejectsAndCloses (why : string)
  | Ignored.

Definition result_effect (spec : CanaryRequestSpec) (issued answered : gset string)
    (version : N) (named request_id output : string) : frame_effect :=
  if bool_decide (request_id = Workload.request_id spec) then
    if negb (version =? CANARY_PROTOCOL_VERSION)%N || negb (bool_decide (named = gen_id))
    then Ends InvalidResponse None
    else Ends VerifiedSuccess (Some output)
  else
    let why := if bool_decide (request_id ∈ answered) then "already answered"
               else if bool_decide (request_id ∈ issued) then "not the open request"
               else "not issued" in
    let text := "ExecuteResult for request " +:+ request_id +:+ " which was " +:+ why in
    if negb (bool_decide (named = gen_id)) then RejectsAndCloses text else Rejects text.

Definition on_frame (spec : CanaryRequestSpec) (issued answered : gset string)
    (msg : WorkerMessage) : frame_effect :=
  let unexpected :=
    Rejects ("unexpected frame on the authenticated connection: " +:+ debug_worker msg) in
  let foreign named := RejectsAndCloses ("message naming generation " +:+ named) in
  match msg with
  | ExecuteResult version named request_id output _ =>
    result_effect spec issued answered version named request_id output
  | Heartbeat named _ _ _ | CanaryReport named _ _ _ _ =>
    if bool_decide (named = gen_id) then Ignored else foreign named
  | Pong => Ignored
  | DrainComplete named =>
    if bool_decide (named = gen_id) then unexpected else foreign named
  | _ => unexpected
  end.

(** The status a failed read ends the wait with. *)
Definition on_error (e : string) : VerifiedStatus :=
  if str_contains "closed by peer" e then ConnectionClosed
  else if str_contains "Failed to read" e then ConnectionClosed
  else InvalidResponse.

(** The wait's outcome: the connection, the summary, the status and the output.  The loop is
    recursive on the frames still to come, because every turn that goes on has consumed one. *)
Definition wait_outcome : Type :=
  IpcConnection * ExecutionSummary * VerifiedStatus * option string.

Definition with_inbox (frames : list incoming) (c : IpcConnection) : IpcConnection :=
  {| inbox := frames; closed_at := closed_at c; broken_at := broken_at c; sent := sent c |}.

Fixpoint await_frames (spec : CanaryRequestSpec) (issued answered : gset string)
    (deadline_at : N) (writer : ObservationLogWriter) (frames : list incoming)
    (c : IpcConnection) (s : ExecutionSummary) : M World wait_outcome := λ w,
  let '(c, now, r) := recv (Some deadline_at) (w_clock w) (with_inbox frames c) in
  let w := set_clock now w in
  match r with
  | TimedOut | Blocked => (w, Ok (c, s, Observation.Timeout, None))
  | RecvError e => (w, Ok (c, s, on_error e, None))
  | Got msg =>
    match frames with
    | [] => (w, Ok (c, s, Observation.Timeout, None))
    | _ :: rest =>
      match on_frame spec issued answered msg with
      | Ends st output => (w, Ok (c, s, st, output))
      | Ignored => await_frames spec issued answered deadline_at writer rest c s w
      | Rejects why =>
        (s ← record_rejection writer why s;
         await_frames spec issued answered deadline_at writer rest c s) w
      | RejectsAndCloses why =>
        (s ← record_rejection writer why s; mret (c, s, ConnectionClosed, None)) w
      end
    end
  end.

Definition await_result (spec : CanaryRequestSpec) (issued answered : gset string)
    (started deadline_ms : N) (writer : ObservationLogWriter) (c : IpcConnection)
    (s : ExecutionSummary) : M World wait_outcome :=
  await_frames spec issued answered (started + millis deadline_ms)%N writer (inbox c) c s.

(** *** One request *)

Definition effective_deadline_ms (spec : CanaryRequestSpec) : N :=
  match deadline_cap_ms exec with
  | Some cap => N.min (Workload.deadline_ms spec) cap
  | None => Workload.deadline_ms spec
  end.

(** Status and result digest after the answer is compared with the expectation and the deadline. *)
Definition judge (spec : CanaryRequestSpec) (st : VerifiedStatus) (output : option string)
    (elapsed deadline_ms : N) : VerifiedStatus * option string :=
  let digest := digest_result <$> output in
  if bool_decide (st = VerifiedSuccess) || bool_decide (st = WrongResult) then
    if (millis deadline_ms <? elapsed)%N then (Observation.Timeout, None)
    else (if negb (matches_output spec (default "" output)) then WrongResult
          else VerifiedSuccess, digest)
  else (st, digest).

(** The memory check before a success is recorded: the reason to revert, if any. *)
Definition budget_failure (i : nat) (pid : option N) : option string :=
  match pid with
  | Some p =>
    match is_memory_within_budget sup (proc_at oracle i) (page_kb oracle) p with
    | Ok true => None
    | Ok false => Some ("resource budget exceeded: worker above "
                        +:+ dec (memory_limit_mb sup) +:+ " MB")
    | Err e => Some ("resource budget unreadable, reverting: " +:+ render e)
    end
  | None => Some "resource budget unreadable, reverting: no worker pid to read"
  end.

Definition request_digest_of (spec : CanaryRequestSpec) : string :=
  Workload.request_digest (workload_id (manifest workload)) spec.

Definition make_observation (spec : CanaryRequestSpec) (st : VerifiedStatus)
    (digest : option string) (elapsed at_ms : N) : CanaryObservationV2 :=
  Observation.new
    {| in_generation_id := gen_id; in_request_id := Workload.request_id spec;
       in_request_digest := request_digest_of spec;
       in_workload_digest := pinned_digest workload;
       in_candidate_executable_digest := executable_digest identity;
       in_result_digest := digest; in_elapsed_us := wrap64 (elapsed / 1000);
       in_observed_at_ms := at_ms; in_status := st; in_provenance := Measured |}.

Definition record_observation (writer : ObservationLogWriter) (spec : CanaryRequestSpec)
    (st : VerifiedStatus) (digest : option string) (elapsed : N)
    : M World ObservationLogWriter := λ w,
  let o := make_observation spec st digest elapsed (wall_ms oracle (w_ops w)) in
  (r ← log_write (RObservation {| observation := o; observation_digest := digest_hex o |})
         (append_observation (fate oracle (w_ops w)) writer o);
   mret r.1) w.

(** The loop's variables, and how one request leaves it. *)
Record LoopState := {
  l_conn : IpcConnection;
  l_writer : ObservationLogWriter;
  l_summary : ExecutionSummary;
  l_issued : gset string;
  l_answered : gset string;
  l_recorded : nat
}.

Inductive step := Next | Revert | Halt.

#[export] Instance step_eq_dec : EqDecision step.
Proof. solve_decision. Defined.

(** Issue the request and wait: the status, the output and the time it took. *)
Definition issue (spec : CanaryRequestSpec) (l : LoopState)
    : M World (IpcConnection * ExecutionSummary * VerifiedStatus * option string * N) := λ w,
  let started := w_clock w in
  let deadline_ms := effective_deadline_ms spec in
  match send (ExecuteRequest CANARY_PROTOCOL_VERSION gen_id (Workload.request_id spec)
                (request_digest_of spec) (pinned_digest workload) (input spec) deadline_ms)
          started (l_conn l) with
  | (c, inl _) => (w, Ok (c, l_summary l, ConnectionClosed, None, 0%N))
  | (c, inr _) =>
    ('(c, s, st, output) ← await_result spec (l_issued l) (l_answered l) started deadline_ms
                             (l_writer l) c (l_summary l);
     w' ← mget;
     mret (c, s, st, output, w_clock w' - started)%N) w
  end.

Definition run_request (i : nat) (spec : CanaryRequestSpec) (l : LoopState)
    : M World (LoopState * step) :=
  s ← drain_strays (l_writer l) (strays oracle i) (l_summary l);
  w ← mget;
  let l := {| l_conn := l_conn l; l_writer := l_writer l; l_summary := add_issued s;
              l_issued := {[Workload.request_id spec]} ∪ l_issued l;
              l_answered := l_answered l; l_recorded := l_recorded l |} in
  '(c, s, st, output, elapsed) ← issue spec l;
  let '(st, digest) := judge spec st output elapsed (effective_deadline_ms spec) in
  match (if bool_decide (st = VerifiedSuccess) then budget_failure i (pid (w_gen w)) else None) with
  | Some why =>
    s ← record_rejection (l_writer l) why s;
    mret ({| l_conn := c; l_writer := l_writer l;
             l_summary := set_failure (Workload.request_id spec +:+ ": " +:+ why) s;
             l_issued := l_issued l; l_answered := l_answered l; l_recorded := l_recorded l |},
          Revert)
  | None =>
    writer ← record_observation (l_writer l) spec st digest elapsed;
    let s := count_status st s in
    let failed := negb (bool_decide (st = VerifiedSuccess)) in
    let s := if failed
             then set_failure (Workload.request_id spec +:+ ": " +:+ status_debug st) s else s in
    let recorded := S (l_recorded l) in
    mret ({| l_conn := c; l_writer := writer; l_summary := s; l_issued := l_issued l;
             l_answered := {[Workload.request_id spec]} ∪ l_answered l;
             l_recorded := recorded |},
          if failed then Revert
          else if bool_decide (halt_after_requests exec = Some recorded) then Halt else Next)
  end.

(** The loop over the requests still to do, with the position of the next. *)
Fixpoint run_requests (i : nat) (todo : list CanaryRequestSpec) (l : LoopState)
    : M World (LoopState * step) :=
  match todo with
  | [] => mret (l, Next)
  | spec :: rest =>
    '(l, st) ← run_request i spec l;
    match st with Next => run_requests (S i) rest l | _ => mret (l, st) end
  end.

(** *** The run *)

(** One record of the scan of the stored log: count the observations, keep the first failure. *)
Definition scan_record (acc : ExecutionSummary * option string) (r : LogRecord)
    : ExecutionSummary * option string :=
  let '(s, failure) := acc in
  match r with
  | RObservation o =>
    let ob := observation o in
    (set_recovered (S (recovered s)) s,
     match failure with
     | None =>
       if negb (bool_decide (status ob = VerifiedSuccess))
       then Some (Observation.request_id ob +:+ ": " +:+ status_debug (status ob)
                  +:+ " recorded before a restart")
       else None
     | Some _ => failure
     end)
  | _ => acc
  end.

Definition scan_stored (records : list LogRecord) (s : ExecutionSummary)
    : ExecutionSummary * option string := foldl scan_record (s, None) records.

(** The requests whose observation is not in the log yet. *)
Definition todo (writer : ObservationLogWriter) : list CanaryRequestSpec :=
  List.filter (λ spec, negb (contains writer
    (derive_id gen_id (Workload.request_id spec) (request_digest_of spec)))) planned.

(** After the loop: let the last stray connections arrive, record them and seal. *)
Definition wind_down (l : LoopState) (revert : bool) (i : nat) : M World ExecutionOutcome :=
  _ ← mmodify (λ w, if revert then w else set_clock (w_clock w + settle_window exec)%N w);
  s ← drain_strays (l_writer l) (strays oracle i) (l_summary l);
  finish (l_writer l) s revert.

(** With an authenticated connection. *)
Definition run_canary (c : IpcConnection) (writer : ObservationLogWriter) (s : ExecutionSummary)
    (pending : list CanaryRequestSpec) : M World ExecutionOutcome :=
  _ ← mmodify (λ w, set_gen (set_state CanaryActive (w_gen w)) w);
  '(l, st) ← run_requests 0 pending
               {| l_conn := c; l_writer := writer; l_summary := set_ready s;
                  l_issued := ∅; l_answered := ∅; l_recorded := 0 |};
  match st with
  | Halt => mret (Halted (l_summary l))
  | _ => wind_down l (bool_decide (st = Revert)) (length pending)
  end.

(** From the launch of the worker on. *)
Definition run_worker (writer : ObservationLogWriter) (s : ExecutionSummary)
    (pending : list CanaryRequestSpec) : M World ExecutionOutcome :=
  if negb (bind_ok oracle) then mlift (fail "Failed to bind Unix socket at {:?}: {}" [sock_path])
  else
    let run_secret := "canary-run-" +:+ run_uuid oracle in
    w ← mget;
    let '(g, launched) :=
      spawn_worker_process (vars oracle) (spawned oracle) executable args sock_path
        (("SUPERVISOR_SECRET", run_secret) :: worker_env exec) (w_gen w) in
    _ ← mmodify (set_gen g);
    _ ← mlift launched;
    '(conn, s) ← wait_ready writer (w_clock w + readiness_deadline exec)%N run_secret 0
                   (accepts oracle) s;
    match conn with
    | None => finish writer s true
    | Some c => run_canary c writer s pending
    end.

(** With the log open and its records read back. *)
Definition after_open (writer : ObservationLogWriter) (records : list LogRecord)
    : M World ExecutionOutcome :=
  let '(s, prior_failure) := scan_stored records (start_summary (length planned)) in
  match prior_failure with
  | Some why => finish writer (set_failure why s) true
  | None =>
    let pending := todo writer in
    if bool_decide (pending = []) then finish writer (set_ready s) false
    else run_worker writer s pending
  end.

Definition run : M World ExecutionOutcome :=
  _ ← mlift (Identity.validate identity);
  w ← mget;
  if negb (bool_decide (Supervisor.generation_id (w_gen w) = gen_id)) then
    mlift (fail "generation {} is not the candidate identity's generation {}"
      [Supervisor.generation_id (w_gen w); gen_id])
  else
    _ ← mlift (Workload.validate (manifest workload));
    if negb (bool_decide (Workload.digest (manifest workload) = pinned_digest workload)) then
      mlift (fail "pinned workload does not match its own digest; refusing" [])
    else
      _ ← mlift (verify_executable (w_disk w) identity executable);
      writer ← open_log;
      w ← mget;
      records ← mlift (stored_records (w_disk w) log_path);
      after_open writer records.
End Executor.
