(* ===== verification/ExecutorProps.v ===== *)
(** Properties of the canary executor: a run that is not reverted leaves a log the quota
    validator admits, a reverted run never does, only the supervisor's own comparison makes a
    success, and no run makes a generation durable. *)

From S2P Require Import Prelude RustStd RustPath RustNum Digest Json Identity Workload.
From S2P Require Import Observation ObservationLog ObservationLogProps Admission.
From S2P Require Import Supervisor Ipc Daemon Executor.
#[local] Open Scope string_scope.
#[local] Open Scope list_scope.

Lemma M_bind_run {S A B} (f : A → M S B) (m : M S A) s s' r :
  (m ≫= f) s = (s', r) →
  (∃ s1 a, m s = (s1, Ok a) ∧ f a s1 = (s', r)) ∨ (∃ e, m s = (s', Err e) ∧ r = Err e).
Proof.
  unfold mbind, M_bind. destruct (m s) as [s1 [a|e]]; intros Heq; [left; by eauto|right].
  injection Heq as <- <-. eauto.
Qed.

Lemma M_bind_get {S A} (f : S → M S A) s : (mget ≫= f) s = f s s.
Proof. done. Qed.

Section Log.
Context `{Sha256} `{JsonStr} `{!JsonStrSpec} `{WorkerCodec}.
Context (from_slice : string → option LogRecord).

(** ** Log writes that are not torn *)

(** A failed write leaves nothing of the line, or (a failed sync) all of it. *)
Definition untorn (f : write_fate) : Prop := ∀ k, f = WriteFails k → k = 0%nat.

Lemma append_bytes_nil d w es :
  log_rep from_slice d w es → log_rep from_slice (append_bytes (w_path w) "" d) w es.
Proof.
  intros [Hd ? ? ?]. constructor; try done.
  unfold append_bytes. rewrite lookup_insert_eq, Hd. simpl. by rewrite str_app_nil_r.
Qed.

Lemma rejection_any_fate f d w es why at_ms d' r :
  untorn f → log_rep from_slice d w es →
  reads_back from_slice (RRejection {| reason := why; rejected_at_ms := at_ms |}) →
  append_rejection f w why at_ms d = (d', r) →
  ∃ es', log_rep from_slice d' w es' ∧ obs_of es' = obs_of es.
Proof.
  intros Hf Hrep Hrb Ha.
  destruct (rejection_refines from_slice d w es why at_ms Hrep Hrb) as (d1 & Ho & Hrep1 & _).
  revert Ha. unfold append_rejection, write_synced in *. injection Ho as Ho.
  destruct f as [|k|]; intros [= <- <-].
  - rewrite Ho. eexists. split; [done|]. apply obs_of_snoc_rej.
  - rewrite (Hf k eq_refl). exists es. split; [|done].
    by apply append_bytes_nil.
  - rewrite Ho. eexists. split; [done|]. apply obs_of_snoc_rej.
Qed.

(** A successful append of an observation whose id is new. *)
Lemma append_new d w es o f d' w' out :
  log_rep from_slice d w es →
  observation_id o ∉ observation_id <$> obs_of es →
  reads_back from_slice (entry_record (EObs o)) →
  append_observation f w o d = (d', Ok (w', out)) →
  log_rep from_slice d' w' (es ++ [EObs o]) ∧ w_path w' = w_path w ∧ w_header w' = w_header w ∧
  observation_wf o ∧ bound (w_header w) o.
Proof.
  intros Hrep Hnew Hrb Ha. pose proof (append_refines from_slice d w es o f Hrep) as Hr.
  destruct (abs_append (w_header w) es o) as [[es' []]|e] eqn:Habs.
  - destruct Hr as (Hwf & Hb & -> & _ & Happ). rewrite Happ in Ha.
    destruct f; [|done..]. injection Ha as <- <- <-. split; [|done].
    by apply log_rep_snoc.
  - exfalso. revert Habs. unfold abs_append.
    destruct (validate o) as [[]|]; [|done]. simpl.
    destruct (check_bindings _ o) as [[]|]; [|done]. simpl.
    destruct (list_find _ _) as [[i o']|] eqn:Hf; [|done].
    apply list_find_Some in Hf as (Hl & Hid & _). intros _. apply Hnew. rewrite <- Hid.
    apply list_elem_of_fmap_2. by eapply list_elem_of_lookup_2.
  - rewrite Hr in Ha. done.
Qed.

Lemma unlines_inj ls ls' :
  Forall (λ l, contains_byte newline l = false) ls →
  Forall (λ l, contains_byte newline l = false) ls' → unlines ls = unlines ls' → ls = ls'.
Proof.
  intros Hl Hl' Heq. apply (f_equal (λ s, split_lines (s +:+ ""))) in Heq.
  rewrite !split_unlines in Heq by done. by injection Heq.
Qed.

(** Whatever the deserializer makes of the seal line, a log that seals holds its entries. *)
Lemma seal_ok f d w es at_ms d' s :
  log_rep from_slice d w es → seal from_slice f w at_ms d = (d', Ok s) →
  s_header s = w_header w ∧ s_observations s = obs_of es.
Proof.
  intros [Hd Hwf _ _]. unfold seal, mlift, mget, mbind, M_bind, read_file. rewrite Hd.
  cbn [ok_or]. pose proof (parse_text from_slice _ _ "" Hwf eq_refl) as Hp.
  rewrite str_app_nil_r in Hp. rewrite Hp. cbn [p_seal partial_tail p_observations].
  rewrite bool_decide_false by (by intros []). rewrite bool_decide_true by done. cbn [negb].
  destruct f; [|done..]. cbn [write_synced]. set (line := to_line _). unfold load, read_file.
  unfold append_bytes at 2. rewrite lookup_insert_eq, Hd. cbn [ok_or mbind result_bind default].
  destruct (verify_bytes from_slice _) as [s1|] eqn:Hv; [|done].
  intros [= _ <-]. simpl.
  apply verify_bytes_text in Hv as (ls & st & [Hb Hc Hinv Hst Hh Ho _ _ _ _]).
  assert (ls = record_line (RHeader (w_header w)) :: entry_lines es) as ->.
  { set (body := record_line (RHeader (w_header w)) :: entry_lines es) in *.
    assert (ls ++ [record_line (RSeal (s_seal s1))] = body ++ [String.substring 0
      (String.length line - 1) line]) as Heq.
    { apply unlines_inj.
      - apply Forall_app. split; [done|]. apply Forall_singleton, record_line_clean.
      - apply Forall_app. split; [apply lines_clean|]. apply Forall_singleton.
        unfold line, to_line. rewrite str_app_length, Nat.add_sub, substring_app.
        apply record_line_clean.
      - rewrite !unlines_app. unfold line at 1 2, to_line.
        rewrite str_app_length, Nat.add_sub, substring_app.
        cbn [unlines foldr]. symmetry. exact Hb. }
    by apply app_inj_tail in Heq as [? _]. }
  revert Hp. unfold parse_log, text. rewrite <- (str_app_nil_r (unlines _)).
  rewrite split_unlines by (done || apply lines_clean). rewrite Hst. cbn [mbind result_bind].
  case_match; [done|]. intros [= Hh1 Ho1 _ _ _]. split; congruence.
Qed.
End Log.

Section Run.
Context `{Sha256} `{JsonStr} `{!JsonStrSpec} `{WorkerCodec}.
Context (from_slice : string → option LogRecord).
Context (sup : HostSupervisor) (config : SupervisorConfig) (workload : PinnedWorkload)
  (identity : CandidateIdentity) (executable : string) (args : list string)
  (exec : ExecutorConfig) (oracle : Oracle).
Context (Huntorn : ∀ n, untorn (fate oracle n)).

Abbreviation gen_id := (gen_id identity).
Abbreviation log_path := (log_path config identity).
Abbreviation w_manifest := (manifest workload).

(** The id the observation of a request gets. *)
Definition id_of (spec : CanaryRequestSpec) : string :=
  derive_id gen_id (Workload.request_id spec) (request_digest_of workload spec).

(** A stored observation is a failure or evidence for a request of the workload. *)
Definition recorded_ok (o : CanaryObservationV2) : Prop :=
  status o = VerifiedSuccess → ∃ spec, counts_for identity w_manifest o spec.

Definition all_success (es : list entry) : Prop :=
  ∀ o, o ∈ obs_of es → status o = VerifiedSuccess.

Definition stored_ids (es : list entry) : list string := observation_id <$> obs_of es.

(** ** The log during a run *)

Record log_ok (w : World) (writer : ObservationLogWriter) (es : list entry) : Prop := {
  lo_rep : log_rep from_slice (w_disk w) writer es;
  lo_path : w_path writer = log_path;
  lo_generation : h_generation_id (w_header writer) = gen_id;
  lo_workload : h_workload_digest (w_header writer) = pinned_digest workload;
  lo_executable : h_candidate_executable_digest (w_header writer) = executable_digest identity;
  lo_good : ∀ o, o ∈ obs_of es → recorded_ok o
}.

(** Every record written by [w] reads back. *)
Definition reads (w : World) : Prop := Forall (reads_back from_slice) (w_written w).

(** [w'] wrote at least what [w] did. *)
Definition wrote_more (w w' : World) : Prop := w_written w `prefix_of` w_written w'.

#[local] Instance wrote_more_preorder : PreOrder wrote_more.
Proof. unfold wrote_more. split; [intros w; done|intros a b c ? ?; by etrans]. Qed.

Lemma reads_before w w' : wrote_more w w' → reads w' → reads w.
Proof. unfold wrote_more, reads. intros [l ->]. by intros [? _]%Forall_app. Qed.

(** The field of the summary the verdict depends on. *)
Definition same_verdict (s s' : ExecutionSummary) : Prop := reverted s' = reverted s.

Lemma log_ok_ext w w' writer es :
  w_disk w' = w_disk w → log_ok w writer es → log_ok w' writer es.
Proof. intros Hd [Hrep ? ? ? ? ?]. constructor; try done. by rewrite Hd. Qed.

(** A step that writes nothing but rejections. *)
Record keeps_log (writer : ObservationLogWriter) (w w' : World) : Prop := {
  kl_written : wrote_more w w';
  kl_gen : w_gen w' = w_gen w;
  kl_log : reads w' → ∀ es, log_ok w writer es →
             ∃ es', log_ok w' writer es' ∧ obs_of es' = obs_of es
}.

#[local] Instance keeps_log_preorder writer : PreOrder (keeps_log writer).
Proof.
  split.
  - intros w. split; [unfold wrote_more; reflexivity|done|]. intros _ es Hlog. by exists es.
  - intros w1 w2 w3 [Hw1 Hg1 Hl1] [Hw2 Hg2 Hl2]. split; [by etrans|congruence|].
    intros Hr es Hlog. destruct (Hl1 (reads_before _ _ Hw2 Hr) es Hlog) as (es1 & Hlog1 & He1).
    destruct (Hl2 Hr es1 Hlog1) as (es2 & Hlog2 & He2). exists es2. split; congruence.
Qed.

Lemma keeps_log_clock writer t w : keeps_log writer w (set_clock t w).
Proof.
  split; [unfold wrote_more; reflexivity|done|]. intros _ es Hlog. exists es.
  split; [by apply (log_ok_ext w)|done].
Qed.

Lemma record_rejection_spec writer why s w w' r :
  record_rejection oracle writer why s w = (w', r) →
  keeps_log writer w w' ∧ w_clock w' = w_clock w ∧ ∃ s', r = Ok s' ∧ same_verdict s s'.
Proof.
  unfold record_rejection, log_write.
  destruct (append_rejection _ _ _ _ _) as [d res] eqn:Ha. intros [= <- <-]. simpl.
  split; [|split; [done|]].
  2: { eexists. split; [done|]. by destruct (is_ok res). }
  split; [by eexists|done|]. intros Hr es [Hrep ? ? ? ? Hgood]. unfold reads in Hr. simpl in Hr.
  apply Forall_app in Hr as [_ Hr]. rewrite Forall_singleton in Hr.
  destruct (rejection_any_fate from_slice _ _ _ _ _ _ _ _ (Huntorn (w_ops w)) Hrep Hr Ha)
    as (es' & Hrep' & Hobs).
  exists es'. split; [|done]. constructor; try done. by rewrite Hobs.
Qed.

(** What follows a rejection record. *)
Lemma after_rejection {A} writer why s w w' r (f : ExecutionSummary → M World A) :
  (s ← record_rejection oracle writer why s; f s) w = (w', r) →
  ∃ w1 s1, keeps_log writer w w1 ∧ w_clock w1 = w_clock w ∧ same_verdict s s1 ∧
    f s1 w1 = (w', r).
Proof.
  intros Hrun. apply M_bind_run in Hrun as [(w1 & s1 & Hr1 & Hrest)|(e & Hr1 & ->)];
    apply record_rejection_spec in Hr1 as (Hk & Hc & (s1' & Heq & Hs1)); [|done].
  injection Heq as <-. eauto 10.
Qed.

Lemma same_verdict_trans a b c : same_verdict a b → same_verdict b c → same_verdict a c.
Proof. unfold same_verdict. congruence. Qed.

Lemma drain_strays_spec writer reasons s w w' r :
  drain_strays oracle writer reasons s w = (w', r) →
  keeps_log writer w w' ∧ w_clock w' = w_clock w ∧ ∃ s', r = Ok s' ∧ same_verdict s s'.
Proof.
  revert s w. induction reasons as [|why rest IH]; intros s w; cbn [drain_strays].
  - intros [= <- <-]. split_and!; [done..|by exists s].
  - intros (w1 & s1 & Hk1 & Hc1 & Hs1 & Hrest)%after_rejection.
    apply IH in Hrest as (Hk2 & Hc2 & (s2 & -> & Hs2)).
    split_and!; [by etrans|congruence|]. exists s2. split; [done|].
    by eapply same_verdict_trans.
Qed.

(** ** Waiting for a result *)

Lemma await_frames_log spec iss ans dl writer frames c s w w' r :
  await_frames identity oracle spec iss ans dl writer frames c s w = (w', r) →
  keeps_log writer w w' ∧ ∃ c' s' st out, r = Ok (c', s', st, out) ∧ same_verdict s s'.
Proof.
  revert c s w. induction frames as [|i rest IH]; intros c s w; cbn [await_frames];
    destruct (recv _ _ _) as [[c1 now] [msg| | |]];
    try (intros [= <- <-]; split; [apply keeps_log_clock|by eexists _, _, _, _]).
  pose proof (keeps_log_clock writer now w) as Hclock.
  destruct (on_frame _ _ _ _ msg) as [st out|why|why|].
  - intros [= <- <-]. split; [done|by eexists _, _, _, _].
  - intros (w1 & s1 & Hk1 & _ & Hs1 & Hrest)%after_rejection.
    apply IH in Hrest as (Hk2 & (c2 & s2 & st & out & -> & Hs2)).
    split; [do 2 (etrans; [eassumption|]); done|]. eexists _, s2, _, _. split; [done|].
    by eapply same_verdict_trans.
  - intros (w1 & s1 & Hk1 & _ & Hs1 & [= <- <-])%after_rejection.
    split; [by etrans|]. by eexists _, _, _, _.
  - intros (Hk2 & Hs2)%IH. split; [by etrans|done].
Qed.

(** ** One request *)

Context (Hworkload : workload_wf w_manifest).
Context (Hdigest : Workload.digest w_manifest = pinned_digest workload).

Lemma judge_success spec st output elapsed dl dg :
  judge spec st output elapsed dl = (VerifiedSuccess, dg) →
  (elapsed <= millis dl)%N ∧ matches_output spec (default "" output) = true ∧
  dg = digest_result <$> output.
Proof.
  unfold judge. destruct (_ || _) eqn:Hst.
  - destruct (N.ltb_spec (millis dl) elapsed); [done|].
    destruct (matches_output spec _); simpl; [|done]. by intros [= <-].
  - intros [= -> _]. by rewrite bool_decide_true in Hst.
Qed.

Lemma deadline_us spec elapsed :
  (elapsed <= millis (effective_deadline_ms exec spec))%N →
  (wrap64 (elapsed / 1000) <= sat_mul64 (Workload.deadline_ms spec) 1000)%N.
Proof.
  intros He. unfold sat_mul64, wrap64, u64_max.
  pose proof (N.Div0.mod_le (elapsed / 1000) 18446744073709551616).
  pose proof (N.mod_lt (elapsed / 1000) 18446744073709551616 ltac:(lia)).
  assert (elapsed / 1000 <= effective_deadline_ms exec spec * 1000)%N.
  { unfold millis in He. apply N.Div0.div_le_upper_bound. lia. }
  assert (effective_deadline_ms exec spec <= Workload.deadline_ms spec)%N.
  { unfold effective_deadline_ms. case_match; lia. }
  apply N.min_glb; nia.
Qed.

Lemma recorded_counts spec st output elapsed dg at_ms :
  spec ∈ requests w_manifest →
  judge spec st output elapsed (effective_deadline_ms exec spec) = (VerifiedSuccess, dg) →
  let o := make_observation workload identity spec VerifiedSuccess dg elapsed at_ms in
  observation_wf o → counts_for identity w_manifest o spec.
Proof.
  intros Hin (He & Hm & ->)%judge_success o Hwf.
  pose proof (wf_result _ Hwf) as Hres. simpl in Hres.
  destruct output as [out|]; simpl in *; [|by destruct Hres].
  constructor; try done; simpl.
  - by apply request_found.
  - unfold matches_output in Hm. destruct (nondeterminism spec).
    apply bool_decide_eq_true in Hm as ->. done.
  - by apply deadline_us.
Qed.

Lemma record_observation_spec writer spec st dg elapsed w w' writer' :
  record_observation workload identity oracle writer spec st dg elapsed w = (w', Ok writer') →
  wrote_more w w' ∧ w_gen w' = w_gen w ∧
  ∀ es, reads w' → log_ok w writer es → id_of spec ∉ stored_ids es →
    (∀ at_ms, let o := make_observation workload identity spec st dg elapsed at_ms in
       observation_wf o → recorded_ok o) →
    ∃ o, log_ok w' writer' (es ++ [EObs o]) ∧ observation_id o = id_of spec ∧ status o = st.
Proof.
  unfold record_observation. set (o := make_observation _ _ _ _ _ _ _).
  intros Hrun. apply M_bind_run in Hrun as [(w1 & [wr out] & Hr1 & [= <- <-])|(e & _ & [=])].
  revert Hr1. unfold log_write. destruct (append_observation _ _ _ _) as [d res] eqn:Ha.
  intros [= <- ->]. split; [by eexists|]. split; [done|].
  intros es Hr [Hrep Hp Hg Hwd Hex Hgood] Hnew Hok.
  unfold reads in Hr. simpl in Hr. apply Forall_app in Hr as [_ Hr].
  rewrite Forall_singleton in Hr.
  destruct (append_new from_slice _ _ _ o _ _ _ _ Hrep Hnew Hr Ha)
    as (Hrep' & Hp' & Hh' & Hwf & Hb).
  exists o. split; [|done]. constructor; try congruence; [done|].
  intros o'. rewrite obs_of_snoc. intros [Hin| ->%list_elem_of_singleton]%elem_of_app; auto.
  by eapply Hok.
Qed.

Lemma issue_spec spec l w w' r :
  issue workload identity exec oracle spec l w = (w', r) →
  keeps_log (l_writer l) w w' ∧
  ∃ c s st out el, r = Ok (c, s, st, out, el) ∧ same_verdict (l_summary l) s.
Proof.
  unfold issue. destruct (send _ _ _) as [c [e|u]].
  - intros [= <- <-]. split; [done|]. by eexists _, _, _, _, _.
  - intros Hrun. apply M_bind_run in Hrun as [(w1 & x & Hr1 & Hrest)|(e & Hr1 & ->)];
      unfold await_result in Hr1;
      apply await_frames_log in Hr1 as (Hk & (c1 & s1 & st & out & Heq & Hs)); [|done].
    injection Heq as ->. injection Hrest as <- <-. split; [done|]. by eexists _, _, _, _, _.
Qed.

(** What a finished request leaves in the log. *)
Definition request_done (spec : CanaryRequestSpec) (es es' : list entry) (st : step) : Prop :=
  match st with
  | Next | Halt => stored_ids es' = stored_ids es ++ [id_of spec] ∧ all_success es'
  | Revert => (∃ o, o ∈ obs_of es' ∧ status o ≠ VerifiedSuccess) ∨ stored_ids es' = stored_ids es
  end.

Lemma run_request_spec i spec l w w' l' stp :
  run_request sup workload identity exec oracle i spec l w = (w', Ok (l', stp)) →
  wrote_more w w' ∧ same_verdict (l_summary l) (l_summary l') ∧
  ∀ es, reads w' → log_ok w (l_writer l) es → all_success es → spec ∈ requests w_manifest →
    id_of spec ∉ stored_ids es →
    ∃ es', log_ok w' (l_writer l') es' ∧ request_done spec es es' stp.
Proof.
  unfold run_request. rewrite M_bind_ok. intros (w1 & s1 & Hd & Hrun).
  apply drain_strays_spec in Hd as (Hk1 & _ & (? & [= <-] & Hs1)).
  rewrite M_bind_ok in Hrun. destruct Hrun as (? & ? & [= <- <-] & Hrun).
  rewrite M_bind_ok in Hrun. destruct Hrun as (w2 & [[[[c s2] st] out] el] & Hi & Hrun).
  apply issue_spec in Hi as (Hk2 & (? & ? & ? & ? & ? & [= <- <- <- <- <-] & Hs2)).
  simpl in Hk2, Hs2. pose proof (transitivity Hk1 Hk2) as Hk. clear Hk1 Hk2.
  assert (same_verdict (l_summary l) s2) as Hs by (unfold same_verdict in *; simpl in *; congruence).
  clear Hs1 Hs2. destruct (judge _ _ _ _ _) as [st' dg] eqn:Hj.
  destruct (if bool_decide (st' = VerifiedSuccess) then _ else _) as [why|].
  - apply after_rejection in Hrun as (w3 & s3 & Hk3 & _ & Hs3 & [= <- <- <-]). simpl.
    pose proof (transitivity Hk Hk3) as [Hw _ Hl]. split; [done|].
    split; [unfold same_verdict in *; simpl; congruence|].
    intros es Hr Hlog _ _ _. destruct (Hl Hr es Hlog) as (es' & Hlog' & He).
    exists es'. split; [done|]. right. unfold stored_ids. by rewrite He.
  - rewrite M_bind_ok in Hrun. destruct Hrun as (w3 & writer & Ho & [= <- <- <-]). simpl.
    apply record_observation_spec in Ho as (Hw3 & _ & Hl3).
    split; [by etrans; [apply (kl_written _ _ _ Hk)|]|].
    split; [by destruct (negb _)|].
    intros es Hr Hlog Hall Hin Hnew.
    destruct (kl_log _ _ _ Hk (reads_before _ _ Hw3 Hr) es Hlog) as (es1 & Hlog1 & He1).
    destruct (Hl3 es1 Hr Hlog1) as (o & Hlog2 & Hid & Hst).
    { unfold stored_ids. by rewrite He1. }
    { intros at_ms o Hwf Hsucc. simpl in Hsucc. subst st'. exists spec.
      by eapply recorded_counts. }
    exists (es1 ++ [EObs o]). split; [done|]. unfold request_done, stored_ids, all_success.
    rewrite obs_of_snoc, fmap_app, He1. simpl. rewrite Hid.
    destruct (decide (st' = VerifiedSuccess)) as [Heq|Hne].
    + rewrite (bool_decide_true (st' = _)) by done. simpl.
      assert (∀ o', o' ∈ obs_of es ++ [o] → status o' = VerifiedSuccess).
      { intros o' [?| ->%list_elem_of_singleton]%elem_of_app; [by apply Hall|congruence]. }
      by destruct (bool_decide _).
    + rewrite (bool_decide_false (st' = _)) by done. simpl. left. exists o.
      rewrite Hst. split; [|done]. apply elem_of_app. right. by apply list_elem_of_singleton.
Qed.

Lemma run_requests_spec i todo l w w' l' stp :
  run_requests sup workload identity exec oracle i todo l w = (w', Ok (l', stp)) →
  wrote_more w w' ∧ same_verdict (l_summary l) (l_summary l') ∧
  ∀ es, reads w' → log_ok w (l_writer l) es → all_success es → todo ⊆ requests w_manifest →
    NoDup (id_of <$> todo) → (∀ spec, spec ∈ todo → id_of spec ∉ stored_ids es) →
    ∃ es', log_ok w' (l_writer l') es' ∧
      match stp with
      | Next => stored_ids es' = stored_ids es ++ (id_of <$> todo) ∧ all_success es'
      | Revert => (∃ o, o ∈ obs_of es' ∧ status o ≠ VerifiedSuccess) ∨
                  (∃ spec, spec ∈ todo ∧ id_of spec ∉ stored_ids es')
      | Halt => True
      end.
Proof.
  revert i l w. induction todo as [|spec rest IH]; intros i l w; cbn [run_requests].
  { intros [= <- <- <-]. split; [unfold wrote_more; reflexivity|]. split; [done|].
    intros es _ Hlog Hall _ _ _. exists es. simpl. by rewrite app_nil_r. }
  rewrite M_bind_ok. intros (w1 & [l1 st1] & Hr1 & Hrest).
  apply run_request_spec in Hr1 as (Hw1 & Hs1 & Hl1).
  assert (stp = st1 ∧ w' = w1 ∧ l' = l1 ∧ st1 ≠ Next ∨ st1 = Next) as Hcase.
  { destruct st1; [by right| |]; left; by injection Hrest as <- <- <-. }
  destruct Hcase as [(-> & -> & -> & Hne)| ->].
  - split; [done|]. split; [done|]. intros es Hr Hlog Hall Hin Hnd Hnew.
    destruct (Hl1 es Hr Hlog Hall) as (es' & Hlog' & Hdone);
      [apply Hin; by left|apply Hnew; by left|].
    exists es'. split; [done|]. destruct st1; [done| |done].
    destruct Hdone as [?|Heq]; [by left|right]. exists spec. split; [by left|].
    rewrite Heq. apply Hnew. by left.
  - apply IH in Hrest as (Hw2 & Hs2 & Hl2). split; [by etrans|].
    split; [by eapply same_verdict_trans|]. intros es Hr Hlog Hall Hin Hnd Hnew.
    destruct (Hl1 es (reads_before _ _ Hw2 Hr) Hlog Hall) as (es1 & Hlog1 & Hids & Hall1);
      [apply Hin; by left|apply Hnew; by left|].
    cbn in Hnd. apply NoDup_cons in Hnd as [Hnin Hnd].
    destruct (Hl2 es1 Hr Hlog1 Hall1) as (es2 & Hlog2 & Hdone); [|done| |].
    + intros spec' Hspec. apply Hin. by right.
    + intros spec' Hspec. rewrite Hids, elem_of_app, list_elem_of_singleton.
      intros [?|Heq]; [by apply (Hnew spec'); [right|]|].
      apply Hnin. rewrite <- Heq. by apply list_elem_of_fmap_2.
    + exists es2. split; [done|]. destruct stp; [| |done].
      * destruct Hdone as [-> ?]. split; [|done]. rewrite Hids. cbn.
        by rewrite <- app_assoc.
      * destruct Hdone as [?|(spec' & ? & ?)]; [by left|right]. exists spec'.
        split; [by right|done].
Qed.

(** ** Readiness *)

Lemma wait_ready_spec writer ready_by secret n events s w w' r :
  wait_ready identity exec oracle writer ready_by secret n events s w = (w', r) →
  keeps_log writer w w' ∧ ∃ conn s', r = Ok (conn, s') ∧ same_verdict s s'.
Proof.
  revert n s w. induction events as [|ev events IH]; intros n s w; cbn [wait_ready];
    destruct (ready_by <=? w_clock w)%N.
  1, 3: intros [= <- <-]; split; [done|by eexists _, _].
  { case_match; intros [= <- <-]; (split; [apply keeps_log_clock|by eexists _, _]). }
  destruct ev as [waited c|waited|].
  - destruct (authenticate_worker_connection _ _ _ _ _ _) as [[c1 now] [f|auth]].
    + intros (w1 & s1 & Hk1 & _ & Hs1 & Hrest)%after_rejection.
      apply IH in Hrest as (Hk2 & (conn & s2 & -> & Hs2)). split.
      * etrans; [|exact Hk2]. etrans; [|exact Hk1]. exact (keeps_log_clock writer now w).
      * eexists _, _. split; [done|]. by eapply same_verdict_trans.
    + destruct (can_execute_for auth _).
      * intros [= <- <-]. split; [exact (keeps_log_clock writer now w)|by eexists _, _].
      * intros (Hk2 & Hs2)%IH. split; [|done].
        etrans; [|exact Hk2]. exact (keeps_log_clock writer now w).
  - intros (Hk2 & Hs2)%IH. split; [|done]. etrans; [|exact Hk2]. apply keeps_log_clock.
  - destruct (has_exited _ _).
    + intros [= <- <-]. split; [apply keeps_log_clock|by eexists _, _].
    + intros (Hk2 & Hs2)%IH. split; [|done]. etrans; [|exact Hk2]. apply keeps_log_clock.
Qed.

(** ** Opening the log *)

Lemma records_of_text path h es :
  Forall (reads_back from_slice) (RHeader h :: (entry_record <$> es)) →
  records_of_lines from_slice path (record_line (RHeader h) :: entry_lines es)
  = Ok (RHeader h :: (entry_record <$> es)).
Proof.
  assert (∀ rs, Forall (reads_back from_slice) rs →
    records_of_lines from_slice path (record_line <$> rs) = Ok rs) as Hgen.
  { induction 1 as [|r rs Hr Hrs IH]; [done|]. cbn. rewrite Hr. cbn. by rewrite IH. }
  intros Hall. rewrite <- (Hgen _ Hall). cbn. unfold entry_lines.
  by rewrite <- list_fmap_compose.
Qed.

Lemma stored_text d h es tail :
  log_wf from_slice h es → contains_byte newline tail = false →
  d !! log_path = Some (text h es +:+ tail) →
  stored_records from_slice d log_path = Ok (RHeader h :: (entry_record <$> es)).
Proof.
  intros Hwf Ht Hd. unfold stored_records, read_file. rewrite Hd. cbn [ok_or mbind result_bind].
  unfold text. rewrite split_unlines by (done || apply lines_clean).
  apply records_of_text, (lw_reads _ _ _ Hwf).
Qed.

(** The log file a run may find: none, or what an earlier run wrote, up to a torn last record. *)
Definition earlier_log (d : disk) : Prop :=
  match d !! log_path with
  | None => True
  | Some bytes => ∃ h es tail, bytes = text h es +:+ tail ∧ log_wf from_slice h es ∧
      contains_byte newline tail = false ∧ ∀ o, o ∈ obs_of es → recorded_ok o
  end.

Lemma open_log_spec w w' writer :
  open_log from_slice config workload identity oracle w = (w', Ok writer) →
  wrote_more w w' ∧ w_gen w' = w_gen w ∧
  (reads w' → earlier_log (w_disk w) → ∃ es, log_ok w' writer es).
Proof.
  unfold open_log, earlier_log. fold log_path.
  destruct (w_disk w !! log_path) as [bytes|] eqn:Hd; simpl.
  - destruct (stored_records _ _ _) as [[|[h| | |] rest]|] eqn:Hst; try done.
    destruct (_ || _) eqn:Hb; [done|]. guards. simpl in *.
    unfold on_disk. destruct (reopen _ _ _ _) as [d res] eqn:Hre. intros [= <- ->].
    split; [unfold wrote_more; reflexivity|]. split; [done|].
    intros _ (h' & es & tail & -> & Hwf & Ht & Hgood).
    rewrite (stored_text _ _ _ _ Hwf Ht Hd) in Hst. injection Hst as <- _.
    destruct (reopen_refines from_slice _ _ _ _ _ Hwf Hd Ht)
      as (d' & w1 & Hre' & Hp & Hh & Hrep & _).
    assert (d = d' ∧ writer = w1) as [-> ->] by (split; congruence).
    exists es. constructor; simpl; congruence || done.
  - unfold log_write. destruct (create _ _ _ _) as [d res] eqn:Hc. intros [= <- ->].
    split; [by eexists|]. split; [done|]. intros Hr _. unfold reads in Hr. simpl in Hr.
    apply Forall_app in Hr as [_ Hr]. rewrite Forall_singleton in Hr.
    set (h := wanted_header _ _ _) in *.
    assert (header_wf h) as Hwf.
    { revert Hc. unfold create, mlift, mbind, M_bind.
      destruct (validate_header h) as [[]|] eqn:Hv; [|done]. intros _.
      by apply validate_header_ok. }
    assert (fate oracle (w_ops w) = WriteOk) as Hf.
    { revert Hc. unfold create, mlift, mget, mmodify, mbind, M_bind.
      rewrite (proj2 (validate_header_ok h) Hwf), Hd. simpl. by destruct (fate _ _). }
    rewrite Hf in Hc.
    destruct (create_refines from_slice (w_disk w) log_path h Hwf Hd Hr)
      as (d' & w1 & Hc' & Hp & Hh & Hrep & _).
    assert (d = d' ∧ writer = w1) as [-> ->] by (split; congruence).
    exists []. constructor; simpl; try (by rewrite Hh); try done.
    by intros o ?%not_elem_of_nil.
Qed.

Lemma scan_stored_spec h es s s' f :
  scan_stored (RHeader h :: (entry_record <$> es)) s = (s', f) →
  same_verdict s s' ∧
  match f with
  | None => all_success es
  | Some _ => ∃ o, o ∈ obs_of es ∧ status o ≠ VerifiedSuccess
  end.
Proof.
  unfold scan_stored. cbn [foldl].
  assert (∀ es0 s0 (f0 : option string), 
    match f0 with None => all_success es0
    | Some _ => ∃ o, o ∈ obs_of es0 ∧ status o ≠ VerifiedSuccess end →
    foldl scan_record (s0, f0) (entry_record <$> es) = (s', f) →
    same_verdict s0 s' ∧ match f with
      | None => all_success (es0 ++ es)
      | Some _ => ∃ o, o ∈ obs_of (es0 ++ es) ∧ status o ≠ VerifiedSuccess end) as Hgen;
    [|intros Hs; apply (Hgen [] _ None); [by intros o ?%not_elem_of_nil|exact Hs]].
  induction es as [|e es IH]; intros es0 s0 f0 Hf0.
  - intros [= <- <-]. rewrite app_nil_r. done.
  - cbn [fmap list_fmap foldl]. rewrite cons_middle, app_assoc. destruct e as [o|r].
    + cbn [entry_record]. intros Hs. apply (IH (es0 ++ [EObs o])) in Hs; [done|].
      rewrite obs_of_snoc. destruct f0 as [why|].
      * destruct Hf0 as (o' & ? & ?). exists o'. split; [|done]. apply elem_of_app. by left.
      * simpl. case_bool_decide as Hst; simpl.
        -- intros o'. rewrite obs_of_snoc.
           intros [?| ->%list_elem_of_singleton]%elem_of_app; [by apply Hf0|done].
        -- exists o. split; [|done]. apply elem_of_app. right. by apply list_elem_of_singleton.
    + cbn [entry_record]. intros Hs. apply (IH (es0 ++ [ERej r])) in Hs; [done|].
      unfold all_success in *. by rewrite obs_of_snoc_rej.
Qed.

(** ** The verdict *)

Lemma finish_spec writer s revert w w' sealed s' :
  finish from_slice oracle writer s revert w = (w', Ok (SealedOutcome sealed s')) →
  wrote_more w w' ∧ reverted s' = (revert || reverted s) ∧
  (revert = true → state (w_gen w') = Reverting) ∧
  ∀ es, log_ok w writer es →
    s_header sealed = w_header writer ∧ s_observations sealed = obs_of es.
Proof.
  unfold finish. destruct revert; cbn [orb];
    destruct (seal _ _ _ _ _) as [d [sl|]] eqn:Hs; try done; intros [= <- <- <-];
    (split; [unfold wrote_more; reflexivity|]; split; [done|]; split; [done|]);
    intros es Hlog; simpl in Hs; apply (seal_ok from_slice _ _ _ es) in Hs; try done;
    apply (lo_rep _ _ _ Hlog).
Qed.

(** A log that holds only evidence, for enough of the planned requests. *)
Definition verdict (sealed : SealedObservationLog) (rev : bool) : Prop :=
  if rev
  then ∀ target d, (N.of_nat (length (requests w_manifest)) <= target)%N →
         admit_sealed_quota sealed identity w_manifest target ≠ Ok d
  else ∀ target, (0 < target <= N.of_nat (length (planned workload exec)))%N →
         ∃ d, admit_sealed_quota sealed identity w_manifest target = Ok d.

Context (Hidentity : identity_wf identity).
(** The requests of the workload get different observation ids. *)
Context (Hids : NoDup (id_of <$> requests w_manifest)).

Lemma planned_sub : planned workload exec `sublist_of` requests w_manifest.
Proof. unfold planned. case_match; [apply sublist_take|done]. Qed.

Lemma planned_nodup : NoDup (id_of <$> planned workload exec).
Proof. eapply sublist_NoDup; [exact Hids|]. apply fmap_sublist, planned_sub. Qed.

Lemma admit_ready sealed writer w es :
  log_ok w writer es → s_header sealed = w_header writer → s_observations sealed = obs_of es →
  all_success es → (∀ spec, spec ∈ planned workload exec → id_of spec ∈ stored_ids es) →
  verdict sealed false.
Proof.
  intros Hlog Hh Ho Hall Hin target [Ht Hle]. eexists. apply admit_quota_spec.
  split_and!; [lia|done|done| | | |done].
  - destruct Hlog as [? ? Hg Hw He ?]. unfold Executor.gen_id in Hg. constructor; congruence.
  - rewrite Ho. intros o Hobs. by apply (lo_good _ _ _ Hlog), Hall.
  - etrans; [exact Hle|].
    assert (list_to_set (id_of <$> planned workload exec) ⊆ ids (s_observations sealed)) as Hsub.
    { rewrite Ho. intros id. unfold ids. rewrite !elem_of_list_to_set.
      intros (spec & -> & Hspec)%list_elem_of_fmap. by apply Hin. }
    apply subseteq_size in Hsub. rewrite size_list_to_set in Hsub by apply planned_nodup.
    rewrite length_fmap in Hsub. lia.
Qed.

Lemma refuse_failure sealed es :
  s_observations sealed = obs_of es → (∃ o, o ∈ obs_of es ∧ status o ≠ VerifiedSuccess) →
  verdict sealed true.
Proof.
  intros Ho (o & Hin & Hst) target d _ (_ & _ & _ & _ & Hall & _)%admit_quota_spec.
  rewrite Ho in Hall. destruct (Hall o Hin) as [spec Hc].
  apply Hst, (cf_success _ _ _ _ Hc).
Qed.

Lemma refuse_missing sealed es spec :
  s_observations sealed = obs_of es → spec ∈ requests w_manifest →
  id_of spec ∉ stored_ids es → verdict sealed true.
Proof.
  intros Ho Hspec Hnot target d Hle (_ & _ & _ & _ & Hall & Ht & _)%admit_quota_spec.
  rewrite Ho in *.
  assert (ids (obs_of es) ⊆ list_to_set (id_of <$> requests w_manifest) ∖ {[id_of spec]}) as Hsub.
  { intros id. unfold ids. rewrite elem_of_difference, elem_of_singleton, !elem_of_list_to_set.
    intros Hin. split; [|intros ->; by apply Hnot].
    apply list_elem_of_fmap in Hin as (o & -> & Hin). destruct (Hall o Hin) as [sp Hc].
    destruct (request_some _ _ _ (cf_request _ _ _ _ Hc)) as [Hsp Hid].
    apply list_elem_of_fmap. exists sp. split; [|done]. unfold id_of.
    by rewrite (wf_id _ (cf_valid _ _ _ _ Hc)), (cf_generation _ _ _ _ Hc),
      (cf_request_digest _ _ _ _ Hc), Hid. }
  apply subseteq_size in Hsub. rewrite size_difference in Hsub.
  - rewrite size_singleton, size_list_to_set, length_fmap in Hsub by done.
    destruct (requests w_manifest); [by apply not_elem_of_nil in Hspec|]. simpl in *. lia.
  - apply singleton_subseteq_l, elem_of_list_to_set. by apply list_elem_of_fmap_2.
Qed.

Lemma todo_spec writer spec w es :
  log_ok w writer es →
  (spec ∈ todo workload identity exec writer ↔
   spec ∈ planned workload exec ∧ id_of spec ∉ stored_ids es).
Proof.
  intros Hlog. unfold todo. rewrite list_elem_of_In, filter_In, <- list_elem_of_In.
  fold (id_of spec). rewrite negb_true_iff. unfold contains. rewrite bool_decide_eq_false.
  destruct (lo_rep _ _ _ Hlog) as [_ _ Hseen Hdom].
  split; intros [Hin Hn]; (split; [done|]); contradict Hn.
  - apply list_elem_of_fmap in Hn as (o & -> & Ho). by rewrite (Hseen o Ho).
  - by apply Hdom.
Qed.

Lemma todo_nodup writer : NoDup (id_of <$> todo workload identity exec writer).
Proof.
  eapply sublist_NoDup; [exact planned_nodup|]. apply fmap_sublist. unfold todo.
  induction (planned workload exec) as [|spec l IH]; simpl; [done|].
  case_match; by constructor.
Qed.

(** What the end of a run says about the log [es] it started from. *)
Definition ended (w w' : World) (writer : ObservationLogWriter) (sealed : SealedObservationLog)
    (rev : bool) (s' : ExecutionSummary) : Prop :=
  wrote_more w w' ∧ reverted s' = rev ∧ (rev = true → state (w_gen w') = Reverting) ∧
  ∀ es, reads w' → log_ok w writer es →
    s_header sealed = w_header writer ∧ s_observations sealed = obs_of es.

Lemma wind_down_spec l rev i w w' sealed s' :
  wind_down from_slice exec oracle l rev i w = (w', Ok (SealedOutcome sealed s')) →
  reverted (l_summary l) = false → ended w w' (l_writer l) sealed rev s'.
Proof.
  unfold wind_down. rewrite M_bind_ok. intros (w1 & [] & [= Hw1] & Hrun) Hrev.
  assert (keeps_log (l_writer l) w w1) as Hk1.
  { subst w1. destruct rev; [done|apply keeps_log_clock]. }
  rewrite M_bind_ok in Hrun. destruct Hrun as (w2 & s2 & Hd & Hend).
  apply drain_strays_spec in Hd as (Hk2 & _ & (? & [= <-] & Hs2)). unfold same_verdict in Hs2.
  apply finish_spec in Hend as (Hw3 & Hr3 & Hst & Hl3).
  assert (keeps_log (l_writer l) w w2) as Hk by (by etrans).
  split; [by etrans; [apply (kl_written _ _ _ Hk)|]|].
  split; [by rewrite Hr3, Hs2, Hrev, orb_false_r|]. split; [done|].
  intros es Hr Hlog.
  destruct (kl_log _ _ _ Hk (reads_before _ _ Hw3 Hr) es Hlog) as (es' & Hlog' & He).
  destruct (Hl3 es' Hlog') as [? Ho]. split; [done|congruence].
Qed.

Lemma run_canary_spec c writer s w w' sealed s' :
  run_canary from_slice sup workload identity exec oracle c writer s
    (todo workload identity exec writer) w = (w', Ok (SealedOutcome sealed s')) →
  reverted s = false →
  wrote_more w w' ∧ ∀ es, reads w' → log_ok w writer es → all_success es →
  verdict sealed (reverted s') ∧ (reverted s' = true → state (w_gen w') = Reverting).
Proof.
  unfold run_canary. rewrite M_bind_ok. intros (w1 & [] & [= <-] & Hrun) Hs.
  rewrite M_bind_ok in Hrun. destruct Hrun as (w2 & [l st] & Hreq & Hrun).
  apply run_requests_spec in Hreq as (Hw2 & Hs2 & Hl2). unfold same_verdict in Hs2. simpl in Hs2.
  assert (st ≠ Halt ∧ wind_down from_slice exec oracle l (bool_decide (st = Revert))
    (length (todo workload identity exec writer)) w2 = (w', Ok (SealedOutcome sealed s')))
    as [Hst Hend] by (by destruct st).
  apply wind_down_spec in Hend as (Hw3 & Hr3 & Hstate & Hl3); [|congruence]. rewrite Hr3.
  split; [by etrans; [exact Hw2|]|]. intros es Hr Hlog Hall. split; [|done].
  assert (todo workload identity exec writer ⊆ requests w_manifest) as Hsub.
  { intros spec Hin. eapply todo_spec in Hin as [Hin _]; [|done].
    by apply (elem_of_sublist _ _ _ Hin planned_sub). }
  destruct (Hl2 es (reads_before _ _ Hw3 Hr)) as (es2 & Hlog2 & Hdone);
    [by apply (log_ok_ext w)|done|done|apply todo_nodup| |].
  { intros spec Hin. by eapply todo_spec in Hin as [_ ?]. }
  destruct (Hl3 es2 Hr Hlog2) as [Hh Ho]. destruct st; [| |done].
  - destruct Hdone as [Hids2 Hall2]. eapply admit_ready; [exact Hlog2|done..|].
    intros spec Hin. rewrite Hids2, elem_of_app.
    destruct (decide (id_of spec ∈ stored_ids es)); [by left|right].
    apply list_elem_of_fmap_2. by eapply todo_spec.
  - destruct Hdone as [?|(spec & Hin & ?)]; [by eapply refuse_failure|].
    eapply refuse_missing; [done|by apply Hsub|done].
Qed.

Lemma run_worker_spec writer s w w' sealed s' es :
  run_worker from_slice sup config workload identity executable args exec oracle writer s
    (todo workload identity exec writer) w = (w', Ok (SealedOutcome sealed s')) →
  reverted s = false → reads w' → log_ok w writer es → all_success es →
  todo workload identity exec writer ≠ [] →
  verdict sealed (reverted s') ∧ (reverted s' = true → state (w_gen w') = Reverting).
Proof.
  unfold run_worker. intros Hrun Hs Hr Hlog Hall Hne. revert Hrun.
  destruct (negb _); [done|]. rewrite M_bind_ok. intros (? & ? & [= <- <-] & Hrun).
  destruct (spawn_worker_process _ _ _ _ _ _ _) as [g launched].
  rewrite M_bind_ok in Hrun. destruct Hrun as (w1 & [] & [= <-] & Hrun).
  rewrite M_bind_ok in Hrun. destruct Hrun as (w2 & ? & [-> _]%mlift_ok & Hrun).
  rewrite M_bind_ok in Hrun. destruct Hrun as (w3 & [conn s1] & Hw & Hrun).
  apply wait_ready_spec in Hw as (Hk3 & (? & ? & [= <- <-] & Hs1)).
  apply (log_ok_ext _ (set_gen g w)) in Hlog; [|done]. unfold same_verdict in Hs1.
  assert (wrote_more w3 w') as Hw3.
  { destruct conn as [c|]; [|by apply finish_spec in Hrun as [? _]].
    apply run_canary_spec in Hrun as [? _]; [done|congruence]. }
  destruct (kl_log _ _ _ Hk3 (reads_before _ _ Hw3 Hr) es Hlog) as (es3 & Hlog3 & He3).
  assert (all_success es3) as Hall3 by (unfold all_success in *; by rewrite He3).
  destruct conn as [c|].
  { apply run_canary_spec in Hrun as [_ Hv]; [|congruence]. by apply (Hv es3). }
  apply finish_spec in Hrun as (_ & Hrev & Hst & Hl). rewrite Hrev. split; [|auto].
  destruct (Hl es3 Hlog3) as [_ Ho].
  destruct (todo workload identity exec writer) as [|spec rest] eqn:Htodo; [done|].
  assert (spec ∈ todo workload identity exec writer) as Hin by (rewrite Htodo; by left).
  eapply todo_spec in Hin as [Hin Hnot]; [|exact Hlog].
  eapply refuse_missing; [exact Ho|by apply (elem_of_sublist _ _ _ Hin planned_sub)|].
  unfold stored_ids in *. by rewrite He3.
Qed.

Lemma run_worker_more writer s w w' sealed s' :
  run_worker from_slice sup config workload identity executable args exec oracle writer s
    (todo workload identity exec writer) w = (w', Ok (SealedOutcome sealed s')) →
  reverted s = false → wrote_more w w'.
Proof.
  unfold run_worker. destruct (negb _); [done|]. rewrite M_bind_ok.
  intros (? & ? & [= <- <-] & Hrun) Hs.
  destruct (spawn_worker_process _ _ _ _ _ _ _) as [g launched].
  rewrite M_bind_ok in Hrun. destruct Hrun as (w1 & [] & [= <-] & Hrun).
  rewrite M_bind_ok in Hrun. destruct Hrun as (w2 & ? & [-> _]%mlift_ok & Hrun).
  rewrite M_bind_ok in Hrun. destruct Hrun as (w3 & [conn s1] & Hw & Hrun).
  apply wait_ready_spec in Hw as ([Hk3 _ _] & (? & ? & [= <- <-] & Hs1)).
  unfold same_verdict in Hs1. etrans; [exact Hk3|].
  destruct conn as [c|]; [|by apply finish_spec in Hrun as [? _]].
  apply run_canary_spec in Hrun as [? _]; [done|congruence].
Qed.

Lemma stored_log w writer es records :
  log_ok w writer es → stored_records from_slice (w_disk w) log_path = Ok records →
  records = RHeader (w_header writer) :: (entry_record <$> es).
Proof.
  intros Hlog Hrec. destruct (lo_rep _ _ _ Hlog) as [Hd Hwf _ _].
  rewrite (lo_path _ _ _ Hlog) in Hd. rewrite <- (str_app_nil_r (text _ _)) in Hd.
  rewrite (stored_text _ _ _ ""%string Hwf eq_refl Hd) in Hrec. by injection Hrec.
Qed.

Lemma scan_stored_verdict records s s' f :
  scan_stored records s = (s', f) → same_verdict s s'.
Proof.
  unfold scan_stored. generalize (None : option string). revert s.
  induction records as [|r records IH]; intros s f0; cbn [foldl]; [by intros [= <- _]|].
  by destruct r; intros Hs%IH.
Qed.

Lemma run_verdict w w' sealed s w1 writer records :
  earlier_log (w_disk w) → reads w' →
  open_log from_slice config workload identity oracle w = (w1, Ok writer) →
  stored_records from_slice (w_disk w1) log_path = Ok records →
  after_open from_slice sup config workload identity executable args exec oracle writer records w1
    = (w', Ok (SealedOutcome sealed s)) →
  verdict sealed (reverted s) ∧ (reverted s = true → state (w_gen w') = Reverting).
Proof.
  intros Hlog Hreads Ho Hrec Hrun. unfold after_open in Hrun.
  apply open_log_spec in Ho as (Hw1 & _ & Hopen).
  destruct (scan_stored _ _) as [s1 prior] eqn:Hscan.
  assert (wrote_more w1 w') as Hmore.
  { destruct prior; [by apply finish_spec in Hrun as [? _]|].
    case_bool_decide; [by apply finish_spec in Hrun as [? _]|].
    apply scan_stored_verdict in Hscan. by eapply run_worker_more. }
  destruct (Hopen (reads_before _ _ Hmore Hreads) Hlog) as [es Hok].
  rewrite (stored_log _ _ _ _ Hok Hrec) in Hscan.
  apply scan_stored_spec in Hscan as [Hs Hprior]. unfold same_verdict in Hs. simpl in Hs.
  destruct prior as [why|].
  - apply finish_spec in Hrun as (_ & Hr & Hst & Hl). rewrite Hr. split; [|auto].
    destruct (Hl es Hok) as [_ Hobs]. by eapply refuse_failure.
  - case_bool_decide as Hnil.
    + apply finish_spec in Hrun as (_ & Hr & Hst & Hl). rewrite Hr. simpl. rewrite Hs.
      split; [|done]. destruct (Hl es Hok) as [Hh Hobs]. eapply admit_ready; try done.
      intros spec Hin. destruct (decide (id_of spec ∈ stored_ids es)) as [|Hn]; [done|].
      assert (spec ∈ todo workload identity exec writer) as Ht by (by eapply todo_spec).
      rewrite Hnil in Ht. by apply not_elem_of_nil in Ht.
    + by eapply run_worker_spec.
Qed.
End Run.

Section Theorems.
Context `{Sha256} `{JsonStr} `{!JsonStrSpec} `{WorkerCodec}.
Context (from_slice : string → option LogRecord).
Context (sup : HostSupervisor) (config : SupervisorConfig) (workload : PinnedWorkload)
  (identity : CandidateIdentity) (executable : string) (args : list string)
  (exec : ExecutorConfig) (oracle : Oracle).

Abbreviation run :=
  (run from_slice sup config workload identity executable args exec oracle).

Lemma run_checked w w' o :
  run w = (w', Ok o) →
  identity_wf identity ∧ workload_wf (manifest workload) ∧
  Workload.digest (manifest workload) = pinned_digest workload ∧
  ∃ w1 writer records,
    open_log from_slice config workload identity oracle w = (w1, Ok writer) ∧
    stored_records from_slice (w_disk w1) (log_path config identity) = Ok records ∧
    after_open from_slice sup config workload identity executable args exec oracle writer records w1
    = (w', Ok o).
Proof.
  unfold Executor.run. rewrite M_bind_ok. intros (? & [] & [-> Hi]%mlift_ok & Hrun).
  rewrite M_bind_ok in Hrun. destruct Hrun as (? & ? & [= <- <-] & Hrun).
  case_match; [by apply mlift_ok in Hrun as [_ [=]]|].
  rewrite M_bind_ok in Hrun. destruct Hrun as (? & [] & [-> Hw]%mlift_ok & Hrun).
  case_match eqn:Hd; [by apply mlift_ok in Hrun as [_ [=]]|]. guards.
  rewrite M_bind_ok in Hrun. destruct Hrun as (? & ? & [-> _]%mlift_ok & Hrun).
  rewrite M_bind_ok in Hrun. destruct Hrun as (w1 & writer & Ho & Hrun).
  rewrite M_bind_ok in Hrun. destruct Hrun as (? & ? & [= <- <-] & Hrun).
  rewrite M_bind_ok in Hrun. destruct Hrun as (? & records & [-> Hrec]%mlift_ok & Hrun).
  split_and!; [by apply identity_validate_ok|by apply workload_validate_ok|done|].
  by exists w1, writer, records.
Qed.

(** C2: The evidence a canary run leaves decides promotion the right way round: a run that seals its log without a revert has recorded a verified success for every planned request, so the quota validator admits the log for every target up to their number; a run that reverted (a wrong, late, missing or undecodable answer, a worker never ready, a memory breach, or a failure stored before a restart) marked the generation reverting, and no target that asks for the whole workload is ever admitted from its log. *)
Theorem executor_evidence (w w' : World) (sealed : SealedObservationLog) (s : ExecutionSummary)
    (Huntorn : ∀ n, untorn (fate oracle n))
    (Hids : NoDup (id_of workload identity <$> requests (manifest workload)))
    (Hlog : earlier_log from_slice config workload identity (w_disk w))
    (Hreads : Forall (reads_back from_slice) (w_written w'))
    (Hrun : run w = (w', Ok (SealedOutcome sealed s))) :
  (reverted s = false → ∀ target, (0 < target <= N.of_nat (length (planned workload exec)))%N →
     ∃ d, admit_sealed_quota sealed identity (manifest workload) target = Ok d) ∧
  (reverted s = true → state (w_gen w') = Reverting ∧
     ∀ target d, (N.of_nat (length (requests (manifest workload))) <= target)%N →
       admit_sealed_quota sealed identity (manifest workload) target ≠ Ok d).
Proof.
  apply run_checked in Hrun as (Hi & Hw & Hd & w1 & writer & records & Ho & Hrec & Hrun).
  destruct (run_verdict from_slice sup config workload identity executable args exec oracle Huntorn
    Hw Hd Hi Hids _ _ _ _ _ _ _ Hlog Hreads Ho Hrec Hrun) as [Hv Hst].
  unfold verdict in Hv. destruct (reverted s); split; try done. auto.
Qed.

(** ** Where a success comes from *)

(** Only the worker's own answer, judged by the supervisor, makes a success: waiting for a result ends in success with an output only when one of the connection's frames is an [ExecuteResult] of the current protocol for this generation and exactly this request carrying that output; no heartbeat, self-report, result for another request or other frame ends the wait successfully. *)
Theorem only_results_succeed (spec : CanaryRequestSpec) (iss ans : gset string)
    (started deadline : N) (writer : ObservationLogWriter) (c c' : IpcConnection)
    (s s' : ExecutionSummary) (w w' : World) (out : option string)
    (Hrun : await_result identity oracle spec iss ans started deadline writer c s w
            = (w', Ok (c', s', VerifiedSuccess, out))) :
  ∃ i latency o, i ∈ inbox c ∧ out = Some o ∧
    decode_line (content i)
    = Got (ExecuteResult CANARY_PROTOCOL_VERSION (Identity.generation_id identity)
             (Workload.request_id spec) o latency).
Proof.
  revert Hrun. unfold await_result. generalize (inbox c) as frames. intros frames.
  revert c s w. induction frames as [|i rest IH]; intros c s w; cbn [await_frames].
  { destruct (recv _ _ _) as [[c1 now] [msg|e| |]] eqn:Hr; try done.
    intros [= _ _ _ Hst _]. unfold on_error in Hst. by repeat case_match. }
  destruct (recv _ _ _) as [[c1 now] [msg|e| |]] eqn:Hr; try done.
  2: { intros [= _ _ _ Hst _]. unfold on_error in Hst. by repeat case_match. }
  assert (decode_line (content i) = Got msg) as Hdec.
  { unfold recv in Hr. cbn [with_inbox inbox] in Hr. case_match; by injection Hr. }
  assert (∀ w s c, await_frames identity oracle spec iss ans (started + millis deadline)%N writer
    rest c s w = (w', Ok (c', s', VerifiedSuccess, out)) →
    ∃ i' latency o, i' ∈ i :: rest ∧ out = Some o ∧ decode_line (content i')
    = Got (ExecuteResult CANARY_PROTOCOL_VERSION (Identity.generation_id identity)
             (Workload.request_id spec) o latency)) as Hrest.
  { intros w0 s0 c0 (i' & lat & o & ? & ? & ?)%IH. exists i', lat, o.
    split; [by right|done]. }
  destruct (on_frame _ _ _ _ msg) as [st o|why|why|] eqn:Hf.
  - intros [= _ _ _ -> ->]. clear Hrest IH. unfold on_frame in Hf.
    destruct msg; try done; try (by case_match). unfold result_effect in Hf.
    case_bool_decide; [|by repeat case_match].
    destruct (_ || _) eqn:Hb; [done|]. injection Hf as <-. guards. subst.
    exists i. eexists _, _. split; [by left|]. split; [done|]. exact Hdec.
  - rewrite M_bind_ok. intros (w1 & s1 & _ & Hr1). by eapply Hrest.
  - rewrite M_bind_ok. intros (w1 & s1 & _ & [=]).
  - intros Hr1. by eapply Hrest.
Qed.


(** ** The generation record *)

(** The record stays of the same generation and is [Durable] only if it was. *)
Definition gen_moves (g g' : GenerationInfo) : Prop :=
  Supervisor.generation_id g' = Supervisor.generation_id g ∧
  (state g' = Durable → state g = Durable).

#[local] Instance gen_moves_preorder : PreOrder gen_moves.
Proof. unfold gen_moves. split; [intros g; done|intros g1 g2 g3; intuition congruence]. Qed.

Definition moves {A} (m : M World A) : Prop :=
  ∀ w w' r, m w = (w', r) → gen_moves (w_gen w) (w_gen w').

Lemma moves_bind {A B} (m : M World A) (f : A → M World B) :
  moves m → (∀ a, moves (f a)) → moves (m ≫= f).
Proof.
  intros Hm Hf w w' r Hrun. apply M_bind_run in Hrun as [(w1 & a & Hr1 & Hr2)|(e & Hr1 & _)].
  - etrans; [by eapply Hm|by eapply Hf].
  - by eapply Hm.
Qed.

Lemma moves_lift {A} (r : result A) : moves (mlift r).
Proof. intros w w' x [= <- _]. done. Qed.
Lemma moves_ret {A} (a : A) : moves (mret a).
Proof. intros w w' x [= <- _]. done. Qed.
Lemma moves_get : moves mget.
Proof. intros w w' x [= <- _]. done. Qed.
Lemma moves_modify f : (∀ w, gen_moves (w_gen w) (w_gen (f w))) → moves (mmodify f).
Proof. intros Hf w w' x [= <- _]. apply Hf. Qed.
Lemma moves_log_write {A} r (m : M disk A) : moves (log_write r m).
Proof. intros w w' x. unfold log_write. destruct (m _). by intros [= <- _]. Qed.
Lemma moves_on_disk {A} (m : M disk A) : moves (on_disk m).
Proof. intros w w' x. unfold on_disk. destruct (m _). by intros [= <- _]. Qed.

Lemma moves_rejection writer why s : moves (record_rejection oracle writer why s).
Proof.
  intros w w' r. unfold record_rejection, log_write.
  destruct (append_rejection _ _ _ _ _). by intros [= <- _].
Qed.

Lemma moves_drain writer reasons s : moves (drain_strays oracle writer reasons s).
Proof.
  revert s; induction reasons as [|why rest IH]; intros s; [apply moves_ret|].
  apply moves_bind; [apply moves_rejection|exact IH].
Qed.

Lemma moves_finish writer s rev : moves (finish from_slice oracle writer s rev).
Proof.
  intros w w' r. unfold finish.
  destruct rev; destruct (seal _ _ _ _ _) as [d [sl|]]; intros [= <- _]; by split.
Qed.

Lemma moves_await spec iss ans dl writer frames c s :
  moves (await_frames identity oracle spec iss ans dl writer frames c s).
Proof.
  revert c s; induction frames as [|i rest IH]; intros c s w w' r; cbn [await_frames];
    destruct (recv _ _ _) as [[c1 now] [msg| | |]]; try by intros [= <- _].
  destruct (on_frame _ _ _ _ msg) as [| why|why|].
  - by intros [= <- _].
  - intros Hr. by apply (moves_bind _ _ (moves_rejection writer why s) (IH _)) in Hr.
  - intros Hr. by apply (moves_bind _ _ (moves_rejection writer why s) (λ s, moves_ret _)) in Hr.
  - intros Hr. by apply IH in Hr.
Qed.

Lemma moves_wait_ready writer ready_by secret n events s :
  moves (wait_ready identity exec oracle writer ready_by secret n events s).
Proof.
  revert n s; induction events as [|ev events IH]; intros n s w w' r; cbn [wait_ready];
    destruct (ready_by <=? w_clock w)%N; try by intros [= <- _].
  { case_match; by intros [= <- _]. }
  destruct ev as [waited c|waited|].
  - destruct (authenticate_worker_connection _ _ _ _ _ _) as [[c1 now] [f|auth]].
    + intros Hr. by apply (moves_bind _ _ (moves_rejection writer (failure_text f) s)
                             (IH (S n))) in Hr.
    + destruct (can_execute_for auth _); [by intros [= <- _]|]. intros Hr. by apply IH in Hr.
  - intros Hr. by apply IH in Hr.
  - destruct (has_exited _ _); [by intros [= <- _]|]. intros Hr. by apply IH in Hr.
Qed.

Lemma moves_issue spec l : moves (issue workload identity exec oracle spec l).
Proof.
  intros w w' r. unfold issue. destruct (send _ _ _) as [c [e|u]]; [by intros [= <- _]|].
  intros Hr. eapply moves_bind in Hr; [exact Hr|apply moves_await|].
  intros [[[c1 s1] st] out]. apply moves_bind; [apply moves_get|intros ?; apply moves_ret].
Qed.

Lemma moves_record writer spec st dg el :
  moves (record_observation workload identity oracle writer spec st dg el).
Proof.
  intros w w' r Hr. unfold record_observation in Hr.
  eapply moves_bind in Hr; [exact Hr|apply moves_log_write|intros ?; apply moves_ret].
Qed.

Lemma moves_requests i todo l :
  moves (run_requests sup workload identity exec oracle i todo l).
Proof.
  revert i l; induction todo as [|spec rest IH]; intros i l; [apply moves_ret|].
  cbn [run_requests]. apply moves_bind.
  - unfold run_request. apply moves_bind; [apply moves_drain|intros s1].
    apply moves_bind; [apply moves_get|intros w1].
    apply moves_bind; [apply moves_issue|intros [[[[c s] st] out] el]].
    destruct (judge _ _ _ _ _) as [st' dg].
    destruct (if bool_decide (st' = _) then _ else _) as [why|].
    + apply moves_bind; [apply moves_rejection|intros ?; apply moves_ret].
    + apply moves_bind; [apply moves_record|intros ?; apply moves_ret].
  - intros [l' [| |]]; [apply IH|apply moves_ret..].
Qed.

Lemma moves_canary c writer s pending :
  moves (run_canary from_slice sup workload identity exec oracle c writer s pending).
Proof.
  unfold run_canary. apply moves_bind; [apply moves_modify; by split|intros _].
  apply moves_bind; [apply moves_requests|intros [l st]].
  assert (∀ rev i, moves (wind_down from_slice exec oracle l rev i)) as Hw.
  { intros rev i. unfold wind_down. apply moves_bind; [|intros _].
    - apply moves_modify. intros w. by destruct rev.
    - apply moves_bind; [apply moves_drain|intros ?; apply moves_finish]. }
  destruct st; [apply Hw..|apply moves_ret].
Qed.

Ltac cases := match goal with |- moves (if ?b then _ else _) => destruct b end.

Lemma moves_worker writer s pending :
  moves (run_worker from_slice sup config workload identity executable args exec oracle
           writer s pending).
Proof.
  unfold run_worker. cases; [apply moves_lift|]. intros w3 w4 r. rewrite M_bind_get.
  destruct (spawn_worker_process _ _ _ _ _ _ _) as [g launched] eqn:Hg.
  assert (gen_moves (w_gen w3) g) as Hmg.
  { revert Hg. unfold spawn_worker_process. by destruct (spawned oracle); intros [= <- _]. }
  intros Hr. apply M_bind_run in Hr as [(w5 & [] & [= <-] & Hr)|(e & [=] & _)].
  etrans; [exact Hmg|]. change g with (w_gen (set_gen g w3)). revert Hr.
  generalize (set_gen g w3) as w6. intros w6 Hr.
  eapply moves_bind in Hr; [exact Hr|apply moves_lift|intros _].
  apply moves_bind; [apply moves_wait_ready|intros [[c|] s1]];
    [apply moves_canary|apply moves_finish].
Qed.

(** However a canary run goes, and whether it returns or fails part way, the generation it drives never becomes durable and keeps its id: the executor only marks it starting, canary-active or reverting. *)
Theorem executor_never_durable (w w' : World) (r : result ExecutionOutcome)
    (Hrun : run w = (w', r)) :
  gen_moves (w_gen w) (w_gen w').
Proof.
  revert w w' r Hrun. change (moves run). unfold Executor.run.
  apply moves_bind; [apply moves_lift|intros _]. apply moves_bind; [apply moves_get|intros w].
  cases; [apply moves_lift|]. apply moves_bind; [apply moves_lift|intros _].
  cases; [apply moves_lift|]. apply moves_bind; [apply moves_lift|intros _].
  apply moves_bind; [|intros writer].
  { intros w1 w2 r. unfold open_log. repeat case_match;
      first [by intros [= <- _]|apply moves_on_disk|apply moves_log_write]. }
  apply moves_bind; [apply moves_get|intros w2]. apply moves_bind; [apply moves_lift|intros recs].
  unfold after_open. destruct (scan_stored _ _) as [s [why|]]; [apply moves_finish|].
  cases; [apply moves_finish|apply moves_worker].
Qed.
End Theorems.

(** ** A concrete run *)

Module ExecutorExample.
Import Checksum PlainJson AdmissionExample.
#[global] Instance codec : WorkerCodec := {|
  decode_worker := λ text,
    if bool_decide (text = "ready") then inr (ReadyMsg "gen-0001" 7 "" 1)
    else if bool_decide (text = "beat") then inr (Heartbeat "gen-0001" 0 0 1)
    else if bool_decide (text = "pong") then inr (ExecuteResult 1 "gen-0001" "req-001" "pong" None)
    else if bool_decide (text = "five") then inr (ExecuteResult 1 "gen-0001" "req-002" "5" None)
    else if bool_decide (text = "six") then inr (ExecuteResult 1 "gen-0001" "req-002" "6" None)
    else match strip_prefix "auth:" text with
         | Some r => inr (AuthResponse r)
         | None => inl "expected value at line 1 column 1"
         end;
  debug_worker := λ _, "message";
  debug_duration := λ n, dec n |}.

Definition pinned : PinnedWorkload :=
  {| manifest := workload; pinned_digest := Workload.digest workload; path := "/w.json" |}.
Definition sup : HostSupervisor := new_supervisor "/r" 100.
Definition conf : SupervisorConfig :=
  {| rsi_root := "/r"; config_socket_path := "/r/s"; config_memory_limit_mb := 100;
     canary_target := 2; config_max_latency_us := 0; max_error_rate := f64_of_N 0;
     shared_secret := "k" |}.
Definition hmac : string :=
  SessionAuth.compute_hmac "canary-run-u" (message_to_sign "gen-0001" "challenge-n").
Definition frame (t : N) (text : string) : incoming :=
  {| arrives := t; lag := 0; content := Line text |}.
Definition conn (last : string) : IpcConnection :=
  new_connection [frame 1000 "ready"; frame 2000 ("auth:" +:+ hmac); frame 3000 "beat";
                  frame 50700005 "pong"; frame 51600005 last] None None.
Definition oracle (last : string) : Oracle :=
  {| fate := λ _, WriteOk; wall_ms := λ n, N.of_nat n; bind_ok := true; spawned := Some 7%N;
     vars := []; run_uuid := "u"; handshake_uuid := λ _, "n"; accepts := [Quiet; Candidate 5 (conn last)];
     exited_at := None; proc_at := λ _, {["/proc/7/statm" := "9 2560"]}; page_kb := 4;
     strays := λ i, match i with 1%nat => ["message on an unauthenticated connection: no frame"]
                    | _ => [] end |}.
Definition gen0 : GenerationInfo :=
  {| Supervisor.generation_id := "gen-0001"; installed_path := "/r/generations/gen-0001";
     manifest_digest := "d"; state := Staged; pid := None; socket_path := None;
     canary_transactions := 0; canary_errors := 0; max_latency_us := 0; total_latency_us := 0;
     staged_timestamp := "now" |}.
Definition w0 : World :=
  {| w_disk := {["/out/worker" := "exe"]}; w_gen := gen0; w_clock := 0; w_ops := 0;
     w_written := [] |}.
Definition observed (r : CanaryRequestSpec) (st : VerifiedStatus) (out : string) (elapsed at_ms : N) :=
  make_observation pinned identity r st (Some (digest_result out)) elapsed at_ms.
Definition es (last : string) : list entry :=
  [EObs (observed (req "req-001" "ping" "pong") VerifiedSuccess "pong" 700000 1);
   ERej {| reason := "message on an unauthenticated connection: no frame"; rejected_at_ms := 2 |};
   EObs (if bool_decide (last = "five")
         then observed (req "req-002" "add 2 3" "5") VerifiedSuccess "5" 900000 3
         else observed (req "req-002" "add 2 3" "5") WrongResult "6" 900000 3)].
Definition hdr : LogHeader := wanted_header pinned identity 0.
Definition from_slice (last s : string) : option LogRecord :=
  List.find (λ r, bool_decide (record_line r = s))
    (RHeader hdr :: RSeal (seal_of hdr (es last) 4) :: (entry_record <$> es last)).
Definition result_of (last : string) :=
  Executor.run (from_slice last) sup conf pinned identity "/out/worker" [] default_config
    (oracle last) w0.

Definition final (last : string) : World := (result_of last).1.
Definition outcome (last : string) : option (SealedObservationLog * ExecutionSummary) :=
  match (result_of last).2 with Ok (SealedOutcome sealed s) => Some (sealed, s) | _ => None end.

Lemma outcome_run last sealed s :
  outcome last = Some (sealed, s) →
  Executor.run (from_slice last) sup conf pinned identity "/out/worker" [] default_config
    (oracle last) w0 = (final last, Ok (SealedOutcome sealed s)).
Proof.
  unfold final, outcome. fold (result_of last). destruct (result_of last) as [w [[]|]]; try done. by intros [= -> ->].
Qed.

Lemma five_kept : (reverted ∘ snd) <$> outcome "five" = Some false.
Proof. by vm_compute. Qed.
Lemma six_reverted : (reverted ∘ snd) <$> outcome "six" = Some true.
Proof. by vm_compute. Qed.
#[local] Instance reads_back_dec last r : Decision (reads_back (from_slice last) r).
Proof. unfold reads_back. apply _. Defined.
Lemma written_back last :
  last = "five" ∨ last = "six" →
  Forall (reads_back (from_slice last)) (w_written (final last)).
Proof.
  intros [-> | ->]; apply (bool_decide_unpack _); by vm_compute.
Qed.
Lemma ids_differ : NoDup (id_of pinned identity <$> requests (manifest pinned)).
Proof. apply (bool_decide_unpack _). by vm_compute. Qed.
Lemma never_torn last : ∀ n, untorn (fate (oracle last) n).
Proof. by intros n k [=]. Qed.
End ExecutorExample.

Lemma executor_evidence_witness :
  (∃ sealed s d, ExecutorExample.outcome "five" = Some (sealed, s) ∧
     admit_sealed_quota (H := Checksum.sha) (H0 := PlainJson.json) sealed
       AdmissionExample.identity AdmissionExample.workload 2 = Ok d) ∧
  (∃ sealed s, ExecutorExample.outcome "six" = Some (sealed, s) ∧
     ∀ d, admit_sealed_quota (H := Checksum.sha) (H0 := PlainJson.json) sealed
       AdmissionExample.identity AdmissionExample.workload 2 ≠ Ok d).
Proof.
  split.
  - destruct (ExecutorExample.outcome "five") as [[sealed s]|] eqn:Ho;
      [|pose proof ExecutorExample.five_kept as Hk; by rewrite Ho in Hk].
    assert (reverted s = false) as Hrev
      by (pose proof ExecutorExample.five_kept as Hk; rewrite Ho in Hk; by injection Hk).
    destruct (executor_evidence (ExecutorExample.from_slice "five") ExecutorExample.sup
      ExecutorExample.conf ExecutorExample.pinned AdmissionExample.identity "/out/worker" []
      default_config (ExecutorExample.oracle "five") ExecutorExample.w0 (ExecutorExample.final "five") sealed s
      (ExecutorExample.never_torn _) ExecutorExample.ids_differ I
      (ExecutorExample.written_back "five" (or_introl eq_refl))
      (ExecutorExample.outcome_run _ _ _ Ho)) as [Hadmit _].
    destruct (Hadmit Hrev 2%N) as [d Hd]; [vm_compute; split; congruence|].
    exists sealed, s, d. split; [reflexivity|exact Hd].
  - destruct (ExecutorExample.outcome "six") as [[sealed s]|] eqn:Ho;
      [|pose proof ExecutorExample.six_reverted as Hk; by rewrite Ho in Hk].
    assert (reverted s = true) as Hrev
      by (pose proof ExecutorExample.six_reverted as Hk; rewrite Ho in Hk; by injection Hk).
    destruct (executor_evidence (ExecutorExample.from_slice "six") ExecutorExample.sup
      ExecutorExample.conf ExecutorExample.pinned AdmissionExample.identity "/out/worker" []
      default_config (ExecutorExample.oracle "six") ExecutorExample.w0 (ExecutorExample.final "six") sealed s
      (ExecutorExample.never_torn _) ExecutorExample.ids_differ I
      (ExecutorExample.written_back "six" (or_intror eq_refl))
      (ExecutorExample.outcome_run _ _ _ Ho)) as [_ Hno].
    destruct (Hno Hrev) as [_ Hnever]. exists sealed, s. split; [reflexivity|]. intros d.
    apply Hnever. vm_compute. congruence.
Defined.

Lemma only_results_succeed_witness :
  ∃ i latency o, i ∈ [ExecutorExample.frame 5 "beat"; ExecutorExample.frame 9 "pong"] ∧
    Some "pong" = Some o ∧ decode_line (content i)
    = Got (ExecuteResult 1 "gen-0001" "req-001" o latency).
Proof.
  eapply (only_results_succeed AdmissionExample.identity (ExecutorExample.oracle "five")
    (AdmissionExample.req "req-001" "ping" "pong") ∅ ∅ 0 2000
    {| w_path := "/l"; w_header := ExecutorExample.hdr; w_seen := ∅ |}
    (new_connection [ExecutorExample.frame 5 "beat"; ExecutorExample.frame 9 "pong"] None None)
    _ (start_summary 1) _ ExecutorExample.w0).
  vm_compute. reflexivity.
Defined.

Lemma executor_never_durable_witness :
  state (w_gen (ExecutorExample.final "six")) ≠ Durable.
Proof.
  unfold ExecutorExample.final, ExecutorExample.result_of.
  destruct (Executor.run _ _ _ _ _ _ _ _ _ _) as [w' r] eqn:Hr.
  pose proof (executor_never_durable (ExecutorExample.from_slice "six") ExecutorExample.sup
    ExecutorExample.conf ExecutorExample.pinned AdmissionExample.identity "/out/worker" []
    default_config (ExecutorExample.oracle "six") ExecutorExample.w0 w' r Hr) as [_ Hd].
  intros Hdur. by specialize (Hd Hdur).
Defined.
