(* ===== verification/LedgerRecord.v ===== *)
(** The ledger's blocks, Merkle tree and blob store ([src/ledger/record.rs], [merkle.rs],
    [blob.rs]). *)

From S2P Require Import Prelude RustStd RustPath Digest.
#[local] Open Scope string_scope.

(** ** Blocks *)

Inductive BlockType := Genesis | Evaluation | Promotion | Rollback | PromotionEvidence.

#[export] Instance BlockType_eq_dec : EqDecision BlockType.
Proof. solve_decision. Defined.

(** [Display]. *)
Definition type_text (t : BlockType) : string :=
  match t with
  | Genesis => "GENESIS" | Evaluation => "EVALUATION" | Promotion => "PROMOTION"
  | Rollback => "ROLLBACK" | PromotionEvidence => "PROMOTION_EVIDENCE"
  end.

(** [FromStr]. *)
Definition type_of_text (s : string) : result BlockType :=
  if bool_decide (s = "GENESIS") then Ok Genesis
  else if bool_decide (s = "EVALUATION") then Ok Evaluation
  else if bool_decide (s = "PROMOTION") then Ok Promotion
  else if bool_decide (s = "ROLLBACK") then Ok Rollback
  else if bool_decide (s = "PROMOTION_EVIDENCE") then Ok PromotionEvidence
  else fail "Unknown BlockType: {}" [s].

Lemma type_text_back t : type_of_text (type_text t) = Ok t.
Proof. by destruct t. Qed.

Lemma type_of_text_ok s t : type_of_text s = Ok t ↔ s = type_text t.
Proof.
  split; [|intros ->; apply type_text_back].
  unfold type_of_text. repeat case_bool_decide; intros [= <-]; done.
Qed.

Record PromotionEvidencePayload := {
  meta_candidate_block_hash : string;
  downstream_cycle_id : string;
  downstream_ledger_block_hash : string;
  capability_improvement_proof : string;
  final_classification : string
}.

Record LedgerBlock := {
  sequence : N;
  block_type : BlockType;
  timestamp_utc : string;
  prev_block_hash : string;
  payload_json : string;
  payload_digest : string;
  blob_hashes : list string;
  block_hash : string
}.

#[export] Instance LedgerBlock_eq_dec : EqDecision LedgerBlock.
Proof. solve_decision. Defined.

Definition GENESIS_PREV_HASH : string :=
  "0000000000000000000000000000000000000000000000000000000000000000".

Section Record_.
Context `{Sha256}.

Definition compute_payload_digest (payload : string) : string := sha256_hex payload.

(** The bytes fed to the hasher: no field is prefixed by its length. *)
Definition block_preimage (sequence : N) (t : BlockType) (timestamp prev digest : string)
    (blobs : list string) : string :=
  to_le_bytes sequence +:+ type_text t +:+ timestamp +:+ prev +:+ digest +:+ concat_all blobs.

Definition compute_block_hash (sequence : N) (t : BlockType) (timestamp prev digest : string)
    (blobs : list string) : string :=
  sha256_hex (block_preimage sequence t timestamp prev digest blobs).

(** [LedgerBlock::new]. *)
Definition new_block (sequence : N) (t : BlockType) (timestamp prev payload : string)
    (blobs : list string) : LedgerBlock :=
  let digest := compute_payload_digest payload in
  {| sequence := sequence; block_type := t; timestamp_utc := timestamp; prev_block_hash := prev;
     payload_json := payload; payload_digest := digest; blob_hashes := blobs;
     block_hash := compute_block_hash sequence t timestamp prev digest blobs |}.

Definition verify_integrity (b : LedgerBlock) : result unit :=
  let expected_payload := compute_payload_digest (payload_json b) in
  if negb (bool_decide (payload_digest b = expected_payload)) then
    fail "Payload digest mismatch at sequence {}: stored={}, computed={}"
      [dec (sequence b); payload_digest b; expected_payload]
  else
    let expected := compute_block_hash (sequence b) (block_type b) (timestamp_utc b)
                      (prev_block_hash b) (payload_digest b) (blob_hashes b) in
    if negb (bool_decide (block_hash b = expected)) then
      fail "Block hash mismatch at sequence {}: stored={}, computed={}"
        [dec (sequence b); block_hash b; expected]
    else Ok tt.

(** A block holds the hashes of what it holds exactly when it is the block [new] makes. *)
Lemma verify_integrity_ok b :
  verify_integrity b = Ok tt ↔
  b = new_block (sequence b) (block_type b) (timestamp_utc b) (prev_block_hash b)
        (payload_json b) (blob_hashes b).
Proof.
  unfold verify_integrity, new_block. destruct b as [s t ts p pj pd bl h]; simpl. split.
  - case_bool_decide as H1; [|done]. case_bool_decide as H2; [|done]. intros _. simpl in *.
    by subst.
  - intros [= -> ->]. by rewrite !bool_decide_true.
Qed.

(** ** Merkle tree *)

(** One level up: neighbours are hashed together, an odd last node with itself. *)
Fixpoint next_level (l : list string) : list string :=
  match l with
  | lhs :: rhs :: rest => sha256_hex (lhs +:+ rhs) :: next_level rest
  | [lhs] => [sha256_hex (lhs +:+ lhs)]
  | [] => []
  end.

(** The [while] loop; a level of [n] nodes needs less than [n] rounds. *)
Fixpoint merkle_levels (fuel : nat) (level : list string) : list string :=
  match fuel with
  | O => level
  | S fuel => if (length level <=? 1)%nat then level else merkle_levels fuel (next_level level)
  end.

Definition compute_merkle_root (leaves : list string) : string :=
  match leaves with
  | [] => GENESIS_PREV_HASH
  | [leaf] => leaf
  | _ => hd "" (merkle_levels (length leaves) leaves)
  end.
End Record_.

Record MerkleCheckpoint := {
  up_to_sequence : N;
  merkle_root : string;
  block_count : N;
  checkpoint_timestamp : string;
  signature : option string
}.

(** [MerkleCheckpoint::new]. *)
Definition new_checkpoint (up_to : N) (root : string) (count : N) (now : string)
    : MerkleCheckpoint :=
  {| up_to_sequence := up_to; merkle_root := root; block_count := count;
     checkpoint_timestamp := now; signature := None |}.

(** ECDSA over P-256: [sign_bytes key msg] is the signature's bytes, [check_bytes] decodes a
    signature and verifies it. *)
Class P256 := {
  SigningKey : Type;
  VerifyingKey : Type;
  verifying_key : SigningKey → VerifyingKey;
  sign_bytes : SigningKey → string → string;
  check_bytes : VerifyingKey → string → string → bool;
}.
(** A signature made with a key verifies with its public key. *)
Class P256Spec `{P256} := check_signed : ∀ k m,
  check_bytes (verifying_key k) m (sign_bytes k m) = true.

Section Sign.
Context `{P256}.

Definition sign (k : SigningKey) (c : MerkleCheckpoint) : MerkleCheckpoint :=
  {| up_to_sequence := up_to_sequence c; merkle_root := merkle_root c;
     block_count := block_count c; checkpoint_timestamp := checkpoint_timestamp c;
     signature := Some ("p256:" +:+ hex_encode (sign_bytes k (merkle_root c))) |}.

Definition verify_signature (vk : VerifyingKey) (c : MerkleCheckpoint) : bool :=
  match signature c with
  | Some text =>
    match strip_prefix "p256:" text with
    | Some hex =>
      match hex_decode hex with
      | Some bytes => check_bytes vk (merkle_root c) bytes
      | None => false
      end
    | None => false
    end
  | None => false
  end.

Lemma signed_verifies `{!P256Spec} k c : verify_signature (verifying_key k) (sign k c) = true.
Proof.
  unfold verify_signature, sign. cbn [signature merkle_root].
  rewrite (proj2 (strip_prefix_some "p256:" _ (hex_encode (sign_bytes k (merkle_root c)))) eq_refl).
  rewrite hex_decode_encode. apply check_signed.
Qed.
End Sign.

(** A keyed checksum in place of ECDSA, for examples: anyone can compute it. *)
Module KeyedChecksum.
Import Checksum.
#[global] Instance p256 : P256 := {|
  SigningKey := string; VerifyingKey := string; verifying_key := λ k, k;
  sign_bytes k m := sha256 (k +:+ m);
  check_bytes k m s := bool_decide (s = sha256 (k +:+ m)) |}.
#[global] Instance p256_spec : P256Spec.
Proof. intros k m. by apply bool_decide_eq_true. Qed.
#[export] Instance key_eq_dec : EqDecision (@VerifyingKey p256) := String.eq_dec.
Definition sk : @SigningKey p256 := "key".
Definition other : @VerifyingKey p256 := "other".
End KeyedChecksum.

(** ** Blob store

    The files of the blob directory, by path; the store is content-addressed. *)

(** Where a blob write stops. *)
Inductive blob_fate := BlobWritten | BlobWriteFails (k : nat) | BlobRenameFails.

Section Blobs.
Context `{Sha256} (root : string).

Definition blob_path (digest : string) : string := path_join root digest.

Definition put_blob (fate : blob_fate) (uuid data : string) : M disk string := λ d,
  let digest := sha256_hex data in
  let dest := blob_path digest in
  if bool_decide (is_Some (d !! dest)) then (d, Ok digest)
  else
    let tmp := path_join root (".tmp." +:+ uuid) in
    match fate with
    | BlobWriteFails k =>
      (<[tmp := String.substring 0 k data]> d, fail "Failed to write tmp blob: {}" [])
    | BlobRenameFails => (<[tmp := data]> d, fail "Failed to atomic rename blob: {}" [])
    | BlobWritten => (<[dest := data]> (delete tmp d), Ok digest)
    end.

Definition get_blob (d : disk) (digest : string) : result string :=
  match d !! blob_path digest with
  | None => fail "Blob not found: {}" [digest]
  | Some data =>
    let computed := sha256_hex data in
    if negb (bool_decide (computed = digest)) then
      fail "Blob corrupted: expected={}, computed={}" [digest; computed]
    else Ok data
  end.

Definition has_blob (d : disk) (digest : string) : bool :=
  bool_decide (is_Some (d !! blob_path digest)).

Definition verify_blob (d : disk) (digest : string) : bool := is_ok (get_blob d digest).

Lemma get_blob_ok d digest data :
  get_blob d digest = Ok data ↔ d !! blob_path digest = Some data ∧ sha256_hex data = digest.
Proof.
  unfold get_blob. destruct (d !! blob_path digest) as [x|]; [|naive_solver].
  case_bool_decide as Hd; simpl; split; try done.
  - by intros [= ->].
  - by intros [[= ->] _].
  - intros [[= ->] ?]. done.
Qed.

Lemma verify_blob_ok d digest :
  verify_blob d digest = true ↔
  ∃ data, d !! blob_path digest = Some data ∧ sha256_hex data = digest.
Proof.
  unfold verify_blob. setoid_rewrite <- get_blob_ok. destruct (get_blob d digest); naive_solver.
Qed.
End Blobs.
