(* ===== verification/Ledger.v ===== *)
(** The improvement ledger ([src/ledger/db.rs], [schema.rs]): an append-only hash chain of
    blocks in a SQLite database, Merkle checkpoints and the audit.

    A table is the list of its rows; the primary key and UNIQUE constraints are checked on
    insert, and a query orders by the key.  Integer columns are 64-bit and signed.  The database
    file itself does not fail: opening it and I/O errors of SQLite are not modelled.  Clocks are
    arguments. *)

From stdpp Require Import sorting.
From S2P Require Import Prelude RustStd RustPath Digest Json Supervisor LedgerRecord.
#[local] Open Scope string_scope.

(** ** Rows *)

(** [n as i64] and [z as u64]. *)
Definition as_i64 (n : N) : Z :=
  let m := Z.of_N (wrap64 n) in
  if (m <? 9223372036854775808)%Z then m else (m - 18446744073709551616)%Z.
Definition as_u64 (z : Z) : N := Z.to_N (z mod 18446744073709551616).

Record BlockRow := {
  r_sequence : Z;
  r_block_type : string;
  r_timestamp_utc : string;
  r_prev_block_hash : string;
  r_payload_json : string;
  r_payload_digest : string;
  r_blob_hashes_json : string;
  r_block_hash : string
}.

Record CheckpointRow := {
  c_up_to_sequence : Z;
  c_merkle_root : string;
  c_block_count : Z;
  c_timestamp_utc : string;
  c_signature : option string
}.

Definition row_le (a b : BlockRow) : Prop := (r_sequence a <= r_sequence b)%Z.
Definition checkpoint_le (a b : CheckpointRow) : Prop :=
  (c_up_to_sequence a <= c_up_to_sequence b)%Z.

#[export] Instance row_le_dec a b : Decision (row_le a b).
Proof. unfold row_le. apply _. Defined.
#[export] Instance row_le_trans : Transitive row_le.
Proof. intros a b c. unfold row_le. lia. Qed.
#[export] Instance row_le_total : Total row_le.
Proof. intros a b. unfold row_le. lia. Qed.
#[export] Instance checkpoint_le_dec a b : Decision (checkpoint_le a b).
Proof. unfold checkpoint_le. apply _. Defined.
#[export] Instance checkpoint_le_trans : Transitive checkpoint_le.
Proof. intros a b c. unfold checkpoint_le. lia. Qed.
#[export] Instance checkpoint_le_total : Total checkpoint_le.
Proof. intros a b. unfold checkpoint_le. lia. Qed.

(** The database and the blob directory. *)
Record Store := {
  blocks : list BlockRow;
  checkpoints : list CheckpointRow;
  blobs_index : gmap string (Z * string);
  blob_files : disk
}.

Definition empty_store (files : disk) : Store :=
  {| blocks := []; checkpoints := []; blobs_index := ∅; blob_files := files |}.

Record LedgerAuditReport := {
  total_blocks : N;
  total_blobs : N;
  latest_sequence : N;
  latest_block_hash : string;
  report_merkle_root : string;
  checkpoint_verified : bool;
  signature_verified : bool;
  chain_valid : bool;
  audit_timestamp_utc : string;
  checkpoint_sequence : option N;
  blocks_after_checkpoint : N
}.

(** [LedgerAuditReport::unchecked]: what the audit did not establish. *)
Definition unchecked (r : LedgerAuditReport) (key_given : bool) : list string :=
  match checkpoint_sequence r with
  | None => ["no Merkle checkpoint is stored"]
  | Some seq =>
    (if (0 <? blocks_after_checkpoint r)%N
     then [dec (blocks_after_checkpoint r) +:+ " block(s) after checkpoint #" +:+ dec seq
           +:+ " are not covered by any checkpoint"] else [])
    ++ (if negb key_given
        then ["the checkpoint signature was not checked (no verifying key)"] else [])
  end%list.

Section Ledger.
Context `{Sha256} `{JsonStr} `{P256}.
(** [serde_json::from_str::<Vec<String>>]. *)
Context (parse_strings : string → option (list string)).
Context (blob_root : string).

Definition json_strings (l : list string) : string := write_canonical (Array (Str <$> l)).

(** ** Reading blocks *)

Definition block_row (b : LedgerBlock) : BlockRow :=
  {| r_sequence := as_i64 (sequence b); r_block_type := type_text (block_type b);
     r_timestamp_utc := timestamp_utc b; r_prev_block_hash := prev_block_hash b;
     r_payload_json := payload_json b; r_payload_digest := payload_digest b;
     r_blob_hashes_json := json_strings (blob_hashes b); r_block_hash := block_hash b |}.

Definition block_of (r : BlockRow) (t : BlockType) (blobs : list string) : LedgerBlock :=
  {| sequence := as_u64 (r_sequence r); block_type := t; timestamp_utc := r_timestamp_utc r;
     prev_block_hash := r_prev_block_hash r; payload_json := r_payload_json r;
     payload_digest := r_payload_digest r; blob_hashes := blobs;
     block_hash := r_block_hash r |}.

Definition row_to_block (r : BlockRow) : result LedgerBlock :=
  match type_of_text (r_block_type r) with
  | Err e => fail "Failed to parse block_type: {}" [r_block_type r]
  | Ok t =>
    blobs ← ok_or (parse_strings (r_blob_hashes_json r))
              (Fmt "Failed to parse blob_hashes_json: {}" []);
    Ok (block_of r t blobs)
  end.

(** The lenient reading of [all_blocks]: [unwrap_or(Evaluation)] and [unwrap_or_default()]. *)
Definition row_to_block_lenient (r : BlockRow) : LedgerBlock :=
  block_of r (match type_of_text (r_block_type r) with Ok t => t | Err _ => Evaluation end)
    (default [] (parse_strings (r_blob_hashes_json r))).

Definition ordered_rows (s : Store) : list BlockRow := merge_sort row_le (blocks s).

Definition all_blocks (s : Store) : list LedgerBlock := row_to_block_lenient <$> ordered_rows s.

Definition latest_block (s : Store) : result (option LedgerBlock) :=
  match last (ordered_rows s) with
  | Some r => b ← row_to_block r; Ok (Some b)
  | None => Ok None
  end.

Definition first_row (p : BlockRow → bool) (s : Store) : result (option LedgerBlock) :=
  match List.find p (blocks s) with
  | Some r => b ← row_to_block r; Ok (Some b)
  | None => Ok None
  end.

Definition get_block (sequence : N) (s : Store) : result (option LedgerBlock) :=
  first_row (λ r, bool_decide (r_sequence r = as_i64 sequence)) s.

Definition get_block_by_hash (hash : string) (s : Store) : result (option LedgerBlock) :=
  first_row (λ r, bool_decide (r_block_hash r = hash)) s.

(** ** Writing blocks *)

Definition with_blocks (l : list BlockRow) (s : Store) : Store :=
  {| blocks := l; checkpoints := checkpoints s; blobs_index := blobs_index s;
     blob_files := blob_files s |}.

(** A row that would repeat a sequence number or a block hash is refused. *)
Definition conflicts (r r' : BlockRow) : bool :=
  bool_decide (r_sequence r' = r_sequence r) || bool_decide (r_block_hash r' = r_block_hash r).

Definition insert_block_internal (b : LedgerBlock) : M Store unit := λ s,
  let row := block_row b in
  if existsb (conflicts row) (blocks s)
  then (s, fail "Failed to insert block sequence {}: {}" [dec (sequence b)])
  else (with_blocks (blocks s ++ [row])%list s, Ok tt).

Definition genesis_payload : string :=
  write_canonical (Object
    [("system", Str "spark-rsi");
     ("law", Str ("Build the cage, build the measuring instruments, then give the animal "
                  +:+ "a bigger brain."));
     ("standard", Str "Apache-2.0 WITH LLVM-exception")]).

Definition init_genesis (now : string) : M Store LedgerBlock :=
  let b := new_block 0 Genesis now GENESIS_PREV_HASH genesis_payload [] in
  _ ← insert_block_internal b; mret b.

(** [ImprovementLedger::open] once the database is open: a fresh one gets its genesis block. *)
Definition open (now : string) : M Store unit := λ s,
  match latest_block s with
  | Err e => (s, Err e)
  | Ok (Some _) => (s, Ok tt)
  | Ok None => (_ ← init_genesis now; mret tt) s
  end.

Definition append_block (now : string) (t : BlockType) (payload : string) (blobs : list string)
    : M Store LedgerBlock := λ s,
  match latest_block s with
  | Err e => (s, Err e)
  | Ok None => (s, fail "Cannot append to uninitialized ledger (Genesis block missing)" [])
  | Ok (Some latest) =>
    let b := new_block (wrap64 (sequence latest + 1)) t now (block_hash latest) payload blobs in
    (_ ← insert_block_internal b; mret b) s
  end.

Definition with_blobs (files : disk) (s : Store) : Store :=
  {| blocks := blocks s; checkpoints := checkpoints s; blobs_index := blobs_index s;
     blob_files := files |}.

(** [INSERT OR IGNORE INTO blobs_index]. *)
Definition index_blob (digest : string) (size : nat) (now : string) (s : Store) : Store :=
  {| blocks := blocks s; checkpoints := checkpoints s;
     blobs_index := {[digest := (as_i64 (N.of_nat size), now)]} ∪ blobs_index s;
     blob_files := blob_files s |}.
Definition index_blob_or_ignore (digest : string) (size : nat) (now : string) (s : Store) : Store :=
  match blobs_index s !! digest with Some _ => s | None => index_blob digest size now s end.

(** [receipt_json] is [serde_json::to_string(receipt)]. *)
Definition append_evaluation (now : string) (fate : blob_fate) (uuid receipt_json : string)
    (raw_metrics : option string) : M Store LedgerBlock := λ s,
  match raw_metrics with
  | None => append_block now Evaluation receipt_json [] s
  | Some bytes =>
    match put_blob blob_root fate uuid bytes (blob_files s) with
    | (files, Err e) => (with_blobs files s, Err e)
    | (files, Ok digest) =>
      append_block now Evaluation receipt_json [digest]
        (index_blob_or_ignore digest (String.length bytes) now (with_blobs files s))
    end
  end.

Definition append_promotion (now : string) (g : GenerationInfo) (receipt_digest : string)
    : M Store LedgerBlock :=
  append_block now Promotion
    (write_canonical (Object
       [("generation_id", Str (generation_id g)); ("installed_path", Str (installed_path g));
        ("receipt_digest", Str receipt_digest); ("state", Str (state_debug (state g)));
        ("staged_timestamp", Str (staged_timestamp g))])) [].

Definition append_rollback (now rolled_back_at generation reason : string)
    : M Store LedgerBlock :=
  append_block now Rollback
    (write_canonical (Object
       [("generation_id", Str generation); ("reason", Str reason);
        ("rolled_back_at", Str rolled_back_at)])) [].

(** A derived [Serialize] writes the fields in the order of their declaration. *)
Definition write_struct (fields : list (string * string)) : string :=
  "{" +:+ join_with "," ((λ kv, json_str kv.1 +:+ ":" +:+ json_str kv.2) <$> fields) +:+ "}".

Definition append_promotion_evidence (now : string) (e : PromotionEvidencePayload)
    : M Store LedgerBlock :=
  append_block now PromotionEvidence
    (write_struct
       [("meta_candidate_block_hash", meta_candidate_block_hash e);
        ("downstream_cycle_id", downstream_cycle_id e);
        ("downstream_ledger_block_hash", downstream_ledger_block_hash e);
        ("capability_improvement_proof", capability_improvement_proof e);
        ("final_classification", final_classification e)]) [].

(** ** Checkpoints *)

Definition checkpoint_row (c : MerkleCheckpoint) : CheckpointRow :=
  {| c_up_to_sequence := as_i64 (up_to_sequence c); c_merkle_root := merkle_root c;
     c_block_count := as_i64 (block_count c); c_timestamp_utc := checkpoint_timestamp c;
     c_signature := signature c |}.
Definition checkpoint_of (r : CheckpointRow) : MerkleCheckpoint :=
  {| up_to_sequence := as_u64 (c_up_to_sequence r); merkle_root := c_merkle_root r;
     block_count := as_u64 (c_block_count r); checkpoint_timestamp := c_timestamp_utc r;
     signature := c_signature r |}.

Definition with_checkpoints (l : list CheckpointRow) (s : Store) : Store :=
  {| blocks := blocks s; checkpoints := l; blobs_index := blobs_index s;
     blob_files := blob_files s |}.

(** [INSERT OR REPLACE]. *)
Definition replace_checkpoint (r : CheckpointRow) (l : list CheckpointRow) : list CheckpointRow :=
  (List.filter (λ r', negb (bool_decide (c_up_to_sequence r' = c_up_to_sequence r))) l ++ [r])%list.

Definition checkpoint (now : string) (key : option SigningKey) : M Store MerkleCheckpoint := λ s,
  let bs := all_blocks s in
  match last bs with
  | None => (s, fail "Cannot create checkpoint on empty ledger" [])
  | Some latest =>
    let c := new_checkpoint (sequence latest) (compute_merkle_root (block_hash <$> bs))
               (N.of_nat (length bs)) now in
    let c := match key with Some k => sign k c | None => c end in
    (with_checkpoints (replace_checkpoint (checkpoint_row c) (checkpoints s)) s, Ok c)
  end.

Definition latest_checkpoint (s : Store) : option MerkleCheckpoint :=
  checkpoint_of <$> last (merge_sort checkpoint_le (checkpoints s)).

(** ** The audit *)

(** The loop over the blobs of one block, with the number of blobs so far. *)
Fixpoint check_blobs (s : Store) (b : LedgerBlock) (count : N) (hashes : list string)
    : result N :=
  match hashes with
  | [] => Ok count
  | bh :: rest =>
    if negb (verify_blob blob_root (blob_files s) bh) then
      fail "Audit failed: Content-addressed blob {} missing or corrupted at block sequence {}"
        [bh; dec (sequence b)]
    else check_blobs s b (count + 1) rest
  end.

(** The loop over the blocks after genesis: [i] is the index of the next, [prev] its
    predecessor. *)
Fixpoint check_links (s : Store) (i : N) (prev : LedgerBlock) (count : N)
    (rest : list LedgerBlock) : result N :=
  match rest with
  | [] => Ok count
  | b :: rest =>
    if negb (sequence b =? i)%N then
      fail "Audit failed: Block sequence gap at index {}: sequence is {}"
        [dec i; dec (sequence b)]
    else if negb (bool_decide (prev_block_hash b = block_hash prev)) then
      fail "Audit failed: Hash chain broken at sequence {}. Stored prev_hash={}, predecessor hash={}"
        [dec (sequence b); prev_block_hash b; block_hash prev]
    else
      _ ← verify_integrity b;
      count ← check_blobs s b count (blob_hashes b);
      check_links s (i + 1) b count rest
  end.

Definition check_genesis (g : LedgerBlock) : result unit :=
  if negb (sequence g =? 0)%N then
    fail "Audit failed: Genesis block sequence is {}, expected 0" [dec (sequence g)]
  else if negb (bool_decide (block_type g = Genesis)) then
    fail "Audit failed: Genesis block type is {:?}, expected GENESIS" [type_text (block_type g)]
  else if negb (bool_decide (prev_block_hash g = GENESIS_PREV_HASH)) then
    fail "Audit failed: Genesis block prev_block_hash is {}, expected {}"
      [prev_block_hash g; GENESIS_PREV_HASH]
  else verify_integrity g.

(** The latest checkpoint against the blocks it covers; the answer is whether a signature was
    verified. *)
Definition check_checkpoint (key : option VerifyingKey) (leaves : list string) (latest : N)
    (c : MerkleCheckpoint) : result bool :=
  if (latest <? up_to_sequence c)%N then
    fail "Audit failed: Checkpoint covers sequence {} but the ledger ends at {}"
      [dec (up_to_sequence c); dec latest]
  else
    let covered := take (S (N.to_nat (up_to_sequence c))) leaves in
    if negb (block_count c =? N.of_nat (length covered))%N then
      fail "Audit failed: Checkpoint block count mismatch: stored={}, covered={}"
        [dec (block_count c); dec (N.of_nat (length covered))]
    else
      let root := compute_merkle_root covered in
      if negb (bool_decide (merkle_root c = root)) then
        fail "Audit failed: Checkpoint Merkle root mismatch: stored={}, computed={}"
          [merkle_root c; root]
      else match key with
      | None => Ok false
      | Some vk =>
        if verify_signature vk c then Ok true
        else fail "Audit failed: Checkpoint Merkle root signature verification failed" []
      end.

Definition verify_chain_integrity (now : string) (key : option VerifyingKey) (s : Store)
    : result LedgerAuditReport :=
  match all_blocks s with
  | [] => fail "Audit failed: ledger is empty (no Genesis block)" []
  | genesis :: rest =>
    let bs := genesis :: rest in
    _ ← check_genesis genesis;
    blobs ← check_links s 1 genesis 0 rest;
    let leaves := block_hash <$> bs in
    let latest := List.last bs genesis in
    let report checked cp signed after :=
      {| total_blocks := N.of_nat (length bs); total_blobs := blobs;
         latest_sequence := sequence latest; latest_block_hash := block_hash latest;
         report_merkle_root := compute_merkle_root leaves; checkpoint_verified := checked;
         signature_verified := signed; chain_valid := true; audit_timestamp_utc := now;
         checkpoint_sequence := cp; blocks_after_checkpoint := after |} in
    match latest_checkpoint s with
    | None => Ok (report false None false (N.of_nat (length bs)))
    | Some c =>
      signed ← check_checkpoint key leaves (sequence latest) c;
      Ok (report true (Some (up_to_sequence c)) signed (sequence latest - up_to_sequence c)%N)
    end
  end.
End Ledger.
