(* ===== verification/LedgerProps.v ===== *)
(** What the improvement ledger guarantees: after any calls the ledger passes the audit exactly when
    the digests its blocks name are stored, the audit accepts exactly the well-formed chains, the head hash pins the whole history and a signed
    checkpoint pins the blocks it covers. *)

From stdpp Require Import sorting.
From S2P Require Import Prelude RustStd RustPath Digest Json Supervisor LedgerRecord Ledger.
#[local] Open Scope string_scope.
#[local] Open Scope list_scope.
#[local] Set Warnings "-register-all".

(** ** Integer columns *)

Definition i64_max : N := 9223372036854775807.

Lemma as_i64_small n : (n <= i64_max)%N → as_i64 n = Z.of_N n.
Proof.
  unfold i64_max, as_i64, wrap64. intros Hn. rewrite N.mod_small by lia.
  destruct (Z.ltb_spec (Z.of_N n) 9223372036854775808); lia.
Qed.

Lemma as_u64_of n : (n <= i64_max)%N → as_u64 (Z.of_N n) = n.
Proof. unfold i64_max, as_u64. intros Hn. rewrite Z.mod_small by lia. lia. Qed.

Lemma as_u64_le z : (as_u64 z <= u64_max)%N.
Proof. unfold as_u64, u64_max. pose proof (Z.mod_pos_bound z 18446744073709551616). lia. Qed.

Lemma List_last_cons {A} (a d : A) l : List.last (a :: l) d = List.last l a.
Proof.
  revert a d; induction l as [|c l IH]; intros a d; [done|].
  change (List.last (a :: c :: l) d) with (List.last (c :: l) d). by rewrite !IH.
Qed.

Lemma last_cons_default {A} (a : A) l : last (a :: l) = Some (List.last l a).
Proof.
  revert a; induction l as [|c l IH]; intros a; [done|].
  by rewrite last_cons_cons, IH, List_last_cons.
Qed.

(** ** The audit as a specification *)

Section Chain.
Context `{Sha256}.

(** Every block follows its predecessor, from sequence number [i] on. *)
Fixpoint linked (i : N) (prev : LedgerBlock) (rest : list LedgerBlock) : Prop :=
  match rest with
  | [] => True
  | b :: rest =>
    sequence b = i ∧ prev_block_hash b = block_hash prev ∧ verify_integrity b = Ok tt
    ∧ linked (i + 1) b rest
  end.

(** A chain: a genesis block, then blocks that each name their predecessor. *)
Definition chain (bs : list LedgerBlock) : Prop :=
  match bs with
  | [] => False
  | g :: rest => check_genesis g = Ok tt ∧ linked 1 g rest
  end.

Lemma check_genesis_ok g :
  check_genesis g = Ok tt ↔
  sequence g = 0%N ∧ block_type g = Genesis ∧ prev_block_hash g = GENESIS_PREV_HASH
  ∧ verify_integrity g = Ok tt.
Proof.
  unfold check_genesis. split.
  - intros Hg. run_guards. done.
  - intros (-> & -> & -> & ->). reflexivity.
Qed.

Lemma linked_app i prev l b :
  linked i prev (l ++ [b]) ↔
  linked i prev l ∧ sequence b = (i + N.of_nat (length l))%N
  ∧ prev_block_hash b = block_hash (List.last l prev) ∧ verify_integrity b = Ok tt.
Proof.
  revert i prev; induction l as [|a l IH]; intros i prev.
  - simpl. rewrite N.add_0_r. tauto.
  - cbn [linked app length]. rewrite IH.
    replace (i + N.of_nat (S (length l)))%N with (i + 1 + N.of_nat (length l))%N by lia.
    rewrite List_last_cons. tauto.
Qed.

Lemma chain_app bs b :
  bs ≠ [] →
  chain (bs ++ [b]) ↔
  chain bs ∧ sequence b = N.of_nat (length bs)
  ∧ Some (prev_block_hash b) = block_hash <$> last bs ∧ verify_integrity b = Ok tt.
Proof.
  destruct bs as [|g l]; [done|]. intros _. cbn [chain app length]. rewrite linked_app.
  replace (N.of_nat (S (length l))) with (1 + N.of_nat (length l))%N by lia.
  rewrite last_cons_default. cbn [fmap option_fmap option_map].
  split; [intros (? & ? & ? & -> & ?)|intros ((? & ?) & ? & [= ->] & ?)]; done.
Qed.

Lemma linked_sequence i prev l k b :
  linked i prev l → l !! k = Some b → sequence b = (i + N.of_nat k)%N.
Proof.
  revert i prev k; induction l as [|a l IH]; intros i prev [|k]; try done.
  - intros (<- & _) [= <-]. lia.
  - intros (_ & _ & _ & Hl) Hk. rewrite (IH _ _ _ Hl Hk). lia.
Qed.

Lemma chain_sequence bs k b : chain bs → bs !! k = Some b → sequence b = N.of_nat k.
Proof.
  destruct bs as [|g l]; [done|]. intros [Hg%check_genesis_ok Hl]. destruct k as [|k]; simpl.
  - intros [= <-]. naive_solver.
  - intros Hk. rewrite (linked_sequence _ _ _ _ _ Hl Hk). lia.
Qed.

Lemma linked_integrity i prev l : linked i prev l → Forall (λ b, verify_integrity b = Ok tt) l.
Proof.
  revert i prev; induction l as [|a l IH]; intros i prev; [constructor|].
  intros (_ & _ & Ha & Hl). constructor; eauto.
Qed.

Lemma chain_integrity bs : chain bs → Forall (λ b, verify_integrity b = Ok tt) bs.
Proof.
  destruct bs as [|g l]; [done|]. intros [Hg%check_genesis_ok Hl].
  constructor; [naive_solver|eauto using linked_integrity].
Qed.

End Chain.

Section Audit.
Context `{Sha256} `{JsonStr} `{P256}.
Context (parse_strings : string → option (list string)) (blob_root : string).

Abbreviation all_blocks := (all_blocks parse_strings).
Abbreviation verify_chain_integrity := (verify_chain_integrity parse_strings blob_root).

Definition blobs_stored (files : disk) (bs : list LedgerBlock) : Prop :=
  Forall (λ b, Forall (λ h, verify_blob blob_root files h = true) (blob_hashes b)) bs.

Definition blob_count (bs : list LedgerBlock) : N := N.of_nat (length (bs ≫= blob_hashes)).

(** The checkpoint covers a prefix of the chain, with its Merkle root, and is signed when a key
    is given. *)
Definition checkpoint_matches (key : option VerifyingKey) (bs : list LedgerBlock)
    (c : MerkleCheckpoint) : Prop :=
  (up_to_sequence c < N.of_nat (length bs))%N
  ∧ block_count c = (up_to_sequence c + 1)%N
  ∧ merkle_root c = compute_merkle_root (block_hash <$> take (S (N.to_nat (up_to_sequence c))) bs)
  ∧ match key with Some vk => verify_signature vk c = true | None => True end.

(** What an accepting audit reports. *)
Definition audit_report (now : string) (key : option VerifyingKey) (bs : list LedgerBlock)
    (c : option MerkleCheckpoint) : LedgerAuditReport :=
  let n := N.of_nat (length bs) in
  {| total_blocks := n; total_blobs := blob_count (tail bs); latest_sequence := (n - 1)%N;
     latest_block_hash := from_option block_hash "" (last bs);
     report_merkle_root := compute_merkle_root (block_hash <$> bs);
     checkpoint_verified := bool_decide (is_Some c);
     signature_verified := bool_decide (is_Some c) && bool_decide (is_Some key);
     chain_valid := true; audit_timestamp_utc := now;
     checkpoint_sequence := up_to_sequence <$> c;
     blocks_after_checkpoint := from_option (λ c, n - 1 - up_to_sequence c)%N n c |}.

Lemma check_blobs_ok s b n l m :
  check_blobs blob_root s b n l = Ok m ↔
  Forall (λ h, verify_blob blob_root (blob_files s) h = true) l ∧ m = (n + N.of_nat (length l))%N.
Proof.
  revert n; induction l as [|h l IH]; intros n; cbn [check_blobs length].
  - split; [intros [= ->]; split; [constructor|lia]|]. intros [_ ->]. f_equal. lia.
  - destruct (verify_blob blob_root (blob_files s) h) eqn:Hh; simpl.
    + rewrite IH, Forall_cons.
      split; [intros [? ->]|intros [[_ ?] ->]]; (split; [done|lia]).
    + split; [done|]. intros [Hl _]. apply Forall_cons in Hl as [? _]. congruence.
Qed.

Lemma check_links_ok s i prev n rest m :
  check_links blob_root s i prev n rest = Ok m ↔
  linked i prev rest ∧ blobs_stored (blob_files s) rest ∧ m = (n + blob_count rest)%N.
Proof.
  unfold blobs_stored, blob_count.
  revert i prev n; induction rest as [|b rest IH]; intros i prev n; cbn [check_links linked].
  - simpl. rewrite N.add_0_r, Forall_nil.
    split; [intros [= ->]; done|by intros (_ & _ & ->)].
  - rewrite Forall_cons. cbn [mbind list_bind]. rewrite length_app. split.
    + intros Hr. run_guards.
      conv check_blobs_ok. destruct_and!. subst. conv IH. destruct_and!.
      repeat split; try done. lia.
    + intros ((-> & -> & Hi & Hl) & (Hb & Hs) & ->).
      rewrite N.eqb_refl, bool_decide_true by done. simpl. rewrite Hi. simpl.
      rewrite (proj2 (check_blobs_ok s b n (blob_hashes b) _) (conj Hb eq_refl)). simpl.
      apply IH. repeat split; try done. lia.
Qed.

Lemma check_checkpoint_ok key bs latest c signed :
  bs ≠ [] → latest = (N.of_nat (length bs) - 1)%N →
  check_checkpoint key (block_hash <$> bs) latest c = Ok signed ↔
  checkpoint_matches key bs c ∧ signed = bool_decide (is_Some key).
Proof.
  intros Hne ->. assert (0 < length bs)%nat by (destruct bs; simpl; [done|lia]).
  unfold check_checkpoint, checkpoint_matches.
  rewrite length_take, length_fmap, <- fmap_take.
  destruct (N.ltb_spec (N.of_nat (length bs) - 1) (up_to_sequence c)) as [Hlt|Hge].
  { split; [done|]. intros [[? _] _]. lia. }
  replace (N.of_nat (S (N.to_nat (up_to_sequence c)) `min` length bs))
    with (up_to_sequence c + 1)%N by lia.
  destruct (N.eqb_spec (block_count c) (up_to_sequence c + 1)%N) as [Hc|Hc]; simpl;
    [|split; [done|intros [(_ & ? & _) _]; done]].
  case_bool_decide as Hm; simpl; [|split; [done|intros [(_ & _ & ? & _) _]; done]].
  destruct key as [vk|].
  - destruct (verify_signature vk c) eqn:Hv.
    + split; [intros [= <-]|intros [_ ->]; done]. split; [|done]. split; [lia|done].
    + split; [done|]. by intros [(_ & _ & _ & ?) _].
  - split; [intros [= <-]|intros [_ ->]; done]. split; [|done]. split; [lia|done].
Qed.

Lemma chain_last_sequence bs b : chain bs → last bs = Some b → sequence b = (N.of_nat (length bs) - 1)%N.
Proof.
  intros Hc Hl. rewrite last_lookup in Hl. rewrite (chain_sequence _ _ _ Hc Hl).
  destruct bs; simpl; [done|lia].
Qed.

Lemma audit_spec now key s r :
  let bs := all_blocks s in
  let c := latest_checkpoint s in
  verify_chain_integrity now key s = Ok r ↔
  chain bs ∧ blobs_stored (blob_files s) (tail bs)
  ∧ (∀ k, c = Some k → checkpoint_matches key bs k)
  ∧ r = audit_report now key bs c.
Proof.
  simpl. unfold Ledger.verify_chain_integrity.
  destruct (all_blocks s) as [|g rest]; [split; [done|by intros [[] _]]|].
  cbv zeta. rewrite List_last_cons. cbn [tail].
  assert (∀ b, check_genesis g = Ok tt → linked 1 g rest → b = List.last rest g →
    sequence b = (N.of_nat (length (g :: rest)) - 1)%N) as Hs.
  { intros b Hg Hl ->. apply chain_last_sequence; [by split|]. apply last_cons_default. }
  assert (from_option block_hash "" (last (g :: rest)) = block_hash (List.last rest g)) as Hh
    by by rewrite last_cons_default.
  unfold audit_report. rewrite Hh. split.
  - intros Hr. apply bind_ok in Hr as ([] & Hg & Hr). apply bind_ok in Hr as (m & Hl & Hr).
    apply check_links_ok in Hl as (Hl & Hb & ->). specialize (Hs _ Hg Hl eq_refl).
    split; [by split|]. split; [done|]. destruct (latest_checkpoint s) as [c|].
    + apply bind_ok in Hr as (signed & Hc & Hr).
      apply check_checkpoint_ok in Hc as [Hc ->]; [|done..].
      split; [by intros k [= <-]|]. injection Hr as <-. by rewrite Hs.
    + split; [done|]. injection Hr as <-. by rewrite Hs.
  - intros ([Hg Hl] & Hb & Hc & ->). specialize (Hs _ Hg Hl eq_refl). rewrite Hg.
    cbn [mbind result_bind].
    rewrite (proj2 (check_links_ok s 1 g 0 rest _) (conj Hl (conj Hb eq_refl))).
    destruct (latest_checkpoint s) as [c|]; cbn [mbind result_bind]; [|by rewrite Hs].
    rewrite (proj2 (check_checkpoint_ok key (g :: rest) _ c _ ltac:(done) Hs)
        (conj (Hc c eq_refl) eq_refl)). cbn [mbind result_bind]. by rewrite Hs.
Qed.

(** C33: the audit accepts a ledger exactly when its blocks form a chain from a genesis block -
    consecutive sequence numbers, every hash recomputed, every link to the predecessor's hash -,
    every referenced blob is stored with its content, and the latest checkpoint, when there is
    one, covers a prefix of the chain with its Merkle root (and is signed when a key is given);
    the report then says what was covered. *)
Theorem audit_iff now key s r :
  let bs := all_blocks s in
  let c := latest_checkpoint s in
  verify_chain_integrity now key s = Ok r ↔
  chain bs ∧ blobs_stored (blob_files s) (tail bs)
  ∧ (∀ k, c = Some k → checkpoint_matches key bs k)
  ∧ r = audit_report now key bs c.
Proof. apply audit_spec. Qed.

End Audit.

(** ** Reachable ledgers *)

Lemma merge_sort_fixed (l : list BlockRow) :
  StronglySorted (λ a b, r_sequence a < r_sequence b)%Z l → merge_sort row_le l = l.
Proof.
  intros Hl. apply (StronglySorted_unique_strong row_le).
  - intros a b Ha Hb Hab Hba. unfold row_le in *. rewrite merge_sort_Permutation in Ha.
    apply list_elem_of_lookup in Ha as [i Hi], Hb as [j Hj].
    assert (∀ i j a b, l !! i = Some a → l !! j = Some b → (i < j)%nat → (r_sequence a < r_sequence b)%Z)
      as Hlt.
    { clear -Hl. induction Hl as [|c l Hs IH Hf]; [done|]. intros i j a b Hi Hj Hij.
      destruct j as [|j]; [lia|]. destruct i as [|i]; simpl in *; simplify_eq.
      - rewrite Forall_forall in Hf. apply Hf. by eapply list_elem_of_lookup_2.
      - eapply (IH i j); [done..|lia]. }
    destruct (decide (i = j)) as [->|Hne]; [congruence|]. exfalso.
    destruct (decide (i < j)%nat).
    + pose proof (Hlt _ _ _ _ Hi Hj ltac:(done)). lia.
    + pose proof (Hlt _ _ _ _ Hj Hi ltac:(lia)). lia.
  - apply (StronglySorted_merge_sort row_le).
  - clear -Hl. induction Hl as [|a l Hs IH Hf]; constructor; [done|].
    eapply Forall_impl; [exact Hf|]. intros b. unfold row_le. simpl. lia.
  - apply merge_sort_Permutation.
Qed.

(** [serde_json] reads back the arrays of digests it wrote. *)
Class DigestsRoundTrip `{JsonStr} (parse_strings : string → option (list string)) : Prop :=
  parse_digests l :
    Forall (λ h, is_hex_digest h = true) l → parse_strings (json_strings l) = Some l.

Section Reach.
Context `{Sha256, !Sha256Len, JsonStr, P256}.
Context (parse_strings : string → option (list string)) (blob_root : string).
Context `{!DigestsRoundTrip parse_strings}.

Abbreviation all_blocks := (all_blocks parse_strings).

(** Every file a digest names holds the content of that digest. *)
Definition content_addressed (files : disk) : Prop :=
  ∀ h data, is_hex_digest h = true → files !! blob_path blob_root h = Some data →
  sha256_hex data = h.

Definition checkpoint_at (key : option SigningKey) (now : string) (n : nat)
    (bs : list LedgerBlock) : MerkleCheckpoint :=
  let c := new_checkpoint (N.of_nat n) (compute_merkle_root (block_hash <$> take (S n) bs))
             (N.of_nat n + 1) now in
  match key with Some k => sign k c | None => c end.

(** The rows are those of the chain [bs]. *)
Record ledger_inv (bs : list LedgerBlock) (s : Store) : Prop := {
  inv_rows : blocks s = block_row <$> bs;
  inv_chain : chain bs;
  inv_small : (N.of_nat (length bs) <= i64_max)%N;
  inv_blobs : blobs_stored blob_root (blob_files s) bs;
  inv_files : content_addressed (blob_files s);
  inv_checkpoints : Forall (λ r, ∃ key now n, (n < length bs)%nat ∧
                      r = checkpoint_row (checkpoint_at key now n bs)) (checkpoints s)
}.

(** *** Rows and blocks *)

Lemma stored_hex files h : verify_blob blob_root files h = true → is_hex_digest h = true.
Proof. intros (data & _ & <-)%verify_blob_ok. apply sha256_hex_is_hex. Qed.

Lemma inv_block bs s b k :
  ledger_inv bs s → bs !! k = Some b →
  (sequence b <= i64_max)%N ∧ parse_strings (json_strings (blob_hashes b)) = Some (blob_hashes b).
Proof.
  intros Hi Hb. split.
  - rewrite (chain_sequence _ _ _ (inv_chain _ _ Hi) Hb). apply lookup_lt_Some in Hb.
    pose proof (inv_small _ _ Hi). lia.
  - apply parse_digests. pose proof (inv_blobs _ _ Hi) as Hs. unfold blobs_stored in Hs.
    rewrite Forall_lookup in Hs. eapply Forall_impl; [exact (Hs _ _ Hb)|].
    intros h Hh. exact (stored_hex _ _ Hh).
Qed.

Lemma row_of_block b :
  (sequence b <= i64_max)%N →
  parse_strings (json_strings (blob_hashes b)) = Some (blob_hashes b) →
  row_to_block parse_strings (block_row b) = Ok b
  ∧ row_to_block_lenient parse_strings (block_row b) = b.
Proof.
  intros Hs Hp. unfold row_to_block, row_to_block_lenient, block_of. destruct b; simpl in *.
  rewrite type_text_back, Hp. simpl. by rewrite as_i64_small, as_u64_of.
Qed.

Lemma inv_ordered bs s : ledger_inv bs s → ordered_rows s = block_row <$> bs.
Proof.
  intros Hi. unfold ordered_rows. rewrite (inv_rows _ _ Hi). apply merge_sort_fixed.
  assert (∀ k b, bs !! k = Some b → sequence b = (0 + N.of_nat k)%N
    ∧ (sequence b <= i64_max)%N) as Hs.
  { intros k b Hb. split; [|by eapply inv_block].
    by rewrite (chain_sequence _ _ _ (inv_chain _ _ Hi) Hb). }
  clear Hi. revert Hs. generalize 0%N. induction bs as [|a bs IH]; intros i Hs;
    [constructor|]. constructor.
  - apply (IH (i + 1)%N). intros k b Hb. destruct (Hs (S k) b Hb). split; [lia|done].
  - apply Forall_fmap, Forall_lookup. intros k b Hb. simpl.
    destruct (Hs 0%nat a eq_refl), (Hs (S k) b Hb). rewrite !as_i64_small by done. lia.
Qed.

Lemma inv_all_blocks bs s : ledger_inv bs s → all_blocks s = bs.
Proof.
  intros Hi. unfold Ledger.all_blocks. rewrite (inv_ordered _ _ Hi).
  apply list_eq. intros k. rewrite !list_lookup_fmap. destruct (bs !! k) as [b|] eqn:Hb; [|done].
  simpl. f_equal. destruct (inv_block _ _ _ _ Hi Hb). by apply row_of_block.
Qed.

Lemma inv_latest bs s b :
  ledger_inv bs s → last bs = Some b → latest_block parse_strings s = Ok (Some b).
Proof.
  intros Hi Hb. unfold latest_block. rewrite (inv_ordered _ _ Hi), fmap_last, Hb. simpl.
  rewrite last_lookup in Hb. destruct (inv_block _ _ _ _ Hi Hb).
  by rewrite (proj1 (row_of_block b ltac:(done) ltac:(done))).
Qed.

Lemma chain_last bs : chain bs → ∃ b, last bs = Some b.
Proof. destruct bs as [|g l]; [done|]. eauto using last_cons_default. Qed.

(** *** The blob directory *)

Lemma path_join_inj a b :
  has_root a = false → has_root b = false →
  path_join blob_root a = path_join blob_root b → a = b.
Proof.
  unfold path_join. intros -> ->. case_bool_decide; [done|].
  case_bool_decide; [by intros ?%str_app_inj_l|].
  intros Heq%str_app_inj_l. by injection Heq.
Qed.

Lemma hex_no_root h : is_hex_digest h = true → has_root h = false.
Proof.
  intros Hh. pose proof (is_hex_digest_no_byte slash h Hh eq_refl) as Hn.
  unfold has_root. destruct h as [|c h]; [done|]. rewrite starts_with_cons. simpl in Hn.
  apply orb_false_elim in Hn as [Hc _]. apply bool_decide_eq_false in Hc.
  rewrite bool_decide_false; [done|]. intros <-. by apply Hc.
Qed.

Lemma tmp_not_blob uuid h :
  is_hex_digest h = true → path_join blob_root (".tmp." +:+ uuid) ≠ blob_path blob_root h.
Proof.
  intros Hh Heq. apply path_join_inj in Heq; [|done|by apply hex_no_root]. subst.
  unfold is_hex_digest in Hh. apply andb_prop in Hh as [_ Hh]. discriminate Hh.
Qed.

(** A write keeps every stored blob, whether it succeeds or not, and a successful one stores
    its data. *)
Lemma put_blob_files fate uuid data files files' r :
  content_addressed files →
  put_blob blob_root fate uuid data files = (files', r) →
  content_addressed files'
  ∧ (∀ h, verify_blob blob_root files h = true → verify_blob blob_root files' h = true)
  ∧ (∀ h, r = Ok h → h = sha256_hex data ∧ verify_blob blob_root files' h = true).
Proof.
  intros Hc. unfold put_blob.
  set (tmp := path_join blob_root (".tmp." +:+ uuid)).
  assert (∀ x, content_addressed (<[tmp := x]> files) ∧
    (∀ h, verify_blob blob_root files h = true →
          verify_blob blob_root (<[tmp := x]> files) h = true)) as Htmp.
  { intros x. split.
    - intros h y Hh. rewrite lookup_insert_ne by by apply tmp_not_blob. by apply Hc.
    - intros h Hv. rewrite verify_blob_ok in *. destruct Hv as (y & Hy & <-). exists y.
      rewrite lookup_insert_ne; [done|]. apply tmp_not_blob, sha256_hex_is_hex. }
  case_bool_decide as Hd.
  - intros [= <- <-]. split; [done|]. split; [done|]. intros h [= <-]. split; [done|].
    destruct Hd as [y Hy]. apply verify_blob_ok. exists y. split; [done|].
    eapply Hc; [apply sha256_hex_is_hex|done].
  - destruct fate as [|k|]; intros [= <- <-]; try (destruct (Htmp data); done);
      try (destruct (Htmp (String.substring 0 k data)); done).
    clear Htmp Hd. split; [|split].
    + intros h y Hh. destruct (decide (h = sha256_hex data)) as [->|Hne].
      * rewrite lookup_insert_eq. by intros [= <-].
      * rewrite lookup_insert_ne; [|].
        2:{ intros Heq%path_join_inj; [congruence|by apply hex_no_root, sha256_hex_is_hex|
            by apply hex_no_root]. }
        rewrite lookup_delete_ne by by apply tmp_not_blob. by apply Hc.
    + intros h. rewrite !verify_blob_ok. intros (y & Hy & <-).
      destruct (decide (sha256_hex y = sha256_hex data)) as [->|Hne].
      * exists data. by rewrite lookup_insert_eq.
      * exists y. rewrite lookup_insert_ne, lookup_delete_ne; [done| |].
        -- apply tmp_not_blob, sha256_hex_is_hex.
        -- intros Heq%path_join_inj; [congruence|apply hex_no_root, sha256_hex_is_hex..].
    + intros h [= <-]. split; [done|]. apply verify_blob_ok. exists data.
      by rewrite lookup_insert_eq.
Qed.

Lemma put_blob_total fate uuid data files :
  ∃ files' r, put_blob blob_root fate uuid data files = (files', r).
Proof. destruct (put_blob blob_root fate uuid data files). eauto. Qed.

Lemma inv_with_files bs s s' :
  ledger_inv bs s → content_addressed (blob_files s') →
  (∀ h, verify_blob blob_root (blob_files s) h = true →
        verify_blob blob_root (blob_files s') h = true) →
  blocks s' = blocks s → checkpoints s' = checkpoints s → ledger_inv bs s'.
Proof.
  intros Hi Hf Hv Hb Hc. split; try (rewrite ?Hb, ?Hc; apply Hi); [|done].
  unfold blobs_stored. eapply Forall_impl; [apply (inv_blobs _ _ Hi)|].
  intros b. intros Hs. eapply Forall_impl; [exact Hs|]. done.
Qed.

(** *** Steps *)

Lemma checkpoint_at_app key now n bs l :
  (n < length bs)%nat → checkpoint_at key now n (bs ++ l) = checkpoint_at key now n bs.
Proof. intros Hn. unfold checkpoint_at. by rewrite take_app_le by lia. Qed.

(** An append adds the block that names the latest one, or changes nothing because the row
    would repeat a sequence number or block hash. *)
Lemma append_block_step bs s now t payload blobs latest :
  ledger_inv bs s → (N.of_nat (length bs) < i64_max)%N → last bs = Some latest →
  Forall (λ h, verify_blob blob_root (blob_files s) h = true) blobs →
  let b := new_block (sequence latest + 1) t now (block_hash latest) payload blobs in
  (append_block parse_strings now t payload blobs s
     = (with_blocks (blocks s ++ [block_row b]) s, Ok b)
   ∧ ledger_inv (bs ++ [b]) (with_blocks (blocks s ++ [block_row b]) s))
  ∨ (∃ e, append_block parse_strings now t payload blobs s = (s, Err e)
     ∧ block_hash b ∈ block_hash <$> bs).
Proof.
  intros Hi Hn Hl Hb b. unfold append_block. rewrite (inv_latest _ _ _ Hi Hl).
  assert (bs ≠ []) as Hne by (intros ->; done).
  assert (length bs ≠ 0%nat) by (by destruct bs).
  pose proof (chain_last_sequence _ _ (inv_chain _ _ Hi) Hl) as Hs.
  assert (sequence latest + 1 = N.of_nat (length bs))%N as Hs1 by lia.
  assert (wrap64 (sequence latest + 1) = sequence latest + 1)%N as ->.
  { unfold wrap64. apply N.mod_small. unfold i64_max in Hn. lia. }
  fold b. cbv zeta. unfold mbind, M_bind, insert_block_internal.
  destruct (existsb (conflicts (block_row b)) (blocks s)) eqn:Hx.
  - right. eexists. split; [done|]. apply existsb_exists in Hx as (r & Hr & Hx).
    rewrite (inv_rows _ _ Hi) in Hr. apply list_elem_of_In, list_elem_of_fmap in Hr as (b' & -> & Hb').
    apply list_elem_of_lookup in Hb' as [k Hk]. unfold conflicts in Hx.
    apply orb_prop in Hx as [Hx|Hx]; apply bool_decide_eq_true in Hx; simpl in Hx.
    + destruct (inv_block _ _ _ _ Hi Hk) as [Hk' _].
      rewrite !as_i64_small in Hx by (try done; unfold i64_max in *; lia).
      pose proof (chain_sequence _ _ _ (inv_chain _ _ Hi) Hk). apply lookup_lt_Some in Hk. lia.
    + apply list_elem_of_fmap. exists b'. split; [done|]. by eapply list_elem_of_lookup_2.
  - left. split; [done|]. split; simpl.
    + by rewrite (inv_rows _ _ Hi), fmap_app.
    + apply chain_app; [done|]. rewrite Hl. simpl. repeat split; [apply Hi|done|].
      by apply verify_integrity_ok.
    + rewrite length_app. simpl. lia.
    + unfold blobs_stored. apply Forall_app. split; [apply Hi|]. by apply Forall_singleton.
    + apply Hi.
    + eapply Forall_impl; [apply (inv_checkpoints _ _ Hi)|].
      intros r (key & now' & n & Hlt & ->). exists key, now', n. split.
      * rewrite length_app. lia.
      * by rewrite checkpoint_at_app.
Qed.

(** The calls of the ledger's interface. *)
Inductive op :=
  | Open (now : string)
  | Append (now : string) (t : BlockType) (payload : string) (blobs : list string)
  | AppendEvaluation (now : string) (fate : blob_fate) (uuid receipt : string) (raw : option string)
  | AppendPromotion (now : string) (g : GenerationInfo) (receipt_digest : string)
  | AppendRollback (now at_ generation reason : string)
  | AppendEvidence (now : string) (e : PromotionEvidencePayload)
  | Checkpoint (now : string) (key : option SigningKey).

Definition run_op (o : op) (s : Store) : Store :=
  match o with
  | Open now => (open parse_strings now s).1
  | Append now t payload blobs => (append_block parse_strings now t payload blobs s).1
  | AppendEvaluation now fate uuid receipt raw =>
    (append_evaluation parse_strings blob_root now fate uuid receipt raw s).1
  | AppendPromotion now g d => (append_promotion parse_strings now g d s).1
  | AppendRollback now at_ g reason => (append_rollback parse_strings now at_ g reason s).1
  | AppendEvidence now e => (append_promotion_evidence parse_strings now e s).1
  | Checkpoint now key => (checkpoint parse_strings now key s).1
  end.

(** [append_block] takes the digests of its blobs from the caller: they have to be stored. *)
Definition allowed (s : Store) (o : op) : Prop :=
  match o with
  | Append _ _ _ blobs => Forall (λ h, verify_blob blob_root (blob_files s) h = true) blobs
  | _ => True
  end.

(** The ledgers [n] calls after the first opening, whatever fails on the way. *)
Inductive reaches : nat → Store → Prop :=
  | reaches_open now files :
      content_addressed files → reaches 0 (open parse_strings now (empty_store files)).1
  | reaches_step n s o : reaches n s → allowed s o → reaches (S n) (run_op o s).

Lemma inv_open now files :
  content_addressed files →
  ∃ b, ledger_inv [b] (open parse_strings now (empty_store files)).1.
Proof.
  intros Hf. exists (new_block 0 Genesis now GENESIS_PREV_HASH genesis_payload []). split.
  - reflexivity.
  - split; [|done]. apply check_genesis_ok. repeat split. by apply verify_integrity_ok.
  - done.
  - by repeat constructor.
  - done.
  - constructor.
Qed.

(** A call that keeps the blocks [bs], may add one more block, and returns the block it added. *)
Definition adds_block (bs : list LedgerBlock) (t : BlockType) (payload : string)
    (o : Store * result LedgerBlock) : Prop :=
  ∃ l, ledger_inv (bs ++ l) o.1 ∧ (length l <= 1)%nat
    ∧ Forall (λ b, block_type b = t ∧ payload_json b = payload) l ∧ ∀ b, o.2 = Ok b → b ∈ l.

Lemma inv_append bs s now t payload blobs :
  ledger_inv bs s → (N.of_nat (length bs) < i64_max)%N →
  Forall (λ h, verify_blob blob_root (blob_files s) h = true) blobs →
  adds_block bs t payload (append_block parse_strings now t payload blobs s).
Proof.
  intros Hi Hn Hb. destruct (chain_last _ (inv_chain _ _ Hi)) as [latest Hl].
  destruct (append_block_step bs s now t payload blobs latest Hi Hn Hl Hb) as [[-> Hs]|(e & -> & _)].
  - eexists. split; [exact Hs|]. split; [done|]. split; [by apply Forall_singleton|].
    intros b [= <-]. by left.
  - exists []. rewrite app_nil_r. by split_and!; [|simpl; lia|constructor|].
Qed.

Lemma inv_checkpoint bs s now key :
  ledger_inv bs s → ledger_inv bs (checkpoint parse_strings now key s).1
  ∧ ∃ c, checkpoint parse_strings now key s
         = (with_checkpoints (replace_checkpoint (checkpoint_row c) (checkpoints s)) s, Ok c)
         ∧ c = checkpoint_at key now (length bs - 1) bs.
Proof.
  intros Hi. destruct (chain_last _ (inv_chain _ _ Hi)) as [latest Hl].
  assert (length bs ≠ 0%nat) by (by destruct bs).
  assert (checkpoint parse_strings now key s
    = (with_checkpoints (replace_checkpoint
        (checkpoint_row (checkpoint_at key now (length bs - 1) bs)) (checkpoints s)) s,
       Ok (checkpoint_at key now (length bs - 1) bs))) as Hc.
  { unfold checkpoint. rewrite (inv_all_blocks _ _ Hi), Hl.
    rewrite (chain_last_sequence _ _ (inv_chain _ _ Hi) Hl).
    unfold checkpoint_at. rewrite take_ge by lia.
    replace (N.of_nat (length bs - 1)) with (N.of_nat (length bs) - 1)%N by lia.
    replace (N.of_nat (length bs) - 1 + 1)%N with (N.of_nat (length bs)) by lia. done. }
  split; [|eauto]. rewrite Hc. split; try apply Hi. simpl.
  unfold replace_checkpoint. apply Forall_app. split.
  - rewrite Forall_forall. intros r Hr. rewrite list_elem_of_In, filter_In in Hr.
    pose proof (inv_checkpoints _ _ Hi) as Hcs. rewrite Forall_forall in Hcs.
    apply Hcs, list_elem_of_In. tauto.
  - apply Forall_singleton. exists key, now, (length bs - 1)%nat. split; [lia|done].
Qed.

Lemma inv_evaluation bs s now fate uuid receipt raw :
  ledger_inv bs s → (N.of_nat (length bs) < i64_max)%N →
  adds_block bs Evaluation receipt
    (append_evaluation parse_strings blob_root now fate uuid receipt raw s).
Proof.
  intros Hi Hn. unfold append_evaluation. destruct raw as [data|]; [|by apply inv_append].
  destruct (put_blob blob_root fate uuid data (blob_files s)) as [files r] eqn:Hp.
  destruct (put_blob_files _ _ _ _ _ _ (inv_files _ _ Hi) Hp) as (Hc & Hv & Hr).
  destruct r as [digest|e].
  - destruct (Hr digest eq_refl) as [-> Hs].
    set (s' := index_blob_or_ignore _ _ _ _).
    assert (blob_files s' = files ∧ blocks s' = blocks s ∧ checkpoints s' = checkpoints s)
      as (Hs1 & Hs2 & Hs3).
    { unfold s', index_blob_or_ignore. by destruct (blobs_index _ !! _). }
    apply inv_append; [|done|].
    + apply (inv_with_files bs s); rewrite ?Hs1; done.
    + apply Forall_singleton. by rewrite Hs1.
  - exists []. rewrite app_nil_r. by split_and!; [apply (inv_with_files bs s)|simpl; lia|constructor|].
Qed.

Lemma inv_step bs s o :
  ledger_inv bs s → (N.of_nat (length bs) < i64_max)%N → allowed s o →
  ∃ l, ledger_inv (bs ++ l) (run_op o s) ∧ (length l <= 1)%nat.
Proof.
  intros Hi Hn Ha.
  assert (∀ t payload out, adds_block bs t payload out →
    ∃ l, ledger_inv (bs ++ l) out.1 ∧ (length l <= 1)%nat) as Hadd.
  { intros t p out (l & ? & ? & _). by exists l. }
  destruct o as [now|now t payload blobs|now fate uuid receipt raw|
    now g d|now at_ g reason|now e|now key]; cbn [run_op].
  - destruct (chain_last _ (inv_chain _ _ Hi)) as [latest Hl]. exists []. rewrite app_nil_r.
    split; [|simpl; lia]. unfold open. by rewrite (inv_latest _ _ _ Hi Hl).
  - by eapply Hadd, inv_append.
  - by eapply Hadd, inv_evaluation.
  - by eapply Hadd, inv_append.
  - by eapply Hadd, inv_append.
  - by eapply Hadd, inv_append.
  - exists []. rewrite app_nil_r. split; [|simpl; lia]. by apply inv_checkpoint.
Qed.

Lemma reaches_inv n s :
  reaches n s → (N.of_nat (S n) <= i64_max)%N →
  ∃ bs, ledger_inv bs s ∧ (length bs <= S n)%nat.
Proof.
  induction 1 as [now files Hf|n s o _ IH Ha]; intros Hn.
  - destruct (inv_open now files Hf) as [b Hb]. exists [b]. split; [done|simpl; lia].
  - destruct IH as (bs & Hi & Hl); [lia|].
    destruct (inv_step bs s o Hi) as (l & Hi' & Hl'); [lia|done|].
    exists (bs ++ l). split; [done|rewrite length_app; lia].
Qed.

(** The latest checkpoint of a reachable ledger is one that was made. *)
Lemma inv_latest_checkpoint bs s c :
  ledger_inv bs s → latest_checkpoint s = Some c →
  ∃ key now n, (n < length bs)%nat ∧ c = checkpoint_at key now n bs.
Proof.
  intros Hi Hc. unfold latest_checkpoint in Hc. apply fmap_Some in Hc as (r & Hr & ->).
  apply last_Some_elem_of in Hr. rewrite merge_sort_Permutation in Hr.
  pose proof (inv_checkpoints _ _ Hi) as Hcs. rewrite Forall_forall in Hcs.
  destruct (Hcs r Hr) as (key & now & n & Hn & ->). exists key, now, n. split; [done|].
  pose proof (inv_small _ _ Hi). unfold checkpoint_row, checkpoint_of, checkpoint_at.
  destruct key; simpl; rewrite !as_i64_small, !as_u64_of by lia; done.
Qed.

Lemma checkpoint_at_matches key now n bs vk :
  (n < length bs)%nat →
  match vk with Some vk => verify_signature vk (checkpoint_at key now n bs) = true | None => True end →
  checkpoint_matches vk bs (checkpoint_at key now n bs).
Proof.
  intros Hn Hv. unfold checkpoint_matches.
  assert (up_to_sequence (checkpoint_at key now n bs) = N.of_nat n
    ∧ block_count (checkpoint_at key now n bs) = (N.of_nat n + 1)%N
    ∧ merkle_root (checkpoint_at key now n bs) = compute_merkle_root (block_hash <$> take (S n) bs))
    as (-> & -> & ->) by by destruct key.
  rewrite Nat2N.id. repeat split; [lia|done].
Qed.

Lemma sorted_last_max (l : list CheckpointRow) r :
  r ∈ l → (∀ x, x ∈ l → x = r ∨ (c_up_to_sequence x < c_up_to_sequence r)%Z) →
  last (merge_sort checkpoint_le l) = Some r.
Proof.
  intros Hr Hmax. assert (r ∈ merge_sort checkpoint_le l) as Hr'
    by by rewrite merge_sort_Permutation.
  pose proof (StronglySorted_merge_sort checkpoint_le l) as Hs.
  assert (∀ x, x ∈ merge_sort checkpoint_le l → x = r ∨ (c_up_to_sequence x < c_up_to_sequence r)%Z)
    as Hm by (intros x; rewrite merge_sort_Permutation; apply Hmax).
  revert Hr' Hs Hm. generalize (merge_sort checkpoint_le l). clear.
  intros m. induction m as [|a m IH]; [by intros ?%elem_of_nil|].
  intros Hr Hs Hm. apply StronglySorted_inv in Hs as [Hs Hf]. destruct m as [|b m].
  - apply list_elem_of_singleton in Hr as ->. done.
  - rewrite last_cons_cons. apply IH; [|done|intros x Hx; apply Hm; by right].
    apply elem_of_cons in Hr as [<-|Hr]; [|done].
    destruct (Hm b ltac:(right; left)) as [->|Hlt]; [left|].
    apply Forall_cons in Hf as [Hf _]. unfold checkpoint_le in Hf. lia.
Qed.

Lemma latest_after_checkpoint s c :
  (up_to_sequence c <= i64_max)%N → (block_count c <= i64_max)%N →
  Forall (λ r, c_up_to_sequence r <= Z.of_N (up_to_sequence c))%Z (checkpoints s) →
  latest_checkpoint (with_checkpoints (replace_checkpoint (checkpoint_row c) (checkpoints s)) s)
  = Some c.
Proof.
  intros Hu Hb Hall. unfold latest_checkpoint. simpl.
  rewrite (sorted_last_max _ (checkpoint_row c)).
  - simpl. destruct c; unfold checkpoint_of, checkpoint_row; simpl in *.
    by rewrite !as_i64_small, !as_u64_of.
  - unfold replace_checkpoint. apply elem_of_app. right. by apply list_elem_of_singleton.
  - intros x. unfold replace_checkpoint. rewrite elem_of_app, list_elem_of_singleton.
    intros [Hx| ->]; [right|by left]. rewrite list_elem_of_In, filter_In in Hx.
    destruct Hx as [Hx Hne]. apply negb_true_iff, bool_decide_eq_false in Hne.
    rewrite Forall_forall in Hall. specialize (Hall x (proj2 (list_elem_of_In _ _) Hx)).
    simpl in *. rewrite as_i64_small in * by done. lia.
Qed.

(** A ledger that holds a chain passes the audit. *)
Lemma inv_audits bs s now key :
  ledger_inv bs s →
  (∀ vk c, key = Some vk → latest_checkpoint s = Some c → verify_signature vk c = true) →
  verify_chain_integrity parse_strings blob_root now key s
  = Ok (audit_report now key bs (latest_checkpoint s)).
Proof.
  intros Hi Hk. apply audit_spec. rewrite (inv_all_blocks _ _ Hi).
  split; [apply Hi|]. split.
  { pose proof (inv_blobs _ _ Hi) as Hb. unfold blobs_stored in *.
    destruct bs as [|g l]; [constructor|]. by apply Forall_cons in Hb as [_ Hb]. }
  split; [|done]. intros c Hc.
  destruct (inv_latest_checkpoint _ _ _ Hi Hc) as (key' & now' & m & Hm & ->).
  apply checkpoint_at_matches; [done|]. destruct key as [vk|]; [by apply Hk|done].
Qed.

(** *** Blocks that name blobs nobody stored *)

(** The blob directory plays no part in an append or a checkpoint. *)
Lemma append_with_blobs now t payload hashes files s :
  append_block parse_strings now t payload hashes (with_blobs files s)
  = (with_blobs files (append_block parse_strings now t payload hashes s).1,
     (append_block parse_strings now t payload hashes s).2).
Proof.
  unfold append_block. change (latest_block parse_strings (with_blobs files s))
    with (latest_block parse_strings s).
  destruct (latest_block parse_strings s) as [[latest|]|e]; [|done..].
  unfold insert_block_internal, mbind, M_bind. cbn. by destruct (existsb _ _).
Qed.

Lemma append_keeps_blobs now t payload hashes s :
  blob_files (append_block parse_strings now t payload hashes s).1 = blob_files s.
Proof.
  unfold append_block. destruct (latest_block parse_strings s) as [[latest|]|e]; [|done..].
  unfold insert_block_internal, mbind, M_bind. cbn. by destruct (existsb _ _).
Qed.

(** An append may name any digest of a text, stored or not. *)
Definition names_digests (o : op) : Prop :=
  match o with Append _ _ _ blobs => ∃ texts, blobs = sha256_hex <$> texts | _ => True end.

(** The ledgers [n] such calls after the first opening. *)
Inductive serves : nat → Store → Prop :=
  | serves_open now files :
      content_addressed files → serves 0 (open parse_strings now (empty_store files)).1
  | serves_step n s o : serves n s → names_digests o → serves (S n) (run_op o s).

(** The rows are those of a chain, whatever the blob directory holds. *)
Definition named_inv (bs : list LedgerBlock) (s : Store) : Prop :=
  content_addressed (blob_files s) ∧ ∃ files, ledger_inv bs (with_blobs files s).

Lemma put_written uuid data files : (put_blob blob_root BlobWritten uuid data files).2 = Ok (sha256_hex data).
Proof. unfold put_blob. by case_bool_decide. Qed.

Lemma store_all texts files : content_addressed files →
  ∃ files', content_addressed files'
    ∧ (∀ h, verify_blob blob_root files h = true → verify_blob blob_root files' h = true)
    ∧ Forall (λ h, verify_blob blob_root files' h = true) (sha256_hex <$> texts).
Proof.
  intros Hc. induction texts as [|x l (f & Hf & Hk & Hl)]; [by exists files|].
  pose proof (put_written "" x f) as Hr.
  destruct (put_blob blob_root BlobWritten "" x f) as [f' r] eqn:Hp. cbn [snd] in Hr. subst r.
  destruct (put_blob_files _ _ _ _ _ _ Hf Hp) as (Hf' & Hk' & Hv). exists f'.
  split; [done|]. split; [by auto|]. rewrite fmap_cons. constructor; [by apply Hv|].
  eapply Forall_impl; [exact Hl|]. auto.
Qed.

Lemma named_append bs s now t payload texts :
  named_inv bs s → (N.of_nat (length bs) < i64_max)%N →
  ∃ l, named_inv (bs ++ l) (append_block parse_strings now t payload (sha256_hex <$> texts) s).1
    ∧ (length l <= 1)%nat.
Proof.
  intros (Hc & files & Hi) Hn. destruct (store_all texts files (inv_files _ _ Hi)) as (f & Hf & Hk & Hl).
  assert (ledger_inv bs (with_blobs f s)) as Hi' by (by eapply (inv_with_files bs (with_blobs files s))).
  destruct (inv_append bs _ now t payload (sha256_hex <$> texts) Hi' Hn Hl) as (l & Hs & Hlen & _).
  rewrite append_with_blobs in Hs. exists l. split; [|done].
  split; [by rewrite append_keeps_blobs|]. by exists f.
Qed.

Lemma named_evaluation bs s now fate uuid receipt raw :
  named_inv bs s → (N.of_nat (length bs) < i64_max)%N →
  ∃ l, named_inv (bs ++ l) (append_evaluation parse_strings blob_root now fate uuid receipt raw s).1
    ∧ (length l <= 1)%nat.
Proof.
  intros Hi Hn. unfold append_evaluation.
  destruct raw as [data|]; [|by apply (named_append bs s now Evaluation receipt [])].
  destruct Hi as (Hc & files & Hi).
  destruct (put_blob blob_root fate uuid data (blob_files s)) as [f r] eqn:Hp.
  destruct (put_blob_files _ _ _ _ _ _ Hc Hp) as (Hf & _ & Hr). destruct r as [digest|e].
  - destruct (Hr digest eq_refl) as [-> _]. set (s' := index_blob_or_ignore _ _ _ _).
    assert (blob_files s' = f ∧ blocks s' = blocks s ∧ checkpoints s' = checkpoints s)
      as (Hs1 & Hs2 & Hs3).
    { unfold s', index_blob_or_ignore. by destruct (blobs_index _ !! _). }
    apply (named_append bs s' now Evaluation receipt [data]); [|done]. split; [by rewrite Hs1|].
    exists files. apply (inv_with_files bs (with_blobs files s)); [done|apply Hi|done|done..].
  - exists []. rewrite app_nil_r. split; [|simpl; lia]. split; [done|].
    exists files. apply (inv_with_files bs (with_blobs files s)); [done|apply Hi|done..].
Qed.

Lemma named_step bs s o :
  named_inv bs s → (N.of_nat (length bs) < i64_max)%N → names_digests o →
  ∃ l, named_inv (bs ++ l) (run_op o s) ∧ (length l <= 1)%nat.
Proof.
  intros Hi Hn Ha.
  destruct o as [now|now t payload blobs|now fate uuid receipt raw|
    now g d|now at_ g reason|now e|now key]; cbn [run_op].
  - destruct Hi as (Hc & files & Hi). destruct (chain_last _ (inv_chain _ _ Hi)) as [latest Hl].
    exists []. rewrite app_nil_r. split; [|simpl; lia]. unfold open.
    change (latest_block parse_strings s) with (latest_block parse_strings (with_blobs files s)).
    rewrite (inv_latest _ _ _ Hi Hl). split; eauto.
  - destruct Ha as [texts ->]. by apply named_append.
  - by apply named_evaluation.
  - by apply (named_append bs s now Promotion _ []).
  - by apply (named_append bs s now Rollback _ []).
  - by apply (named_append bs s now PromotionEvidence _ []).
  - destruct Hi as (Hc & files & Hi). exists []. rewrite app_nil_r. split; [|simpl; lia].
    split.
    + unfold checkpoint. by destruct (last _).
    + exists files. pose proof (proj1 (inv_checkpoint bs _ now key Hi)) as Hs. revert Hs.
      unfold checkpoint. change (all_blocks (with_blobs files s)) with (all_blocks s).
      by destruct (last (all_blocks s)).
Qed.

Lemma serves_inv n s :
  serves n s → (N.of_nat (S n) <= i64_max)%N → ∃ bs, named_inv bs s ∧ (length bs <= S n)%nat.
Proof.
  induction 1 as [now files Hf|n s o _ IH Ha]; intros Hn.
  - destruct (inv_open now files Hf) as [b Hb]. exists [b]. split; [|simpl; lia].
    split; [done|]. exists files. exact Hb.
  - destruct IH as (bs & Hi & Hl); [lia|].
    destruct (named_step bs s o Hi) as (l & Hi' & Hl'); [lia|done|].
    exists (bs ++ l). split; [done|rewrite length_app; lia].
Qed.

Lemma named_audits bs s now key :
  named_inv bs s →
  (∀ vk c, key = Some vk → latest_checkpoint s = Some c → verify_signature vk c = true) →
  all_blocks s = bs ∧
  ∀ r, verify_chain_integrity parse_strings blob_root now key s = Ok r ↔
    blobs_stored blob_root (blob_files s) (tail bs)
    ∧ r = audit_report now key bs (latest_checkpoint s).
Proof.
  intros (_ & files & Hi) Hk. pose proof (inv_all_blocks _ _ Hi) as Hb.
  change (all_blocks (with_blobs files s)) with (all_blocks s) in Hb. split; [done|]. intros r.
  pose proof (inv_audits bs _ now key Hi Hk) as (Hc & _ & Hcp & _)%audit_spec.
  rewrite (inv_all_blocks _ _ Hi) in Hc, Hcp. rewrite audit_spec, Hb.
  split; [by intros (_ & ? & _ & ?)|]. by intros [? ?].
Qed.

(** C7: whatever sequence of calls the ledger has served - appends that name any digests,
    evaluations with their raw metrics, promotions, rollbacks, evidence, checkpoints,
    re-openings, including blob writes that failed half way and rows the database refused - the
    audit accepts it (with a key, when the latest checkpoint is signed with it) exactly when
    every digest its blocks after the first name is stored with its content; and when every
    append named only digests that were stored, as all but the kernel experiment's do, it always
    accepts it. *)
Theorem ledger_always_audits n s now key :
  serves n s → (N.of_nat (S n) <= i64_max)%N →
  (∀ vk c, key = Some vk → latest_checkpoint s = Some c → verify_signature vk c = true) →
  let accepted := ∃ r, verify_chain_integrity parse_strings blob_root now key s = Ok r
       ∧ chain_valid r = true ∧ total_blocks r = N.of_nat (length (all_blocks s))
       ∧ (total_blocks r <= N.of_nat (S n))%N
       ∧ checkpoint_sequence r = up_to_sequence <$> latest_checkpoint s in
  (accepted ↔ ∀ b h, b ∈ tail (all_blocks s) → h ∈ blob_hashes b →
     ∃ data, blob_files s !! blob_path blob_root h = Some data ∧ sha256_hex data = h)
  ∧ (reaches n s → accepted).
Proof.
  intros Hs Hn Hk accepted. destruct (serves_inv n s Hs Hn) as (bs & Hi & Hl).
  destruct (named_audits bs s now key Hi Hk) as [Hb Ha].
  assert (accepted ↔ blobs_stored blob_root (blob_files s) (tail bs)) as Hacc.
  { unfold accepted. rewrite Hb. split; [by intros (r & [? _]%Ha & _)|]. intros Hst.
    eexists. split; [by apply Ha|]. split; [done|]. split; [done|]. split; [simpl; lia|done]. }
  split.
  - rewrite Hacc, Hb. unfold blobs_stored. rewrite Forall_forall. setoid_rewrite Forall_forall.
    setoid_rewrite verify_blob_ok. naive_solver.
  - intros Hr. apply Hacc. destruct (reaches_inv n s Hr Hn) as (bs' & Hi' & _).
    pose proof (inv_all_blocks _ _ Hi') as Hb'. rewrite Hb in Hb'. subst bs'.
    pose proof (inv_blobs _ _ Hi') as Hst. unfold blobs_stored in *.
    destruct bs as [|g l]; [constructor|]. by apply Forall_cons in Hst as [_ Hst].
Qed.

(** an append either adds exactly one block - the next sequence number, linked to the
    latest block, with the given type, payload and blobs - or fails and changes nothing, and it
    fails only when its block hash is already in the ledger. *)
Theorem append_extends n s now t payload blobs :
  reaches n s → (N.of_nat (S n) < i64_max)%N →
  Forall (λ h, verify_blob blob_root (blob_files s) h = true) blobs →
  ∃ latest s' r, last (all_blocks s) = Some latest
    ∧ append_block parse_strings now t payload blobs s = (s', r)
    ∧ let b := new_block (sequence latest + 1) t now (block_hash latest) payload blobs in
      match r with
      | Ok b' => b' = b ∧ all_blocks s' = all_blocks s ++ [b]
      | Err _ => s' = s ∧ block_hash b ∈ block_hash <$> all_blocks s
      end.
Proof.
  intros Hr Hn Hb. destruct (reaches_inv n s Hr ltac:(lia)) as (bs & Hi & Hlen).
  destruct (chain_last _ (inv_chain _ _ Hi)) as [latest Hl].
  assert (N.of_nat (length bs) < i64_max)%N as Hlt by lia.
  exists latest. rewrite (inv_all_blocks _ _ Hi).
  destruct (append_block_step bs s now t payload blobs latest Hi Hlt Hl Hb)
    as [[-> Hi']|(e & -> & Hin)]; do 2 eexists; (split; [done|split; [done|]]); cbv zeta.
  - by rewrite (inv_all_blocks _ _ Hi').
  - done.
Qed.

(** what was put into the blob store comes back under the returned digest, also when the
    file was already there, unless two contents collide. *)
Theorem blob_round_trip fate uuid data files files' h :
  content_addressed files → put_blob blob_root fate uuid data files = (files', Ok h) →
  ∃ data', get_blob blob_root files' h = Ok data'
           ∧ (no_collision [data; data'] → data' = data).
Proof.
  intros Hc Hp. destruct (put_blob_files _ _ _ _ _ _ Hc Hp) as (_ & _ & Hr).
  destruct (Hr h eq_refl) as [-> Hv].
  apply verify_blob_ok in Hv as (data' & Hl & Hd). exists data'.
  split; [by apply get_blob_ok|]. intros Hn.
  apply (sha256_hex_inj [data; data']); [done| | |done].
  - right. by left.
  - by left.
Qed.

(** A checkpoint signed with a key leaves nothing unchecked: the audit with the key's
    public part then verifies the Merkle root over every block and the signature, and the
    [unchecked] list is empty. *)
Theorem checkpoint_completes_audit `{!P256Spec} n s now now' k :
  reaches n s → (N.of_nat (S n) <= i64_max)%N →
  ∃ s' c r, checkpoint parse_strings now (Some k) s = (s', Ok c)
    ∧ verify_chain_integrity parse_strings blob_root now' (Some (verifying_key k)) s' = Ok r
    ∧ signature_verified r = true ∧ blocks_after_checkpoint r = 0%N ∧ unchecked r true = []
    ∧ merkle_root c = compute_merkle_root (block_hash <$> all_blocks s).
Proof.
  intros Hr Hn. destruct (reaches_inv n s Hr Hn) as (bs & Hi & Hlen).
  destruct (inv_checkpoint bs s now (Some k) Hi) as [Hi' (c & Hc & Hcat)].
  rewrite Hc in Hi'. cbn [fst] in Hi'.
  pose proof (inv_small _ _ Hi) as Hsm. pose proof (inv_chain _ _ Hi) as Hch.
  assert (length bs ≠ 0%nat) by (by destruct bs).
  assert (up_to_sequence c = N.of_nat (length bs - 1)) as Hup by by rewrite Hcat.
  assert (latest_checkpoint (with_checkpoints (replace_checkpoint (checkpoint_row c)
    (checkpoints s)) s) = Some c) as Hlc.
  { apply latest_after_checkpoint; rewrite ?Hup; [lia|rewrite Hcat; simpl; lia|].
    eapply Forall_impl; [apply (inv_checkpoints _ _ Hi)|].
    intros r (key & now2 & m & Hm & ->). unfold checkpoint_at.
    destruct key; simpl; rewrite as_i64_small by lia; lia. }
  eexists _, c, _. split; [exact Hc|]. split.
  { apply audit_spec. rewrite Hlc, (inv_all_blocks _ _ Hi'). split; [done|]. split.
    { pose proof (inv_blobs _ _ Hi') as Hb. unfold blobs_stored in *.
      destruct bs as [|g l]; [constructor|]. by apply Forall_cons in Hb as [_ Hb]. }
    split; [|reflexivity]. intros ? [= <-]. rewrite Hcat.
    apply checkpoint_at_matches; [lia|]. apply signed_verifies. }
  unfold unchecked, audit_report. simpl. rewrite Hup.
  replace (N.of_nat (length bs) - 1 - N.of_nat (length bs - 1))%N with 0%N by lia.
  repeat split; try done. rewrite Hcat, (inv_all_blocks _ _ Hi). unfold checkpoint_at. simpl.
  by rewrite take_ge by lia.
Qed.
End Reach.

(** ** Tamper evidence *)

(** What [Utc::now().to_rfc3339()] returns: a digit first, and at most 64 bytes. *)
Definition timestamp_shape (s : string) : bool :=
  (String.length s <=? 64)%nat &&
  match s with
  | String c _ => (48 <=? N_of_ascii c)%N && (N_of_ascii c <=? 57)%N
  | EmptyString => false
  end.

Section Tamper.
Context `{Sha256, !Sha256Len}.

Definition preimage_of (b : LedgerBlock) : string :=
  block_preimage (sequence b) (block_type b) (timestamp_utc b) (prev_block_hash b)
    (payload_digest b) (blob_hashes b).

Lemma sha256_hex_length x : String.length (sha256_hex x) = 64%nat.
Proof. unfold sha256_hex. by rewrite hex_encode_length, sha256_length. Qed.

Lemma type_then_digit t1 t2 s1 s2 r1 r2 :
  timestamp_shape s1 = true → timestamp_shape s2 = true →
  type_text t1 +:+ (s1 +:+ r1) = type_text t2 +:+ (s2 +:+ r2) →
  t1 = t2 ∧ s1 +:+ r1 = s2 +:+ r2.
Proof.
  unfold timestamp_shape. intros [_ H1]%andb_prop [_ H2]%andb_prop.
  destruct s1 as [|c1 s1], s2 as [|c2 s2]; try done.
  destruct t1, t2; simpl; intros Heq; try discriminate Heq;
    try (injection Heq; intros; split; congruence).
  - injection Heq; intros; subst. vm_compute in H1. discriminate H1.
  - injection Heq; intros; subst. vm_compute in H2. discriminate H2.
Qed.

Lemma concat_all_length l :
  Forall (λ h, String.length h = 64%nat) l → String.length (concat_all l) = (64 * length l)%nat.
Proof. induction 1 as [|h l Hh Hl IH]; simpl; [done|]. rewrite str_app_length, Hh, IH. lia. Qed.

Lemma concat_all_inj l l' :
  Forall (λ h, String.length h = 64%nat) l → Forall (λ h, String.length h = 64%nat) l' →
  length l = length l' → concat_all l = concat_all l' → l = l'.
Proof.
  intros Hl. revert l'. induction Hl as [|h l Hh Hl IH]; intros [|h' l'] Hl' Hlen; try done.
  apply Forall_cons in Hl' as [Hh' Hl']. simpl. intros Heq.
  apply str_app_inj_len in Heq as [-> Heq]; [|by rewrite Hh, Hh'].
  f_equal. apply IH; [done| |done]. by injection Hlen.
Qed.

(** Although no field is length-prefixed, blocks whose timestamps have the shape of a
    timestamp are determined by the hashed bytes. *)
Lemma preimage_inj b b' :
  (sequence b <= u64_max)%N → (sequence b' <= u64_max)%N →
  timestamp_shape (timestamp_utc b) = true → timestamp_shape (timestamp_utc b') = true →
  String.length (prev_block_hash b) = 64%nat → String.length (prev_block_hash b') = 64%nat →
  String.length (payload_digest b) = 64%nat → String.length (payload_digest b') = 64%nat →
  Forall (λ h, String.length h = 64%nat) (blob_hashes b) →
  Forall (λ h, String.length h = 64%nat) (blob_hashes b') →
  preimage_of b = preimage_of b' →
  sequence b = sequence b' ∧ block_type b = block_type b' ∧ timestamp_utc b = timestamp_utc b'
  ∧ prev_block_hash b = prev_block_hash b' ∧ payload_digest b = payload_digest b'
  ∧ blob_hashes b = blob_hashes b'.
Proof.
  unfold preimage_of, block_preimage. intros Hs Hs' Ht Ht' Hp Hp' Hd Hd' Hb Hb' Heq.
  apply str_app_inj_len in Heq as [Hseq Heq]; [|unfold to_le_bytes; by rewrite !le_bytes_length].
  apply to_le_bytes_inj in Hseq; [|done..].
  apply type_then_digit in Heq as [Htt Heq]; [|done..].
  assert (String.length (timestamp_utc b) = String.length (timestamp_utc b')
    ∧ length (blob_hashes b) = length (blob_hashes b')) as [Hl Hlb].
  { pose proof (f_equal String.length Heq) as Hl. rewrite !str_app_length in Hl.
    rewrite !concat_all_length in Hl by done.
    unfold timestamp_shape in Ht, Ht'. apply andb_prop in Ht as [Ht Htc], Ht' as [Ht' Htc'].
    apply Nat.leb_le in Ht, Ht'.
    assert (String.length (timestamp_utc b) ≠ 0%nat) by (by destruct (timestamp_utc b)).
    assert (String.length (timestamp_utc b') ≠ 0%nat) by (by destruct (timestamp_utc b')).
    lia. }
  apply str_app_inj_len in Heq as [? Heq]; [|done].
  apply str_app_inj_len in Heq as [? Heq]; [|congruence].
  apply str_app_inj_len in Heq as [? Heq]; [|congruence].
  apply concat_all_inj in Heq; done.
Qed.

Definition block_shape (b : LedgerBlock) : Prop :=
  (sequence b <= u64_max)%N ∧ timestamp_shape (timestamp_utc b) = true
  ∧ String.length (prev_block_hash b) = 64%nat
  ∧ Forall (λ h, String.length h = 64%nat) (blob_hashes b).

Lemma integrity_hash b : verify_integrity b = Ok tt →
  block_hash b = sha256_hex (preimage_of b) ∧ payload_digest b = sha256_hex (payload_json b).
Proof. intros Hb. apply verify_integrity_ok in Hb. rewrite Hb. done. Qed.

Lemma block_hash_pins xs ps b b' :
  no_collision xs → no_collision ps →
  preimage_of b ∈ xs → preimage_of b' ∈ xs → payload_json b ∈ ps → payload_json b' ∈ ps →
  block_shape b → block_shape b' →
  verify_integrity b = Ok tt → verify_integrity b' = Ok tt →
  block_hash b = block_hash b' → b = b'.
Proof.
  intros Hx Hps Hb Hb' Hp Hp' (Hs1 & Hs2 & Hs3 & Hs4) (Hs1' & Hs2' & Hs3' & Hs4') Hi Hi' Heq.
  destruct (integrity_hash b Hi) as [Hh Hd], (integrity_hash b' Hi') as [Hh' Hd'].
  rewrite Hh, Hh' in Heq. apply (sha256_hex_inj xs) in Heq; [|done..].
  apply preimage_inj in Heq as (? & ? & ? & ? & Hdd & ?);
    rewrite ?Hd, ?Hd', ?sha256_hex_length; try done.
  assert (payload_json b = payload_json b') as Hpj.
  { apply (sha256_hex_inj ps); [done..|]. congruence. }
  assert (block_hash b = block_hash b') as Hbh.
  { rewrite Hh, Hh'. unfold preimage_of. congruence. }
  destruct b, b'; simpl in *; congruence.
Qed.

(** The last block's hash pins a chain. *)
Lemma chain_pins xs ps bs bs' :
  no_collision xs → no_collision ps →
  Forall (λ b, preimage_of b ∈ xs ∧ payload_json b ∈ ps ∧ block_shape b) bs →
  Forall (λ b, preimage_of b ∈ xs ∧ payload_json b ∈ ps ∧ block_shape b) bs' →
  chain bs → chain bs' → block_hash <$> last bs = block_hash <$> last bs' → bs = bs'.
Proof.
  intros Hx Hps. revert bs'.
  induction bs as [|b bs IH] using rev_ind; intros bs' Hf Hf' Hc Hc' Hl; [done|].
  destruct bs' as [|b' bs' _] using rev_ind; [done|].
  rewrite !last_snoc in Hl. injection Hl as Hl.
  apply Forall_app in Hf as [Hf Hb], Hf' as [Hf' Hb'].
  apply Forall_singleton in Hb as (? & ? & ?), Hb' as (? & ? & ?).
  pose proof (chain_integrity _ Hc) as Hi. pose proof (chain_integrity _ Hc') as Hi'.
  apply Forall_app in Hi as [_ Hi], Hi' as [_ Hi'].
  rewrite Forall_singleton in Hi, Hi'.
  assert (b = b') as <- by by apply (block_hash_pins xs ps).
  assert (length bs = length bs') as Hlen.
  { pose proof (chain_sequence (bs ++ [b]) (length bs) b Hc ltac:(by apply list_lookup_middle)).
    pose proof (chain_sequence (bs' ++ [b]) (length bs') b Hc' ltac:(by apply list_lookup_middle)).
    lia. }
  destruct (decide (bs = [])) as [->|Hne]; [by destruct bs'|].
  assert (bs' ≠ []) as Hne' by (intros ->; by destruct bs).
  apply (chain_app bs) in Hc as (Hc & _ & Hp & _); [|done].
  apply (chain_app bs') in Hc' as (Hc' & _ & Hp' & _); [|done].
  f_equal. apply IH; try done. congruence.
Qed.

Lemma chain_prev_length bs :
  chain bs → Forall (λ b, String.length (prev_block_hash b) = 64%nat) bs.
Proof.
  intros Hc. induction bs as [|b bs IH] using rev_ind; [constructor|].
  destruct (decide (bs = [])) as [->|Hne].
  - destruct Hc as [Hg _]. apply check_genesis_ok in Hg as (_ & _ & Hg & _).
    apply Forall_singleton. by rewrite Hg.
  - apply chain_app in Hc as (Hc & _ & Hp & _); [|done]. apply Forall_app. split; [auto|].
    apply Forall_singleton. destruct (last bs) as [a|] eqn:Ha; [|done]. injection Hp as ->.
    pose proof (chain_integrity _ Hc) as Hi. rewrite Forall_forall in Hi.
    rewrite (proj1 (integrity_hash a (Hi a (last_Some_elem_of _ _ Ha)))).
    apply sha256_hex_length.
Qed.

(** *** Merkle roots *)

(** The bytes hashed to build the level above, and the whole tree. *)
Fixpoint level_inputs (l : list string) : list string :=
  match l with
  | lhs :: rhs :: rest => (lhs +:+ rhs) :: level_inputs rest
  | [lhs] => [lhs +:+ lhs]
  | [] => []
  end.
Fixpoint tree_inputs (fuel : nat) (l : list string) : list string :=
  match fuel with
  | O => []
  | S fuel => if (length l <=? 1)%nat then [] else level_inputs l ++ tree_inputs fuel (next_level l)
  end.

Lemma next_level_inputs l : next_level l = sha256_hex <$> level_inputs l.
Proof.
  induction l as [l IH] using (induction_ltof1 _ (@length string)); unfold ltof in IH.
  destruct l as [|a [|b l]]; [done..|]. cbn. f_equal. apply IH. simpl. lia.
Qed.

Lemma next_level_length l : length (next_level l) = Nat.div2 (S (length l)).
Proof.
  induction l as [l IH] using (induction_ltof1 _ (@length string)); unfold ltof in IH.
  destruct l as [|a [|b l]]; [done..|]. cbn [next_level length Nat.div2].
  rewrite IH by (simpl; lia). done.
Qed.

Lemma next_level_digests l : Forall (λ h, String.length h = 64%nat) (next_level l).
Proof. rewrite next_level_inputs. apply Forall_fmap, Forall_true. intros x. apply sha256_hex_length. Qed.

Lemma level_inputs_inj l l' :
  Forall (λ h, String.length h = 64%nat) l → Forall (λ h, String.length h = 64%nat) l' →
  length l = length l' → level_inputs l = level_inputs l' → l = l'.
Proof.
  revert l'. induction l as [l IH] using (induction_ltof1 _ (@length string)); unfold ltof in IH.
  intros l' Hl Hl' Hlen.
  destruct l as [|a [|b l]], l' as [|a' [|b' l']]; try done; cbn [level_inputs].
  - rewrite Forall_singleton in Hl, Hl'. intros [= Heq].
    apply str_app_inj_len in Heq as [-> _]; [done|by rewrite Hl, Hl'].
  - apply Forall_cons in Hl as [Ha Hl], Hl' as [Ha' Hl'].
    apply Forall_cons in Hl as [Hb Hl], Hl' as [Hb' Hl']. intros [= Heq Hrest].
    apply str_app_inj_len in Heq as [-> ->]; [|cbv beta in *; lia]. do 2 f_equal.
    apply IH; [simpl; lia|done|done|by injection Hlen|done].
Qed.

Lemma fmap_hash_inj xs l l' :
  no_collision xs → l ⊆ xs → l' ⊆ xs → sha256_hex <$> l = sha256_hex <$> l' → l = l'.
Proof.
  intros Hx. revert l'. induction l as [|a l IH]; intros [|a' l'] Hl Hl'; try done.
  intros Heq. injection Heq as Ha Heq. f_equal.
  - eapply sha256_hex_inj; [done| | |done]; [apply Hl|apply Hl']; by left.
  - apply IH; [intros ? ?; apply Hl; by right|intros ? ?; apply Hl'; by right|done].
Qed.

Lemma div2_lt n : (2 <= n)%nat → (Nat.div2 (S n) < n)%nat.
Proof. intros Hn. pose proof (Nat.div2_odd (S n)). destruct (Nat.odd (S n)); simpl in *; lia. Qed.

(** The fuel suffices: the last level is a single node. *)
Lemma merkle_levels_single fuel l :
  l ≠ [] → (length l <= S fuel)%nat → length (merkle_levels fuel l) = 1%nat.
Proof.
  revert l; induction fuel as [|fuel IH]; intros l Hne Hl; cbn [merkle_levels].
  - destruct l as [|a [|b l]]; simpl in *; [done|done|lia].
  - destruct (Nat.leb_spec (length l) 1) as [Hle|Hgt].
    + destruct l as [|a [|b l]]; simpl in *; [done|done|lia].
    + apply IH.
      * intros Hn. apply (f_equal length) in Hn. rewrite next_level_length in Hn.
        destruct l as [|a [|b l]]; simpl in *; lia.
      * rewrite next_level_length. pose proof (div2_lt (length l)). lia.
Qed.

Lemma merkle_levels_inj xs fuel l l' :
  no_collision xs → tree_inputs fuel l ⊆ xs → tree_inputs fuel l' ⊆ xs →
  Forall (λ h, String.length h = 64%nat) l → Forall (λ h, String.length h = 64%nat) l' →
  length l = length l' → merkle_levels fuel l = merkle_levels fuel l' → l = l'.
Proof.
  intros Hx. revert l l'; induction fuel as [|fuel IH]; intros l l' Hs Hs' Hl Hl' Hlen; [done|].
  cbn [merkle_levels tree_inputs] in *. rewrite <- Hlen in *.
  destruct (length l <=? 1)%nat; [done|].
  intros Heq. apply IH in Heq.
  - rewrite !next_level_inputs in Heq. apply level_inputs_inj; [done..|].
    apply (fmap_hash_inj xs); [done| | |done]; set_solver.
  - set_solver.
  - set_solver.
  - apply next_level_digests.
  - apply next_level_digests.
  - by rewrite !next_level_length, Hlen.
Qed.

(** The Merkle root of equally many leaves pins the leaves. *)
Lemma merkle_root_pins xs l l' :
  no_collision xs → tree_inputs (length l) l ⊆ xs → tree_inputs (length l') l' ⊆ xs →
  Forall (λ h, String.length h = 64%nat) l → Forall (λ h, String.length h = 64%nat) l' →
  length l = length l' → compute_merkle_root l = compute_merkle_root l' → l = l'.
Proof.
  intros Hx Hs Hs' Hl Hl' Hlen. unfold compute_merkle_root.
  destruct l as [|a [|b l]], l' as [|a' [|b' l']]; try done; [by intros ->|].
  rewrite <- Hlen in *. intros Heq. eapply (merkle_levels_inj xs); [done..|].
  pose proof (merkle_levels_single (length (a :: b :: l)) (a :: b :: l) ltac:(done) ltac:(lia)).
  pose proof (merkle_levels_single (length (a :: b :: l)) (a' :: b' :: l') ltac:(done) ltac:(lia)).
  destruct (merkle_levels _ (a :: b :: l)) as [|x [|]],
    (merkle_levels _ (a' :: b' :: l')) as [|x' [|]]; try done. simpl in Heq. by subst.
Qed.

End Tamper.

Section Pins.
Context `{Sha256, !Sha256Len, JsonStr, P256}.
Context (parse_strings : string → option (list string)) (blob_root : string).

Abbreviation all_blocks := (all_blocks parse_strings).
Abbreviation verify_chain_integrity := (verify_chain_integrity parse_strings blob_root).

(** What the audit does not check and every ledger the program writes has: timestamps that look
    like timestamps, and a genesis block without blobs. *)
Definition ledger_shape (bs : list LedgerBlock) : Prop :=
  Forall (λ b, timestamp_shape (timestamp_utc b) = true) bs
  ∧ from_option blob_hashes [] (head bs) = [].

Definition all_preimages (bs bs' : list LedgerBlock) : list string :=
  (preimage_of <$> bs) ++ (preimage_of <$> bs').
Definition all_payloads (bs bs' : list LedgerBlock) : list string :=
  (payload_json <$> bs) ++ (payload_json <$> bs').

Lemma audited_shape s :
  chain (all_blocks s) → blobs_stored blob_root (blob_files s) (tail (all_blocks s)) →
  ledger_shape (all_blocks s) → Forall block_shape (all_blocks s).
Proof.
  intros Hc Hb [Ht Hg].
  assert (Forall (λ b, sequence b <= u64_max)%N (all_blocks s)) as Hs.
  { apply Forall_fmap, Forall_true. intros r. apply as_u64_le. }
  assert (Forall (λ b, Forall (λ h, String.length h = 64%nat) (blob_hashes b)) (all_blocks s))
    as Hbl.
  { destruct (all_blocks s) as [|g l]; [constructor|]. simpl in Hg, Hb. constructor.
    - rewrite Hg. constructor.
    - eapply Forall_impl; [exact Hb|]. intros b Hv. eapply Forall_impl; [exact Hv|].
      intros h (y & _ & <-)%verify_blob_ok. apply sha256_hex_length. }
  pose proof (chain_prev_length _ Hc) as Hp. rewrite Forall_forall in *.
  intros b Hin. repeat split; auto.
Qed.

(** C16: tamper evidence: two ledgers that pass the audit and report the same latest block hash
    hold the same blocks - every payload, timestamp, type, link and blob reference - unless two
    different block texts or payloads of theirs collide.  The hash text has no length prefixes,
    so the claim is for timestamps that look like timestamps and a genesis block without
    blobs. *)
Theorem head_hash_pins_ledger now now' key key' s s' r r' :
  verify_chain_integrity now key s = Ok r →
  verify_chain_integrity now' key' s' = Ok r' →
  ledger_shape (all_blocks s) → ledger_shape (all_blocks s') →
  no_collision (all_preimages (all_blocks s) (all_blocks s')) →
  no_collision (all_payloads (all_blocks s) (all_blocks s')) →
  latest_block_hash r = latest_block_hash r' →
  all_blocks s = all_blocks s'.
Proof.
  intros Hr%audit_spec Hr'%audit_spec Hs Hs' Hx Hp.
  destruct Hr as (Hc & Hb & _ & ->), Hr' as (Hc' & Hb' & _ & ->). simpl. intros Heq.
  pose proof (audited_shape s Hc Hb Hs) as Hsh.
  pose proof (audited_shape s' Hc' Hb' Hs') as Hsh'.
  unfold all_preimages, all_payloads in *. rewrite Forall_forall in Hsh, Hsh'.
  apply (chain_pins _ _ _ _ Hx Hp); [| |done|done|].
  - apply Forall_forall. intros b Hin. rewrite !elem_of_app, !list_elem_of_fmap.
    repeat split; [left; eauto|left; eauto|apply Hsh; done..].
  - apply Forall_forall. intros b Hin. rewrite !elem_of_app, !list_elem_of_fmap.
    repeat split; [right; eauto|right; eauto|apply Hsh'; done..].
  - destruct (chain_last _ Hc) as [b Hl], (chain_last _ Hc') as [b' Hl'].
    rewrite Hl, Hl' in *. simpl in *. congruence.
Qed.

(** The Merkle tree over the first [n] blocks. *)
Definition checkpoint_inputs (n : nat) (bs : list LedgerBlock) : list string :=
  tree_inputs (length (take n bs)) (block_hash <$> take n bs).

(** C26: a checkpoint pins what it covers: two ledgers that pass the audit and whose latest
    checkpoints name the same sequence number and Merkle root - a signature is over that root -
    agree on every covered block, under the conditions of the previous claim. *)
Theorem checkpoint_pins_prefix now now' key key' s s' r r' c c' :
  verify_chain_integrity now key s = Ok r →
  verify_chain_integrity now' key' s' = Ok r' →
  ledger_shape (all_blocks s) → ledger_shape (all_blocks s') →
  latest_checkpoint s = Some c → latest_checkpoint s' = Some c' →
  up_to_sequence c = up_to_sequence c' → merkle_root c = merkle_root c' →
  let n := S (N.to_nat (up_to_sequence c)) in
  no_collision (checkpoint_inputs n (all_blocks s) ++ checkpoint_inputs n (all_blocks s')) →
  no_collision (all_preimages (all_blocks s) (all_blocks s')) →
  no_collision (all_payloads (all_blocks s) (all_blocks s')) →
  take n (all_blocks s) = take n (all_blocks s').
Proof.
  intros Hr%audit_spec Hr'%audit_spec Hs Hs' Hk Hk' Hu Hm n Ht Hx Hp.
  destruct Hr as (Hc & Hb & Hck & _), Hr' as (Hc' & Hb' & Hck' & _).
  destruct (Hck _ Hk) as (Hlt & _ & Hroot & _), (Hck' _ Hk') as (Hlt' & _ & Hroot' & _).
  rewrite <- Hu in Hlt', Hroot'. fold n in Hroot, Hroot'.
  pose proof (audited_shape s Hc Hb Hs) as Hsh.
  pose proof (audited_shape s' Hc' Hb' Hs') as Hsh'.
  pose proof (chain_integrity _ Hc) as Hi. pose proof (chain_integrity _ Hc') as Hi'.
  revert Hsh Hsh' Hi Hi' Ht Hx Hp Hlt Hlt' Hroot Hroot'. 
  assert (up_to_sequence c + 1 = N.of_nat n)%N as Hn by lia. clearbody n.
  clear Hs Hs' Hk Hk' Hc Hc' Hb Hb' Hck Hck' Hu.
  generalize (all_blocks s) (all_blocks s'). unfold checkpoint_inputs, all_preimages, all_payloads.
  intros bs bs' Hsh Hsh' Hi Hi' Ht Hx Hp Hlt Hlt' Hroot Hroot'.
  assert (block_hash <$> take n bs = block_hash <$> take n bs') as Hh.
  { eapply merkle_root_pins; [exact Ht| | | | | |congruence].
    - rewrite length_fmap. set_solver.
    - rewrite length_fmap. set_solver.
    - apply Forall_fmap, Forall_take. eapply Forall_impl; [exact Hi|]. intros b Hv. simpl.
      rewrite (proj1 (integrity_hash b Hv)). apply sha256_hex_length.
    - apply Forall_fmap, Forall_take. eapply Forall_impl; [exact Hi'|]. intros b Hv. simpl.
      rewrite (proj1 (integrity_hash b Hv)). apply sha256_hex_length.
    - rewrite !length_fmap, !length_take. lia. }
  apply list_eq. intros k. pose proof (f_equal (.!! k) Hh) as Hk. simpl in Hk.
  rewrite !list_lookup_fmap in Hk.
  destruct (take n bs !! k) as [b|] eqn:Hb, (take n bs' !! k) as [b'|] eqn:Hb'; try done.
  injection Hk as Hk. f_equal.
  apply lookup_take_Some in Hb as [Hb _], Hb' as [Hb' _].
  apply list_elem_of_lookup_2 in Hb, Hb'. rewrite Forall_forall in *.
  apply (block_hash_pins _ _ b b' Hx Hp); auto;
    rewrite elem_of_app, !list_elem_of_fmap; eauto.
Qed.

End Pins.

(** ** Limits of the audit *)

Section Limits.
Context `{Sha256, JsonStr, P256}.
Context (parse_strings : string → option (list string)) (blob_root : string).

(** the hash text does not separate the block type from the timestamp: a promotion
    evidence block can be rewritten into a promotion block with the same hash, and the chain
    still passes. *)
Theorem type_swap_undetected bs b :
  bs ≠ [] → block_type b = PromotionEvidence → chain (bs ++ [b]) →
  let b' := {| sequence := sequence b; block_type := Promotion;
               timestamp_utc := "_EVIDENCE" +:+ timestamp_utc b;
               prev_block_hash := prev_block_hash b; payload_json := payload_json b;
               payload_digest := payload_digest b; blob_hashes := blob_hashes b;
               block_hash := block_hash b |} in
  chain (bs ++ [b']) ∧ b' ≠ b.
Proof.
  intros Hne Ht Hc b'. split; [|intros Heq; by rewrite <- Heq in Ht].
  apply chain_app in Hc as (Hc & Hs & Hp & Hi); [|done].
  apply chain_app; [done|]. repeat split; [done..|].
  apply verify_integrity_ok in Hi. apply verify_integrity_ok. unfold b'. clear b'.
  destruct b as [q t ts p pj pd bl h]; simpl in *; subst t.
  unfold new_block in Hi. injection Hi as -> ->. reflexivity.
Qed.

(** Rewrites the type column of a row. *)
Definition retype (t : string) (r : BlockRow) : BlockRow :=
  {| r_sequence := r_sequence r; r_block_type := t; r_timestamp_utc := r_timestamp_utc r;
     r_prev_block_hash := r_prev_block_hash r; r_payload_json := r_payload_json r;
     r_payload_digest := r_payload_digest r; r_blob_hashes_json := r_blob_hashes_json r;
     r_block_hash := r_block_hash r |}.

(** the audit reads rows leniently: overwriting the type of the last evaluation with text
    that names no type leaves the audit's answer the same, while every later append fails. *)
Theorem unknown_type_passes_audit s l r t e now key now' ty payload blobs :
  blocks s = l ++ [r] →
  StronglySorted (λ a b, r_sequence a < r_sequence b)%Z (l ++ [r]) →
  r_block_type r = "EVALUATION" → type_of_text t = Err e →
  let s' := with_blocks (l ++ [retype t r]) s in
  verify_chain_integrity parse_strings blob_root now key s'
  = verify_chain_integrity parse_strings blob_root now key s
  ∧ append_block parse_strings now' ty payload blobs s'
    = (s', fail "Failed to parse block_type: {}" [t]).
Proof.
  intros Hb Hs Hr Ht s'.
  assert (ordered_rows s = l ++ [r]) as Ho.
  { unfold ordered_rows. rewrite Hb. by apply merge_sort_fixed. }
  assert (ordered_rows s' = l ++ [retype t r]) as Ho'.
  { unfold ordered_rows. simpl. apply merge_sort_fixed. clear -Hs.
    induction l as [|a l IH]; simpl in *; [repeat constructor|].
    apply StronglySorted_inv in Hs as [Hs Hf]. constructor; [by apply IH|].
    apply Forall_app in Hf as [Hf Hr]. apply Forall_app. split; [done|].
    apply Forall_cons in Hr as [Hr _]. by repeat constructor. }
  assert (all_blocks parse_strings s' = all_blocks parse_strings s) as Ha.
  { unfold all_blocks. rewrite Ho, Ho', !fmap_app. simpl. do 2 f_equal.
    unfold row_to_block_lenient. simpl. by rewrite Hr, Ht. }
  split.
  - unfold verify_chain_integrity. rewrite Ha.
    assert (∀ rest i g n, check_links blob_root s' i g n rest = check_links blob_root s i g n rest)
      as Hl; [|by destruct (all_blocks parse_strings s); rewrite ?Hl].
    assert (∀ hs b n, check_blobs blob_root s' b n hs = check_blobs blob_root s b n hs) as Hcb.
    { induction hs as [|h hs IH]; intros b n; [done|]. cbn [check_blobs]. by rewrite IH. }
    induction rest as [|b rest IH]; intros i g n; [done|]. cbn [check_links].
    rewrite Hcb. destruct (check_blobs blob_root s b n (blob_hashes b)); simpl; by rewrite ?IH.
  - unfold append_block, latest_block. rewrite Ho', last_snoc. unfold row_to_block. simpl.
    by rewrite Ht.
Qed.

End Limits.

(** ** A concrete ledger *)

Module LedgerExample.
Import Checksum PlainJson KeyedChecksum.

(** A reader for arrays of quoted texts without escapes. *)
Fixpoint drop_last (s : string) : string :=
  match s with
  | EmptyString => ""
  | String c EmptyString => ""
  | String c s => String c (drop_last s)
  end.
Definition unquote (w : string) : string := drop_last (str_skip 1 w).
Definition parse (s : string) : option (list string) :=
  let inner := drop_last (str_skip 1 s) in
  if bool_decide (inner = "") then Some []
  else Some (unquote <$> split_on (ascii_of_N 44) inner).

Lemma drop_last_app a c : drop_last (a +:+ String c "") = a.
Proof.
  induction a as [|b a IH]; [done|]. simpl. rewrite IH.
  by destruct a.
Qed.

Lemma escape_hex h : all_bytes is_hex_byte h = true → escape h = h.
Proof.
  induction h as [|b h IH]; [done|]. intros [Hb Hh]%andb_prop. cbn [escape].
  rewrite IH by done.
  destruct b as [[] [] [] [] [] [] [] []]; first [discriminate Hb|reflexivity].
Qed.

Lemma join_quoted_no_comma h :
  is_hex_digest h = true → contains_byte (ascii_of_N 44) (json_str h) = false.
Proof.
  intros Hh. pose proof (is_hex_digest_no_byte (ascii_of_N 44) h Hh eq_refl) as Hn.
  apply andb_prop in Hh as [_ Hh]. unfold json_str, json. rewrite escape_hex by done.
  change (String quote (h +:+ String quote "")) with (String quote "" +:+ (h +:+ String quote "")).
  by rewrite !contains_byte_app, Hn.
Qed.

#[global] Instance parse_ok : DigestsRoundTrip parse.
Proof.
  intros l Hl. unfold json_strings, parse.
  assert (write_canonical (Array (Str <$> l))
    = "[" +:+ (join_with (ascii_of_N 44) (json_str <$> l) +:+ "]")) as ->.
  { assert (write_canonical <$> (Str <$> l) = json_str <$> l) as <-; [|reflexivity].
    rewrite <- list_fmap_compose. reflexivity. }
  cbn [str_skip String.append]. rewrite drop_last_app.
  destruct l as [|h l]; [done|].
  rewrite bool_decide_false by by destruct l.
  rewrite split_join; [|done|].
  - f_equal. rewrite <- list_fmap_compose. rewrite <- (list_fmap_id (h :: l)) at 2.
    apply list_fmap_ext. intros i x Hx. simpl. rewrite Forall_lookup in Hl.
    specialize (Hl i x Hx). apply andb_prop in Hl as [_ Hl].
    unfold unquote, json_str, json. rewrite escape_hex by done. cbn [str_skip].
    by rewrite drop_last_app.
  - apply Forall_fmap. eapply Forall_impl; [exact Hl|]. apply join_quoted_no_comma.
Qed.

Definition T : string := "2026-01-01T00:00:00+00:00".
Definition root : string := "/r/blobs".
Definition s0 : Store := (open parse T (empty_store ∅)).1.
Definition eval_op : op := AppendEvaluation T BlobWritten "u" "{}" (Some "raw").
Definition s1 : Store := run_op parse root eval_op s0.
Definition s2 : Store := run_op parse root (Checkpoint T (Some sk)) s1.
Definition s3 : Store := run_op parse root (AppendRollback T T "g1" "slow") s2.

Lemma reach1 : reaches parse root 1 s1.
Proof. apply (reaches_step parse root 0 s0 eval_op); [|exact I]. by apply reaches_open. Qed.
Lemma reach2 : reaches parse root 2 s2.
Proof. apply (reaches_step parse root 1 s1 (Checkpoint T (Some sk))); [apply reach1|exact I]. Qed.
Lemma reach3 : reaches parse root 3 s3.
Proof. apply (reaches_step parse root 2 s2 (AppendRollback T T "g1" "slow")); [apply reach2|exact I]. Qed.

(** The block of an append that names a text nobody stored. *)
Definition s_unstored : Store := run_op parse root (Append T Evaluation "{}" [sha256_hex "gone"]) s1.

Lemma serve0 : serves parse root 0 s0.
Proof. by apply serves_open. Qed.
Lemma serve1 : serves parse root 1 s1.
Proof. by apply (serves_step parse root 0 s0 eval_op), I; apply serve0. Qed.
Lemma serve3 : serves parse root 3 s3.
Proof.
  apply (serves_step parse root 2 s2 (AppendRollback T T "g1" "slow")); [|exact I].
  apply (serves_step parse root 1 s1 (Checkpoint T (Some sk))); [apply serve1|exact I].
Qed.
Lemma serve_unstored : serves parse root 2 s_unstored.
Proof.
  apply (serves_step parse root 1 s1 (Append T Evaluation "{}" [sha256_hex "gone"]));
    [apply serve1|by exists ["gone"]].
Qed.

Definition audit (key : option VerifyingKey) (s : Store) : result LedgerAuditReport :=
  verify_chain_integrity parse root T key s.

Example four_events : total_blocks <$> audit (Some (verifying_key sk)) s3 = Ok 3%N.
Proof. vm_compute. reflexivity. Qed.
Example wrong_key : is_ok (audit (Some other) s3) = false.
Proof. vm_compute. reflexivity. Qed.

(** Evaluation of a decidable shape. *)
#[global] Instance ledger_shape_dec bs : Decision (ledger_shape bs).
Proof. unfold ledger_shape. apply _. Defined.

Definition genesis : LedgerBlock := new_block 0 Genesis T GENESIS_PREV_HASH genesis_payload [].
Definition block1 : LedgerBlock :=
  new_block 1 Evaluation T (block_hash genesis) "{}" [sha256_hex "raw"].
Definition evidence : LedgerBlock := new_block 2 PromotionEvidence T (block_hash block1) "{}" [].

Lemma chain3 : chain ([genesis; block1] ++ [evidence]).
Proof. repeat split; by vm_compute. Qed.

Definition report (s : Store) : LedgerAuditReport :=
  match audit None s with
  | Ok r => r
  | Err _ => audit_report "" None [] None
  end.
Lemma audited1 : audit None s1 = Ok (report s1).
Proof. vm_compute. reflexivity. Qed.
Lemma audited2 : audit None s2 = Ok (report s2).
Proof. vm_compute. reflexivity. Qed.
Lemma audited3 : audit None s3 = Ok (report s3).
Proof. vm_compute. reflexivity. Qed.
Lemma same_head : latest_block_hash (report s1) = latest_block_hash (report s2).
Proof. vm_compute. reflexivity. Qed.

Definition point : MerkleCheckpoint := checkpoint_at (Some sk) T 1 (all_blocks parse s1).
Lemma point2 : latest_checkpoint s2 = Some point.
Proof. vm_compute. reflexivity. Qed.
Lemma point3 : latest_checkpoint s3 = Some point.
Proof. vm_compute. reflexivity. Qed.
Lemma point_covers : up_to_sequence point = 1%N.
Proof. reflexivity. Qed.

Lemma signed3 vk c :
  Some (verifying_key sk) = Some vk → latest_checkpoint s3 = Some c → verify_signature vk c = true.
Proof.
  intros Hk Hc. injection Hk as <-. rewrite point3 in Hc. injection Hc as <-.
  vm_compute. reflexivity.
Qed.
End LedgerExample.

Lemma ledger_always_audits_witness :
  (∃ r, LedgerExample.audit (Some (verifying_key KeyedChecksum.sk)) LedgerExample.s3 = Ok r
       ∧ chain_valid r = true ∧ (total_blocks r <= 4)%N
       ∧ checkpoint_sequence r = up_to_sequence <$> latest_checkpoint LedgerExample.s3)
  ∧ ¬ ∃ r, LedgerExample.audit None LedgerExample.s_unstored = Ok r ∧ chain_valid r = true
       ∧ total_blocks r = 3%N ∧ (total_blocks r <= 3)%N ∧ checkpoint_sequence r = None.
Proof.
  split.
  - destruct (ledger_always_audits LedgerExample.parse LedgerExample.root 3 LedgerExample.s3
      LedgerExample.T (Some (verifying_key KeyedChecksum.sk)) LedgerExample.serve3
      ltac:(vm_compute; discriminate) LedgerExample.signed3) as [_ Hr].
    destruct (Hr LedgerExample.reach3) as (r & H1 & H2 & _ & H3 & H4).
    exists r. split; [exact H1|]. split; [exact H2|]. split; [exact H3|exact H4].
  - intros Hr.
    destruct (ledger_always_audits LedgerExample.parse LedgerExample.root 2 LedgerExample.s_unstored
      LedgerExample.T None LedgerExample.serve_unstored
      ltac:(vm_compute; discriminate) ltac:(intros vk c Hk; discriminate Hk)) as [[Hf _] _].
    destruct (Hf Hr (new_block 2 Evaluation LedgerExample.T (block_hash LedgerExample.block1) "{}"
      [sha256_hex "gone"]) (sha256_hex "gone")) as (data & Hd & _).
    + apply (bool_decide_unpack _). vm_compute. exact I.
    + left.
    + vm_compute in Hd. discriminate Hd.
Defined.

Lemma append_extends_witness :
  ∃ latest s' r, last (all_blocks LedgerExample.parse LedgerExample.s1) = Some latest
    ∧ append_block LedgerExample.parse "t" Rollback "{}" [] LedgerExample.s1 = (s', r)
    ∧ let b := new_block (sequence latest + 1) Rollback "t" (block_hash latest) "{}" [] in
      match r with
      | Ok b' => b' = b ∧ all_blocks LedgerExample.parse s'
                         = all_blocks LedgerExample.parse LedgerExample.s1 ++ [b]
      | Err _ => s' = LedgerExample.s1
                 ∧ block_hash b ∈ block_hash <$> all_blocks LedgerExample.parse LedgerExample.s1
      end.
Proof.
  apply (append_extends LedgerExample.parse LedgerExample.root 1).
  - exact LedgerExample.reach1.
  - vm_compute; reflexivity.
  - apply Forall_nil_2.
Defined.

Lemma checkpoint_completes_audit_witness :
  ∃ s' c r, checkpoint LedgerExample.parse "t" (Some KeyedChecksum.sk) LedgerExample.s1 = (s', Ok c)
    ∧ verify_chain_integrity LedgerExample.parse LedgerExample.root "t"
        (Some (verifying_key KeyedChecksum.sk)) s' = Ok r
    ∧ signature_verified r = true ∧ blocks_after_checkpoint r = 0%N ∧ unchecked r true = []
    ∧ merkle_root c
      = compute_merkle_root (block_hash <$> all_blocks LedgerExample.parse LedgerExample.s1).
Proof.
  apply (checkpoint_completes_audit LedgerExample.parse LedgerExample.root 1).
  - exact LedgerExample.reach1.
  - vm_compute; discriminate.
Defined.

Lemma head_hash_pins_ledger_witness :
  all_blocks LedgerExample.parse LedgerExample.s1 = all_blocks LedgerExample.parse LedgerExample.s2.
Proof.
  apply (head_hash_pins_ledger LedgerExample.parse LedgerExample.root _ _ _ _ _ _ _ _
    LedgerExample.audited1 LedgerExample.audited2).
  - apply (bool_decide_unpack _); by vm_compute.
  - apply (bool_decide_unpack _); by vm_compute.
  - apply (bool_decide_unpack _); by vm_compute.
  - apply (bool_decide_unpack _); by vm_compute.
  - exact LedgerExample.same_head.
Defined.

Lemma checkpoint_pins_prefix_witness :
  take 2 (all_blocks LedgerExample.parse LedgerExample.s2)
  = take 2 (all_blocks LedgerExample.parse LedgerExample.s3).
Proof.
  apply (checkpoint_pins_prefix LedgerExample.parse LedgerExample.root _ _ _ _ _ _ _ _
    LedgerExample.point LedgerExample.point LedgerExample.audited2 LedgerExample.audited3).
  - apply (bool_decide_unpack _); by vm_compute.
  - apply (bool_decide_unpack _); by vm_compute.
  - exact LedgerExample.point2.
  - exact LedgerExample.point3.
  - reflexivity.
  - reflexivity.
  - apply (bool_decide_unpack _); by vm_compute.
  - apply (bool_decide_unpack _); by vm_compute.
  - apply (bool_decide_unpack _); by vm_compute.
Defined.

Lemma type_swap_undetected_witness :
  chain ([LedgerExample.genesis; LedgerExample.block1] ++
    [{| sequence := 2; block_type := Promotion;
        timestamp_utc := "_EVIDENCE" +:+ LedgerExample.T;
        prev_block_hash := block_hash LedgerExample.block1; payload_json := "{}";
        payload_digest := compute_payload_digest "{}"; blob_hashes := [];
        block_hash := block_hash LedgerExample.evidence |}]).
Proof.
  refine (proj1 (type_swap_undetected [LedgerExample.genesis; LedgerExample.block1]
    LedgerExample.evidence _ _ LedgerExample.chain3)).
  - discriminate.
  - reflexivity.
Defined.

Lemma unknown_type_passes_audit_witness :
  (append_block LedgerExample.parse "t" Rollback "{}" []
     (with_blocks ([block_row LedgerExample.genesis]
        ++ [retype "EVAL" (block_row LedgerExample.block1)]) LedgerExample.s1)).2
  = fail "Failed to parse block_type: {}" ["EVAL"].
Proof.
  refine (f_equal snd (proj2 (unknown_type_passes_audit LedgerExample.parse LedgerExample.root
    LedgerExample.s1 [block_row LedgerExample.genesis] (block_row LedgerExample.block1) "EVAL"
    (Fmt "Unknown BlockType: {}" ["EVAL"]) "t" None "t" Rollback "{}" [] _ _ _ _))).
  - vm_compute; reflexivity.
  - repeat constructor.
  - reflexivity.
  - reflexivity.
Defined.

Lemma blob_round_trip_witness :
  ∃ data', get_blob LedgerExample.root (blob_files LedgerExample.s1) (sha256_hex "raw") = Ok data'
           ∧ (no_collision ["raw"; data'] → data' = "raw").
Proof.
  apply (blob_round_trip LedgerExample.root BlobWritten "u" "raw" ∅).
  - intros h data _ Hd. by rewrite lookup_empty in Hd.
  - vm_compute; reflexivity.
Defined.
