(* ===== verification/Meta.v ===== *)
(** The balance kernel ([src/balance.rs]), the operator's authorization of engine changes
    ([src/meta/tier.rs]), the meta benchmark, the three criteria and the A/B fork
    ([src/meta/benchmark_suite.rs], [three_criteria.rs], [ab_fork.rs]). *)

From S2P Require Import Prelude RustStd RustNum RustFloat Digest LedgerRecord PatchGate Measure.
#[local] Open Scope string_scope.
#[local] Open Scope list_scope.

(** ** Balance *)

Record BalanceVerdict := {
  kernel : string;
  mode : string;
  drive : f64;
  humanity : f64;
  ratio : f64;
  balance_score : f64;
  verdict : string;
  guidance : string
}.

(** [a == 0.0]. *)
Definition is_zero (a : f64) : bool := match a with S754_zero _ => true | _ => false end.

Definition scalar_verdict (d h r s : f64) (v g : string) : BalanceVerdict :=
  {| kernel := "rust"; mode := "scalar"; drive := d; humanity := h; ratio := r;
     balance_score := s; verdict := v; guidance := g |}.

Definition scalar (d h : f64) : BalanceVerdict :=
  let zero := f64_of_N 0 in
  if is_zero d && is_zero h then
    scalar_verdict zero zero zero zero "dormant" "Baseline absent. Both drive and humanity are zero."
  else if is_zero h then
    scalar_verdict d zero (f64_of_N 999) (f64_lit 1 1) "drive_dominant"
      "Humanity absent. Restraint and ethics required."
  else if is_zero d then
    scalar_verdict zero h zero (f64_lit 1 1) "humanity_dominant"
      "Drive absent. Ambition and curiosity required."
  else
    let r := f64_div d h in
    if f64_gt r (f64_of_N 2) then
      scalar_verdict d h r (f64_div (f64_of_N 2) r) "drive_dominant"
        "Drive exceeds humanity threshold. Slow down and verify discipline."
    else if f64_lt r (f64_lit 5 1) then
      scalar_verdict d h r (f64_mul r (f64_of_N 2)) "humanity_dominant"
        "Humanity suppresses drive. Increase problem-solving velocity."
    else
      scalar_verdict d h r (if f64_le r (f64_of_N 1) then r else f64_div (f64_of_N 1) r) "balanced"
        "Tension harmonized. Proceed with atomic ratification.".

Definition balance_evaluate : f64 → f64 → BalanceVerdict := scalar.

(** An [f32] has 24 bits of precision and exponents up to 128. *)
Definition f32_add : spec_float → spec_float → spec_float := SFadd 24 128.
(** [a as f64] is exact. *)
Definition f64_of_f32 (a : spec_float) : f64 :=
  match a with
  | S754_finite s m e => binary_normalize prec emax (signed s m) e s
  | _ => a
  end.
Definition f32_sum (l : list spec_float) : spec_float := foldl f32_add (S754_zero true) l.

(** The vectors have four lanes. *)
Definition evaluate_simd (drive_vec humanity_vec : list spec_float) : BalanceVerdict :=
  let v := scalar (f64_of_f32 (f32_sum drive_vec)) (f64_of_f32 (f32_sum humanity_vec)) in
  {| kernel := kernel v; mode := "vector"; drive := drive v; humanity := humanity v;
     ratio := ratio v; balance_score := balance_score v; verdict := verdict v;
     guidance := guidance v |}.

(** ** The benchmark *)

Record MetaBenchmarkMetrics := {
  discovery_rate_per_sec : f64;
  hypothesis_validity_ratio : f64;
  compute_efficiency_score : f64;
  cycle_latency_ms : f64;
  memory_peak_rss_kb : N
}.

Record MetaBenchmarkComparison := {
  parent_metrics : MetaBenchmarkMetrics;
  candidate_metrics : MetaBenchmarkMetrics;
  discovery_rate_delta_pct : f64;
  hypothesis_validity_delta_pct : f64;
  latency_delta_pct : f64;
  passed_non_inferiority : bool;
  passed_amplification : bool
}.

Definition delta_pct (parent candidate : f64) : f64 :=
  if f64_gt parent (f64_of_N 0)
  then f64_mul (f64_div (f64_sub candidate parent) parent) (f64_of_N 100)
  else f64_of_N 0.

Definition evaluate_candidate (parent candidate : MetaBenchmarkMetrics) (margin : f64)
    : MetaBenchmarkComparison :=
  let discovery := delta_pct (discovery_rate_per_sec parent) (discovery_rate_per_sec candidate) in
  let validity := delta_pct (hypothesis_validity_ratio parent) (hypothesis_validity_ratio candidate) in
  let latency := delta_pct (cycle_latency_ms parent) (cycle_latency_ms candidate) in
  {| parent_metrics := parent; candidate_metrics := candidate;
     discovery_rate_delta_pct := discovery; hypothesis_validity_delta_pct := validity;
     latency_delta_pct := latency;
     passed_non_inferiority := f64_ge validity (f64_opp margin) && f64_le latency margin;
     passed_amplification :=
       f64_ge discovery (f64_of_N 5) || f64_ge validity (f64_of_N 5)
       || f64_le latency (f64_opp (f64_of_N 5)) |}.

(** ** The three criteria *)

Record CriterionResult := { criterion_name : string; criterion_passed : bool; evidence : string }.

Record TrueRsiVerdict := {
  novel_discovery : CriterionResult;
  self_capability_improvement : CriterionResult;
  recursive_persistence : CriterionResult;
  overall_classification : string;
  evidence_payload : option PromotionEvidencePayload
}.

Definition evaluate_criterion_1_novel_discovery (observed_problem : string)
    (is_dynamic_telemetry : bool) (hardcoded_rules : list string) : CriterionResult :=
  let is_hardcoded := existsb (λ r, str_contains r observed_problem) hardcoded_rules in
  let ok := is_dynamic_telemetry && negb is_hardcoded in
  {| criterion_name := "Criterion 1: Novel Discovery"; criterion_passed := ok;
     evidence :=
       if ok then
         render (Fmt "Novel discovery confirmed: problem '{}' derived dynamically from capability graph rather than static rules"
           [observed_problem])
       else "Novel discovery rejected: problem matches hardcoded static heuristics or lacks empirical dynamic telemetry" |}.

Definition evaluate_criterion_2_self_capability_improvement (amplification_passed : bool)
    (metrics_summary : string) : CriterionResult :=
  {| criterion_name := "Criterion 2: Self-Capability Improvement";
     criterion_passed := amplification_passed;
     evidence :=
       if amplification_passed then
         render (Fmt "Self-capability improvement verified: candidate Engine N+1 measurably amplifies future developmental capacity: {}"
           [metrics_summary])
       else "Self-capability improvement rejected: candidate fails developmental amplification threshold (requires >= 5.0% gain)" |}.

Definition evaluate_criterion_3_recursive_persistence
    (meta_hash down_cycle down_hash proof : option string)
    : CriterionResult * option PromotionEvidencePayload :=
  match meta_hash, down_cycle, down_hash, proof with
  | Some meta_hash, Some down_cycle, Some down_hash, Some proof =>
    ({| criterion_name := "Criterion 3: Recursive Persistence & Compounding";
        criterion_passed := true;
        evidence :=
          render (Fmt "Downstream compounding verified: cycle '{}' successfully deployed primitive from {}"
            [down_cycle; meta_hash]) |},
     Some {| meta_candidate_block_hash := meta_hash; downstream_cycle_id := down_cycle;
             downstream_ledger_block_hash := down_hash; capability_improvement_proof := proof;
             final_classification := "TRUE_RSI" |})
  | _, _, _, _ =>
    ({| criterion_name := "Criterion 3: Recursive Persistence & Compounding";
        criterion_passed := false;
        evidence := "Downstream compounding pending: requires subsequent downstream cycle evidence block" |},
     None)
  end.

Definition evaluate_full (c1 c2 : CriterionResult)
    (c3 : CriterionResult * option PromotionEvidencePayload) : TrueRsiVerdict :=
  {| novel_discovery := c1; self_capability_improvement := c2; recursive_persistence := c3.1;
     overall_classification :=
       if criterion_passed c1 && criterion_passed c2 && criterion_passed c3.1 then "TRUE_RSI"
       else if criterion_passed c1 && criterion_passed c2 then "META_CANDIDATE"
       else "REJECTED";
     evidence_payload := c3.2 |}.

(** ** The A/B fork *)

Record ImprovementProposal := {
  id : string;
  title : string;
  description : string;
  target_file : string;
  proposed_patch : string;
  kind : ProposalKind;
  created_at : string;
  sandbox_path : option string;
  operator_signature : option string
}.

Section Fork.
Context `{Sha256} `{P256}.

(** The two ways a signature's bytes fail (not a signature, not of this key) are one. *)
Definition verify_operator_authorization (proposal_digest signature_hex : string)
    (vk : VerifyingKey) : result bool :=
  match hex_decode signature_hex with
  | None => fail "Invalid operator signature hex: {}" []
  | Some sig_bytes =>
    if check_bytes vk proposal_digest sig_bytes then Ok true
    else fail "Operator cryptographic signature verification failed: {}" []
  end.

Definition regressed (name text : string) : CriterionResult :=
  {| criterion_name := name; criterion_passed := false; evidence := text |}.
Definition rejected_verdict : TrueRsiVerdict :=
  {| novel_discovery := regressed "Criterion 1: Novel Discovery"
       "Candidate regressed beyond non-inferiority margins";
     self_capability_improvement := regressed "Criterion 2: Self-Capability Improvement"
       "Candidate regressed on developmental latency or validity";
     recursive_persistence := regressed "Criterion 3: Recursive Persistence & Compounding"
       "Evaluation aborted due to developmental regression";
     overall_classification := "REJECTED"; evidence_payload := None |}.

Definition hardcoded_rules : list string := ["hardcoded_fix"; "static_rule"].

Definition evaluate_tier2_candidate (p : ImprovementProposal)
    (parent candidate : MetaBenchmarkMetrics) (key : option VerifyingKey) (margin : f64)
    (downstream : option (string * string * string * string)) : result TrueRsiVerdict :=
  _ ← validate_tier2_candidate_boundaries (target_file p);
  op_key ← ok_or key
    (Fmt "Tier 2 Meta-Improvement Fails Closed: Operator cryptographic verifying key required for Engine self-modification." []);
  sig_hex ← ok_or (operator_signature p)
    (Fmt "Tier 2 Meta-Improvement Fails Closed: Missing operator cryptographic signature on candidate proposal." []);
  _ ← verify_operator_authorization (sha256 (proposed_patch p)) sig_hex op_key;
  let comparison := evaluate_candidate parent candidate margin in
  if negb (passed_non_inferiority comparison) then Ok rejected_verdict
  else
    let c1 := evaluate_criterion_1_novel_discovery (description p) true hardcoded_rules in
    let metrics_summary :=
      render (Fmt "Discovery delta: {}%, Validity delta: {}%, Latency delta: {}%"
        [fmt_fixed 2 (discovery_rate_delta_pct comparison);
         fmt_fixed 2 (hypothesis_validity_delta_pct comparison);
         fmt_fixed 2 (latency_delta_pct comparison)]) in
    let c2 := evaluate_criterion_2_self_capability_improvement (passed_amplification comparison)
                metrics_summary in
    let c3 := match downstream with
              | Some (meta_hash, down_cycle, down_hash, proof) =>
                evaluate_criterion_3_recursive_persistence (Some meta_hash) (Some down_cycle)
                  (Some down_hash) (Some proof)
              | None => evaluate_criterion_3_recursive_persistence None None None None
              end in
    Ok (evaluate_full c1 c2 c3).
End Fork.
