(* ===== verification/MetaProps.v ===== *)
(** What the A/B fork concludes, and what the balance kernel promises. *)

From S2P Require Import Prelude RustStd RustNum RustFloat Digest LedgerRecord PatchGate Measure Meta.
#[local] Open Scope string_scope.
#[local] Open Scope list_scope.

Section Fork.
Context `{Sha256} `{P256}.

(** The operator's key verifies the signature of the patch text. *)
Definition authorized (p : ImprovementProposal) (key : option VerifyingKey) : Prop :=
  ∃ vk sig bytes, key = Some vk ∧ operator_signature p = Some sig ∧ hex_decode sig = Some bytes
    ∧ check_bytes vk (sha256 (proposed_patch p)) bytes = true.

(** The verdict on an authorized candidate. *)
Definition fork_verdict (p : ImprovementProposal) (parent candidate : MetaBenchmarkMetrics)
    (margin : f64) (downstream : option (string * string * string * string)) : TrueRsiVerdict :=
  let c := evaluate_candidate parent candidate margin in
  if negb (passed_non_inferiority c) then rejected_verdict
  else evaluate_full
    (evaluate_criterion_1_novel_discovery (description p) true hardcoded_rules)
    (evaluate_criterion_2_self_capability_improvement (passed_amplification c)
       (render (Fmt "Discovery delta: {}%, Validity delta: {}%, Latency delta: {}%"
         [fmt_fixed 2 (discovery_rate_delta_pct c);
          fmt_fixed 2 (hypothesis_validity_delta_pct c); fmt_fixed 2 (latency_delta_pct c)])))
    (match downstream with
     | Some (a, b, d, e) =>
       evaluate_criterion_3_recursive_persistence (Some a) (Some b) (Some d) (Some e)
     | None => evaluate_criterion_3_recursive_persistence None None None None
     end).

Lemma fork_ok p parent candidate key margin downstream v :
  evaluate_tier2_candidate p parent candidate key margin downstream = Ok v ↔
  (validate_tier2_candidate_boundaries (target_file p) = Ok tt ∧ authorized p key)
  ∧ v = fork_verdict p parent candidate margin downstream.
Proof.
  unfold evaluate_tier2_candidate, authorized. rewrite bind_ok. split.
  - intros ([] & Hb & (vk & Hk%ok_or_ok & (sig & Hs%ok_or_ok & (a & Ha & Hv)%bind_ok)%bind_ok)%bind_ok).
    unfold verify_operator_authorization in Ha. destruct (hex_decode sig) as [bytes|] eqn:Eh; [|done].
    destruct (check_bytes _ _ _) eqn:Ec; [|done]. split; [split; [done|by exists vk, sig, bytes]|].
    unfold fork_verdict. cbn zeta in *. destruct (negb _); by injection Hv.
  - intros ((Hb & vk & sig & bytes & -> & Hs & Hh & Hc) & ->). unfold fork_verdict. exists tt. split; [done|].
    rewrite Hs. cbn [ok_or mbind result_bind]. unfold verify_operator_authorization.
    rewrite Hh, Hc. cbn [mbind result_bind]. cbn zeta. by destruct (negb _).
Qed.

Lemma verdict_class p parent candidate margin downstream :
  let c := evaluate_candidate parent candidate margin in
  overall_classification (fork_verdict p parent candidate margin downstream)
  = if passed_non_inferiority c && passed_amplification c
       && negb (existsb (λ r, str_contains r (description p)) hardcoded_rules)
    then match downstream with Some _ => "TRUE_RSI" | None => "META_CANDIDATE" end
    else "REJECTED".
Proof.
  cbn zeta. unfold fork_verdict. set (c := evaluate_candidate parent candidate margin). clearbody c.
  unfold evaluate_criterion_1_novel_discovery.
  by destruct (existsb _ hardcoded_rules), (passed_non_inferiority c), (passed_amplification c),
    downstream as [[[[a b] d] e]|].
Qed.

(** What makes an engine change count as recursive self-improvement.  The A/B fork answers
    TRUE_RSI exactly when the target is outside the immutable boundaries, the operator's key
    verifies the signature of the patch text, the candidate is not inferior in validity and
    latency and improves one of the three measures by five percent, the description names no
    hardcoded rule, and downstream evidence is given; the verdict then carries that evidence.
    Without the evidence the same candidate stays a META_CANDIDATE, and without authorization
    there is no verdict at all. *)
Theorem true_rsi_iff p parent candidate key margin downstream :
  let c := evaluate_candidate parent candidate margin in
  let sound := validate_tier2_candidate_boundaries (target_file p) = Ok tt ∧ authorized p key
    ∧ passed_non_inferiority c = true ∧ passed_amplification c = true
    ∧ existsb (λ r, str_contains r (description p)) hardcoded_rules = false in
  let answers k := ∃ v, evaluate_tier2_candidate p parent candidate key margin downstream = Ok v
                        ∧ overall_classification v = k in
  (answers "TRUE_RSI" ↔ sound ∧ downstream ≠ None)
  ∧ (answers "META_CANDIDATE" ↔ sound ∧ downstream = None)
  ∧ ((∃ v, evaluate_tier2_candidate p parent candidate key margin downstream = Ok v) ↔
      validate_tier2_candidate_boundaries (target_file p) = Ok tt ∧ authorized p key)
  ∧ ∀ v, evaluate_tier2_candidate p parent candidate key margin downstream = Ok v →
      overall_classification v = "TRUE_RSI" →
      (λ e, (meta_candidate_block_hash e, downstream_cycle_id e, downstream_ledger_block_hash e,
             capability_improvement_proof e)) <$> evidence_payload v = downstream.
Proof.
  cbn zeta.
  assert (∀ k, (∃ v, evaluate_tier2_candidate p parent candidate key margin downstream = Ok v
                 ∧ overall_classification v = k) ↔
    (validate_tier2_candidate_boundaries (target_file p) = Ok tt ∧ authorized p key)
    ∧ overall_classification (fork_verdict p parent candidate margin downstream) = k) as Hk.
  { intros k. setoid_rewrite fork_ok. split; [by intros (? & (? & ->) & ?)|]. intros [? ?]; eauto. }
  rewrite !Hk, verdict_class. set (c := evaluate_candidate parent candidate margin).
  split_and!.
  - destruct (existsb _ hardcoded_rules), (passed_non_inferiority c), (passed_amplification c), downstream;
      cbn; intuition congruence.
  - destruct (existsb _ hardcoded_rules), (passed_non_inferiority c), (passed_amplification c), downstream;
      cbn; intuition congruence.
  - setoid_rewrite fork_ok. split; [by intros (? & ? & _)|]. intros ?; eauto.
  - intros v (_ & ->)%fork_ok Hc. rewrite verdict_class in Hc. fold c in Hc. unfold fork_verdict. fold c.
    destruct (passed_non_inferiority c); [|done]. destruct downstream as [[[[a b] d] e]|]; [done|].
    by repeat case_match.
Qed.

Definition retarget (t : string) (p : ImprovementProposal) : ImprovementProposal :=
  {| id := id p; title := title p; description := description p; target_file := t;
     proposed_patch := proposed_patch p; kind := kind p; created_at := created_at p;
     sandbox_path := sandbox_path p; operator_signature := operator_signature p |}.

(** The operator signs the text of the patch and not the file it replaces: the same signature
    authorizes the text for every file outside the boundaries. *)
Lemma authorization_ignores_target p t parent candidate key margin downstream v :
  evaluate_tier2_candidate p parent candidate key margin downstream = Ok v →
  validate_tier2_candidate_boundaries t = Ok tt →
  evaluate_tier2_candidate (retarget t p) parent candidate key margin downstream = Ok v.
Proof. rewrite !fork_ok. by intros ((_ & ?) & ->) ?. Qed.
End Fork.

(** The comment asks that the discovery rate not regress; only validity and latency are tested. *)
Example discovery_rate_may_collapse :
  let m rate := {| discovery_rate_per_sec := f64_of_N rate; hypothesis_validity_ratio := f64_lit 8 1;
    compute_efficiency_score := f64_of_N 1; cycle_latency_ms := f64_of_N 500;
    memory_peak_rss_kb := 4096 |} in
  let c := evaluate_candidate (m 10%N) (m 1%N) (f64_of_N 1) in
  f64_lt (discovery_rate_delta_pct c) (f64_opp (f64_of_N 80)) = true ∧ passed_non_inferiority c = true.
Proof. vm_compute. auto. Qed.

Example balance_examples :
  verdict (balance_evaluate (f64_of_N 10) (f64_of_N 10)) = "balanced"
  ∧ verdict (balance_evaluate (f64_of_N 30) (f64_of_N 5)) = "drive_dominant"
  ∧ verdict (balance_evaluate (f64_of_N 2) (f64_of_N 10)) = "humanity_dominant".
Proof. vm_compute. auto. Qed.

Module ForkExamples.
Import Checksum KeyedChecksum.
Definition patch : string := "pub fn new_engine_feature() {}".
Definition proposal : ImprovementProposal :=
  {| id := "meta-prop-01"; title := "accelerate"; description := "graph centrality bottleneck";
     target_file := "src/propose/mod.rs"; proposed_patch := patch; kind := MetaEngineImprovement;
     created_at := "now"; sandbox_path := None;
     operator_signature := Some (hex_encode (sign_bytes sk (sha256 patch))) |}.
Definition metrics (rate latency : N) : MetaBenchmarkMetrics :=
  {| discovery_rate_per_sec := f64_of_N rate; hypothesis_validity_ratio := f64_lit 85 2;
     compute_efficiency_score := f64_of_N 1; cycle_latency_ms := f64_of_N latency;
     memory_peak_rss_kb := 4096 |}.

Lemma true_rsi_iff_witness :
  ∃ v, evaluate_tier2_candidate proposal (metrics 10 400) (metrics 13 350)
         (Some (verifying_key sk)) (f64_of_N 1) (Some ("m", "c", "d", "p")) = Ok v
       ∧ overall_classification v = "TRUE_RSI".
Proof.
  apply (true_rsi_iff proposal (metrics 10 400) (metrics 13 350) (Some (verifying_key sk))
    (f64_of_N 1) (Some ("m", "c", "d", "p"))).
  split; [|discriminate]. split; [vm_compute; reflexivity|]. split.
  { exists (verifying_key sk), (hex_encode (sign_bytes sk (sha256 patch))), (sign_bytes sk (sha256 patch)).
    split; [reflexivity|]. split; [reflexivity|]. split; [vm_compute; reflexivity|].
    vm_compute. reflexivity. }
  split; [vm_compute; reflexivity|]. split; vm_compute; reflexivity.
Defined.
End ForkExamples.
