(* ===== verification/Adapter.v ===== *)
(** The canary adapter manifest: what a target tree declares about its worker
    ([src/canary/adapter.rs]).  The TOML reader is a parameter. *)

From S2P Require Import Prelude RustStd RustPath Digest PatchGate.
#[local] Open Scope string_scope.
#[local] Open Scope list_scope.

Definition ADAPTER_MANIFEST_FILE : string := "canary-adapter.toml".
Definition RESPONSE_FORMAT_UTF8_EXACT : string := "utf8-exact".
Definition ADAPTER_MANIFEST_VERSION : N := 1.
Definition CANARY_PROTOCOL_VERSION : N := 1.

Record CanaryAdapterManifest := {
  manifest_version : N;
  protocol_version : N;
  executable : string;
  args : list string;
  workload_id : string;
  response_format : string
}.

Record LoadedAdapterManifest := {
  manifest : CanaryAdapterManifest;
  loaded_digest : string;
  loaded_path : string
}.

Definition is_normal (c : component) : bool :=
  match c with Normal _ => true | _ => false end.

Definition validate_relative_executable (executable : string) : result unit :=
  if trim_is_empty executable then fail "canary adapter executable is required" []
  else if contains_byte backslash executable || contains_byte nul executable then
    fail "canary adapter executable contains a backslash or NUL" []
  else if is_absolute executable then
    fail "canary adapter executable {:?} must be relative to the build output" [executable]
  else if forallb is_normal (components executable) then Ok tt
  else fail "canary adapter executable {:?} must not climb or use special components" [executable].

Definition validate (m : CanaryAdapterManifest) : result unit :=
  if negb (manifest_version m =? ADAPTER_MANIFEST_VERSION)%N then
    fail "canary adapter manifest version {} is not supported (expected {})"
      [dec (manifest_version m); dec ADAPTER_MANIFEST_VERSION]
  else if negb (protocol_version m =? CANARY_PROTOCOL_VERSION)%N then
    fail "canary adapter protocol version {} is not supported (expected {})"
      [dec (protocol_version m); dec CANARY_PROTOCOL_VERSION]
  else
    _ ← validate_relative_executable (executable m);
    if existsb (contains_byte nul) (args m) then
      fail "canary adapter argument contains NUL" []
    else if trim_is_empty (workload_id m) || any_control (workload_id m) then
      fail "canary adapter workload id is required and must be printable" []
    else if negb (bool_decide (response_format m = RESPONSE_FORMAT_UTF8_EXACT)) then
      fail "canary adapter response format {:?} is not supported (expected {:?})"
        [response_format m; RESPONSE_FORMAT_UTF8_EXACT]
    else Ok tt.

Section Load.
Context `{Sha256}.
(** [toml::from_str]. *)
Context (from_toml : string → option CanaryAdapterManifest).

Definition parse (text : string) : result CanaryAdapterManifest :=
  m ← ok_or (from_toml text) (Fmt "canary adapter manifest does not parse: {}" []);
  _ ← validate m;
  Ok m.

(** The disk holds the regular files. *)
Definition is_declared (d : disk) (tree_root : string) : bool :=
  bool_decide (is_Some (d !! path_join tree_root ADAPTER_MANIFEST_FILE)).

Definition load_from_tree (d : disk) (tree_root : string) : result LoadedAdapterManifest :=
  let path := path_join tree_root ADAPTER_MANIFEST_FILE in
  match d !! path with
  | None => fail "target {:?} ships no {}: not eligible for canary"
              [tree_root; ADAPTER_MANIFEST_FILE]
  | Some text =>
    if negb (valid_utf8 text) then fail "cannot read {:?}: {}" [path]
    else
      m ← parse text;
      Ok {| manifest := m; loaded_digest := sha256_hex text; loaded_path := path |}
  end.

Definition digest_of_text (text : string) : string := sha256_hex text.

Definition executable_path (m : CanaryAdapterManifest) (build_output_root : string) : string :=
  path_join build_output_root (executable m).

(** the executable an accepted manifest names stays inside the build output: its path is the
    output root, a separator, and a relative path whose parts are entries - none of them climbs
    or restarts at the root. *)
Theorem executable_stays_inside d tree_root loaded root :
  load_from_tree d tree_root = Ok loaded → root ≠ "" →
  String.get (String.length root - 1) root ≠ Some slash →
  executable_path (manifest loaded) root = root +:+ "/" +:+ executable (manifest loaded)
  ∧ has_root (executable (manifest loaded)) = false
  ∧ Forall (λ w, w ≠ "..") (split_on slash (executable (manifest loaded)))
  ∧ loaded_digest loaded = default "" (digest_of_text <$> d !! loaded_path loaded).
Proof.
  intros Hl Hne Hs. unfold load_from_tree in Hl.
  destruct (d !! path_join tree_root ADAPTER_MANIFEST_FILE) as [text|] eqn:Hd; [|done].
  destruct (valid_utf8 text); [|done]. simpl in Hl.
  apply bind_ok in Hl as (m & Hm & [= <-]). simpl. rewrite Hd. simpl.
  unfold parse in Hm. apply bind_ok in Hm as (m' & _ & Hm). apply bind_ok in Hm as ([] & Hv & [= ->]).
  unfold validate in Hv.
  destruct (negb (manifest_version m =? _)%N); [done|].
  destruct (negb (protocol_version m =? _)%N); [done|].
  apply bind_ok in Hv as ([] & He & _). unfold validate_relative_executable in He.
  destruct (trim_is_empty (executable m)); [done|].
  destruct (contains_byte backslash (executable m) || contains_byte nul (executable m)); [done|].
  destruct (is_absolute (executable m)); [done|].
  destruct (forallb is_normal (components (executable m))) eqn:Hc; [|done].
  destruct (components_normal (executable m)) as (Hr & _ & Hp).
  { apply Forall_forall. intros c Hin. rewrite forallb_forall in Hc.
    specialize (Hc c (proj1 (list_elem_of_In _ _) Hin)). destruct c; try done. eauto. }
  split_and!; try done. unfold executable_path, path_join.
  by rewrite Hr, !bool_decide_false.
Qed.
End Load.

Module AdapterExample.
Import Checksum.
Definition m : CanaryAdapterManifest :=
  {| manifest_version := 1; protocol_version := 1; executable := "release/rsi-canary-fixture";
     args := ["--adapter"]; workload_id := "fixture-v1"; response_format := "utf8-exact" |}.
(** A reader that knows one text. *)
Definition from_toml (text : string) : option CanaryAdapterManifest :=
  if bool_decide (text = "manifest") then Some m else None.
Definition d : disk := {["/t/canary-adapter.toml" := "manifest"]}.
Definition loaded : LoadedAdapterManifest :=
  {| manifest := m; loaded_digest := sha256_hex "manifest";
     loaded_path := "/t/canary-adapter.toml" |}.
Example climbing_refused :
  is_ok (validate_relative_executable "../outside") = false
  ∧ is_ok (validate_relative_executable "release/../x") = false
  ∧ is_ok (validate_relative_executable "/usr/bin/true") = false.
Proof. repeat split. Qed.
End AdapterExample.

Lemma executable_stays_inside_witness :
  executable_path AdapterExample.m "/tmp/out" = "/tmp/out/release/rsi-canary-fixture".
Proof.
  refine (proj1 (executable_stays_inside (H := Checksum.sha) AdapterExample.from_toml
    AdapterExample.d "/t" AdapterExample.loaded "/tmp/out" _ _ _)).
  - vm_compute; reflexivity.
  - discriminate.
  - discriminate.
Defined.
