(* ===== verification/Receipt.v ===== *)
(** Evaluation receipts, the evaluation policy and the promotion gate ([src/evaluator/mod.rs],
    [EvaluationPolicy] of [src/actor/judge.rs], [src/promotion_gate.rs]).

    A score or metric of a receipt is an [f64] kept as its 64 bits ([to_bits]), which is all the
    digests use. *)

From S2P Require Import Prelude RustStd RustNum Digest LedgerRecord.
#[local] Open Scope string_scope.
#[local] Open Scope list_scope.

(** ** Receipts *)

Record LayerResult := {
  layer_name : string;
  is_hard_invariant : bool;
  passed : bool;
  score : N;
  summary : string;
  violations : list string
}.

Record EvaluationMetricsSummary := {
  latency_delta_pct : N;
  p_value : N;
  p95_ci_upper_degradation_pct : N;
  p99_ci_upper_degradation_pct : N;
  rss_growth_pct : N;
  candidate_resident_mb : N
}.

Record ReceiptBindingV2 := {
  subject_path : string;
  subject_sha256 : string;
  holdout_set_sha256 : string;
  holdouts_total : N;
  holdouts_passed : N;
  policy_sha256 : string;
  evaluator_binary_sha256 : string
}.

Record EvaluationReceipt := {
  cycle_id : string;
  candidate_id : string;
  parent_id : string;
  evaluated_at : string;
  evaluator_version : string;
  passed_all_hard_invariants : bool;
  passed_statistical_gates : bool;
  admitted : bool;
  layer_results : list LayerResult;
  metrics_summary : option EvaluationMetricsSummary;
  receipt_digest : string;
  receipt_signature : option string;
  format_version : N;
  binding : option ReceiptBindingV2
}.

Definition RECEIPT_V2_DOMAIN : string := "spark-rsi.evaluation-receipt.v2".
Definition HOLDOUT_SET_DOMAIN : string := "spark-rsi.holdout-set.v1".

Section Receipt.
Context `{Sha256} `{P256}.

Definition flag_text (b : bool) : string := if b then "1" else "0".

(** The bytes the version 1 digest hashes: nothing is delimited. *)
Definition v1_preimage (cycle candidate parent : string) (admitted : bool)
    (layers : list LayerResult) : string :=
  cycle +:+ candidate +:+ parent +:+ flag_text admitted +:+
  foldr (λ lr acc, layer_name lr +:+ flag_text (passed lr) +:+ to_le_bytes (score lr)
                   +:+ summary lr +:+ acc) "" layers.

Definition compute_digest (cycle candidate parent : string) (admitted : bool)
    (layers : list LayerResult) : string :=
  sha256_hex (v1_preimage cycle candidate parent admitted layers).

(** One byte, 0 or 1. *)
Definition flag_byte (b : bool) : string := String (byte (if b then 1 else 0)) "".

Definition layer_fields (lr : LayerResult) : list string :=
  [layer_name lr; flag_byte (is_hard_invariant lr); flag_byte (passed lr);
   to_le_bytes (score lr); summary lr; to_le_bytes (N.of_nat (length (violations lr)))]
  ++ violations lr.

Definition metrics_fields (m : option EvaluationMetricsSummary) : list string :=
  match m with
  | None => [flag_byte false]
  | Some m =>
    flag_byte true :: (to_le_bytes <$>
      [latency_delta_pct m; p_value m; p95_ci_upper_degradation_pct m;
       p99_ci_upper_degradation_pct m; rss_growth_pct m; candidate_resident_mb m])
  end.

(** The fields fed to the hasher, in order. *)
Definition v2_fields (r : EvaluationReceipt) (b : ReceiptBindingV2) : list string :=
  [RECEIPT_V2_DOMAIN; cycle_id r; candidate_id r; parent_id r; evaluated_at r;
   evaluator_version r; evaluator_binary_sha256 b; subject_path b; subject_sha256 b;
   holdout_set_sha256 b; policy_sha256 b; to_le_bytes (holdouts_total b);
   to_le_bytes (holdouts_passed b); flag_byte (admitted r);
   flag_byte (passed_all_hard_invariants r); flag_byte (passed_statistical_gates r);
   to_le_bytes (N.of_nat (length (layer_results r)))]
  ++ (layer_results r ≫= layer_fields) ++ metrics_fields (metrics_summary r).

Definition v2_preimage (r : EvaluationReceipt) (b : ReceiptBindingV2) : string :=
  put_fields (v2_fields r b).

Definition compute_digest_v2 (r : EvaluationReceipt) : result string :=
  b ← ok_or (binding r) (Fmt "version 2 digest needs a binding" []);
  Ok (sha256_hex (v2_preimage r b)).

Definition verify_digest (r : EvaluationReceipt) : bool :=
  match binding r with
  | None =>
    (format_version r =? 1)%N
    && bool_decide (receipt_digest r = compute_digest (cycle_id r) (candidate_id r) (parent_id r)
                                         (admitted r) (layer_results r))
  | Some b =>
    (format_version r =? 2)%N
    && match compute_digest_v2 r with
       | Ok d => bool_decide (d = receipt_digest r)
       | Err _ => false
       end
  end.

(** The bytes that are signed: those of the digest, or its text when it is not hex. *)
Definition digest_bytes (r : EvaluationReceipt) : string :=
  default (receipt_digest r) (hex_decode (receipt_digest r)).

Definition with_signature (sig : string) (r : EvaluationReceipt) : EvaluationReceipt :=
  {| cycle_id := cycle_id r; candidate_id := candidate_id r; parent_id := parent_id r;
     evaluated_at := evaluated_at r; evaluator_version := evaluator_version r;
     passed_all_hard_invariants := passed_all_hard_invariants r;
     passed_statistical_gates := passed_statistical_gates r; admitted := admitted r;
     layer_results := layer_results r; metrics_summary := metrics_summary r;
     receipt_digest := receipt_digest r; receipt_signature := Some sig;
     format_version := format_version r; binding := binding r |}.
Definition with_binding (b : ReceiptBindingV2) (r : EvaluationReceipt) : EvaluationReceipt :=
  {| cycle_id := cycle_id r; candidate_id := candidate_id r; parent_id := parent_id r;
     evaluated_at := evaluated_at r; evaluator_version := evaluator_version r;
     passed_all_hard_invariants := passed_all_hard_invariants r;
     passed_statistical_gates := passed_statistical_gates r; admitted := admitted r;
     layer_results := layer_results r; metrics_summary := metrics_summary r;
     receipt_digest := receipt_digest r; receipt_signature := receipt_signature r;
     format_version := 2; binding := Some b |}.
Definition with_digest (d : string) (r : EvaluationReceipt) : EvaluationReceipt :=
  {| cycle_id := cycle_id r; candidate_id := candidate_id r; parent_id := parent_id r;
     evaluated_at := evaluated_at r; evaluator_version := evaluator_version r;
     passed_all_hard_invariants := passed_all_hard_invariants r;
     passed_statistical_gates := passed_statistical_gates r; admitted := admitted r;
     layer_results := layer_results r; metrics_summary := metrics_summary r;
     receipt_digest := d; receipt_signature := receipt_signature r;
     format_version := format_version r; binding := binding r |}.

Definition sign_receipt (k : SigningKey) (r : EvaluationReceipt) : EvaluationReceipt :=
  with_signature ("tpm2-p256:" +:+ hex_encode (sign_bytes k (digest_bytes r))) r.

Definition bind_and_sign_v2 (b : ReceiptBindingV2) (k : SigningKey) (r : EvaluationReceipt)
    : result EvaluationReceipt :=
  let r := with_binding b r in
  d ← compute_digest_v2 r;
  Ok (sign_receipt k (with_digest d r)).

Definition receipt_verifies (vk : VerifyingKey) (r : EvaluationReceipt) : bool :=
  if negb (verify_digest r) then false
  else match receipt_signature r with
  | None => false
  | Some text =>
    let raw_hex := match strip_prefix "tpm2-p256:" text with Some s => s | None => text end in
    match hex_decode raw_hex with
    | None => false
    | Some sig => check_bytes vk (digest_bytes r) sig
    end
  end.

Definition verify_for_promotion (judge_key : VerifyingKey) (subject policy holdouts : string)
    (r : EvaluationReceipt) : result unit :=
  if negb (format_version r =? 2)%N then
    fail "receipt format {} is not sufficient for promotion (version 2 required)"
      [dec (format_version r)]
  else if negb (receipt_verifies judge_key r) then
    fail "receipt signature or digest does not verify under the judge key" []
  else
    b ← ok_or (binding r) (Fmt "version 2 receipt without binding" []);
    if negb (bool_decide (subject_sha256 b = subject)) then
      fail "receipt subject {} is not the change being promoted ({})" [subject_sha256 b; subject]
    else if negb (bool_decide (policy_sha256 b = policy)) then
      fail "receipt policy digest differs from the pinned policy" []
    else if negb (bool_decide (holdout_set_sha256 b = holdouts)) then
      fail "receipt holdout set differs from the pinned holdout set" []
    else if negb (admitted r) then fail "judge did not admit the candidate" []
    else Ok tt.
End Receipt.

(** ** The evaluation policy *)

Record EvaluationPolicy := {
  policy_id : string;
  pinned_holdouts : string;           (* [holdout_set_sha256] *)
  min_holdout_pass_ratio : f64;
  require_admitted : bool;
  allowed_targets : list string;
  protected_paths : list string;
  non_inferiority_margin_pct : option f64
}.

Definition is_clean_relative (p : string) : bool :=
  negb (bool_decide (p = "")) && negb (starts_with "/" p)
  && forallb (λ c, negb (bool_decide (c = "")) && negb (bool_decide (c = "."))
                   && negb (bool_decide (c = ".."))) (split_on "/" p).

Definition path_is_under (path prefix : string) : bool :=
  let prefix := trim_end_byte "/" prefix in
  bool_decide (path = prefix) || starts_with (prefix +:+ "/") path.

Definition f64_zero : f64 := f64_of_N 0.
Definition f64_one : f64 := f64_of_N 1.

(** The checks of [EvaluationPolicy::load] on a policy that was read. *)
Definition check_policy (p : EvaluationPolicy) : result unit :=
  if negb (require_admitted p) then
    fail "policy require_admitted must be true; promotion never skips admission" []
  else if negb (f64_gt (min_holdout_pass_ratio p) f64_zero
                && f64_le (min_holdout_pass_ratio p) f64_one) then
    fail "policy min_holdout_pass_ratio must be in (0, 1]" []
  else if negb (String.length (pinned_holdouts p) =? 64)%nat
          || negb (bool_decide (is_Some (hex_decode (pinned_holdouts p)))) then
    fail "policy holdout_set_sha256 must be 64 hex characters" []
  else if match non_inferiority_margin_pct p with
          | Some m => negb (is_finite m && f64_ge m f64_zero)
          | None => false
          end then
    fail "policy non_inferiority_margin_pct must be a finite non-negative number" []
  else if bool_decide (allowed_targets p = []) then
    fail "policy allowed_targets must name at least one file" []
  else match List.find (λ q, negb (is_clean_relative (trim_end_byte "/" q)))
               (allowed_targets p ++ protected_paths p) with
  | Some q => fail "policy path {:?} is not a clean relative path" [q]
  | None => Ok tt
  end.

Section Gate.
Context `{Sha256} `{P256} `{!EqDecision VerifyingKey}.
(** [serde_json] on policy files and [VerifyingKey::from_sec1_bytes]. *)
Context (policy_of_json : string → option EvaluationPolicy).
Context (key_of_sec1 : string → option VerifyingKey).

Definition load_policy (d : disk) (path : string) : result (EvaluationPolicy * string) :=
  bytes ← read_file d path "cannot read policy file {:?}: {}";
  p ← ok_or (policy_of_json bytes) (Fmt "policy file {:?} is invalid: {}" [path]);
  _ ← check_policy p;
  Ok (p, sha256_hex bytes).

(** ** The promotion gate *)

Record PromotionSubject := {
  parent : string;             (* [parent_id] *)
  path : string;
  content_sha256 : string;
  disk_sha256 : string
}.

(** [PromotionSubject::same]. *)
Definition same_subject (parent_id path sha : string) : PromotionSubject :=
  {| parent := parent_id; path := path; content_sha256 := sha; disk_sha256 := sha |}.

Definition enough_holdouts (p : EvaluationPolicy) (b : ReceiptBindingV2) : bool :=
  negb ((holdouts_total b =? 0)%N
        || f64_lt (f64_of_N (holdouts_passed b))
             (f64_mul (min_holdout_pass_ratio p) (f64_of_N (holdouts_total b)))).

(** The judge's key from its pinned text. *)
Definition judge_key_of (judge_public_key_hex : option string) : result VerifyingKey :=
  key_hex ← ok_or judge_public_key_hex
    (Fmt "no pinned judge public key (judge_public_key_hex); promotion fails closed" []);
  key_bytes ← ok_or (hex_decode (str_trim key_hex)) (Fmt "judge public key is not hex: {}" []);
  ok_or (key_of_sec1 key_bytes) (Fmt "judge public key is invalid: {}" []).

(** The comparison of the signed binding with the change. *)
Definition check_binding (p : EvaluationPolicy) (r : EvaluationReceipt) (b : ReceiptBindingV2)
    (s : PromotionSubject) : result unit :=
  if negb (bool_decide (parent_id r = parent s)) then
    fail "receipt judged the change against parent {}, but it applies on {}"
      [parent_id r; parent s]
  else if negb (bool_decide (subject_path b = path s)) then
    fail "receipt covers {}, but the change replaces {}" [subject_path b; path s]
  else if negb (bool_decide (subject_path b ∈ allowed_targets p)) then
    fail "receipt subject {} is not an allowed target in the pinned policy" [subject_path b]
  else if negb (enough_holdouts p b) then
    fail "holdouts passed {}/{} is below the policy threshold {}"
      [dec (holdouts_passed b); dec (holdouts_total b)]
  else Ok tt.

Definition check_v2_promotion (d : disk) (r : EvaluationReceipt)
    (judge_public_key_hex : option string) (own_key : VerifyingKey)
    (judge_policy_file : option string) (s : PromotionSubject) : result unit :=
  if negb (bool_decide (content_sha256 s = disk_sha256 s)) then
    fail "staged {} hashes to {}, not the change's {}; refusing to promote"
      [path s; disk_sha256 s; content_sha256 s]
  else
    judge_key ← judge_key_of judge_public_key_hex;
    if bool_decide (judge_key = own_key) then
      fail "judge public key equals the promoter's own key; the judge must be separate" []
    else
      policy_file ← ok_or judge_policy_file
        (Fmt "no pinned evaluation policy (judge_policy_file); promotion fails closed" []);
      '(policy, policy_sha) ← load_policy d policy_file;
      _ ← verify_for_promotion judge_key (content_sha256 s) policy_sha (pinned_holdouts policy) r;
      b ← ok_or (binding r) (Fmt "version 2 receipt without binding" []);
      check_binding policy r b s.
End Gate.
