(* ===== verification/ReceiptProps.v ===== *)
(** What a version 2 receipt promises: its digest covers every field, a promotion that passes the
    gate was judged exactly as it is promoted, and an honest verdict passes. *)

From S2P Require Import Prelude RustStd RustNum Digest LedgerRecord Receipt.
#[local] Open Scope string_scope.
#[local] Open Scope list_scope.

(** ** The digest covers the receipt *)

(** The numbers fit their columns, and no text is longer than a [u64] counts. *)
Definition u64_ok (n : N) : Prop := (n <= u64_max)%N.
Definition layer_ok (lr : LayerResult) : Prop :=
  u64_ok (score lr) ∧ u64_ok (N.of_nat (length (violations lr))).
Definition metrics_ok (m : EvaluationMetricsSummary) : Prop :=
  Forall u64_ok [latency_delta_pct m; p_value m; p95_ci_upper_degradation_pct m;
                 p99_ci_upper_degradation_pct m; rss_growth_pct m; candidate_resident_mb m].
Definition receipt_ok (r : EvaluationReceipt) (b : ReceiptBindingV2) : Prop :=
  Forall field_ok (v2_fields r b) ∧ Forall layer_ok (layer_results r)
  ∧ u64_ok (N.of_nat (length (layer_results r)))
  ∧ u64_ok (holdouts_total b) ∧ u64_ok (holdouts_passed b)
  ∧ match metrics_summary r with Some m => metrics_ok m | None => True end.

#[export] Instance layer_ok_dec lr : Decision (layer_ok lr).
Proof. unfold layer_ok, u64_ok. apply _. Defined.
#[export] Instance metrics_ok_dec m : Decision (metrics_ok m).
Proof. unfold metrics_ok, u64_ok. apply _. Defined.
#[export] Instance field_ok_dec f : Decision (field_ok f).
Proof. unfold field_ok. apply _. Defined.
#[export] Instance receipt_ok_dec r b : Decision (receipt_ok r b).
Proof. unfold receipt_ok, u64_ok. destruct (metrics_summary r); apply _. Defined.

(** What is signed: everything but the digest and the signature. *)
Definition same_verdict (r r' : EvaluationReceipt) : Prop :=
  cycle_id r = cycle_id r' ∧ candidate_id r = candidate_id r' ∧ parent_id r = parent_id r'
  ∧ evaluated_at r = evaluated_at r' ∧ evaluator_version r = evaluator_version r'
  ∧ passed_all_hard_invariants r = passed_all_hard_invariants r'
  ∧ passed_statistical_gates r = passed_statistical_gates r' ∧ admitted r = admitted r'
  ∧ layer_results r = layer_results r' ∧ metrics_summary r = metrics_summary r'
  ∧ binding r = binding r'.

Lemma flag_byte_inj b b' : flag_byte b = flag_byte b' → b = b'.
Proof. by destruct b, b'. Qed.

Lemma cons_inv {A} (a a' : A) l l' : a :: l = a' :: l' → a = a' ∧ l = l'.
Proof. by intros [= -> ->]. Qed.

Lemma layer_fields_inj l l' rest rest' :
  Forall layer_ok l → Forall layer_ok l' → length l = length l' →
  (l ≫= layer_fields) ++ rest = (l' ≫= layer_fields) ++ rest' → l = l' ∧ rest = rest'.
Proof.
  intros Hl. revert l'. induction Hl as [|lr l [Hs Hn] Hl IH]; intros [|lr' l'] Hl' Hlen; try done.
  apply Forall_cons in Hl' as [[Hs' Hn'] Hl']. cbn [mbind list_bind].
  unfold layer_fields at 1 3. rewrite <- !app_assoc. cbn [app]. intros Heq.
  apply cons_inv in Heq as [Hname Heq]. apply cons_inv in Heq as [Hhard Heq].
  apply cons_inv in Heq as [Hpass Heq]. apply cons_inv in Heq as [Hscore Heq].
  apply cons_inv in Heq as [Hsum Heq]. apply cons_inv in Heq as [Hcount Hrest].
  apply flag_byte_inj in Hhard, Hpass. apply to_le_bytes_inj in Hscore, Hcount; try done.
  apply app_inj_1 in Hrest as [Hv Hrest]; [|lia].
  apply IH in Hrest as [-> ->]; [|done|by injection Hlen].
  split; [|done]. f_equal. destruct lr, lr'; simpl in *; by subst.
Qed.

Lemma metrics_fields_inj m m' :
  match m with Some m => metrics_ok m | None => True end →
  match m' with Some m => metrics_ok m | None => True end →
  metrics_fields m = metrics_fields m' → m = m'.
Proof.
  destruct m as [m|], m' as [m'|]; [|by intros _ _ [= ?%flag_byte_inj]..|done].
  intros Hm Hm' Heq.
  unfold metrics_ok in Hm, Hm'. rewrite !Forall_cons in Hm, Hm'. destruct_and!.
  apply cons_inv in Heq as [_ Heq]. cbn [fmap list_fmap] in Heq.
  repeat (let E := fresh "E" in apply cons_inv in Heq as [E Heq];
          apply to_le_bytes_inj in E; [|done..]).
  f_equal. destruct m, m'; simpl in *; by subst.
Qed.

(** The preimages of equal digests are the same fields, hence the same receipt. *)
Lemma v2_preimage_inj r b r' b' :
  binding r = Some b → binding r' = Some b' → receipt_ok r b → receipt_ok r' b' →
  v2_preimage r b = v2_preimage r' b' → same_verdict r r'.
Proof.
  intros Hb Hb' (Hf & Hl & Hn & Ht & Hp & Hm) (Hf' & Hl' & Hn' & Ht' & Hp' & Hm') Heq.
  apply put_fields_inj in Heq; [|done..]. unfold v2_fields in Heq. cbn [app] in Heq.
  apply cons_inv in Heq as [_ Heq].
  do 15 (let E := fresh "E" in apply cons_inv in Heq as [E Heq]).
  apply cons_inv in Heq as [Ecnt Erest].
  apply flag_byte_inj in E11, E12, E13. apply to_le_bytes_inj in E9, E10, Ecnt; try done.
  apply layer_fields_inj in Erest as [Elr Em]; [|done..|lia].
  apply metrics_fields_inj in Em; [|done..].
  assert (b = b') as Ebb by (destruct b, b'; simpl in *; by subst).
  unfold same_verdict. rewrite Hb, Hb', Ebb. by repeat split.
Qed.

Section Covers.
Context `{Sha256} `{P256}.

Lemma verify_digest_v2 r :
  format_version r = 2%N → verify_digest r = true →
  ∃ b, binding r = Some b ∧ receipt_digest r = sha256_hex (v2_preimage r b).
Proof.
  unfold verify_digest, compute_digest_v2. intros -> Hv. destruct (binding r) as [b|] eqn:Hb; [|done].
  simpl in Hv. apply bool_decide_eq_true in Hv. eauto.
Qed.

(** C34: "every field of the receipt except its digest and signature is covered": two version 2
    receipts that verify and carry the same digest agree on every other field, unless their
    texts collide. *)
Theorem receipt_digest_covers r r' b b' :
  format_version r = 2%N → format_version r' = 2%N →
  verify_digest r = true → verify_digest r' = true →
  binding r = Some b → binding r' = Some b' → receipt_ok r b → receipt_ok r' b' →
  no_collision [v2_preimage r b; v2_preimage r' b'] →
  receipt_digest r = receipt_digest r' → same_verdict r r'.
Proof.
  intros Hf Hf' Hv Hv' Hb Hb' Hok Hok' Hn Heq.
  destruct (verify_digest_v2 r Hf Hv) as (b1 & Hb1 & Hd).
  destruct (verify_digest_v2 r' Hf' Hv') as (b2 & Hb2 & Hd').
  simplify_eq. apply (v2_preimage_inj r b r' b'); try done.
  rewrite Hd, Hd' in Heq.
  apply (sha256_hex_inj [v2_preimage r b; v2_preimage r' b']) in Heq; [done|done|by left|].
  right. by left.
Qed.

Lemma receipt_verifies_ok vk r :
  receipt_verifies vk r = true →
  verify_digest r = true ∧ ∃ sig, check_bytes vk (digest_bytes r) sig = true.
Proof.
  unfold receipt_verifies. destruct (verify_digest r); [|done]. simpl.
  destruct (receipt_signature r) as [text|]; [|done].
  destruct (hex_decode _) as [sig|]; [|done]. eauto.
Qed.

Lemma verify_for_promotion_ok vk subject policy holdouts r :
  verify_for_promotion vk subject policy holdouts r = Ok tt ↔
  format_version r = 2%N ∧ receipt_verifies vk r = true
  ∧ ∃ b, binding r = Some b ∧ subject_sha256 b = subject ∧ policy_sha256 b = policy
         ∧ holdout_set_sha256 b = holdouts ∧ admitted r = true.
Proof.
  unfold verify_for_promotion. destruct (N.eqb_spec (format_version r) 2) as [Hf|]; cbn [negb];
    [|split; [done|by intros (? & _)]].
  destruct (receipt_verifies vk r); cbn [negb]; [|split; [done|by intros (_ & ? & _)]].
  destruct (binding r) as [b|]; cbn [ok_or mbind result_bind];
    [|split; [done|by intros (_ & _ & ? & ? & _)]].
  split.
  - intros Hr. do 3 (case_bool_decide; [cbn [negb] in Hr|done]).
    destruct (admitted r); [|done]. split_and!; [done..|]. by exists b.
  - intros (_ & _ & b' & [= <-] & -> & -> & -> & ->). by rewrite !bool_decide_true.
Qed.

(** A receipt the judge bound and signed verifies under its key. *)
Lemma signed_v2_verifies `{!P256Spec} b k r r' :
  bind_and_sign_v2 b k r = Ok r' →
  format_version r' = 2%N ∧ receipt_verifies (verifying_key k) r' = true ∧ binding r' = Some b
  ∧ admitted r' = admitted r ∧ parent_id r' = parent_id r.
Proof.
  intros Hb. unfold bind_and_sign_v2, compute_digest_v2 in Hb.
  cbn [binding with_binding ok_or mbind result_bind] in Hb. injection Hb as <-.
  set (r2 := with_digest _ _). split_and!; try done.
  assert (verify_digest (sign_receipt k r2) = true) as Hv.
  { unfold verify_digest. cbn [binding sign_receipt with_signature with_digest with_binding r2].
    by apply bool_decide_eq_true. }
  unfold receipt_verifies. rewrite Hv.
  cbn [negb receipt_signature sign_receipt with_signature].
  rewrite (proj2 (strip_prefix_some "tpm2-p256:" _ (hex_encode (sign_bytes k (digest_bytes r2))))
    eq_refl), hex_decode_encode.
  change (digest_bytes (sign_receipt k r2)) with (digest_bytes r2). apply check_signed.
Qed.

(** The digest of a version 2 receipt is hex, so what is signed are the hash's own bytes. *)
Lemma digest_bytes_v2 r b :
  receipt_digest r = sha256_hex (v2_preimage r b) → digest_bytes r = sha256 (v2_preimage r b).
Proof. intros Hd. unfold digest_bytes. rewrite Hd. unfold sha256_hex. by rewrite hex_decode_encode. Qed.

Context `{!EqDecision VerifyingKey}.
Context (policy_of_json : string → option EvaluationPolicy).
Context (key_of_sec1 : string → option VerifyingKey).

Abbreviation check := (check_v2_promotion policy_of_json key_of_sec1).

Lemma load_policy_ok d file p sha :
  load_policy policy_of_json d file = Ok (p, sha) ↔
  ∃ bytes, d !! file = Some bytes ∧ policy_of_json bytes = Some p ∧ check_policy p = Ok tt
           ∧ sha = sha256_hex bytes.
Proof.
  unfold load_policy, read_file. split.
  - intros Hr. apply bind_ok in Hr as (bytes & Hb & Hr). apply ok_or_ok in Hb.
    apply bind_ok in Hr as (p' & Hp & Hr). apply ok_or_ok in Hp.
    apply bind_ok in Hr as ([] & Hc & [= <- <-]). eauto.
  - intros (bytes & -> & Hp & Hc & ->). simpl. rewrite Hp. simpl. by rewrite Hc.
Qed.

Lemma check_binding_ok p r b s :
  check_binding p r b s = Ok tt ↔
  parent_id r = parent s ∧ subject_path b = path s ∧ subject_path b ∈ allowed_targets p
  ∧ enough_holdouts p b = true.
Proof.
  unfold check_binding. split.
  - intros Hc. do 3 (case_bool_decide; [cbn [negb] in Hc|done]).
    by destruct (enough_holdouts p b).
  - intros (-> & -> & Hin & ->). by rewrite !bool_decide_true.
Qed.

(** The signature a receipt carries, as [receipt_verifies] reads it. *)
Definition carries (r : EvaluationReceipt) (sig : string) : Prop :=
  ∃ text, receipt_signature r = Some text
    ∧ (hex_decode text = Some sig ∨ ∃ hex, text = "tpm2-p256:" +:+ hex ∧ hex_decode hex = Some sig).

(** A receipt the judge made: it bound the change, computed the digest and signed it. *)
Definition judged_by (k : SigningKey) (r' : EvaluationReceipt) : Prop :=
  ∃ b r0, bind_and_sign_v2 b k r0 = Ok r' ∧ receipt_ok r' b.

(** The signature on [r] is no forgery: if it verifies under the key of [k], the holder of [k]
    signed that digest, for one of the receipts it issued. *)
Definition not_forged (k : SigningKey) (issued : list EvaluationReceipt) (r : EvaluationReceipt)
    : Prop :=
  ∀ sig, carries r sig → check_bytes (verifying_key k) (digest_bytes r) sig = true →
  ∃ r', r' ∈ issued ∧ digest_bytes r' = digest_bytes r.

(** The bytes under a receipt's digest. *)
Definition signed_text (r : EvaluationReceipt) : string :=
  default "" (v2_preimage r <$> binding r).

Lemma receipt_verifies_carries vk r :
  receipt_verifies vk r = true → ∃ sig, carries r sig ∧ check_bytes vk (digest_bytes r) sig = true.
Proof.
  unfold receipt_verifies, carries. destruct (verify_digest r); [|done]. cbn [negb].
  destruct (receipt_signature r) as [text|]; [|done].
  destruct (strip_prefix "tpm2-p256:" text) as [hex|] eqn:Hp.
  - apply strip_prefix_some in Hp.
    destruct (hex_decode hex) as [sig|] eqn:Hd; [|done]. intros Hc. exists sig. eauto 10.
  - destruct (hex_decode text) as [sig|] eqn:Hd; [|done]. intros Hc. exists sig. eauto 10.
Qed.

Lemma judged_by_digest k r' :
  judged_by k r' → ∃ b, binding r' = Some b ∧ receipt_ok r' b
                   ∧ digest_bytes r' = sha256 (v2_preimage r' b).
Proof.
  intros (b & r0 & Hb & Hok). exists b. unfold bind_and_sign_v2, compute_digest_v2 in Hb.
  cbn [binding with_binding ok_or mbind result_bind] in Hb. injection Hb as <-.
  split_and!; [done|done|]. by apply digest_bytes_v2.
Qed.

(** An accepted receipt whose signature is no forgery says what a receipt of the judge says. *)
Lemma accepted_was_issued k issued r b :
  receipt_verifies (verifying_key k) r = true → format_version r = 2%N → binding r = Some b →
  not_forged k issued r → Forall (judged_by k) issued → receipt_ok r b →
  no_collision (signed_text <$> (r :: issued)) →
  ∃ r', r' ∈ issued ∧ same_verdict r r' ∧ binding r' = Some b.
Proof.
  intros Hrv Hfv Hb Hforge Hall Hok Hn.
  destruct (receipt_verifies_carries _ _ Hrv) as (sig & Hcar & Hsg).
  apply receipt_verifies_ok in Hrv as (Hvd & _).
  destruct (verify_digest_v2 r Hfv Hvd) as (b2 & Hb2 & Hd). rewrite Hb in Hb2. injection Hb2 as <-.
  destruct (Hforge _ Hcar Hsg) as (r' & Hin & Heq).
  rewrite Forall_forall in Hall. destruct (judged_by_digest k r' (Hall _ Hin)) as (b' & Hb' & Hok' & Hd').
  rewrite Hd', (digest_bytes_v2 r b Hd) in Heq.
  assert (signed_text r = v2_preimage r b) as E by (unfold signed_text; by rewrite Hb).
  assert (signed_text r' = v2_preimage r' b') as E' by (unfold signed_text; by rewrite Hb').
  rewrite <- E, <- E' in Heq. apply (no_collision_elim _ _ _ Hn) in Heq.
  2:{ right. by apply list_elem_of_fmap_2. }
  2:{ by left. }
  rewrite E, E' in Heq.
  pose proof (v2_preimage_inj r b r' b' Hb Hb' Hok Hok' (eq_sym Heq)) as Hsv.
  exists r'. split_and!; try done. unfold same_verdict in Hsv. destruct_and!. congruence.
Qed.

(** C5: no change is promoted unless its exact identity was judged: the pinned key is that of the
    judge's signing key [k], and the signature on the receipt presented is no forgery (if it
    verifies, [k] signed that digest for one of the receipts it issued). Then a promotion that
    passes the gate was judged - the judge bound and signed a receipt with the same verdict,
    admitted, for these bytes of this file on this parent, under the operator's policy file and
    holdout set, with enough holdouts passed - and the judge is not the promoter. *)
Theorem promoted_was_judged d r key_hex own file s k issued :
  check d r key_hex own file s = Ok tt →
  judge_key_of key_of_sec1 key_hex = Ok (verifying_key k) →
  not_forged k issued r → Forall (judged_by k) issued →
  (∀ b, binding r = Some b → receipt_ok r b) → no_collision (signed_text <$> (r :: issued)) →
  verifying_key k ≠ own ∧
  ∃ r0 r' b bytes p, r' ∈ issued ∧ bind_and_sign_v2 b k r0 = Ok r' ∧ same_verdict r r'
    ∧ binding r' = Some b ∧ admitted r' = true ∧ parent_id r' = parent s
    ∧ subject_path b = path s ∧ subject_sha256 b = disk_sha256 s
    ∧ (file ≫= λ f, d !! f) = Some bytes ∧ policy_of_json bytes = Some p
    ∧ check_policy p = Ok tt ∧ policy_sha256 b = sha256_hex bytes
    ∧ holdout_set_sha256 b = pinned_holdouts p ∧ path s ∈ allowed_targets p
    ∧ enough_holdouts p b = true.
Proof.
  intros Hc Hj Hforge Hall Hok Hn. unfold check_v2_promotion in Hc.
  case_bool_decide as Hcd; [|done]. cbn [negb] in Hc. rewrite Hj in Hc.
  cbn [mbind result_bind] in Hc.
  case_bool_decide as Hown; [done|]. split; [done|].
  apply bind_ok in Hc as (f & Hf & Hc). apply ok_or_ok in Hf as ->.
  apply bind_ok in Hc as ([p sha] & Hp & Hc).
  apply load_policy_ok in Hp as (bytes & Hbytes & Hpj & Hcp & ->).
  apply bind_ok in Hc as ([] & Hv & Hc). apply bind_ok in Hc as (b & Hb & Hc).
  apply ok_or_ok in Hb. apply check_binding_ok in Hc as (Hpar & Hpath & Hallow & Henough).
  apply verify_for_promotion_ok in Hv as (Hfv & Hrv & b' & Hb' & Hs & Hpo & Hh & Had).
  rewrite Hb in Hb'. injection Hb' as <-.
  destruct (accepted_was_issued k issued r b) as (r' & Hin & Hsv & Hb'); auto.
  rewrite Forall_forall in Hall. destruct (Hall _ Hin) as (b2 & r0 & Hmade & _).
  assert (b2 = b) as ->.
  { revert Hmade Hb'. unfold bind_and_sign_v2, compute_digest_v2.
    cbn [binding with_binding ok_or mbind result_bind]. intros [= <-] [= E]. exact E. }
  exists r0, r', b, bytes, p. rewrite Hcd in Hs. unfold same_verdict in *. destruct_and!.
  split_and!; try done; congruence.
Qed.

(** An honest verdict passes: a receipt the judge bound and signed, admitted and for the
    pinned policy and holdouts, lets exactly the judged bytes through the gate. *)
Lemma honest_passes `{!P256Spec} d r b k r' key_hex own f bytes p s :
  bind_and_sign_v2 b k r = Ok r' → judge_key_of key_of_sec1 (Some key_hex) = Ok (verifying_key k) →
  verifying_key k ≠ own → d !! f = Some bytes → policy_of_json bytes = Some p →
  check_policy p = Ok tt → content_sha256 s = disk_sha256 s →
  subject_sha256 b = content_sha256 s → policy_sha256 b = sha256_hex bytes →
  holdout_set_sha256 b = pinned_holdouts p → admitted r = true →
  parent_id r = parent s → subject_path b = path s → path s ∈ allowed_targets p →
  enough_holdouts p b = true →
  check d r' (Some key_hex) own (Some f) s = Ok tt.
Proof.
  intros Hb Hj Hown Hd Hp Hcp Hcd Hs Hpo Hh Had Hpar Hpath Hin Hen.
  destruct (signed_v2_verifies _ _ _ _ Hb) as (Hf & Hv & Hbd & Ha & Hpa).
  unfold check_v2_promotion. rewrite bool_decide_true by done. cbn [negb]. rewrite Hj.
  cbn [mbind result_bind]. rewrite bool_decide_false by done. cbn [ok_or mbind result_bind].
  rewrite (proj2 (load_policy_ok d f p (sha256_hex bytes))) by eauto 10.
  cbn [mbind result_bind].
  rewrite (proj2 (verify_for_promotion_ok _ _ _ _ _)).
  2:{ split_and!; [done..|]. exists b. split_and!; try done. congruence. }
  rewrite Hbd. cbn [ok_or mbind result_bind]. apply check_binding_ok.
  split_and!; try done; congruence.
Qed.
End Covers.

(** ** A version 2 digest read as version 1 *)

Module Cross.
Definition b : ReceiptBindingV2 :=
  {| subject_path := "src/x.rs"; subject_sha256 := "s"; holdout_set_sha256 := "h";
     holdouts_total := 1; holdouts_passed := 0;
     policy_sha256 := "1a1aaaaaaaaaaaaaaaaaaaaaaaaaaaaaaaaaaaaaaaaaaaaaaaaaaaaaaaaaaaaa";
     evaluator_binary_sha256 := "e" |}.

Section Sha.
Context `{Sha256}.
(** A rejected candidate. *)
Definition v2 : EvaluationReceipt :=
  let r := {| cycle_id := "c"; candidate_id := "cand"; parent_id := "p"; evaluated_at := "t";
     evaluator_version := "v"; passed_all_hard_invariants := false;
     passed_statistical_gates := false; admitted := false; layer_results := [];
     metrics_summary := None; receipt_digest := ""; receipt_signature := None;
     format_version := 2; binding := Some b |} in
  with_digest (sha256_hex (v2_preimage r b)) r.

(** The same bytes, cut where the policy digest has its first [1]. *)
Definition prefix : string :=
  put_fields [RECEIPT_V2_DOMAIN; "c"; "cand"; "p"; "t"; "v"; "e"; "src/x.rs"; "s"; "h"]
  +:+ to_le_bytes 64.
Definition suffix : string :=
  str_skip 11 (policy_sha256 b)
  +:+ put_fields [to_le_bytes 1; to_le_bytes 0; flag_byte false; flag_byte false;
                  flag_byte false; to_le_bytes 0; flag_byte false].
Definition v1 : EvaluationReceipt :=
  {| cycle_id := prefix; candidate_id := ""; parent_id := ""; evaluated_at := "";
     evaluator_version := ""; passed_all_hard_invariants := true;
     passed_statistical_gates := true; admitted := true;
     layer_results := [{| layer_name := "a"; is_hard_invariant := false; passed := true;
       score := 7016996765293437281; summary := suffix; violations := [] |}];
     metrics_summary := None; receipt_digest := receipt_digest v2; receipt_signature := None;
     format_version := 1; binding := None |}.

Lemma same_bytes :
  v1_preimage (cycle_id v1) (candidate_id v1) (parent_id v1) (admitted v1) (layer_results v1)
  = v2_preimage v2 b.
Proof. vm_compute. reflexivity. Qed.
End Sha.
End Cross.

(** The version 1 digest delimits nothing and has no domain, so the digest - and with it the
    signature - of a rejecting version 2 receipt also verifies as a version 1 receipt that
    admits. *)
Theorem v2_digest_reads_as_v1 `{Sha256} :
  ∃ r r', format_version r = 2%N ∧ verify_digest r = true ∧ admitted r = false
    ∧ format_version r' = 1%N ∧ verify_digest r' = true ∧ admitted r' = true
    ∧ digest_bytes r = digest_bytes r'
    ∧ Forall (λ t, valid_utf8 t = true)
        [cycle_id r'; candidate_id r'; parent_id r'] ∧
      Forall (λ l, valid_utf8 (summary l) = true) (layer_results r').
Proof.
  exists Cross.v2, Cross.v1. split_and!; try done.
  - unfold verify_digest. by apply bool_decide_eq_true.
  - unfold verify_digest, compute_digest. rewrite Cross.same_bytes. by apply bool_decide_eq_true.
  - repeat constructor.
  - repeat constructor.
Qed.

(** ** Concrete promotions *)

Module ReceiptExample.
Import Checksum.

Definition hash_text (c : string) : string := sha256_hex c.
Definition policy : EvaluationPolicy :=
  {| policy_id := "p1"; pinned_holdouts := hash_text "holdouts";
     min_holdout_pass_ratio := f64_lit 9 1; require_admitted := true;
     allowed_targets := ["src/observe.rs"]; protected_paths := ["src/ledger/"];
     non_inferiority_margin_pct := Some f64_one |}.
Definition of_json (text : string) : option EvaluationPolicy :=
  if bool_decide (text = "policy") then Some policy else None.
Definition d : disk := {["/etc/policy.json" := "policy"]}.
Definition b : ReceiptBindingV2 :=
  {| subject_path := "src/observe.rs"; subject_sha256 := hash_text "new";
     holdout_set_sha256 := hash_text "holdouts"; holdouts_total := 10; holdouts_passed := 9;
     policy_sha256 := hash_text "policy"; evaluator_binary_sha256 := hash_text "judge" |}.
Definition layer : LayerResult :=
  {| layer_name := "Security"; is_hard_invariant := true; passed := true;
     score := f64_to_bits f64_one; summary := "ok"; violations := [] |}.
Definition plain : EvaluationReceipt :=
  {| cycle_id := "c1"; candidate_id := "k1"; parent_id := "abc"; evaluated_at := "t";
     evaluator_version := "v"; passed_all_hard_invariants := true;
     passed_statistical_gates := true; admitted := true; layer_results := [layer];
     metrics_summary := None; receipt_digest := ""; receipt_signature := None;
     format_version := 1; binding := None |}.
Definition subject : PromotionSubject := same_subject "abc" "src/observe.rs" (hash_text "new").

(** A judge with a key whose signatures verify; the receipt presented carries the signature
    without its scheme's name. *)
Import KeyedChecksum.
Definition judge_key : @SigningKey p256 := "j".
Definition own : @VerifyingKey p256 := "o".
Definition bound : EvaluationReceipt := with_binding b plain.
Definition issued : EvaluationReceipt :=
  sign_receipt judge_key (with_digest (sha256_hex (v2_preimage bound b)) bound).
Definition signed_receipt : EvaluationReceipt :=
  with_signature (hex_encode (sign_bytes judge_key (digest_bytes issued))) issued.
Definition key_of_sec1 (s : string) : option (@VerifyingKey p256) := Some s.

Lemma made : bind_and_sign_v2 b judge_key plain = Ok issued.
Proof. reflexivity. Qed.
Lemma passes : check_v2_promotion of_json key_of_sec1 d signed_receipt (Some " 6a ") own
  (Some "/etc/policy.json") subject = Ok tt.
Proof. vm_compute. reflexivity. Qed.
Lemma key_pinned : judge_key_of key_of_sec1 (Some " 6a ") = Ok (verifying_key judge_key).
Proof. vm_compute. reflexivity. Qed.
Lemma genuine : not_forged judge_key [issued] signed_receipt.
Proof. intros sig _ _. exists issued. split; [by left|done]. Qed.
End ReceiptExample.

Lemma promoted_was_judged_witness :
  ∃ r0 r' b bytes p, r' ∈ [ReceiptExample.issued]
    ∧ bind_and_sign_v2 b ReceiptExample.judge_key r0 = Ok r'
    ∧ same_verdict ReceiptExample.signed_receipt r' ∧ admitted r' = true
    ∧ (Some "/etc/policy.json" ≫= λ f, ReceiptExample.d !! f) = Some bytes
    ∧ ReceiptExample.of_json bytes = Some p ∧ enough_holdouts p b = true.
Proof.
  destruct (promoted_was_judged (H := Checksum.sha) (H0 := KeyedChecksum.p256)
    ReceiptExample.of_json ReceiptExample.key_of_sec1 ReceiptExample.d
    ReceiptExample.signed_receipt (Some " 6a ") ReceiptExample.own (Some "/etc/policy.json")
    ReceiptExample.subject ReceiptExample.judge_key [ReceiptExample.issued]
    ReceiptExample.passes ReceiptExample.key_pinned ReceiptExample.genuine)
    as (_ & r0 & r' & b & bytes & p & H1 & H2 & H3 & _ & H4 & _ & _ & _ & H8 & H9 & _ & _ & _ & _
        & H14).
  - constructor; [|constructor]. exists ReceiptExample.b, ReceiptExample.plain.
    split; [exact ReceiptExample.made|]. apply (bool_decide_unpack _); by vm_compute.
  - intros b Hb. injection Hb as <-. apply (bool_decide_unpack _); by vm_compute.
  - apply (bool_decide_unpack _); by vm_compute.
  - exists r0, r', b, bytes, p. split_and!; assumption.
Defined.

Lemma receipt_digest_covers_witness :
  same_verdict ReceiptExample.signed_receipt
    (with_signature "none" ReceiptExample.signed_receipt).
Proof.
  apply (receipt_digest_covers (H := Checksum.sha) ReceiptExample.signed_receipt
    (with_signature "none" ReceiptExample.signed_receipt) ReceiptExample.b ReceiptExample.b
    eq_refl eq_refl).
  - vm_compute; reflexivity.
  - vm_compute; reflexivity.
  - reflexivity.
  - reflexivity.
  - apply (bool_decide_unpack _); by vm_compute.
  - apply (bool_decide_unpack _); by vm_compute.
  - apply (bool_decide_unpack _); by vm_compute.
  - reflexivity.
Defined.
