(* ===== verification/Propose.v ===== *)
(** Proposals ([src/propose/mod.rs], [diagnose.rs], and the reply of [model_seat.rs]): the
    punctuation scan, the prompts, the code of a model's reply and the staging of a sandbox.

    The model's HTTP replies, identifiers and the time are inputs.  A sandbox is staged on
    [Supervisor]'s file system; the trees copied hold directories and files, no links.  What a
    failing system call leaves behind is an input too: the removal of an old sandbox may leave
    any of its entries and the copy of a file may not happen or stop half way, and the code
    ignores both. *)

From S2P Require Import Prelude RustStd RustPath RustNum Supervisor PatchGate Receipt Graph Contract Measure Meta.
#[local] Open Scope string_scope.
#[local] Open Scope list_scope.

(** ** Text *)

(** [str::replace] of a non-empty pattern; [skip] counts bytes of a match not yet passed. *)
Fixpoint replace_from (skip : nat) (pat by_ s : string) : string :=
  match s with
  | EmptyString => ""
  | String c s' =>
    match skip with
    | S skip => replace_from skip pat by_ s'
    | O => if starts_with pat s
           then by_ +:+ replace_from (String.length pat - 1) pat by_ s'
           else String c (replace_from 0 pat by_ s')
    end
  end.
Definition str_replace : string → string → string → string := replace_from 0.

(** What comes before and after the first match ([find]), and the last one ([rfind]). *)
Fixpoint split_once (pat s : string) : option (string * string) :=
  if starts_with pat s then Some ("", str_skip (String.length pat) s)
  else match s with
  | EmptyString => None
  | String c s => '(a, b) ← split_once pat s; Some (String c a, b)
  end.
Fixpoint rsplit_once (pat s : string) : option (string * string) :=
  match s with
  | EmptyString => if starts_with pat s then Some ("", "") else None
  | String c s' =>
    match rsplit_once pat s' with
    | Some (a, b) => Some (String c a, b)
    | None => if starts_with pat s then Some ("", str_skip (String.length pat) s) else None
    end
  end.

(** The UTF-8 bytes of U+2014 and U+2013. *)
Definition em_dash : string := String (byte 226) (String (byte 128) (String (byte 148) "")).
Definition en_dash : string := String (byte 226) (String (byte 128) (String (byte 147) "")).
Definition fence : string := String (byte 96) (String (byte 96) (String (byte 96) "")).

Definition has_dash (s : string) : bool := str_contains em_dash s || str_contains en_dash s.
Definition sanitize (s : string) : string := str_replace en_dash "-" (str_replace em_dash ", " s).

(** ** Proposals *)

(** [id] is the fresh identifier's text. *)
Definition create_proposal (uuid now title description target patch : string) (k : ProposalKind)
    : ImprovementProposal :=
  {| id := "prop-" +:+ uuid; title := title; description := description; target_file := target;
     proposed_patch := patch; kind := k; created_at := now; sandbox_path := None;
     operator_signature := None |}.

Definition scanned_files : list string := ["README.md"; "docs/PHILOSOPHY.md"; "CONTRIBUTING.md"].

Fixpoint scan_files (uuid now repo_root : string) (d : disk) (l : list string)
    : option ImprovementProposal :=
  match l with
  | [] => None
  | rel :: l =>
    match d !! path_join repo_root rel with
    | Some content =>
      if valid_utf8 content && has_dash content then
        Some (create_proposal uuid now ("sanitize unslop punctuation in " +:+ rel)
                "Remove em dashes and en dashes in accordance with unslop standard"
                rel (sanitize content) UnslopSanitization)
      else scan_files uuid now repo_root d l
    | None => scan_files uuid now repo_root d l
    end
  end.
Definition scan_and_propose_unslop (uuid now repo_root : string) (d : disk)
    : option ImprovementProposal :=
  scan_files uuid now repo_root d scanned_files.

(** What is left of a text after its fence line: after the newline, or all of it. *)
Definition after_fence_line (s : string) : string :=
  match split_once line_break s with Some (_, rest) => rest | None => s end.

Definition extract_code_block (raw : string) : string :=
  let trimmed := str_trim raw in
  match split_once fence trimmed with
  | Some (_, after) =>
    let rest := after_fence_line after in
    match rsplit_once fence rest with
    | Some (code, _) => str_trim code
    | None => str_trim rest
    end
  | None =>
    if starts_with "Here" trimmed || starts_with "I " trimmed || starts_with "Sure" trimmed
       || starts_with "Let" trimmed || str_contains "thinking process:" trimmed
    then "" else trimmed
  end.

(** ** Diagnosis *)

Inductive DefectCategory :=
  | CompilationFailure | HoldoutFailure | InvariantViolation | PerformanceRegression
  | ResourceViolation | StyleViolation | SoulTensionDominance.

(** [{:?}]. *)
Definition defect_debug (d : DefectCategory) : string :=
  match d with
  | CompilationFailure => "CompilationFailure" | HoldoutFailure => "HoldoutFailure"
  | InvariantViolation => "InvariantViolation" | PerformanceRegression => "PerformanceRegression"
  | ResourceViolation => "ResourceViolation" | StyleViolation => "StyleViolation"
  | SoulTensionDominance => "SoulTensionDominance"
  end.

Record DiagnosticContext := {
  diag_cycle_id : string;
  diag_target_file : string;
  current_content : string;
  primary_defect : DefectCategory;
  diag_violations : list string;
  past_lessons : list string;
  hypothesis : option HypothesisContract
}.

Definition from_violations (cycle target content : string) (defect : DefectCategory)
    (violations lessons : list string) : DiagnosticContext :=
  {| diag_cycle_id := cycle; diag_target_file := target; current_content := content;
     primary_defect := defect; diag_violations := violations; past_lessons := lessons;
     hypothesis := None |}.

Definition with_hypothesis (h : HypothesisContract) (d : DiagnosticContext) : DiagnosticContext :=
  {| diag_cycle_id := diag_cycle_id d; diag_target_file := diag_target_file d;
     current_content := current_content d; primary_defect := primary_defect d;
     diag_violations := diag_violations d; past_lessons := past_lessons d;
     hypothesis := Some h |}.

(** The defect a failed layer stands for; a layer with another name changes nothing. *)
Definition defect_of_layer (name : string) (d : DefectCategory) : DefectCategory :=
  if bool_decide (name = "Correctness") then CompilationFailure
  else if bool_decide (name = "Security") then InvariantViolation
  else if bool_decide (name = "Style") then StyleViolation
  else if bool_decide (name = "Performance") then PerformanceRegression
  else if bool_decide (name = "ResourceEfficiency") then ResourceViolation
  else if bool_decide (name = "LongitudinalReplay") then HoldoutFailure
  else d.

Definition diagnose_layer (acc : DefectCategory * list string) (l : LayerResult)
    : DefectCategory * list string :=
  if passed l then acc
  else (defect_of_layer (layer_name l) acc.1,
        acc.2 ++ ((λ v, "[" +:+ layer_name l +:+ "] " +:+ v) <$> violations l)).

Definition from_receipt (cycle : string) (r : EvaluationReceipt) (target content : string)
    (lessons : list string) : DiagnosticContext :=
  let '(defect, vs) := foldl diagnose_layer (HoldoutFailure, []) (layer_results r) in
  let vs := if bool_decide (vs = []) && negb (admitted r)
            then ["Evaluator rejected candidate without explicit layer violations."] else vs in
  from_violations cycle target content defect vs lessons.

Definition bullet (mark s : string) : string := mark +:+ s +:+ line_break.

(** The user's part of the prompts; the system's part is a constant text. *)
Definition user_prompt (d : DiagnosticContext) : string :=
  concat_all ["TARGET FILE: "; diag_target_file d; line_break; "PRIMARY DEFECT: ";
              defect_debug (primary_defect d); line_break; line_break;
              "DIAGNOSTIC VIOLATIONS DETECTED BY EVALUATOR:"; line_break]
  +:+ (match diag_violations d with
       | [] => "- No explicit violations recorded; optimize code for robustness and efficiency."
               +:+ line_break
       | vs => concat_all (bullet "- " <$> vs)
       end)
  +:+ (match hypothesis d with
       | Some h => line_break +:+ format_prompt_directive h +:+ line_break
       | None => ""
       end)
  +:+ (match past_lessons d with
       | [] => ""
       | ls => line_break +:+ "CANONICAL LESSONS FROM SPARK CORTEX (ATLAS-MEMORY):" +:+ line_break
               +:+ concat_all (bullet "* " <$> ls)
       end)
  +:+ concat_all [line_break; "CURRENT FILE CONTENT:"; line_break; fence; line_break;
                  current_content d; line_break; fence; line_break; line_break;
                  "Generate the updated file resolving the above defects:"].

(** ** The model's reply *)

Record ReplyMessage := {
  content : option string;
  reasoning : option string;
  reasoning_content : option string
}.

(** The block fenced inside a reasoning text, when it is not empty. *)
Definition reasoning_block (text : string) : option string :=
  '(_, after) ← split_once fence text;
  '(code, _) ← rsplit_once fence (after_fence_line after);
  let block := str_trim code in
  if bool_decide (block = "") then None
  else Some (concat_all [fence; "rust"; line_break; block; line_break; fence]).

(** The end of [complete]: the choices of an answer that was received and parsed. *)
Definition reply_text (choices : list ReplyMessage) : result string :=
  match choices with
  | [] => fail "Model seat response returned an empty choices array" []
  | m :: _ =>
    let content := str_trim (default "" (content m)) in
    if negb (bool_decide (content = "")) then Ok content
    else match omap (λ r, r ≫= reasoning_block) [reasoning m; reasoning_content m] with
    | block :: _ => Ok block
    | [] => fail "Model seat assistant message did not emit code output (exhausted in reasoning)" []
    end
  end.

(** [completion] is what [complete] returned for the prompts. *)
Definition propose_from_diagnosis (uuid now : string) (completion : result string)
    (d : DiagnosticContext) : result ImprovementProposal :=
  match completion with
  | Err e => fail "Model seat diagnosis proposal generation failed: {}" [render e]
  | Ok raw =>
    let cleaned := extract_code_block raw in
    let title := concat_all ["resolve "; defect_debug (primary_defect d); " in "; diag_target_file d] in
    if bool_decide (cleaned = "") then fail "Model seat generated an empty patch" []
    else if has_dash cleaned then
      Ok (create_proposal uuid now title
            ("Automated model seat repair with unslop sanitization for cycle " +:+ diag_cycle_id d)
            (diag_target_file d) (sanitize cleaned) InvariantFix)
    else
      Ok (create_proposal uuid now title
            ("Automated model seat repair for cycle " +:+ diag_cycle_id d)
            (diag_target_file d) cleaned InvariantFix)
  end.

(** ** The sandbox *)

(** The entries a copy passes by; a name that is not UTF-8 is compared as the empty text. *)
Definition hidden (file_name : string) : bool :=
  let name := if valid_utf8 file_name then file_name else "" in
  bool_decide (name = "target") || bool_decide (name = ".git") || starts_with "." name.

(** A path below the root whose entries are all copied: a directory entered at a depth of more
    than 8 is left out with what it holds. *)
Definition copied_file (rel : string) : bool :=
  let parts := split_on slash rel in
  forallb (λ p, negb (hidden p)) parts && (length parts <=? 9)%nat.
Definition copied_dir (rel : string) : bool :=
  let parts := split_on slash rel in
  forallb (λ p, negb (hidden p)) parts && (length parts <=? 8)%nat.

(** The path lies below [dir] and its rest has a property. *)
Definition below (dir : string) (p : string → bool) (path : string) : bool :=
  match RustStd.strip_prefix (dir +:+ "/") path with Some rel => p rel | None => false end.

(** How the copy of one entry ends: a file may arrive cut off, and an entry that cannot be read
    or written is passed over. *)
Inductive copy_fate := Copied | CopyTorn (k : nat) | NotCopied.

(** What the system calls of a staging do: which entries of an old sandbox a removal deletes, by
    path; whether the sandbox could be made; how the copy of each entry ends and at which error a
    directory stops it; and after how many bytes the write of the patch fails, if it does. *)
Record StageFates := {
  gone : string → bool;
  sandbox_made : result unit;
  copy_of : string → copy_fate;
  copy_stops : option error;
  patch_torn : option nat
}.

(** No call fails. *)
Definition all_done : StageFates :=
  {| gone := λ _, true; sandbox_made := Ok tt; copy_of := λ _, Copied; copy_stops := None;
     patch_torn := None |}.

Definition copied_bytes (f : copy_fate) (data : string) : option string :=
  match f with
  | Copied => Some data
  | CopyTorn k => Some (String.substring 0 k data)
  | NotCopied => None
  end.
Definition entered (f : copy_fate) : bool := match f with NotCopied => false | _ => true end.

(** [fs::remove_dir_all] whose failure is ignored. *)
Definition remove_what_goes (f : StageFates) (dir : string) (fs : Fs) : Fs :=
  let stays (q : string) := negb (under dir q && gone f q) in
  {| files := filter (λ kv : string * string, stays kv.1 = true) (files fs);
     dirs := filter (λ d, stays d = true) (dirs fs);
     links := filter (λ kv : string * string, stays kv.1 = true) (links fs) |}.

(** [copy_dir_recursive(src, dst, 0)]: an error of a directory ends it, one of a file does not. *)
Definition copy_dir_recursive (f : StageFates) (src dst : string) : M Fs unit := λ fs,
  if negb (bool_decide (src ∈ dirs fs)) then (create_dir dst fs, fail "Failed to read dir {:?}: {}" [src])
  else
    let arrives (path data : string) :=
      if below src copied_file path then copied_bytes (copy_of f path) data else None in
    let made := filter (λ d, below src copied_dir d && entered (copy_of f d) = true) (dirs fs) in
    ({| files := list_to_map (omap (λ kv : string * string, (., kv.2) <$> relocate src dst kv.1)
                                   (map_to_list (map_imap arrives (files fs)))) ∪ files fs;
        dirs := {[dst]} ∪ list_to_set (omap (relocate src dst) (elements made)) ∪ dirs fs;
        links := links fs |},
     match copy_stops f with Some e => Err e | None => Ok tt end).

(** The entry a path names: separators and [.] fall away and [..] steps back. *)
Definition lexical (path : string) : string :=
  match resolve path [] (split_on slash path) with
  | Ok parts => (if has_root path then "/" else "") +:+ join_with slash parts
  | Err _ => path
  end.

(** The ancestors [create_dir_all] makes. *)
Definition create_dir_all (p : string) (fs : Fs) : Fs := create_dir (lexical p) fs.

Definition write_file (torn : option nat) (p data : string) : M Fs unit := λ fs,
  let put c := {| files := <[p := c]> (files fs); dirs := dirs fs; links := links fs |} in
  if bool_decide (p ∈ dirs fs) then (fs, fail "Failed to write proposed patch in sandbox: {}" [p])
  else match torn with
  | Some k => (put (String.substring 0 k data), fail "Failed to write proposed patch in sandbox: {}" [p])
  | None => (put data, Ok tt)
  end.

Definition with_sandbox (dir : string) (p : ImprovementProposal) : ImprovementProposal :=
  {| id := id p; title := title p; description := description p; target_file := target_file p;
     proposed_patch := proposed_patch p; kind := kind p; created_at := created_at p;
     sandbox_path := Some dir; operator_signature := operator_signature p |}.

(** The directory of the sandbox and the proposal that names it. *)
Definition stage_in_sandbox (f : StageFates) (p : ImprovementProposal) (repo_root sandbox_base : string)
    : M Fs (string * ImprovementProposal) := λ fs,
  let dir := path_join sandbox_base (id p) in
  let fs := if exists_path fs dir then remove_what_goes f dir fs else fs in
  match sandbox_made f with
  | Err e => (fs, fail "Failed to create sandbox dir: {}" [render e])
  | Ok _ =>
    let fs := create_dir_all dir fs in
    match copy_dir_recursive f repo_root dir fs with
    | (fs, Err e) => (fs, Err e)
    | (fs, Ok _) =>
      let target := path_join dir (target_file p) in
      let fs := match path_parent target with Some parent => create_dir_all parent fs | None => fs end in
      match write_file (patch_torn f) (lexical target) (proposed_patch p) fs with
      | (fs, Err e) => (fs, Err e)
      | (fs, Ok _) => (fs, Ok (dir, with_sandbox dir p))
      end
    end
  end.
