(* ===== verification/ProposeProps.v ===== *)
(** What proposals and sandboxes guarantee: no proposal the generator makes holds a dash it may not
    hold, and what a sandbox holds whatever the file system does: the repository with the one file
    replaced when every call succeeds. *)

From S2P Require Import Prelude RustStd RustPath RustNum Supervisor SupervisorProps PatchGate Receipt Contract Measure Meta Propose.
#[local] Open Scope string_scope.
#[local] Open Scope list_scope.

(** ** Replacing text *)

Lemma starts_with_nil s : starts_with "" s = true.
Proof. by destruct s. Qed.

(** A text that starts with a byte the pattern does not hold. *)
Definition foreign (by_ q : string) : Prop :=
  ∃ b t, by_ = String b t ∧ contains_byte b q = false.

(** A match of [q] in the result begins where the original has one. *)
Lemma replaced_starts by_ pat q s : foreign by_ q →
  starts_with q (replace_from 0 pat by_ s) = true → starts_with q s = true.
Proof.
  intros (b & t & -> & Hb). revert q Hb. induction s as [|c s IH]; intros q Hb Hq; [done|].
  destruct q as [|d q]; [apply starts_with_nil|].
  cbn [contains_byte] in Hb. apply orb_false_iff in Hb as [Hd Hb]. revert Hq. cbn [replace_from].
  destruct (starts_with pat (String c s)).
  - change (String b t +:+ ?r) with (String b (t +:+ r)). rewrite starts_with_cons.
    intros [Hx _]%andb_prop. apply bool_decide_eq_true in Hx. subst d.
    apply bool_decide_eq_false in Hd. done.
  - rewrite !starts_with_cons. intros [Hx Hq]%andb_prop. rewrite Hx. cbn. by apply IH.
Qed.

Lemma replace_skip k pat by_ s : replace_from k pat by_ s = replace_from 0 pat by_ (str_skip k s).
Proof. revert s. induction k as [|k IH]; intros [|c s]; try done. cbn [replace_from str_skip]. apply IH. Qed.

Lemma contains_skip q k s : str_contains q (str_skip k s) = true → str_contains q s = true.
Proof.
  revert s. induction k as [|k IH]; intros [|c s]; try done. cbn [str_skip]. intros Hq%IH.
  cbn [str_contains]. by rewrite Hq, orb_true_r.
Qed.

Lemma skip_length k s : (String.length (str_skip k s) <= String.length s)%nat.
Proof. revert s. induction k as [|k IH]; intros [|c s]; cbn; try lia. specialize (IH s). lia. Qed.

(** What stands for a match does not begin the pattern [q]. *)
Definition never_begins (by_ q : string) : Prop :=
  ∃ d q', q = String d q' ∧ contains_byte d by_ = false.

Lemma contains_after by_ q r : never_begins by_ q →
  str_contains q (by_ +:+ r) = true → str_contains q r = true.
Proof.
  intros (d & q' & -> & Hd). induction by_ as [|b by_ IH]; [done|].
  cbn [contains_byte] in Hd. apply orb_false_iff in Hd as [Hb Hd].
  change (String b by_ +:+ r) with (String b (by_ +:+ r)). cbn [str_contains].
  rewrite starts_with_cons. apply bool_decide_eq_false in Hb.
  rewrite bool_decide_false by congruence. cbn. by apply IH.
Qed.

(** A replacement brings no match of a pattern foreign to it that was not there. *)
Lemma replace_keeps by_ pat q s : foreign by_ q → never_begins by_ q →
  str_contains q (str_replace pat by_ s) = true → str_contains q s = true.
Proof.
  intros Hf Hn. unfold str_replace.
  assert (∀ n s, (String.length s <= n)%nat →
    str_contains q (replace_from 0 pat by_ s) = true → str_contains q s = true) as H; [|by apply (H (String.length s))].
  clear s. induction n as [|n IH]; intros [|c s] Hl Hq; cbn [String.length] in Hl; try done; [lia|].
  cbn [str_contains]. apply orb_true_iff.
  destruct (starts_with pat (String c s)) eqn:E; cbn [replace_from] in Hq; rewrite E in Hq.
  - right. apply contains_after in Hq; [|done]. rewrite replace_skip in Hq.
    apply IH in Hq; [by apply contains_skip in Hq|].
    pose proof (skip_length (String.length pat - 1) s). lia.
  - cbn [str_contains] in Hq. apply orb_true_iff in Hq as [Hq|Hq].
    + left. apply (replaced_starts by_ pat); [done|]. cbn [replace_from]. by rewrite E.
    + right. apply IH in Hq; [done|lia].
Qed.

(** A replaced pattern does not come back. *)
Lemma replace_removes by_ pat s : foreign by_ pat → never_begins by_ pat →
  str_contains pat (str_replace pat by_ s) = false.
Proof.
  intros Hf Hn. apply not_true_iff_false. unfold str_replace.
  assert (∀ n s, (String.length s <= n)%nat → str_contains pat (replace_from 0 pat by_ s) ≠ true)
    as H; [|by apply (H (String.length s))].
  clear s. induction n as [|n IH]; intros [|c s] Hl Hq; cbn [String.length] in Hl; try lia.
  1,2: by destruct Hn as (d & q' & -> & _).
  destruct (starts_with pat (String c s)) eqn:E; cbn [replace_from] in Hq; rewrite E in Hq.
  - apply contains_after in Hq; [|done]. rewrite replace_skip in Hq. revert Hq. apply IH.
    pose proof (skip_length (String.length pat - 1) s). lia.
  - cbn [str_contains] in Hq. apply orb_true_iff in Hq as [Hq|Hq].
    + rewrite (replaced_starts by_ pat pat (String c s) Hf) in E; [done|]. cbn [replace_from]. by rewrite E.
    + revert Hq. apply IH. lia.
Qed.

Lemma sanitize_clean s : has_dash (sanitize s) = false.
Proof.
  unfold has_dash, sanitize. apply orb_false_iff. split.
  - destruct (str_contains em_dash _) eqn:E; [|done].
    apply replace_keeps in E; [|by do 2 eexists|by do 2 eexists].
    rewrite replace_removes in E; [done|by do 2 eexists|by do 2 eexists].
  - apply replace_removes; by do 2 eexists.
Qed.

(** no proposal carries a dash the style forbids: what the scan or a model's reply leads to
    holds neither U+2014 nor U+2013. *)
Theorem proposals_sanitized uuid now repo_root d completion diag p :
  scan_and_propose_unslop uuid now repo_root d = Some p
  ∨ propose_from_diagnosis uuid now completion diag = Ok p →
  has_dash (proposed_patch p) = false.
Proof.
  intros [Hp|Hp].
  - unfold scan_and_propose_unslop in Hp. induction scanned_files as [|rel l IH]; [done|].
    cbn [scan_files] in Hp. destruct (d !! _) as [c|]; [|by apply IH].
    destruct (valid_utf8 c && has_dash c); [|by apply IH]. injection Hp as <-. apply sanitize_clean.
  - unfold propose_from_diagnosis in Hp. destruct completion as [raw|e]; [|done].
    case_bool_decide; [done|]. destruct (has_dash (extract_code_block raw)) eqn:E; injection Hp as <-;
      [apply sanitize_clean|done].
Qed.

(** The code of a reply, and a reply with two blocks: what stands between them is taken along. *)
Example one_block :
  extract_code_block (concat_all ["Sure:"; line_break; fence; "rust"; line_break; "fn f() {}"; line_break; fence; " done"])
  = "fn f() {}".
Proof. vm_compute. reflexivity. Qed.
Example two_blocks_run_together :
  extract_code_block (concat_all [fence; line_break; "a"; line_break; fence; " or "; fence; line_break; "b"; line_break; fence])
  = concat_all ["a"; line_break; fence; " or "; fence; line_break; "b"].
Proof. vm_compute. reflexivity. Qed.

(** ** The sandbox *)

(** A path the copy reaches: no component is [target] or begins with a dot - unless it is not
    UTF-8 -, and it is at most nine components deep. *)
Definition visible (rel : string) : Prop :=
  Forall (λ c, valid_utf8 c = true → c ≠ "target" ∧ ∀ t, c ≠ "." +:+ t) (split_on slash rel)
  ∧ (length (split_on slash rel) <= 9)%nat.

Lemma hidden_iff c : hidden c = false ↔ (valid_utf8 c = true → c ≠ "target" ∧ ∀ t, c ≠ "." +:+ t).
Proof.
  unfold hidden. cbv zeta. destruct (valid_utf8 c); [|by split].
  rewrite !orb_false_iff, !bool_decide_eq_false, <- not_true_iff_false, starts_with_iff. split.
  - intros [[Ht _] Hn] _. split; [done|]. intros t ->. apply Hn. by exists t.
  - intros [Ht Hn]; [done|]. split_and!; [done| |by intros [t ->]; destruct (Hn t)].
    intros ->. by destruct (Hn "git").
Qed.

Lemma copied_visible rel : copied_file rel = true ↔ visible rel.
Proof.
  unfold copied_file, visible. cbv zeta. rewrite andb_true_iff, Nat.leb_le, forallb_forall, Forall_forall.
  setoid_rewrite list_elem_of_In. setoid_rewrite negb_true_iff. by setoid_rewrite hidden_iff.
Qed.

(** What an old sandbox leaves at a path below the new one. *)
Definition left_over (f : StageFates) (fs : Fs) (q : string) : option string :=
  if gone f q then None else files fs !! q.

Lemma arrives_lookup f src (m : gmap string string) rel :
  map_imap (λ path data, if below src copied_file path then copied_bytes (copy_of f path) data else None) m
    !! child src rel
  = if copied_file rel then m !! child src rel ≫= copied_bytes (copy_of f (child src rel)) else None.
Proof.
  rewrite map_lookup_imap. unfold below. rewrite (proj2 (child_strip src rel _) eq_refl).
  destruct (copied_file rel); [done|]. by destruct (m !! _).
Qed.

Lemma goes_inside f fs dir rel :
  files (remove_what_goes f dir fs) !! child dir rel = left_over f fs (child dir rel).
Proof.
  unfold left_over. cbn. pose proof (under_child dir rel) as Hu. destruct (gone f (child dir rel)) eqn:Hg.
  - apply map_lookup_filter_None_2. right. cbn. intros ? _. by rewrite Hu, Hg.
  - destruct (files fs !! child dir rel) eqn:Hf.
    + apply map_lookup_filter_Some_2; [done|]. cbn. by rewrite Hu, Hg.
    + apply map_lookup_filter_None_2. by left.
Qed.

Lemma goes_outside f fs dir q : under dir q = false →
  files (remove_what_goes f dir fs) !! q = files fs !! q.
Proof.
  intros Hq. cbn. destruct (files fs !! q) eqn:Hf.
  - apply map_lookup_filter_Some_2; [done|]. cbn. by rewrite Hq.
  - apply map_lookup_filter_None_2. by left.
Qed.

(** The files of a sandbox that was staged. *)
Lemma staged_files f p repo_root sandbox_base fs fs' dir p' rel0 :
  stage_in_sandbox f p repo_root sandbox_base fs = (fs', Ok (dir, p')) →
  lexical (path_join dir (target_file p)) = child dir rel0 →
  under dir repo_root = false → under repo_root dir = false → fs_connected fs dir →
  sandbox_path p' = Some dir
  ∧ (∀ rel, files fs' !! child dir rel
       = if bool_decide (rel = rel0) then Some (proposed_patch p)
         else match (if copied_file rel
                     then files fs !! child repo_root rel ≫= copied_bytes (copy_of f (child repo_root rel))
                     else None) with
              | Some b => Some b
              | None => left_over f fs (child dir rel)
              end)
  ∧ (∀ q, under dir q = false → files fs' !! q = files fs !! q).
Proof.
  unfold stage_in_sandbox. set (dir0 := path_join sandbox_base (id p)).
  set (fs1 := if exists_path fs dir0 then _ else _). destruct (sandbox_made f); [|done].
  unfold copy_dir_recursive. destruct (negb _); [done|]. set (fs2 := Build_Fs _ _ _).
  destruct (copy_stops f); [done|]. set (fs3 := match path_parent _ with Some _ => _ | None => _ end).
  unfold write_file. case_bool_decide; [done|]. destruct (patch_torn f); [done|].
  intros [= <- <- <-] Hlex Hsep Hsep' Hconn. split; [done|]. cbn [files]. rewrite Hlex.
  assert (files fs3 = files fs2) as Hf3 by (unfold fs3; by destruct (path_parent _)). rewrite Hf3. clear Hf3 fs3 H Hlex.
  assert (∀ q, under dir0 q = false → files fs1 !! q = files fs !! q) as Hout.
  { intros q Hq. unfold fs1. destruct (exists_path fs dir0); [|done]. by apply goes_outside. }
  assert (∀ rel, files fs1 !! child dir0 rel = left_over f fs (child dir0 rel)) as Hin.
  { intros rel. unfold fs1. destruct (exists_path fs dir0) eqn:Hex; [apply goes_inside|].
    unfold left_over. destruct (files fs !! _) eqn:Hf; [|by destruct (gone f _)].
    apply Hconn in Hf. unfold exists_path, present in Hex. by rewrite bool_decide_true in Hex. }
  assert (∀ rel, under dir0 (child repo_root rel) = false) as Hsrc.
  { intros rel. destruct (under dir0 (child repo_root rel)) eqn:Hu; [|done]. exfalso.
    apply under_spec in Hu as [Heq|(rel' & Heq)].
    - assert (under repo_root dir0 = true) by (apply under_spec; eauto). congruence.
    - destruct (prefixes_nested _ _ _ _ Heq); congruence. }
  split.
  - intros rel. case_bool_decide as Hr; [subst; by rewrite lookup_insert_eq|].
    rewrite lookup_insert_ne by (intros Heq%child_inj; congruence). unfold fs2. cbn [files].
    rewrite lookup_union, copied_lookup, arrives_lookup.
    change (files (create_dir_all dir0 fs1)) with (files fs1). rewrite Hin, Hout by apply Hsrc.
    destruct (if copied_file rel then _ else None); by destruct (left_over _ _ _).
  - intros q Hq. rewrite lookup_insert_ne by (intros <-; by rewrite under_child in Hq).
    unfold fs2. cbn [files]. rewrite lookup_union, copied_lookup_outside by done.
    change (files (create_dir_all dir0 fs1)) with (files fs1). rewrite Hout by done. by destruct (files fs !! q).
Qed.

(** C19: what a sandbox that was staged holds, whatever calls failed on the way unnoticed. Below
    its directory the target holds the proposed text. Every other visible file of the repository
    is there, whole or cut off as its copy ended; where it was not copied, and at every path the
    repository has no visible file, is what the removal left of an old sandbox of that name. When
    the removal and every copy succeeded, the sandbox is the repository's visible files with the
    one replaced and nothing else. What lies elsewhere is untouched. *)
Theorem sandbox_exact f p repo_root sandbox_base fs fs' dir p' rel0 :
  stage_in_sandbox f p repo_root sandbox_base fs = (fs', Ok (dir, p')) →
  lexical (path_join dir (target_file p)) = child dir rel0 →
  under dir repo_root = false → under repo_root dir = false → fs_connected fs dir →
  sandbox_path p' = Some dir
  ∧ files fs' !! child dir rel0 = Some (proposed_patch p)
  ∧ (∀ rel data, rel ≠ rel0 → visible rel → files fs !! child repo_root rel = Some data →
       files fs' !! child dir rel
       = match copy_of f (child repo_root rel) with
         | Copied => Some data
         | CopyTorn k => Some (String.substring 0 k data)
         | NotCopied => left_over f fs (child dir rel)
         end)
  ∧ (∀ rel, rel ≠ rel0 → ¬ visible rel ∨ files fs !! child repo_root rel = None →
       files fs' !! child dir rel = left_over f fs (child dir rel))
  ∧ ((∀ q, under dir q = true → gone f q = true) → (∀ q, copy_of f q = Copied) →
     ∀ rel b, rel ≠ rel0 →
       files fs' !! child dir rel = Some b ↔ visible rel ∧ files fs !! child repo_root rel = Some b)
  ∧ (∀ q, under dir q = false → files fs' !! q = files fs !! q).
Proof.
  intros Hs Hl Hu Hu' Hc. destruct (staged_files _ _ _ _ _ _ _ _ _ Hs Hl Hu Hu' Hc) as (Hp & Hin & Hout).
  assert (∀ rel, visible rel → copied_file rel = true) as Hvis by (intros rel; apply copied_visible).
  assert (∀ rel, ¬ visible rel → copied_file rel = false) as Hinv.
  { intros rel Hn. apply not_true_iff_false. by rewrite copied_visible. }
  split_and!; try done.
  - by rewrite Hin, bool_decide_true.
  - intros rel data Hne Hv Hd. rewrite Hin, bool_decide_false, Hvis, Hd by done. cbn [mbind option_bind].
    by destruct (copy_of f _).
  - intros rel Hne Hn. rewrite Hin, bool_decide_false by done. destruct Hn as [Hn|Hn].
    + by rewrite Hinv.
    + rewrite Hn. by destruct (copied_file rel).
  - intros Hg Hcp rel b Hne. rewrite Hin, bool_decide_false, <- copied_visible by done.
    unfold left_over. rewrite Hg, Hcp by apply under_child.
    destruct (copied_file rel); [|naive_solver]. destruct (files fs !! child repo_root rel); naive_solver.
Qed.

(** ** Examples *)

Module SandboxExample.
Definition repo : Fs :=
  {| files := {["/r/src/a.rs" := "old"; "/r/b" := "kept"; "/r/.git/c" := "git"; "/s/other" := "o"]};
     dirs := {["/r"; "/r/src"; "/r/.git"; "/s"]}; links := ∅ |}.
Definition prop : ImprovementProposal :=
  create_proposal "1" "t" "title" "d" "src/./a.rs" "new" Optimization.
Definition staged : Fs * result (string * ImprovementProposal) := stage_in_sandbox all_done prop "/r" "/s" repo.

(** An old sandbox of the same name that cannot be removed, and a repository file that cannot be
    read. *)
Definition used : Fs :=
  {| files := <["/s/prop-1/stale" := "left"]> (files repo);
     dirs := {["/s/prop-1"]} ∪ dirs repo; links := ∅ |}.
Definition unlucky : StageFates :=
  {| gone := λ _, false; sandbox_made := Ok tt;
     copy_of := λ q, if bool_decide (q = "/r/b") then NotCopied else Copied; copy_stops := None;
     patch_torn := None |}.
End SandboxExample.

Section Examples.
Import SandboxExample.

Lemma proposals_sanitized_witness :
  let d : disk := {["/r/README.md" := "a" +:+ em_dash +:+ "b"]} in
  ∃ p, scan_and_propose_unslop "1" "t" "/r" d = Some p ∧ proposed_patch p = "a, b"
       ∧ has_dash (proposed_patch p) = false.
Proof.
  eexists. split; [vm_compute; reflexivity|]. split; [reflexivity|].
  apply (proposals_sanitized "1" "t" "/r" {["/r/README.md" := "a" +:+ em_dash +:+ "b"]} (fail "" [])
    (from_violations "" "" "" StyleViolation [] [])).
  left. vm_compute. reflexivity.
Defined.

Lemma sandbox_exact_witness :
  staged = (staged.1, Ok ("/s/prop-1", with_sandbox "/s/prop-1" prop))
  ∧ files staged.1 !! "/s/prop-1/src/a.rs" = Some "new"
  ∧ files staged.1 !! "/s/prop-1/b" = Some "kept"
  ∧ files staged.1 !! "/s/prop-1/.git/c" = None
  ∧ files staged.1 !! "/s/other" = Some "o".
Proof.
  assert (staged = (staged.1, Ok ("/s/prop-1", with_sandbox "/s/prop-1" prop))) as H.
  { vm_compute. reflexivity. }
  split; [exact H|].
  destruct (sandbox_exact all_done prop "/r" "/s" repo staged.1 "/s/prop-1" (with_sandbox "/s/prop-1" prop)
    "src/a.rs" H) as (_ & Htgt & Hin & Hno & _ & Hout); [reflexivity|reflexivity|reflexivity| |].
  { intros rel c Hc. exfalso. revert Hc. unfold repo. cbn [files].
    rewrite !lookup_insert_ne by (intros [=]). rewrite lookup_singleton_ne by (intros [=]). done. }
  split_and!; [exact Htgt| | |exact (Hout "/s/other" eq_refl)].
  - refine (Hin "b" "kept" _ _ eq_refl); [done|]. apply copied_visible. vm_compute. reflexivity.
  - refine (Hno ".git/c" _ _); [done|]. left. rewrite <- copied_visible. vm_compute. discriminate.
Defined.

(** A staging answers that it succeeded although the old sandbox is still there and a file of
    the repository is not. *)
Lemma failed_staging_unnoticed :
  let out := stage_in_sandbox unlucky prop "/r" "/s" used in
  is_ok out.2 = true ∧ files out.1 !! "/s/prop-1/stale" = Some "left"
  ∧ files used !! "/r/b" = Some "kept" ∧ files out.1 !! "/s/prop-1/b" = None.
Proof. vm_compute. done. Qed.
End Examples.
