(* ===== verification/Telemetry.v ===== *)
(** Observation ([src/observe.rs]): the snapshot of a repository a cycle starts from.
    What git and cargo answer, the home directory and the clock are inputs. *)
From S2P Require Import Prelude RustStd RustPath RustNum RustFloat Supervisor Meta Propose Verifier.
#[local] Open Scope string_scope.
#[local] Open Scope list_scope.

Definition DRIVE_TERMS : list string :=
  ["curious"; "curiosity"; "build"; "fix"; "finish"; "ambitious"; "ambition"; "forge"; "explore";
   "discover"; "improve"; "solve"; "create"; "learn"; "question"; "truth"; "measure"; "verify";
   "optimize"; "accelerate"].
Definition HUMANITY_TERMS : list string :=
  ["love"; "grief"; "honor"; "family"; "community"; "warmth"; "care"; "kindness"; "patience";
   "humility"; "listen"; "commitment"; "promise"; "free"; "freedom"; "ethics"; "discipline";
   "restraint"; "sovereignty"].

Record SoulTension := {
  drive_score : f64;
  humanity_score : f64;
  drive_terms_matched : list string;
  humanity_terms_matched : list string;
  tension_ratio : f64;
  tension_state : string
}.

Record TelemetrySnapshot := {
  repo_path : string;
  git_branch : string;
  git_clean : bool;
  uncommitted_files : list string;
  crumbs_detected : N;
  tests_passing : bool;
  soul_tension : SoulTension;
  snapshot_timestamp : string
}.

(** The comparisons with 0.0, 2.0 and 0.5 and the words for them. *)
Definition ratio_of (drive humanity : f64) : f64 :=
  if f64_gt humanity (f64_of_N 0) then f64_div drive humanity
  else if f64_gt drive (f64_of_N 0) then f64_of_N 999 else f64_of_N 0.

Definition state_of (drive humanity ratio : f64) : string :=
  if is_zero drive && is_zero humanity then "Dormant"
  else if is_zero humanity || f64_gt ratio (f64_of_N 2) then "DriveDominant"
  else if is_zero drive || f64_lt ratio (f64_lit 5 1) then "HumanityDominant"
  else "Balanced".

(** The entries of a path are not directories the count passes by. *)
Definition crumb_dirs (parts : list string) : bool :=
  forallb (λ p, negb (starts_with "." (scan_name p)) && negb (bool_decide (scan_name p = "target"))) parts.
Definition is_crumb (rel : string) : bool :=
  let parts := split_on slash rel in
  crumb_dirs (removelast parts)
  && match last parts with
     | Some name => bool_decide (name = ".crumb") || bool_decide (name = ".crumb.local")
     | None => false
     end.

Definition count_crumbs_recursive (root : string) (fs : Fs) : N :=
  if bool_decide (root ∈ dirs fs) then
    N.of_nat (length (List.filter (λ kv : string * string, below root is_crumb kv.1)
                        (map_to_list (files fs))))
  else 0.

(** The text of the documents that exist and are text, a space after each. *)
Definition soul_sources (repo_dir home : string) : list string :=
  [path_join repo_dir "soul.md"; path_join (path_join repo_dir "docs") "PHILOSOPHY.md";
   path_join repo_dir "README.md"; path_join home "atlas-prime-workspace/soul.md"].
Definition corpus (repo_dir home : string) (fs : Fs) : string :=
  concat_all ((λ p, match files fs !! p with
                    | Some content => if valid_utf8 content then content +:+ " " else ""
                    | None => ""
                    end) <$> soul_sources repo_dir home).

(** The output of a command that ran, or nothing. *)
Record Observed := {
  rev_parse : option string;
  git_status : option string;
  home_dir : string;
  cargo_check_ok : bool;
  observed_at : string
}.

Section Observe.
Context `{Unicode}.

Definition scan_terms (text : string) (terms : list string) : list string := phrases terms text.

Definition calculate_soul_tension (text : string) : SoulTension :=
  let drive_matched := scan_terms text DRIVE_TERMS in
  let humanity_matched := scan_terms text HUMANITY_TERMS in
  let d := f64_of_N (N.of_nat (length drive_matched)) in
  let h := f64_of_N (N.of_nat (length humanity_matched)) in
  let ratio := ratio_of d h in
  {| drive_score := d; humanity_score := h; drive_terms_matched := drive_matched;
     humanity_terms_matched := humanity_matched; tension_ratio := ratio;
     tension_state := state_of d h ratio |}.

(** Observing never fails. *)
Definition observe_codebase (repo_dir : string) (o : Observed) (fs : Fs) : TelemetrySnapshot :=
  let '(clean, uncommitted) :=
    match git_status o with
    | Some out =>
      let l := List.filter (λ l, negb (trim_is_empty l)) (str_lines (from_utf8_lossy out)) in
      (bool_decide (l = []), l)
    | None => (false, ["failed to run git status"])
    end in
  {| repo_path := from_utf8_lossy repo_dir;
     git_branch := match rev_parse o with
                   | Some out => str_trim (from_utf8_lossy out) | None => "unknown" end;
     git_clean := clean; uncommitted_files := uncommitted;
     crumbs_detected := count_crumbs_recursive repo_dir fs;
     tests_passing := cargo_check_ok o;
     soul_tension := calculate_soul_tension (corpus repo_dir (home_dir o) fs);
     snapshot_timestamp := observed_at o |}.
End Observe.
