(* ===== verification/Ratify.v ===== *)
(** Ratification ([src/ratify.rs], the branch creation of [src/diff_gate.rs]): an admitted proposal
    becomes a review branch and a patch file, after every check on the real diff.

    The repository is its references; what git answers - the candidate commit with its diff, the
    default branches, the reference check, the mail-formatted patch - and the memory service are
    inputs. *)

From S2P Require Import Prelude RustStd RustPath PatchGate Measure Meta.
#[local] Open Scope string_scope.
#[local] Open Scope list_scope.

Record Repo := { refs : gmap string string; patches : disk }.

(** A candidate commit built off to the side, with its real diff. *)
Record StagedCandidate := { entries : list ChangedEntry; patch_text : string; commit : string }.

Record RatificationRecord := {
  rat_proposal_id : string;
  commit_hash : option string;
  branch : option string;
  patch_path : option string;
  author : string;
  cortex_receipt_id : option string;
  cortex_recorded : bool;
  rat_timestamp : string;
  status : string;
  message : string
}.

Record RatifyInput := {
  rat_now : string;
  rat_author : string;
  staged_commit : string → string → result StagedCandidate;
  default_branches : list string;
  ref_format : result unit;
  update_ref : result unit;
  formatted : result string;
  patch_dir_made : result unit;
  patch_written : result unit;
  lesson : option string
}.

Definition mail_patch (patch : string) : string := patch +:+ String lf "".

(** [create_review_branch]: the reference must not exist yet. *)
Definition create_review_branch (i : RatifyInput) (branch commit : string) : M Repo unit := λ r,
  let short := trim_start_matches "refs/heads/" branch in
  if bool_decide (short ∈ default_branches i) then
    (r, fail "refusing to write default branch {:?}" [short])
  else
    let full := "refs/heads/" +:+ short in
    match ref_format i with
    | Err e => (r, Err e)
    | Ok _ =>
      if bool_decide (is_Some (refs r !! full)) then (r, fail "create review branch" [])
      else match update_ref i with
      | Err e => (r, Err e)
      | Ok _ => ({| refs := <[full := commit]> (refs r); patches := patches r |}, Ok tt)
      end
    end.

Definition write_patch (i : RatifyInput) (p text : string) : M Repo unit := λ r,
  match patch_written i with
  | Err e => (r, fail "Failed to write patch {:?}: {}" [p; render e])
  | Ok _ => ({| refs := refs r; patches := <[p := mail_patch text]> (patches r) |}, Ok tt)
  end.

Definition rejected_record (i : RatifyInput) (p : ImprovementProposal) (why : string)
    : RatificationRecord :=
  {| rat_proposal_id := id p; commit_hash := None; branch := None; patch_path := None;
     author := rat_author i; cortex_receipt_id := None; cortex_recorded := false;
     rat_timestamp := rat_now i; status := "Rejected"; message := why |}.

Definition proposed_record (i : RatifyInput) (p : ImprovementProposal) (commit branch path : string)
    : RatificationRecord :=
  {| rat_proposal_id := id p; commit_hash := Some commit; branch := Some branch;
     patch_path := Some path; author := rat_author i; cortex_receipt_id := lesson i;
     cortex_recorded := bool_decide (is_Some (lesson i)); rat_timestamp := rat_now i;
     status := "ProposedForReview";
     message := render (Fmt "Proposal '{}' is on review branch {} with patch {}. The default branch is unchanged; a human merges it."
                          [title p; branch; path]) |}.

(** What is proposed after the checks: the branch name and the candidate commit. *)
Definition check_proposal (i : RatifyInput) (p : ImprovementProposal) (invariants_passed : bool)
    (notes : string) (roots : list string) : result (string * StagedCandidate) :=
  if negb invariants_passed then fail "Invariant checks failed: {:?}" [notes]
  else
    match check_declared_target (target_file p) roots with
    | Err e => fail "Declared target refused: {}" [render e]
    | Ok target =>
      branch ← review_branch_name (id p);
      match staged_commit i target (proposed_patch p) with
      | Err e => fail "Candidate commit refused: {}" [render e]
      | Ok staged =>
        match check_real_diff (entries staged) (patch_text staged) target roots with
        | [] => Ok (branch, staged)
        | vs => fail "Real diff refused: {}" [join_str "; " (render <$> vs)]
        end
      end
    end.

Definition ratify_proposal (i : RatifyInput) (p : ImprovementProposal) (invariants_passed : bool)
    (notes : string) (roots : list string) (patch_dir : string) : M Repo RatificationRecord := λ r,
  match check_proposal i p invariants_passed notes roots with
  | Err e => (r, Ok (rejected_record i p (render e)))
  | Ok (branch, staged) =>
    match create_review_branch i branch (commit staged) r with
    | (r, Err e) => (r, Ok (rejected_record i p ("Review branch refused: " +:+ render e)))
    | (r, Ok _) =>
      (text ← mlift (formatted i);
       _ ← mlift (match patch_dir_made i with
                  | Err e => fail "Failed to create patch dir {:?}: {}" [patch_dir; render e]
                  | Ok _ => Ok tt
                  end);
       let path := path_join patch_dir (id p +:+ ".patch") in
       _ ← write_patch i path text;
       mret (proposed_record i p (commit staged) branch path)) r
    end
  end.
