(* ===== verification/RatifyProps.v ===== *)
(** What ratification may do to a repository. *)

From S2P Require Import Prelude RustStd RustPath PatchGate PatchGateProps Measure Meta Ratify.
#[local] Open Scope string_scope.
#[local] Open Scope list_scope.

(** The proposal's checks all passed, on the real diff of this commit. *)
Definition checked (i : RatifyInput) (p : ImprovementProposal) (roots : list string)
    (s : StagedCandidate) : Prop :=
  ∃ target, check_declared_target (target_file p) roots = Ok target
    ∧ staged_commit i target (proposed_patch p) = Ok s
    ∧ check_real_diff (entries s) (patch_text s) target roots = [].

Lemma check_proposal_ok i p inv notes roots branch s :
  check_proposal i p inv notes roots = Ok (branch, s) →
  inv = true ∧ checked i p roots s ∧ review_branch_name (id p) = Ok branch.
Proof.
  unfold check_proposal. destruct inv; cbn [negb]; [|done].
  destruct (check_declared_target _ _) as [target|e] eqn:Ht; [|done].
  destruct (review_branch_name (id p)) as [b|e]; [|done]. cbn [mbind result_bind].
  destruct (staged_commit i target (proposed_patch p)) as [s'|e] eqn:Hs; [|done].
  destruct (check_real_diff _ _ _ _) eqn:Hd; [|done]. intros [= -> ->].
  split; [done|]. split; [|done]. by exists target.
Qed.

Lemma branch_name_eq x b : review_branch_name x = Ok b → b = "rsi/" +:+ x.
Proof. unfold review_branch_name. destruct (_ || _); [done|]. by intros [= <-]. Qed.

Lemma trim_review x : trim_start_matches "refs/heads/" ("rsi/" +:+ x) = "rsi/" +:+ x.
Proof. reflexivity. Qed.

(** C14: ratification never moves an existing branch: whatever git answers, the repository's
    references stay as they are or gain exactly one, the new review branch of the proposal, which
    is no default branch and points at a commit whose real diff passed every check; a record that
    says the proposal is up for review means that this happened. *)
Theorem ratify_only_adds_review_branch i p inv notes roots dir r r' res :
  ratify_proposal i p inv notes roots dir r = (r', res) →
  let full := "refs/heads/rsi/" +:+ id p in
  (refs r' = refs r
   ∨ ∃ s, inv = true ∧ checked i p roots s ∧ refs r !! full = None
      ∧ (("rsi/" +:+ id p) ∉ default_branches i) ∧ refs r' = <[full := commit s]> (refs r))
  ∧ (∀ rec, res = Ok rec → status rec = "ProposedForReview" →
      ∃ s, checked i p roots s ∧ refs r' !! full = Some (commit s) ∧ commit_hash rec = Some (commit s)).
Proof.
  intros Hrun full. unfold ratify_proposal in Hrun.
  destruct (check_proposal i p inv notes roots) as [[b s]|e] eqn:Hc.
  2: { injection Hrun as <- <-. split; [by left|]. by intros rec [= <-]. }
  apply check_proposal_ok in Hc as (Hinv & Hck & Hb). apply branch_name_eq in Hb as ->.
  unfold create_review_branch in Hrun. rewrite trim_review in Hrun.
  change ("refs/heads/" +:+ ("rsi/" +:+ id p)) with full in Hrun.
  assert (∀ rec, rec = rejected_record i p (message rec) → status rec = "ProposedForReview" → False) as Hrej.
  { intros rec -> Hs. done. }
  case_bool_decide as Hdef; [injection Hrun as <- <-; split; [by left|]; by intros rec [= <-]|].
  destruct (ref_format i) as [[]|e]; [|injection Hrun as <- <-; split; [by left|]; by intros rec [= <-]].
  case_bool_decide as Hex; [injection Hrun as <- <-; split; [by left|]; by intros rec [= <-]|].
  apply eq_None_not_Some in Hex.
  destruct (update_ref i) as [[]|e]; [|injection Hrun as <- <-; split; [by left|]; by intros rec [= <-]].
  assert (refs r' = <[full := commit s]> (refs r)
    ∧ ∀ rec, res = Ok rec → commit_hash rec = Some (commit s)) as [Hrefs Hres].
  { revert Hrun. unfold mbind, M_bind, mlift, write_patch.
    destruct (formatted i); [|by intros [= <- <-]]. destruct (patch_dir_made i); [|by intros [= <- <-]].
    destruct (patch_written i); [|by intros [= <- <-]]. intros [= <- <-]. split; [done|]. by intros rec [= <-]. }
  split.
  - right. exists s. by split_and!.
  - intros rec Hr _. exists s. split; [done|]. rewrite Hrefs, lookup_insert_eq. by split; [|apply Hres].
Qed.

(** ** Example *)

Module RatifyExample.
Definition entry : ChangedEntry :=
  {| old_mode := "100644"; new_mode := "100644"; PatchGate.status := 77; entry_path := "docs/a.md" |}.
Definition git : RatifyInput :=
  {| rat_now := "t"; rat_author := "a";
     staged_commit := λ _ _, Ok {| entries := [entry]; patch_text := "+text"; commit := "c1" |};
     default_branches := ["main"; "master"]; ref_format := Ok tt; update_ref := Ok tt;
     formatted := Ok "mail"; patch_dir_made := Ok tt; patch_written := Ok tt; lesson := None |}.
Definition prop : ImprovementProposal :=
  {| id := "p1"; title := "t"; description := "d"; target_file := "docs/a.md";
     proposed_patch := "text"; kind := Documentation; created_at := "t"; sandbox_path := None;
     operator_signature := None |}.
Definition before : Repo := {| refs := {["refs/heads/main" := "c0"]}; patches := ∅ |}.
Definition run : Repo * result RatificationRecord :=
  ratify_proposal git prop true "[]" ["docs"] "/p" before.
End RatifyExample.

Section Examples.
Import RatifyExample.
Lemma ratify_only_adds_review_branch_witness :
  (status <$> run.2) = Ok "ProposedForReview"
  ∧ (refs run.1 = refs before
     ∨ ∃ s, true = true ∧ checked git prop ["docs"] s ∧ refs before !! "refs/heads/rsi/p1" = None
        ∧ (("rsi/" +:+ "p1") ∉ default_branches git)
        ∧ refs run.1 = <["refs/heads/rsi/p1" := commit s]> (refs before)).
Proof.
  split; [vm_compute; reflexivity|].
  exact (proj1 (ratify_only_adds_review_branch git prop true "[]" ["docs"] "/p" before run.1 run.2
    (surjective_pairing run))).
Defined.
End Examples.
