(* ===== verification/Soak.v ===== *)
(** A soak campaign ([src/soak/manifest.rs], [src/soak/runner.rs]): bounded cycles that choose a
    bottleneck, generate candidates, pass them through the tier boundary, the build jail, the
    invariants and the judge, record every decision in the ledger and stage the winners.

    What the machine answers to a cycle (the model, git, the jail, the verifier, the judge, the
    clock and the file system) is an input; what happens to the ledger, the quarantine tracker,
    the staged files and the manifest is the state.  The node map is iterated in one order:
    [GraphProps] shows that the order does not matter.  Printing is not modelled. *)

From S2P Require Import Prelude RustStd RustPath RustNum RustFloat Sorting Digest Json Supervisor LedgerRecord Ledger PatchGate Receipt Stats Graph Measure Contract Meta.
#[local] Open Scope string_scope.
#[local] Open Scope list_scope.

(** ** Quarantine *)

Record Tracker := {
  failure_counts : gmap string N;
  exhausted_pairings : gset string
}.
Definition new_tracker : Tracker := {| failure_counts := ∅; exhausted_pairings := ∅ |}.

Section Quarantine.
Context `{Sha256}.

Definition pairing_key (node_name problem_summary : string) : string :=
  node_name +:+ ":" +:+ String.substring 0 12 (sha256_hex problem_summary).

Definition is_exhausted (node_name problem_summary : string) (t : Tracker) : bool :=
  bool_decide (pairing_key node_name problem_summary ∈ exhausted_pairings t).

(** Whether the pairing is exhausted now, and the tracker. *)
Definition record_failure (node_name problem_summary : string) (t : Tracker) : bool * Tracker :=
  let key := pairing_key node_name problem_summary in
  let count := (default 0 (failure_counts t !! key) + 1)%N in
  let counts := <[key := count]> (failure_counts t) in
  if (3 <=? count)%N
  then (true, {| failure_counts := counts; exhausted_pairings := {[key]} ∪ exhausted_pairings t |})
  else (false, {| failure_counts := counts; exhausted_pairings := exhausted_pairings t |}).

Definition record_success (node_name problem_summary : string) (t : Tracker) : Tracker :=
  let key := pairing_key node_name problem_summary in
  {| failure_counts := delete key (failure_counts t);
     exhausted_pairings := exhausted_pairings t ∖ {[key]} |}.

Definition exhausted_list (t : Tracker) : list string :=
  sort_strings (elements (exhausted_pairings t)).
End Quarantine.

(** ** Records *)

Record CycleCandidateRecord := {
  cand_id : string;
  candidate_index : N;
  cand_target_file : string;
  proposed_patch_digest : string;
  compilation_passed : bool;
  invariants_passed : bool;
  judge_admitted : bool;
  primary_metric_name : string;
  primary_metric_value : f64;
  rejection_reason : option string;
  cand_ledger_block_hash : option string
}.

Record CycleRecord := {
  cycle_index : N;
  cyc_id : string;
  bottleneck_node : string;
  cyc_hypothesis_id : string;
  hypothesis_problem : string;
  candidates : list CycleCandidateRecord;
  winning_candidate_id : option string;
  merkle_checkpoint_hash : option string;
  cortex_receipt_id : option string;
  cyc_status : string
}.

Record AdmittedMetaCandidate := {
  adm_candidate_id : string;
  adm_ledger_block_hash : string;
  staging_dir : string;
  patch_digest : string;
  criteria_1_novel_discovery : bool;
  criteria_2_self_capability_gain : bool;
  classification : string
}.

Record SoakConfig := {
  rsi_root : string;
  measure_cfg : RsiConfig;
  measure_target_improvement_pct : f64;
  total_cycles : nat;
  candidates_per_cycle : nat;
  writable_prefixes : list string;
  signing_key_hex : option string
}.

(** ** Inputs *)

Record CandidateInput := {
  seat_available : bool;
  model_answer : option ImprovementProposal;
  unslop : option ImprovementProposal;
  staging : result unit;
  has_cargo_toml : bool;
  build : result (bool * string);
  verified : bool;
  judge_answer : result EvaluationReceipt;
  cand_now : string;
  cand_fate : blob_fate;
  cand_uuid : string
}.

Record CycleInput := {
  observation : result (f64 * f64);
  stage_records : result (list CycleSampleRecord);
  measured_in : MeasureContext;
  hypothesis_uuid : string;
  candidate_input : N → CandidateInput;
  staged_writes : bool * bool * bool;
  cortex_answer : option string;
  checkpoint_now : string
}.

Record Campaign := {
  store : Store;
  tracker : Tracker;
  cycle_records : list CycleRecord;
  admitted_candidates : list AdmittedMetaCandidate;
  total_candidates_evaluated : N;
  total_candidates_admitted : N;
  staged : disk
}.

(** [map_err] on an operation: the message of an error goes into a template. *)
Definition map_failure {S A} (template : string) (m : M S A) : M S A := λ s,
  match m s with
  | (s, Ok a) => (s, Ok a)
  | (s, Err e) => (s, fail template [render e])
  end.

Section Soak.
Context `{Sha256} `{JsonStr} `{P256}.
Context (parse_strings : string → option (list string)) (blob_root : string).
(** serde_json for a receipt and a block, compact and pretty. *)
Context (receipt_json receipt_pretty : EvaluationReceipt → string) (block_pretty : LedgerBlock → string).

(** [let _ = operation]: an error is dropped. *)
Definition ignoring {A} (m : M Store A) : M Store unit := λ s, ((m s).1, Ok tt).

(** ** One candidate *)

Definition is_permitted (prefixes : list string) (target : string) : bool :=
  let normalized := trimmed target in
  existsb (λ p, bool_decide (normalized = trim_end_byte slash p) || starts_with p normalized) prefixes.

Definition with_id (i : string) (p : ImprovementProposal) : ImprovementProposal :=
  {| id := i; title := title p; description := description p; target_file := target_file p;
     proposed_patch := proposed_patch p; kind := kind p; created_at := created_at p;
     sandbox_path := sandbox_path p; operator_signature := operator_signature p |}.

(** The model's proposal, or for the first candidate the punctuation scan's. *)
Definition generate (cand_idx : N) (i : CandidateInput) : option ImprovementProposal :=
  match (if seat_available i then model_answer i else None) with
  | Some p => Some p
  | None => if (cand_idx =? 1)%N then unslop i else None
  end.

Definition latency_of (r : EvaluationReceipt) : f64 :=
  match metrics_summary r with
  | Some m => f64_from_bits (Receipt.latency_delta_pct m)
  | None => f64_of_N 0
  end.

Definition not_generated (cid : string) (idx : N) (target : string) : CycleCandidateRecord :=
  {| cand_id := cid; candidate_index := idx; cand_target_file := target;
     proposed_patch_digest := "none"; compilation_passed := false; invariants_passed := false;
     judge_admitted := false; primary_metric_name := "latency_us";
     primary_metric_value := f64_of_N 0;
     rejection_reason := Some "Model generation failed to produce valid code";
     cand_ledger_block_hash := None |}.

Definition rejected (cid : string) (idx : N) (p : ImprovementProposal) (compiled invariants : bool)
    (reason : string) : CycleCandidateRecord :=
  {| cand_id := cid; candidate_index := idx; cand_target_file := target_file p;
     proposed_patch_digest := sha256_hex (proposed_patch p); compilation_passed := compiled;
     invariants_passed := invariants; judge_admitted := false;
     primary_metric_name := "latency_us"; primary_metric_value := f64_of_N 0;
     rejection_reason := Some reason; cand_ledger_block_hash := None |}.

Definition judged (cid : string) (idx : N) (p : ImprovementProposal) (r : EvaluationReceipt)
    (block : string) : CycleCandidateRecord :=
  {| cand_id := cid; candidate_index := idx; cand_target_file := target_file p;
     proposed_patch_digest := sha256_hex (proposed_patch p); compilation_passed := true;
     invariants_passed := true; judge_admitted := admitted r;
     primary_metric_name := "latency_delta_pct"; primary_metric_value := latency_of r;
     rejection_reason := if admitted r then None
       else Some "Judge non-inferiority margin exceeded or holdout failure";
     cand_ledger_block_hash := Some block |}.

(** What an admissible candidate leaves: the proposal, its receipt and its block. *)
Definition Admissible : Type := ImprovementProposal * EvaluationReceipt * LedgerBlock.

(** A reason is recorded in the ledger; a failed append is dropped. *)
Definition note (i : CandidateInput) (reason : string) : M Store unit :=
  ignoring (append_block parse_strings (cand_now i) Evaluation reason []).

(** Whether the candidate compiled; a failure is recorded. *)
Definition compile (i : CandidateInput) : M Store bool :=
  if negb (has_cargo_toml i) then mret true
  else match build i with
  | Ok (true, _) => mret true
  | Ok (false, stderr) => _ ← note i ("Build Jail compile failed: " +:+ stderr); mret false
  | Err e => _ ← note i ("Build Jail execution error: " +:+ render e); mret false
  end.

Definition run_candidate (c : SoakConfig) (cycle target : string) (balanced : bool) (idx : N)
    (i : CandidateInput) : M Store (CycleCandidateRecord * option Admissible) :=
  let cid := cycle +:+ "-c" +:+ dec idx in
  match generate idx i with
  | None => mret (not_generated cid idx target, None)
  | Some p =>
    let p := with_id cid p in
    if negb (is_permitted (writable_prefixes c) (target_file p)) then
      let reason := "Tier 2 boundary violation: " +:+ target_file p
                    +:+ " is outside permitted soak surface" in
      _ ← note i reason; mret (rejected cid idx p false false reason, None)
    else match staging i with
    | Err e =>
      let reason := "Staging failed: " +:+ render e in
      _ ← note i reason; mret (rejected cid idx p false false reason, None)
    | Ok _ =>
      compiled ← compile i;
      if negb compiled then
        mret (rejected cid idx p false false "Failed to compile in Jail 1", None)
      else if negb (verified i) || negb balanced then
        let reason := render (Fmt "Invariants or Balance failed (inv={}, bal={})"
          [if verified i then "true" else "false"; if balanced then "true" else "false"]) in
        _ ← note i reason; mret (rejected cid idx p true false reason, None)
      else match judge_answer i with
      | Err e =>
        let reason := "Blind Judge error: " +:+ render e in
        _ ← note i reason; mret (rejected cid idx p true true reason, None)
      | Ok r =>
        blk ← map_failure "Failed to append evaluation: {}"
                (append_evaluation parse_strings blob_root (cand_now i) (cand_fate i) (cand_uuid i)
                   (receipt_json r) (Some (receipt_json r)));
        mret (judged cid idx p r (block_hash blk),
              if admitted r then Some (p, r, blk) else None)
      end
    end
  end.

Fixpoint run_candidates (n : nat) (idx : N) (c : SoakConfig) (cycle target : string)
    (balanced : bool) (input : N → CandidateInput)
    : M Store (list CycleCandidateRecord * list Admissible) :=
  match n with
  | O => mret ([], [])
  | S n =>
    x ← run_candidate c cycle target balanced idx (input idx);
    rest ← run_candidates n (idx + 1) c cycle target balanced input;
    mret (x.1 :: rest.1, option_list x.2 ++ rest.2)
  end.

(** ** One cycle *)

Definition choose_bottleneck (t : Tracker) (ranked : list BottleneckRank) : option BottleneckRank :=
  match List.find (λ b, negb (is_exhausted (rank_node_name b) (causal_explanation b) t)) ranked with
  | Some b => Some b
  | None => head ranked
  end.

(** The target file of a cycle, by the name of its bottleneck. *)
Definition target_of (node_name : string) : string :=
  if bool_decide (node_name = "Propose") then "src/propose/hypothesis.rs" else "src/observe.rs".

Definition problem_of (b : BottleneckRank) : string :=
  "High latency on " +:+ rank_node_name b +:+ ": " +:+ causal_explanation b.

(** [partial_cmp(..).unwrap_or(Equal)] on the latencies. *)
Definition faster (a b : Admissible) : bool := f64_lt (latency_of a.1.2) (latency_of b.1.2).

Definition write_if (ok : bool) (path content : string) (d : disk) : disk :=
  if ok then <[path := content]> d else d.

Definition stage_winner (c : SoakConfig) (writes : bool * bool * bool) (a : Admissible) (d : disk)
    : disk :=
  let dir := path_join (path_join (rsi_root c) "admitted") (block_hash a.2) in
  let '(w1, w2, w3) := writes in
  write_if w3 (path_join dir "ledger_block.json") (block_pretty a.2)
    (write_if w2 (path_join dir "evaluation_receipt.json") (receipt_pretty a.1.2)
      (write_if w1 (path_join dir "patch.diff") (proposed_patch a.1.1) d)).

Definition admitted_entry (c : SoakConfig) (h : HypothesisContract) (a : Admissible)
    : AdmittedMetaCandidate :=
  {| adm_candidate_id := id a.1.1; adm_ledger_block_hash := block_hash a.2;
     staging_dir := path_join (path_join (rsi_root c) "admitted") (block_hash a.2);
     patch_digest := sha256_hex (proposed_patch a.1.1);
     criteria_1_novel_discovery :=
       criterion_passed (evaluate_criterion_1_novel_discovery (observed_problem h) true
                           ["hardcoded"; "static_rule"]);
     criteria_2_self_capability_gain :=
       criterion_passed (evaluate_criterion_2_self_capability_improvement true
         ("latency improved by " +:+ fmt_fixed 2 (latency_of a.1.2) +:+ "%"
          +:+ String (ascii_of_nat 9) ""));
     classification := "META_CANDIDATE" |}.

Definition cycle_id_of (run_id : string) (idx : N) : string :=
  "soak-" +:+ run_id +:+ "-c" +:+ pad_zeros 2 (dec idx).

(** The ledger's part of a campaign. *)
Definition in_store {A} (m : M Store A) : M Campaign A := λ c,
  let '(s, r) := m (store c) in
  ({| store := s; tracker := tracker c; cycle_records := cycle_records c;
      admitted_candidates := admitted_candidates c;
      total_candidates_evaluated := total_candidates_evaluated c;
      total_candidates_admitted := total_candidates_admitted c; staged := staged c |}, r).

(** After the candidates: the winner is staged, or the pairing is marked. *)
Definition conclude (cfg : SoakConfig) (i : CycleInput) (b : BottleneckRank) (h : HypothesisContract)
    (idx : N) (cycle : string) (records : list CycleCandidateRecord) (ads : list Admissible)
    (root : option string) (c : Campaign) : Campaign :=
  let winner := head (sort_by faster ads) in
  let entry :=
    {| cycle_index := idx; cyc_id := cycle; bottleneck_node := rank_node_name b;
       cyc_hypothesis_id := hypothesis_id h; hypothesis_problem := observed_problem h;
       candidates := records; winning_candidate_id := (λ a, id a.1.1) <$> winner;
       merkle_checkpoint_hash := root;
       cortex_receipt_id := match winner with Some _ => cortex_answer i | None => None end;
       cyc_status := "COMPLETED" |} in
  {| store := store c;
     tracker := match winner with
                | None => (record_failure (rank_node_name b) (problem_of b) (tracker c)).2
                | Some _ => record_success (rank_node_name b) (problem_of b) (tracker c)
                end;
     cycle_records := cycle_records c ++ [entry];
     admitted_candidates := admitted_candidates c
                            ++ option_list (admitted_entry cfg h <$> winner);
     total_candidates_evaluated := (total_candidates_evaluated c + N.of_nat (length records))%N;
     total_candidates_admitted :=
       (total_candidates_admitted c + match winner with Some _ => 1 | None => 0 end)%N;
     staged := match winner with
               | Some a => stage_winner cfg (staged_writes i) a (staged c)
               | None => staged c
               end |}.

(** The pipeline's stages from the samples of prior cycles, ranked; [None] is a panic. *)
Definition cycle_ranking (cfg : SoakConfig) (cycle : string) (i : CycleInput)
    : result (option (list BottleneckRank)) :=
  match measure_stages (stage_records i) cycle (measured_in i) (measure_cfg cfg) with
  | None => Ok None
  | Some measurements =>
    (λ graph, rank_bottlenecks (map_to_list (nodes graph)) graph) <$>
      build_capability_graph measurements
  end.

(** The contract of a cycle. *)
Definition cycle_hypothesis (cfg : SoakConfig) (cycle : string) (i : CycleInput)
    (b : BottleneckRank) : HypothesisContract :=
  with_falsification_test "assert!(receipt.passed_all_hard_invariants)"
    (with_protected_metric "correctness" (f64_of_N 0)
       (from_bottleneck (hypothesis_uuid i) cycle b (measure_target_improvement_pct cfg))).

Definition is_balanced (drive_score humanity_score : f64) : bool :=
  bool_decide (verdict (balance_evaluate drive_score humanity_score) = "balanced").

(** [false] is the early end of the campaign; the inner [None] is a panic. *)
Definition run_cycle (cfg : SoakConfig) (key : SigningKey) (run_id : string) (idx : N)
    (i : CycleInput) : M Campaign (option bool) := λ c,
  let cycle := cycle_id_of run_id idx in
  match observation i with
  | Err e => (c, Err e)
  | Ok (drive_score, humanity_score) =>
    match cycle_ranking cfg cycle i with
    | Err e => (c, Err e)
    | Ok None => (c, Ok None)
    | Ok (Some ranked) =>
      match choose_bottleneck (tracker c) ranked with
      | None => (c, Ok (Some false))
      | Some b =>
        match in_store (run_candidates (candidates_per_cycle cfg) 1 cfg cycle
                          (target_of (rank_node_name b))
                          (is_balanced drive_score humanity_score) (candidate_input i)) c with
        | (c, Err e) => (c, Err e)
        | (c, Ok (records, ads)) =>
          let '(c, cp) := in_store (checkpoint parse_strings (checkpoint_now i) (Some key)) c in
          let root := match cp with Ok m => Some (merkle_root m) | Err _ => None end in
          (conclude cfg i b (cycle_hypothesis cfg cycle i b) idx cycle records ads root c,
           Ok (Some true))
        end
      end
    end
  end.

Fixpoint run_cycles (n : nat) (idx : N) (cfg : SoakConfig) (key : SigningKey) (run_id : string)
    (input : N → CycleInput) : M Campaign (option unit) :=
  match n with
  | O => mret (Some tt)
  | S n =>
    r ← run_cycle cfg key run_id idx (input idx);
    match r with
    | None => mret None
    | Some false => mret (Some tt)
    | Some true => run_cycles n (idx + 1) cfg key run_id input
    end
  end.

(** ** The campaign *)

Record SoakRunManifest := {
  manifest_run_id : string;
  manifest_cycles : list CycleRecord;
  manifest_admitted : list AdmittedMetaCandidate;
  exhausted_hypotheses : list string;
  final_merkle_checkpoint : option string;
  manifest_evaluated : N;
  manifest_admitted_count : N;
  preflight_passed : bool;
  overall_status : string
}.

(** [holdouts_shown] and [repo_shown] are the two paths as [{:?}] prints them. *)
Record BatchInput := {
  bwrap : result bool;
  holdouts_shown : string;
  repo_shown : string;
  holdouts_exist : bool;
  cargo_toml_exists : bool;
  open_now : string;
  cycle_input : N → CycleInput;
  final_now : string;
  manifest_saved : result unit
}.

Context (key_of_bytes : string → option SigningKey).

Definition decode_key (hex_error key_error : string) (hex : string) : result SigningKey :=
  match hex_decode hex with
  | None => Err (Fmt hex_error [])
  | Some bytes => ok_or (key_of_bytes bytes) (Fmt key_error [])
  end.

Definition run_preflight_checks (i : BatchInput) (key_hex : string) : M Store unit :=
  ok ← mlift (match bwrap i with
              | Err e => fail "Preflight containment check failed: bwrap missing: {}" [render e]
              | Ok b => Ok b
              end);
  if negb ok then
    mlift (fail "Preflight containment check failed: bwrap returned non-zero exit code" [])
  else
    _ ← mlift (decode_key "Preflight failed: invalid hex signing key"
                 "Preflight failed: invalid P-256 signing key" key_hex);
    _ ← map_failure "Preflight failed: cannot open improvement ledger: {}"
          (open parse_strings (open_now i));
    if negb (holdouts_exist i) then
      mlift (fail "Preflight failed: holdouts directory {} does not exist" [holdouts_shown i])
    else if negb (cargo_toml_exists i) then
      mlift (fail "Preflight failed: Cargo.toml not found in target repo {}" [repo_shown i])
    else mret tt.

Definition new_campaign (s : Store) : Campaign :=
  {| store := s; tracker := new_tracker; cycle_records := []; admitted_candidates := [];
     total_candidates_evaluated := 0; total_candidates_admitted := 0; staged := ∅ |}.

Definition manifest_of (run_id : string) (root : option string) (c : Campaign) : SoakRunManifest :=
  {| manifest_run_id := run_id; manifest_cycles := cycle_records c;
     manifest_admitted := admitted_candidates c;
     exhausted_hypotheses := exhausted_list (tracker c); final_merkle_checkpoint := root;
     manifest_evaluated := total_candidates_evaluated c;
     manifest_admitted_count := total_candidates_admitted c; preflight_passed := true;
     overall_status := "SUCCESS" |}.

(** Everything after the ledger is open; the inner [None] is a panic. *)
Definition run_campaign (cfg : SoakConfig) (key : SigningKey) (run_id : string) (i : BatchInput)
    : M Store (option (SoakRunManifest * Campaign)) := λ s,
  let '(c, r) := run_cycles (total_cycles cfg) 1 cfg key run_id (cycle_input i) (new_campaign s) in
  match r with
  | Err e => (store c, Err e)
  | Ok None => (store c, Ok None)
  | Ok (Some _) =>
    let '(c, cp) := in_store (checkpoint parse_strings (final_now i) (Some key)) c in
    let root := match cp with Ok m => Some (merkle_root m) | Err _ => None end in
    (store c, (λ _, Some (manifest_of run_id root c, c)) <$> manifest_saved i)
  end.

(** The manifest of a campaign, and the campaign; the inner [None] is a panic. *)
Definition run_batch (cfg : SoakConfig) (run_id : string) (i : BatchInput)
    : M Store (option (SoakRunManifest * Campaign)) :=
  key_hex ← mlift (ok_or (signing_key_hex cfg)
    (Fmt "Fatal: Missing cryptographic signing key (signing_key_hex). Soak run fails closed." []));
  key ← mlift (decode_key "Fatal: Invalid signing_key_hex" "Fatal: Invalid P-256 signing key" key_hex);
  _ ← map_failure "Preflight aborted: {}" (run_preflight_checks i key_hex);
  _ ← map_failure "Fatal: Failed to open ImprovementLedger: {}" (open parse_strings (open_now i));
  run_campaign cfg key run_id i.
End Soak.
