(* ===== verification/SoakProps.v ===== *)
(** What a soak campaign guarantees: it only appends to the ledger, its manifest names nothing that
    did not pass every gate, and its quarantine never changes what it works on. *)

From S2P Require Import Prelude RustStd RustPath RustNum RustFloat Sorting Digest Json Supervisor LedgerRecord Ledger LedgerProps PatchGate Receipt Stats Graph GraphProps Measure MeasureProps Contract Meta Soak.
#[local] Open Scope string_scope.
#[local] Open Scope list_scope.

(** ** Operations that append to the ledger *)

Section Appends.
Context `{Sha256, !Sha256Len, JsonStr, P256}.
Context (parse_strings : string → option (list string)) (blob_root : string).
Context `{!DigestsRoundTrip parse_strings}.

Abbreviation ledger_inv := (ledger_inv blob_root).

(** Whatever [m] returns, the ledger keeps its blocks and gains at most [n]; [Q] holds of the
    gained blocks and of the value. *)
Definition appends {A} (n : nat) (m : M Store A) (Q : list LedgerBlock → A → Prop) : Prop :=
  ∀ bs s, ledger_inv bs s → (N.of_nat (length bs + n) <= i64_max)%N →
  ∃ l, ledger_inv (bs ++ l) (m s).1 ∧ (length l <= n)%nat ∧ ∀ a, (m s).2 = Ok a → Q l a.

Lemma appends_ret {A} (a : A) (Q : list LedgerBlock → A → Prop) : Q [] a → appends 0 (mret a) Q.
Proof.
  intros Hq bs s Hi _. exists []. rewrite app_nil_r. split; [done|]. split; [done|].
  by intros a' [= <-].
Qed.

Lemma appends_const {A} n (a : A) (Q : list LedgerBlock → A → Prop) :
  Q [] a → appends n (mret a) Q.
Proof.
  intros Hq bs s Hi Hb. destruct (appends_ret a Q Hq bs s Hi) as (l & Hl & Hn & Hr); [lia|].
  exists l. split; [done|]. split; [lia|done].
Qed.

Lemma appends_mono {A} n k (m : M Store A) (P Q : list LedgerBlock → A → Prop) :
  appends n m P → (n <= k)%nat → (∀ l a, P l a → Q l a) → appends k m Q.
Proof.
  intros Hm Hk Hpq bs s Hi Hb. destruct (Hm bs s Hi) as (l & Hl & Hn & Hr); [lia|].
  exists l. split; [done|]. split; [lia|]. eauto.
Qed.

Lemma appends_bind {A B} n k (m : M Store A) (f : A → M Store B) P (Q : list LedgerBlock → B → Prop) :
  appends n m P →
  (∀ a, appends k (f a) (λ l' b, ∀ l, P l a → Q (l ++ l') b)) →
  appends (n + k) (m ≫= f) Q.
Proof.
  intros Hm Hf bs s Hi Hb. destruct (Hm bs s Hi) as (l & Hl & Hn & Hr); [lia|].
  unfold mbind, M_bind. destruct (m s) as [s' [a|e]]; cbn [fst snd] in *.
  - destruct (Hf a (bs ++ l) s' Hl) as (l' & Hl' & Hn' & Hr'); [rewrite length_app; lia|].
    exists (l ++ l'). rewrite app_assoc. split; [done|]. split; [rewrite length_app; lia|].
    intros b Hb'. eapply Hr'; [done|]. by apply Hr.
  - exists l. split; [done|]. split; [lia|done].
Qed.

Lemma appends_pure {A B} n (b : A) (f : A → M Store B) Q :
  appends n (f b) Q → appends n (mret b ≫= f) Q.
Proof. done. Qed.

Lemma appends_assoc {A B C} n (m : M Store A) (b : B) (f : B → M Store C) Q :
  appends n (_ ← m; f b) Q → appends n ((_ ← m; mret b) ≫= f) Q.
Proof.
  intros Hm bs s Hi Hn. specialize (Hm bs s Hi Hn). unfold mbind, M_bind in *.
  by destruct (m s) as [s' [a|e]].
Qed.

Lemma appends_after {A B} n (m : M Store A) (f : A → M Store B) P Q :
  appends 0 m P → (∀ a, appends n (f a) Q) → appends n (m ≫= f) Q.
Proof.
  intros Hm Hf. apply (appends_bind 0 n m f (λ l _, l = [])).
  - intros bs s Hi Hb. destruct (Hm bs s Hi Hb) as (l & Hl & Hn & _). exists l. split_and!; [done..|].
    intros _ _. apply nil_length_inv. lia.
  - intros a. eapply appends_mono; [apply Hf|done|]. by intros l b Hq _ ->.
Qed.

Lemma appends_map_failure {A} n t (m : M Store A) Q : appends n m Q → appends n (map_failure t m) Q.
Proof.
  intros Hm bs s Hi Hb. destruct (Hm bs s Hi Hb) as (l & Hl & Hn & Hr). exists l.
  unfold map_failure. by destruct (m s) as [s' [a|e]].
Qed.

Lemma appends_lift {A} (r : result A) Q : (∀ a, r = Ok a → Q [] a) → appends 0 (mlift r) Q.
Proof.
  intros Hq bs s Hi _. exists []. rewrite app_nil_r. split; [done|]. split; [done|]. apply Hq.
Qed.

Lemma appends_ignoring {A} n (m : M Store A) Q :
  appends n m Q → appends n (ignoring m) (λ _ _, True).
Proof.
  intros Hm bs s Hi Hb. destruct (Hm bs s Hi Hb) as (l & Hl & Hn & _). by exists l.
Qed.

Lemma appends_block now t payload :
  appends 1 (append_block parse_strings now t payload []) (λ _ _, True).
Proof.
  intros bs s Hi Hb.
  destruct (inv_append parse_strings blob_root bs s now t payload []) as (l & Hl & Hn & _);
    [done|lia|by constructor|]. by exists l.
Qed.

Lemma appends_evaluation now fate uuid receipt raw :
  appends 1 (append_evaluation parse_strings blob_root now fate uuid receipt raw)
    (λ l b, b ∈ l ∧ block_type b = Evaluation ∧ payload_json b = receipt).
Proof.
  intros bs s Hi Hb.
  destruct (inv_evaluation parse_strings blob_root bs s now fate uuid receipt raw)
    as (l & Hl & Hn & Hf & Hr); [done|lia|]. exists l. split; [done|]. split; [done|].
  intros b Hb'. apply Hr in Hb'. split; [done|]. exact (proj1 (Forall_forall _ _) Hf b Hb').
Qed.

Lemma appends_checkpoint now key : appends 0 (checkpoint parse_strings now key) (λ _ _, True).
Proof.
  intros bs s Hi _. exists []. rewrite app_nil_r. split; [|by split; [|]].
  by apply inv_checkpoint.
Qed.

Lemma appends_open now : appends 0 (open parse_strings now) (λ _ _, True).
Proof.
  intros bs s Hi _. exists []. rewrite app_nil_r.
  destruct (chain_last _ (inv_chain _ _ _ Hi)) as [latest Hl].
  unfold open. rewrite (inv_latest parse_strings blob_root _ _ _ Hi Hl). by split; [|split].
Qed.
End Appends.

(** ** Candidates *)

Section Candidates.
Context `{Sha256, !Sha256Len, JsonStr, P256}.
Context (parse_strings : string → option (list string)) (blob_root : string).
Context `{!DigestsRoundTrip parse_strings}.
Context (receipt_json : EvaluationReceipt → string).
Context (cfg : SoakConfig) (balanced : bool) (input : N → CandidateInput).

(** Every gate the candidate record [w] passed on the way to the block [b] of its receipt [r]. *)
Definition passed_every_gate (w : CycleCandidateRecord) (r : EvaluationReceipt) (b : LedgerBlock)
    : Prop :=
  let i := input (candidate_index w) in
  is_permitted (writable_prefixes cfg) (cand_target_file w) = true
  ∧ staging i = Ok tt ∧ (has_cargo_toml i = true → ∃ out, build i = Ok (true, out))
  ∧ verified i = true ∧ balanced = true ∧ judge_answer i = Ok r ∧ admitted r = true
  ∧ block_type b = Evaluation ∧ payload_json b = receipt_json r
  ∧ cand_ledger_block_hash w = Some (block_hash b) ∧ primary_metric_value w = latency_of r.

(** The admissible candidate of a record. *)
Definition stands_for (l : list LedgerBlock) (w : CycleCandidateRecord) (a : Admissible) : Prop :=
  a.2 ∈ l ∧ passed_every_gate w a.1.2 a.2 ∧ cand_id w = id a.1.1
  ∧ proposed_patch_digest w = sha256_hex (proposed_patch a.1.1).

Definition outcome_ok (l : list LedgerBlock) (x : CycleCandidateRecord * option Admissible) : Prop :=
  match x.2 with
  | Some a => judge_admitted x.1 = true ∧ stands_for l x.1 a
  | None => judge_admitted x.1 = false
  end.

Lemma stands_for_app l l' w a : stands_for l w a → stands_for (l ++ l') w a.
Proof. intros [Hb H']. split; [|done]. apply elem_of_app. by left. Qed.

Lemma stands_for_app_r l l' w a : stands_for l' w a → stands_for (l ++ l') w a.
Proof. intros [Hb H']. split; [|done]. apply elem_of_app. by right. Qed.

Lemma compile_cases i :
  compile parse_strings i = mret true ∧ (has_cargo_toml i = true → ∃ out, build i = Ok (true, out))
  ∨ ∃ reason, compile parse_strings i = (_ ← note parse_strings i reason; mret false).
Proof.
  unfold compile. destruct (has_cargo_toml i); cbn [negb]; [|by left].
  destruct (build i) as [[[|] out]|e]; [left; eauto|right; eauto..].
Qed.

Definition candidate_ok (idx : N) (l : list LedgerBlock)
    (x : CycleCandidateRecord * option Admissible) : Prop :=
  candidate_index x.1 = idx ∧ outcome_ok l x.

(** A rejection leaves at most its reason. *)
Lemma note_appends {A} i reason (x : A) (Q : list LedgerBlock → A → Prop) : (∀ l, Q l x) →
  appends blob_root 1 (_ ← note parse_strings i reason; mret x) Q.
Proof.
  intros HQ. apply (appends_bind _ 1 0 _ _ (λ _ _, True)).
  - eapply appends_ignoring, appends_block; exact _.
  - intros _. apply appends_ret. intros l _. apply HQ.
Qed.

Lemma candidate_appends cycle target idx :
  appends blob_root 1
    (run_candidate parse_strings blob_root receipt_json cfg cycle target balanced idx (input idx))
    (candidate_ok idx).
Proof.
  set (i := input idx). unfold run_candidate.
  destruct (generate idx i) as [p|]; [|by apply appends_const].
  destruct (is_permitted _ _) eqn:Hp; cbn [negb]; [|by apply note_appends].
  destruct (staging i) as [[]|e] eqn:Hst; [|by apply note_appends].
  destruct (compile_cases i) as [[-> Hbuild]|(reason & ->)].
  2: { apply appends_assoc. by apply note_appends. }
  apply appends_pure. cbn [negb].
  destruct (verified i) eqn:Hv; cbn [negb orb]; [|by apply note_appends].
  destruct balanced eqn:Hbal; cbn [negb]; [|by apply note_appends].
  destruct (judge_answer i) as [r|e] eqn:Hj; [|by apply note_appends].
  eapply (appends_bind _ 1 0); [apply appends_map_failure, appends_evaluation; exact _|].
  intros b. apply appends_ret. intros l (Hb & Ht & Hpay). split; [done|]. unfold outcome_ok. cbn [fst snd].
  destruct (admitted r) eqn:Ha; [|done]. split; [done|]. rewrite app_nil_r.
  split; [done|]. split; [|done]. unfold passed_every_gate. by split_and!.
Qed.

(** The admitted candidates' records, in the order of what they left. *)
Definition candidates_ok (n : nat) (idx : N) (l : list LedgerBlock)
    (x : list CycleCandidateRecord * list Admissible) : Prop :=
  candidate_index <$> x.1 = (λ k, idx + N.of_nat k)%N <$> seq 0 n
  ∧ Forall2 (stands_for l) (filter (λ w, judge_admitted w = true) x.1) x.2.

Lemma candidates_append n : ∀ cycle target idx,
  appends blob_root n
    (run_candidates parse_strings blob_root receipt_json n idx cfg cycle target balanced input)
    (candidates_ok n idx).
Proof.
  induction n as [|n IH]; intros cycle target idx; cbn [run_candidates].
  { apply appends_ret. by split. }
  change (S n) with (1 + n)%nat at 1.
  eapply appends_bind; [apply candidate_appends|]. intros [w a].
  replace n with (n + 0)%nat at 1 by lia.
  eapply appends_bind; [apply IH|]. intros [ws xs].
  apply appends_ret. intros l' [Hidx Hf] l [Hw Hout]. rewrite app_nil_r. cbn [fst snd] in *. split.
  - cbn [fst fmap list_fmap]. rewrite Hw. change (seq 0 (S n)) with (0%nat :: seq 1 n).
    cbn [fmap list_fmap]. f_equal; [lia|]. change (list_fmap _ _ _ ws) with (candidate_index <$> ws).
    rewrite Hidx. rewrite <- (fmap_S_seq 0 n). rewrite <- list_fmap_compose.
    apply list_fmap_ext. intros ? k _. cbn. lia.
  - unfold outcome_ok in Hout. cbn [fst snd] in *.
    assert (Forall2 (stands_for (l ++ l')) (filter (λ w, judge_admitted w = true) ws) xs) as Hf'.
    { eapply Forall2_impl; [exact Hf|]. intros. by apply stands_for_app_r. }
    destruct a as [a|]; cbn [option_list app].
    + destruct Hout as [Hj Ha]. rewrite filter_cons_True by done. constructor; [|done].
      by apply stands_for_app.
    + by rewrite filter_cons_False by (by rewrite Hout).
Qed.
End Candidates.

(** ** Campaigns *)

(** A latency that is a number. *)
Definition finite_latency (x : f64) : Prop := valid_binary prec emax x = true ∧ is_finite x = true.

#[export] Instance faster_order : WeakOrder (λ a, finite_latency (latency_of a.1.2)) faster.
Proof.
  split; unfold faster.
  - intros a b [Va Fa] [Vb Fb]. rewrite !lt_key by done. lia.
  - intros a b c [Va Fa] [Vb Fb] [Vc Fc]. rewrite !lt_key by done. lia.
Qed.

Section Campaigns.
Context `{Sha256, !Sha256Len, JsonStr, P256}.
Context (parse_strings : string → option (list string)) (blob_root : string).
Context `{!DigestsRoundTrip parse_strings}.
Context (receipt_json receipt_pretty : EvaluationReceipt → string) (block_pretty : LedgerBlock → string).
Context (cfg : SoakConfig) (key : SigningKey) (run_id : string) (input : N → CycleInput).

Abbreviation run_cycle := (run_cycle parse_strings blob_root receipt_json receipt_pretty block_pretty).
Abbreviation run_cycles := (run_cycles parse_strings blob_root receipt_json receipt_pretty block_pretty).
Abbreviation passed_gates := (passed_every_gate receipt_json cfg).

(** The winner of a cycle and its manifest entry: a candidate of the cycle that passed every gate,
    none of the admitted ones faster when their latencies are numbers. *)
Definition wins (l : list LedgerBlock) (rec : CycleRecord) (a : AdmittedMetaCandidate) : Prop :=
  let i := input (cycle_index rec) in
  ∃ w r b drive humanity, w ∈ candidates rec ∧ judge_admitted w = true ∧ b ∈ l
    ∧ observation i = Ok (drive, humanity)
    ∧ passed_gates (is_balanced drive humanity) (candidate_input i) w r b
    ∧ winning_candidate_id rec = Some (cand_id w) ∧ adm_candidate_id a = cand_id w
    ∧ adm_ledger_block_hash a = block_hash b ∧ patch_digest a = proposed_patch_digest w
    ∧ ((∀ w', w' ∈ candidates rec → judge_admitted w' = true → finite_latency (primary_metric_value w')) →
       ∀ w', w' ∈ candidates rec → judge_admitted w' = true →
       f64_lt (primary_metric_value w') (primary_metric_value w) = false).

Definition cycle_ok (l : list LedgerBlock) (rec : CycleRecord) (a : option AdmittedMetaCandidate) : Prop :=
  match a with
  | Some a => wins l rec a
  | None => winning_candidate_id rec = None ∧ Forall (λ w, judge_admitted w = false) (candidates rec)
  end.

(** What the records of a campaign say of it. *)
Definition cycles_ok (l : list LedgerBlock) (c : Campaign) : Prop :=
  ∃ adms, Forall2 (cycle_ok l) (cycle_records c) adms
    ∧ admitted_candidates c = adms ≫= option_list
    ∧ cycle_index <$> cycle_records c
      = (λ k, N.of_nat k + 1)%N <$> seq 0 (length (cycle_records c))
    ∧ total_candidates_evaluated c
      = N.of_nat (sum_list_with (λ r, length (candidates r)) (cycle_records c))
    ∧ total_candidates_admitted c = N.of_nat (length (admitted_candidates c)).

Definition campaign_inv (bs : list LedgerBlock) (n : nat) (c : Campaign) : Prop :=
  ∃ l, ledger_inv blob_root (bs ++ l) (store c) ∧ (length l <= n)%nat ∧ cycles_ok l c.

Lemma wins_app l l' rec a : wins l rec a → wins (l ++ l') rec a.
Proof.
  intros (w & r & b & d & h & Hw & Hj & Hb & Hrest). exists w, r, b, d, h.
  split; [done|]. split; [done|]. split; [|done]. apply elem_of_app. by left.
Qed.

Lemma cycle_ok_app l l' rec a : cycle_ok l rec a → cycle_ok (l ++ l') rec a.
Proof. destruct a; [apply wins_app|done]. Qed.

Lemma in_store_ok {A} bs n k c (m : M Store A) Q :
  campaign_inv bs n c → appends blob_root k m Q → (N.of_nat (length bs + n + k) <= i64_max)%N →
  ∃ l l' c' r, in_store m c = (c', r) ∧ ledger_inv blob_root (bs ++ l ++ l') (store c')
    ∧ (length (l ++ l') <= n + k)%nat ∧ cycles_ok (l ++ l') c'
    ∧ cycle_records c' = cycle_records c ∧ tracker c' = tracker c ∧ ∀ a, r = Ok a → Q l' a.
Proof.
  intros (l & Hi & Hl & adms & Hf & Hr) Hm Hb.
  destruct (Hm (bs ++ l) (store c) Hi) as (l' & Hi' & Hl' & Hq); [rewrite length_app; lia|].
  unfold in_store. destruct (m (store c)) as [s r] eqn:E. cbn [fst snd] in *.
  exists l, l'. do 2 eexists. split; [done|]. rewrite app_assoc. split; [done|].
  split; [rewrite length_app; lia|]. split; [|by split_and!].
  exists adms. split; [|done]. eapply Forall2_impl; [exact Hf|]. intros. by apply cycle_ok_app.
Qed.

(** The winner is the first of the admissible ones by latency. *)
Lemma winner_ok bal i idx n l recs ads rec h x :
  candidates_ok receipt_json cfg bal (candidate_input i) n 1 l (recs, ads) →
  head (sort_by faster ads) = Some x →
  input idx = i → cycle_index rec = idx → candidates rec = recs →
  winning_candidate_id rec = Some (id x.1.1) →
  (∃ d hu, observation i = Ok (d, hu) ∧ bal = is_balanced d hu) →
  wins l rec (admitted_entry cfg h x).
Proof.
  intros [_ Hf] Hx Hi Hidx Hrecs Hwin (d & hu & Hobs & ->).
  destruct (sort_by faster ads) as [|y rest] eqn:Hs; [done|]. injection Hx as ->.
  assert (x ∈ ads) as Hin by (apply (elem_of_sort_by faster); rewrite Hs; by left).
  destruct (proj1 (list_elem_of_lookup _ _) Hin) as [k Hk].
  destruct (Forall2_lookup_r _ _ _ _ _ Hf Hk) as (w & Hw & (Hb & Hg & Hid & Hd)).
  cbn [fst snd] in *. apply list_elem_of_lookup_2, list_elem_of_filter in Hw as [Hj Hw].
  exists w, x.1.2, x.2, d, hu. rewrite Hidx, Hi, Hrecs. rewrite Hwin, Hid.
  split_and!; try done. intros Hfin w' Hw' Hj'.
  assert (∀ k a, ads !! k = Some a → ∃ w0, w0 ∈ recs ∧ judge_admitted w0 = true
    ∧ primary_metric_value w0 = latency_of a.1.2) as Hrec.
  { intros k0 a Ha. destruct (Forall2_lookup_r _ _ _ _ _ Hf Ha) as (w0 & Hw0 & (_ & Hg0 & _)).
    apply list_elem_of_lookup_2, list_elem_of_filter in Hw0 as [Hj0 Hw0].
    exists w0. split_and!; try done. apply Hg0. }
  assert (Forall (λ a : Admissible, finite_latency (latency_of a.1.2)) ads) as Hall.
  { apply Forall_lookup. intros k0 a (w0 & Hw0 & Hj0 & <-)%Hrec. by apply Hfin. }
  assert (w' ∈ filter (λ w, judge_admitted w = true) recs) as Hw0 by (by apply list_elem_of_filter).
  destruct (proj1 (list_elem_of_lookup _ _) Hw0) as [k' Hk'].
  destruct (Forall2_lookup_l _ _ _ _ _ Hf Hk') as (y & Hy & (_ & Hg' & _)).
  assert (primary_metric_value w' = latency_of y.1.2) as -> by apply Hg'.
  assert (primary_metric_value w = latency_of x.1.2) as -> by apply Hg.
  destruct (sort_by_head _ faster ads x rest Hall Hs y) as [->|Hlt]; [by eapply list_elem_of_lookup_2| |done].
  destruct (f64_lt (latency_of x.1.2) (latency_of x.1.2)) eqn:E; [|done].
  pose proof (proj1 (Forall_forall _ _) Hall x Hin) as Hpx.
  pose proof (weak_asym (lt := faster) x x Hpx Hpx E). unfold faster in *. congruence.
Qed.

Lemma conclude_ok b h idx cycle n l recs ads root c d hu :
  let i := input idx in
  cycles_ok l c → observation i = Ok (d, hu) →
  candidates_ok receipt_json cfg (is_balanced d hu) (candidate_input i) n 1 l (recs, ads) →
  idx = (N.of_nat (length (cycle_records c)) + 1)%N →
  cycles_ok l (conclude receipt_pretty block_pretty cfg i b h idx cycle recs ads root c).
Proof.
  intros i (adms & Hf & Had & Hidx & Hev & Hta) Hobs Hok ->.
  unfold conclude. set (winner := head (sort_by faster ads)). set (entry := Build_CycleRecord _ _ _ _ _ _ _ _ _ _).
  assert (cycle_ok l entry (admitted_entry cfg h <$> winner)) as He.
  { destruct winner as [x|] eqn:Hw; cbn [fmap option_fmap option_map cycle_ok].
    - eapply winner_ok; [exact Hok|exact Hw|done..|]. by exists d, hu.
    - split; [done|]. subst winner. cbn [candidates entry].
      assert (ads = []) as ->.
      { apply Permutation_nil. rewrite <- (sort_by_perm faster ads). by destruct (sort_by faster ads). }
      destruct Hok as [_ Hf0]. cbn [fst snd] in Hf0. apply Forall2_nil_inv_r in Hf0.
      apply Forall_forall. intros w Hw0. destruct (judge_admitted w) eqn:Hj; [|done].
      exfalso. eapply (elem_of_nil w). rewrite <- Hf0. by apply list_elem_of_filter. }
  exists (adms ++ [admitted_entry cfg h <$> winner]). split_and!; cbn.
  - apply Forall2_app; [done|]. by constructor.
  - rewrite Had, bind_app. cbn. by rewrite app_nil_r.
  - rewrite fmap_app, length_app, Hidx, seq_app, fmap_app. done.
  - rewrite Hev. rewrite sum_list_with_app. cbn. lia.
  - rewrite Hta, length_app. destruct winner; cbn; lia.
Qed.

Lemma checkpoint_in_store now bs l c :
  ledger_inv blob_root (bs ++ l) (store c) → cycles_ok l c →
  ∃ c' r, in_store (checkpoint parse_strings now (Some key)) c = (c', r)
    ∧ ledger_inv blob_root (bs ++ l) (store c') ∧ cycles_ok l c'
    ∧ cycle_records c' = cycle_records c ∧ tracker c' = tracker c.
Proof.
  intros Hi Hok. destruct (inv_checkpoint parse_strings blob_root _ _ now (Some key) Hi) as [Hi' _].
  unfold in_store. destruct (checkpoint parse_strings now (Some key) (store c)) as [s r].
  do 2 eexists. by split_and!.
Qed.

(** One cycle. *)
Lemma cycle_step bs n c idx :
  let k := candidates_per_cycle cfg in
  campaign_inv bs n c → (N.of_nat (length bs + n + k) <= i64_max)%N →
  idx = (N.of_nat (length (cycle_records c)) + 1)%N →
  let '(c', r) := run_cycle cfg key run_id idx (input idx) c in
  campaign_inv bs (n + k) c'
  ∧ (r = Ok (Some true) → length (cycle_records c') = S (length (cycle_records c))).
Proof.
  intros k Hc Hb Hidx.
  assert (campaign_inv bs (n + k) c) as Hc'.
  { destruct Hc as (l & ? & ? & ?). exists l. split_and!; [done|lia|done]. }
  set (i := input idx). unfold run_cycle, Soak.run_cycle.
  destruct (observation i) as [[d hu]|e] eqn:Hobs; [|done].
  destruct (cycle_ranking cfg (cycle_id_of run_id idx) i) as [[ranked|]|e]; [|done..].
  destruct (choose_bottleneck (tracker c) ranked) as [b|]; [|done].
  change (candidates_per_cycle cfg) with k.
  destruct (in_store_ok bs n k c _ _ Hc (candidates_append parse_strings blob_root receipt_json cfg
    (is_balanced d hu) (candidate_input i) k (cycle_id_of run_id idx) (target_of (rank_node_name b)) 1) Hb)
    as (l & l' & c1 & r & -> & Hi1 & Hl1 & Hok1 & Hrecs1 & _ & Hq).
  assert (campaign_inv bs (n + k) c1) as Hc1 by (by exists (l ++ l')).
  destruct r as [[recs ads]|e]; [|done]. specialize (Hq _ eq_refl).
  assert (candidates_ok receipt_json cfg (is_balanced d hu) (candidate_input i) k 1 (l ++ l') (recs, ads))
    as Hq'.
  { destruct Hq as [Hx Hf]. split; [done|]. eapply Forall2_impl; [exact Hf|]. intros. by apply stands_for_app_r. }
  destruct (checkpoint_in_store (checkpoint_now i) bs (l ++ l') c1 Hi1 Hok1) as (c2 & cp & -> & Hi2 & Hok2 & Hrecs2 & _).
  rewrite <- Hrecs1, <- Hrecs2 in Hidx. split.
  - exists (l ++ l'). split; [done|]. split; [done|]. by apply (conclude_ok b _ idx _ k _ _ _ _ c2 d hu).
  - intros _. cbn. rewrite length_app, Hrecs2, Hrecs1. cbn. lia.
Qed.

Lemma cycles_step m : ∀ bs n c idx,
  let k := candidates_per_cycle cfg in
  campaign_inv bs n c → (N.of_nat (length bs + n + m * k) <= i64_max)%N →
  idx = (N.of_nat (length (cycle_records c)) + 1)%N →
  campaign_inv bs (n + m * k) (run_cycles m idx cfg key run_id input c).1.
Proof.
  induction m as [|m IH]; intros bs n c idx k Hc Hb Hidx; cbn [Soak.run_cycles].
  { by rewrite Nat.add_0_r. }
  pose proof (cycle_step bs n c idx Hc ltac:(lia) Hidx) as Hs. fold k in Hs.
  unfold mbind, M_bind.
  destruct (run_cycle cfg key run_id idx (input idx) c) as [c1 r]. destruct Hs as [Hc1 Hlen].
  assert (∀ c', campaign_inv bs (n + k) c' → campaign_inv bs (n + S m * k) c') as Hmono.
  { intros c' (l & ? & ? & ?). exists l. split_and!; [done|lia|done]. }
  destruct r as [[[|]|]|e]; [|by apply Hmono..].
  replace (n + S m * k)%nat with (n + k + m * k)%nat by lia.
  apply IH; [done|lia|]. rewrite Hlen by done. lia.
Qed.

Lemma new_campaign_inv bs s : ledger_inv blob_root bs s → campaign_inv bs 0 (new_campaign s).
Proof.
  intros Hi. exists []. rewrite app_nil_r. split; [done|]. split; [done|]. exists []. by split_and!.
Qed.
End Campaigns.

Section Batch.
Context `{Sha256, !Sha256Len, JsonStr, P256}.
Context (parse_strings : string → option (list string)) (blob_root : string).
Context `{!DigestsRoundTrip parse_strings}.
Context (receipt_json receipt_pretty : EvaluationReceipt → string) (block_pretty : LedgerBlock → string).
Context (key_of_bytes : string → option SigningKey).
Context (cfg : SoakConfig) (run_id : string) (i : BatchInput).

Abbreviation run_batch :=
  (run_batch parse_strings blob_root receipt_json receipt_pretty block_pretty key_of_bytes).
Abbreviation run_preflight_checks := (run_preflight_checks parse_strings key_of_bytes).

(** The blocks a campaign adds at most. *)
Definition budget : nat := (total_cycles cfg * candidates_per_cycle cfg)%nat.

Definition manifest_ok (l : list LedgerBlock) (x : option (SoakRunManifest * Campaign)) : Prop :=
  match x with
  | Some (m, c) => cycles_ok receipt_json cfg (cycle_input i) l c
                   ∧ ∃ root, m = manifest_of run_id root c
  | None => True
  end.

Lemma preflight_appends key_hex :
  appends blob_root 0 (run_preflight_checks i key_hex) (λ _ _, True).
Proof.
  assert (∀ A (r : result A), appends blob_root 0 (mlift r) (λ _ _, True)) as Hlift.
  { intros A r. by apply appends_lift. }
  unfold Soak.run_preflight_checks. eapply appends_after; [apply Hlift|]. intros [|]; cbn [negb].
  2: apply Hlift.
  eapply appends_after; [apply Hlift|]. intros _.
  eapply appends_after; [eapply appends_map_failure, appends_open; exact _|]. intros _.
  destruct (holdouts_exist i); cbn [negb]; [|apply Hlift].
  destruct (cargo_toml_exists i); cbn [negb]; [by apply appends_ret|apply Hlift].
Qed.

Lemma campaign_appends key :
  appends blob_root budget
    (run_campaign parse_strings blob_root receipt_json receipt_pretty block_pretty cfg key run_id i)
    manifest_ok.
Proof.
  intros bs s Hi Hb. unfold run_campaign.
  pose proof (cycles_step parse_strings blob_root receipt_json receipt_pretty block_pretty cfg key
    run_id (cycle_input i) (total_cycles cfg) bs 0 (new_campaign s) 1 (new_campaign_inv _ _ _ _ _ _ Hi))
    as Hc.
  destruct (run_cycles _ _ _ _ _ _ _ _ _ _ _ _) as [c r].
  destruct Hc as (l & Hl & Hn & Hok); [unfold budget in Hb; lia|done|]. cbn [fst] in Hl, Hok.
  exists l. destruct r as [[[]|]|e]; [|(split; [done|split; [done|by intros a [= <-]]])|(split; [done|split; [done|by intros a [=]]])].
  destruct (checkpoint_in_store parse_strings blob_root receipt_json cfg key (cycle_input i) (final_now i)
    bs l c Hl Hok) as (c2 & cp & -> & Hl2 & Hok2 & _).
  split; [done|]. split; [done|]. intros x Hx. destruct (manifest_saved i) as [[]|e]; [|done].
  injection Hx as <-. split; [done|]. by eexists.
Qed.

Lemma batch_appends : appends blob_root budget (run_batch cfg run_id i) manifest_ok.
Proof.
  unfold Soak.run_batch.
  eapply appends_after; [by apply (appends_lift _ _ (λ _ _, True))|]. intros key_hex.
  eapply appends_after; [by apply (appends_lift _ _ (λ _ _, True))|]. intros key.
  eapply appends_after; [eapply appends_map_failure, preflight_appends|]. intros _.
  eapply appends_after; [eapply appends_map_failure, appends_open; exact _|]. intros _.
  apply campaign_appends.
Qed.

(** a soak campaign only appends to the ledger: whatever the model, the jail, the judge, the
    clock and the disk answer, and however it ends - a manifest, an error or a panic -, every
    earlier block stays in place, each candidate adds at most one, and the ledger passes the audit. *)
Theorem campaign_only_appends n s now :
  reaches parse_strings blob_root n s → (N.of_nat (S n + budget) <= i64_max)%N →
  let s' := (run_batch cfg run_id i s).1 in
  (∃ l, all_blocks parse_strings s' = all_blocks parse_strings s ++ l ∧ (length l <= budget)%nat)
  ∧ ∃ r, verify_chain_integrity parse_strings blob_root now None s' = Ok r ∧ chain_valid r = true.
Proof.
  intros Hr Hb s'. destruct (reaches_inv parse_strings blob_root n s Hr) as (bs & Hi & Hl); [lia|].
  destruct (batch_appends bs s Hi) as (l & Hi' & Hn & _); [lia|]. fold s' in Hi'. split.
  - exists l. by rewrite (inv_all_blocks _ _ _ _ Hi), (inv_all_blocks _ _ _ _ Hi').
  - eexists. split; [by apply (inv_audits _ _ (bs ++ l))|done].
Qed.

(** C15: the manifest of a campaign is honest: its cycles are numbered from 1, its totals count their
    records, and its admitted candidates are exactly the winners, one at most per cycle.  A winner
    is a candidate of its cycle whose target is permitted, which was staged, compiled, verified
    while the system was balanced and admitted by the judge, and which no other admitted candidate
    of the cycle beats when the latencies are numbers; its receipt is the payload of the ledger
    block the entry names. *)
Theorem manifest_honest n s s' m c :
  reaches parse_strings blob_root n s → (N.of_nat (S n + budget) <= i64_max)%N →
  run_batch cfg run_id i s = (s', Ok (Some (m, c))) →
  ∃ adms, Forall2 (cycle_ok receipt_json cfg (cycle_input i) (all_blocks parse_strings s'))
            (manifest_cycles m) adms
    ∧ manifest_admitted m = adms ≫= option_list
    ∧ cycle_index <$> manifest_cycles m
      = (λ k, N.of_nat k + 1)%N <$> seq 0 (length (manifest_cycles m))
    ∧ manifest_evaluated m
      = N.of_nat (sum_list_with (λ r, length (candidates r)) (manifest_cycles m))
    ∧ manifest_admitted_count m = N.of_nat (length (manifest_admitted m)).
Proof.
  intros Hr Hb Hrun. destruct (reaches_inv parse_strings blob_root n s Hr) as (bs & Hi & Hl); [lia|].
  destruct (batch_appends bs s Hi) as (l & Hi' & Hn & Hok); [lia|].
  rewrite Hrun in Hi', Hok. destruct (Hok _ eq_refl) as [(adms & Hf & Hrest) [rt ->]].
  exists adms. split; [|done]. cbn [fst] in Hi'. rewrite (inv_all_blocks _ _ _ _ Hi').
  eapply Forall2_impl; [exact Hf|]. intros rec a Ha. destruct a as [a|]; [|done].
  destruct Ha as (w & r & b & d & h & Hw & Hj & Hin & Ha). exists w, r, b, d, h.
  split_and!; [done|done| |apply Ha..]. apply elem_of_app. by right.
Qed.
End Batch.

(** ** Quarantine *)

Section Quarantine.
Context `{Sha256, !Sha256Len, JsonStr, P256}.
Context (parse_strings : string → option (list string)) (blob_root : string).
Context (receipt_json receipt_pretty : EvaluationReceipt → string) (block_pretty : LedgerBlock → string).
Context (cfg : SoakConfig) (key : SigningKey) (run_id : string) (input : N → CycleInput).

Abbreviation run_cycle := (run_cycle parse_strings blob_root receipt_json receipt_pretty block_pretty).
Abbreviation run_cycles := (run_cycles parse_strings blob_root receipt_json receipt_pretty block_pretty).

Definition short_digest (text : string) : string := String.substring 0 12 (sha256_hex text).

Lemma short_digest_length x : String.length (short_digest x) = 12%nat.
Proof. apply substring_length. rewrite sha256_hex_length. lia. Qed.

Lemma pairing_key_inj n n' x x' :
  pairing_key n x = pairing_key n' x' → n = n' ∧ short_digest x = short_digest x'.
Proof.
  unfold pairing_key. fold (short_digest x) (short_digest x'). intros Heq.
  pose proof (f_equal String.length Heq) as Hl. rewrite !str_app_length, !short_digest_length in Hl.
  cbn [String.length] in Hl. apply str_app_inj_len in Heq as [-> Heq]; [|lia].
  split; [done|]. by injection Heq.
Qed.

(** The ranking of cycle [j]. *)
Definition ranks (j : N) (rs : list BottleneckRank) : Prop :=
  cycle_ranking cfg (cycle_id_of run_id j) (input j) = Ok (Some rs).

(** Only pairings of problems that cycles worked on are exhausted. *)
Definition known_pairings (t : Tracker) : Prop :=
  ∀ p, p ∈ exhausted_pairings t →
  ∃ j rs b, ranks j rs ∧ b ∈ rs ∧ p = pairing_key (rank_node_name b) (problem_of b).

(** A cycle worked on the head of its ranking. *)
Definition worked_on_head (rec : CycleRecord) : Prop :=
  ∃ rs b, ranks (cycle_index rec) rs ∧ head rs = Some b ∧ bottleneck_node rec = rank_node_name b.

(** The explanation of a bottleneck and the problem of one of the same node have different digests. *)
Definition digests_differ : Prop := ∀ j j' rs rs' b b',
  ranks j rs → ranks j' rs' → b ∈ rs → b' ∈ rs' → rank_node_name b = rank_node_name b' →
  short_digest (causal_explanation b) ≠ short_digest (problem_of b').

Lemma choose_head t j rs : digests_differ → known_pairings t → ranks j rs →
  choose_bottleneck t rs = head rs.
Proof.
  intros Hd Ht Hr. unfold choose_bottleneck. destruct rs as [|b rs]; [done|]. cbn [List.find].
  assert (is_exhausted (rank_node_name b) (causal_explanation b) t = false) as ->; [|done].
  apply bool_decide_eq_false. intros (j' & rs' & b' & Hr' & Hb' & Heq)%Ht.
  apply pairing_key_inj in Heq as [Hn Hs]. by eapply (Hd j j'); [done|done|by left|done..].
Qed.

Lemma known_failure t j rs b : known_pairings t → ranks j rs → b ∈ rs →
  known_pairings (record_failure (rank_node_name b) (problem_of b) t).2.
Proof.
  intros Ht Hr Hb p Hp. unfold record_failure in Hp. destruct (3 <=? _)%N; cbn in Hp; [|by apply Ht].
  apply elem_of_union in Hp as [->%elem_of_singleton|Hp]; [by exists j, rs, b|by apply Ht].
Qed.

Lemma known_success t n x : known_pairings t → known_pairings (record_success n x t).
Proof. intros Ht p Hp. apply Ht. cbn in Hp. by apply elem_of_difference in Hp as [? _]. Qed.

Definition inert (c : Campaign) : Prop :=
  known_pairings (tracker c) ∧ Forall worked_on_head (cycle_records c).

Lemma in_store_inert {A} (m : M Store A) c : inert c → inert (in_store m c).1.
Proof. unfold in_store. by destruct (m (store c)). Qed.

Lemma cycle_inert idx c : digests_differ → inert c → inert (run_cycle cfg key run_id idx (input idx) c).1.
Proof.
  intros Hd Hc. unfold Soak.run_cycle.
  destruct (observation _) as [[d hu]|e]; [|done].
  destruct (cycle_ranking _ _ _) as [[ranked|]|e] eqn:Hr; [|done..].
  rewrite (choose_head _ idx ranked Hd (proj1 Hc) Hr). destruct ranked as [|b rs]; [done|]. cbn [head].
  match goal with |- context [in_store ?m c] => pose proof (in_store_inert m c Hc) as Hc1; destruct (in_store m c) as [c1 [[recs ads]|e]] end; [|done].
  match goal with |- context [in_store ?m c1] => pose proof (in_store_inert m c1 Hc1) as Hc2; destruct (in_store m c1) as [c2 cp] end.
  destruct Hc2 as [Ht Hw]. split; cbn.
  - destruct (head _); [by apply known_success|]. eapply known_failure; [done|exact Hr|by left].
  - apply Forall_app. split; [done|]. apply Forall_singleton. by exists (b :: rs), b.
Qed.

Lemma cycles_inert n : ∀ idx c, digests_differ → inert c →
  inert (run_cycles n idx cfg key run_id input c).1.
Proof.
  induction n as [|n IH]; intros idx c Hd Hc; cbn [Soak.run_cycles]; [done|].
  pose proof (cycle_inert idx c Hd Hc) as Hc1. unfold mbind, M_bind.
  destruct (run_cycle cfg key run_id idx (input idx) c) as [c1 [[[|]|]|e]]; try done. by apply IH.
Qed.

(** C37: the quarantine of exhausted hypotheses never takes effect: [is_exhausted] is asked with the
    bottleneck's explanation while failures are recorded under the longer problem text, so, unless
    the twelve hex digits kept of two different texts coincide, every cycle of a campaign works on
    the head of its ranking, however often that bottleneck has failed. *)
Theorem quarantine_inert n s c r :
  digests_differ → run_cycles n 1 cfg key run_id input (new_campaign s) = (c, r) →
  Forall worked_on_head (cycle_records c).
Proof.
  intros Hd Hr. pose proof (cycles_inert n 1 (new_campaign s) Hd) as Hi. rewrite Hr in Hi.
  apply Hi. split; [|constructor]. intros p Hp. cbn in Hp. set_solver.
Qed.
End Quarantine.

(** ** What a campaign works on *)

(** Every bottleneck bears the name of a node. *)
Lemma rank_names entries g rs b : rank_bottlenecks entries g = Some rs → b ∈ rs →
  ∃ e, e ∈ entries ∧ rank_node_name b = node_name e.2.
Proof.
  unfold rank_bottlenecks. intros Hr Hb.
  destruct (calculate_betweenness_centrality _ _) as [c|]; [|done]. cbn [mbind option_bind] in Hr.
  injection Hr as <-. apply list_elem_of_lookup in Hb as [k Hk].
  rewrite list_lookup_imap in Hk. apply fmap_Some in Hk as (x & Hx & ->).
  apply list_elem_of_lookup_2, elem_of_sort_by, list_elem_of_fmap in Hx as (e & -> & He).
  exists e. split; [done|]. unfold rank_entry. destruct e as [k0 node]. by case_match.
Qed.

(** The nodes of the pipeline are called after subsystems, so the file of a cycle is always
    [src/observe.rs]. *)
Lemma target_always_observe cfg cycle i rs b :
  cycle_ranking cfg cycle i = Ok (Some rs) → b ∈ rs → target_of (rank_node_name b) = "src/observe.rs".
Proof.
  unfold cycle_ranking. destruct (measure_stages _ _ _ _) as [ms|]; [|done].
  destruct (build_capability_graph ms) as [g|e] eqn:Hg; [|done]. cbn. intros [= Hr] Hb.
  destruct (pipeline_shape ms g Hg) as (_ & Hn & _).
  destruct (rank_names _ _ _ _ Hr Hb) as ([k n] & He & ->). apply elem_of_map_to_list in He.
  destruct (Hn k n He) as (st & _ & Hname). cbn [snd]. rewrite Hname. by destruct st.
Qed.

(** The permitted surface is compared as text: a path that leaves it passes. *)
Example escape_permitted :
  is_permitted ["src/propose/"] "src/propose/../../Cargo.toml" = true
  ∧ is_permitted ["src/observe.rs"] "src/observe.rs.d/any" = true.
Proof. done. Qed.

(** ** Examples *)

Module SoakExamples.
Import Checksum PlainJson KeyedChecksum LedgerExample.

Definition rsi_cfg : RsiConfig :=
  {| cfg_model_url := "u"; cfg_model_id := "m"; cfg_rsi_root := ".rsi"; cfg_holdouts_dir := None;
     cfg_canary_target := 5000; cfg_cortex_url := "c"; cfg_cortex_space := "s";
     cfg_ratify_roots := ["src"]; measure_min_samples := 3; measure_window_cycles := 20;
     measure_p95_min_samples := 20 |}.
Definition config : SoakConfig :=
  {| rsi_root := ".rsi"; measure_cfg := rsi_cfg; measure_target_improvement_pct := f64_of_N 10;
     total_cycles := 1; candidates_per_cycle := 3; writable_prefixes := ["src/observe.rs"];
     signing_key_hex := Some "00" |}.

Definition proposal (target patch : string) : ImprovementProposal :=
  {| id := "p"; title := "t"; description := "d"; target_file := target; proposed_patch := patch;
     kind := Optimization; created_at := T; sandbox_path := None;
     operator_signature := None |}.
(** A judge's receipt; the latency change is the bits of a number. *)
Definition receipt (ok : bool) (latency : N) : EvaluationReceipt :=
  {| Receipt.cycle_id := "c"; candidate_id := "p"; parent_id := "parent"; evaluated_at := T;
     evaluator_version := "1"; passed_all_hard_invariants := true; passed_statistical_gates := ok;
     admitted := ok; layer_results := [];
     metrics_summary := Some {| Receipt.latency_delta_pct := latency; Receipt.p_value := 0;
       p95_ci_upper_degradation_pct := 0; p99_ci_upper_degradation_pct := 0; rss_growth_pct := 0;
       candidate_resident_mb := 0 |};
     receipt_digest := "d"; receipt_signature := None; format_version := 1; binding := None |}.
Definition candidate (p : option ImprovementProposal) (r : EvaluationReceipt) : CandidateInput :=
  {| seat_available := true; model_answer := p; unslop := None; staging := Ok tt;
     has_cargo_toml := true; build := Ok (true, ""); verified := true; judge_answer := Ok r;
     cand_now := T; cand_fate := BlobWritten; cand_uuid := "u" |}.

(** Two admitted candidates, both slower than the parent, and one outside the surface. *)
Definition slow : N := Eval vm_compute in f64_to_bits (f64_of_N 8).
Definition slower : N := Eval vm_compute in f64_to_bits (f64_of_N 9).
Definition candidates_of (k : N) : CandidateInput :=
  match k with
  | 1 => candidate (Some (proposal "src/observe.rs" "one")) (receipt true slower)
  | 2 => candidate (Some (proposal "src/main.rs" "two")) (receipt true 0)
  | _ => candidate (Some (proposal "src/observe.rs" "three")) (receipt true slow)
  end%N.
Definition cycle_of (cands : N → CandidateInput) : CycleInput :=
  {| observation := Ok (f64_of_N 1, f64_of_N 1); stage_records := fail "no log" [];
     measured_in := {| workload_key := "w"; profile := MeasureExamples.profile;
                       ctx_fingerprint := "f"; source_commit := None |};
     hypothesis_uuid := "h"; candidate_input := cands; staged_writes := (true, true, true);
     cortex_answer := None; checkpoint_now := T |}.
Definition batch : BatchInput :=
  {| bwrap := Ok true; holdouts_shown := "h"; repo_shown := "."; holdouts_exist := true;
     cargo_toml_exists := true; open_now := T; cycle_input := λ _, cycle_of candidates_of;
     final_now := T; manifest_saved := Ok tt |}.

Definition receipt_text (r : EvaluationReceipt) : string :=
  match metrics_summary r with Some m => dec (Receipt.latency_delta_pct m) | None => "none" end.
Definition run : Store * result (option (SoakRunManifest * Campaign)) :=
  run_batch parse root receipt_text receipt_text block_hash (λ _, Some sk) config "r" batch s3.

Definition summary : option (list string * list (string * bool * bool) * N * N * nat) :=
  match run with
  | (s, Ok (Some (m, _))) =>
    Some (bottleneck_node <$> manifest_cycles m,
          (λ a, (adm_candidate_id a, criteria_1_novel_discovery a, criteria_2_self_capability_gain a))
            <$> manifest_admitted m,
          manifest_evaluated m, manifest_admitted_count m, length (all_blocks parse s))
  | _ => None
  end.
(** The winner is slower than its parent, and the manifest calls it a gain. *)
Example slower_winner_is_a_gain :
  summary = Some (["Build Jail"], [("soak-r-c01-c3", true, true)], 3%N, 1%N, 6%nat).
Proof. vm_compute. reflexivity. Qed.

(** Four cycles in which the model never answers. *)
Definition silent : N → CandidateInput := λ _, candidate None (receipt false 0).
Definition failing : Campaign * result (option unit) :=
  run_cycles parse root receipt_text receipt_text block_hash 4 1 config sk "r"
    (λ _, cycle_of silent) (new_campaign s3).

(** The pairing is exhausted, and the campaign stays with it. *)
Example exhausted_but_chosen :
  length (exhausted_list (tracker failing.1)) = 1%nat
  ∧ bottleneck_node <$> cycle_records failing.1
    = ["Build Jail"; "Build Jail"; "Build Jail"; "Build Jail"].
Proof. vm_compute. by split. Qed.

Definition structural : list BottleneckRank :=
  match cycle_ranking config "c" (cycle_of silent) with Ok (Some rs) => rs | _ => [] end.
Lemma ranks_structural j rs :
  ranks config "r" (λ _, cycle_of silent) j rs → rs = structural.
Proof.
  unfold ranks. change (cycle_ranking config (cycle_id_of "r" j) (cycle_of silent))
    with (cycle_ranking config "c" (cycle_of silent)).
  unfold structural. by intros ->.
Qed.
Lemma structural_differ : Forall (λ b, Forall (λ b',
  short_digest (causal_explanation b) ≠ short_digest (problem_of b')) structural) structural.
Proof. apply (bool_decide_unpack _). vm_compute. exact I. Qed.
End SoakExamples.

Section Witnesses.
Import Checksum PlainJson KeyedChecksum LedgerExample SoakExamples.

Lemma campaign_only_appends_witness :
  reaches parse root 3 s3 ∧ (N.of_nat (4 + budget config) <= i64_max)%N
  ∧ (∃ l, all_blocks parse run.1 = all_blocks parse s3 ++ l ∧ (length l <= budget config)%nat)
  ∧ ∃ r, verify_chain_integrity parse root T None run.1 = Ok r ∧ chain_valid r = true.
Proof.
  split; [exact reach3|]. split; [by vm_compute|].
  apply (campaign_only_appends parse root receipt_text receipt_text block_hash (λ _, Some sk) config "r"
    batch 3 s3 T reach3). by vm_compute.
Defined.

Lemma manifest_honest_witness : ∃ s' m c,
  run = (s', Ok (Some (m, c)))
  ∧ ∃ adms, Forall2 (cycle_ok receipt_text config (λ _, cycle_of candidates_of) (all_blocks parse s'))
              (manifest_cycles m) adms
    ∧ manifest_admitted m = adms ≫= option_list
    ∧ cycle_index <$> manifest_cycles m
      = (λ k, N.of_nat k + 1)%N <$> seq 0 (length (manifest_cycles m))
    ∧ manifest_evaluated m
      = N.of_nat (sum_list_with (λ r, length (candidates r)) (manifest_cycles m))
    ∧ manifest_admitted_count m = N.of_nat (length (manifest_admitted m)).
Proof.
  pose proof slower_winner_is_a_gain as E. unfold summary in E.
  destruct run as [s' [[[m c]|]|e]] eqn:Hr; [|discriminate E|discriminate E].
  exists s', m, c. split; [reflexivity|].
  apply (manifest_honest parse root receipt_text receipt_text block_hash (λ _, Some sk) config "r"
    batch 3 s3 s' m c reach3); [by vm_compute|exact Hr].
Defined.

Lemma quarantine_inert_witness :
  digests_differ config "r" (λ _, cycle_of silent)
  ∧ Forall (worked_on_head config "r" (λ _, cycle_of silent)) (cycle_records failing.1).
Proof.
  assert (digests_differ config "r" (λ _, cycle_of silent)) as Hd.
  { intros j j' rs rs' b b' ->%ranks_structural ->%ranks_structural Hb Hb' _.
    exact (proj1 (Forall_forall _ _) (proj1 (Forall_forall _ _) structural_differ b Hb) b' Hb'). }
  split; [exact Hd|].
  apply (quarantine_inert parse root receipt_text receipt_text block_hash config sk "r"
    (λ _, cycle_of silent) 4 s3 failing.1 failing.2 Hd). apply surjective_pairing.
Defined.
End Witnesses.
