(* ===== verification/Artifacts.v ===== *)
(** What a build produced ([src/isolation/manifest.rs]): the files of a directory in one order, the
    digest of a source tree, the manifest of an output directory and its verification.

    File names are UTF-8 texts and the trees hold directories and files, no links ([Supervisor]'s
    file system); permission bits are an input. *)

From S2P Require Import Prelude RustStd RustPath RustNum RustFloat Sorting Digest Supervisor.
#[local] Open Scope string_scope.
#[local] Open Scope list_scope.

(** ** Files in order

    The directories are listed in the order of the names and entered on the way, so the files come
    in the order of their path's parts. *)

Fixpoint parts_lt (a b : list string) : bool :=
  match a, b with
  | _, [] => false
  | [], _ :: _ => true
  | x :: a, y :: b => str_lt x y || (bool_decide (x = y) && parts_lt a b)
  end.

Definition skipped (name : string) : bool :=
  bool_decide (name = "target") || bool_decide (name = ".git") || bool_decide (name = "node_modules").

(** A relative path of entries, none of them skipped. *)
Definition collected (rel : string) : bool :=
  forallb (λ part, negb (bool_decide (part = "")) && negb (skipped part)) (split_on slash rel).

(** The files under [dir] with their contents, by relative path. *)
Definition collect_files_sorted (dir : string) (d : disk) : list (string * string) :=
  sort_by (λ x y, parts_lt (split_on slash x.1) (split_on slash y.1))
    (filter (λ e, collected e.1 = true)
       (omap (λ e : string * string, (., e.2) <$> RustStd.strip_prefix (dir +:+ "/") e.1) (map_to_list d))).

(** ** Records *)

Record ArtifactRecord := {
  relative_path : string;
  sha256_of : string;
  size_bytes : N;
  is_executable : bool
}.

Record ArtifactManifest := {
  manifest_version : string;
  am_candidate_id : string;
  builder_image_digest : string;
  source_bundle_digest : string;
  artifacts : list ArtifactRecord;
  manifest_digest : string;
  timestamp_utc : string
}.

Record CandidateManifest := {
  cm_version : string;
  cm_candidate_id : string;
  parent_commit_sha : string;
  proposal_id : string;
  code_tier : string;
  declared_files : list string;
  primary_metric : string;
  expected_delta_pct : f64;
  regression_budgets : gmap string f64;
  protected_metric_limits : gmap string f64;
  cm_timestamp_utc : string
}.

(** [CandidateManifest::new]. *)
Definition new_candidate_manifest (candidate commit proposal tier : string) (files : list string)
    (metric : string) (delta : f64) (now : string) : CandidateManifest :=
  {| cm_version := "1.0.0"; cm_candidate_id := candidate; parent_commit_sha := commit;
     proposal_id := proposal; code_tier := tier; declared_files := files; primary_metric := metric;
     expected_delta_pct := delta;
     regression_budgets :=
       <["rss_growth_pct" := f64_of_N 2]>
         (<["latency_p99_degradation_pct" := f64_of_N 1]>
            (<["latency_p95_degradation_pct" := f64_of_N 1]> ∅));
     protected_metric_limits := {["host_memory_ceiling_mb" := f64_of_N 49152]};
     cm_timestamp_utc := now |}.

Section Artifacts.
Context `{Sha256}.

Definition compute_file_sha256 (d : disk) (p : string) : result string :=
  bytes ← read_file d p "Failed to read file {:?}: {}"; Ok (sha256_hex bytes).

(** What one file adds to the digest of a tree. *)
Definition digest_part (e : string * string) : string := e.1 +:+ sha256_hex e.2.

Definition compute_source_digest (dir : string) (d : disk) : string :=
  sha256_hex (concat_all (digest_part <$> collect_files_sorted dir d)).

Definition to_be_bytes (n : N) : string := String.string_of_list_ascii (reverse (String.list_ascii_of_string (to_le_bytes n))).

Definition record_of (executable : string → bool) (e : string * string) : ArtifactRecord :=
  {| relative_path := e.1; sha256_of := sha256_hex e.2; size_bytes := N.of_nat (String.length e.2);
     is_executable := executable e.1 |}.

Definition manifest_part (e : string * string) : string :=
  e.1 +:+ sha256_hex e.2 +:+ to_be_bytes (N.of_nat (String.length e.2)).

(** [executable] is whether a file has an execute bit. *)
Definition generate_from_output_dir (candidate image source output_dir now : string)
    (executable : string → bool) (d : disk) : ArtifactManifest :=
  let files := collect_files_sorted output_dir d in
  {| manifest_version := "1.0.0"; am_candidate_id := candidate; builder_image_digest := image;
     source_bundle_digest := source; artifacts := record_of executable <$> files;
     manifest_digest :=
       sha256_hex (concat_all ([candidate; image; source] ++ (manifest_part <$> files)));
     timestamp_utc := now |}.

(** The loop over the records: whether each is there with its digest. *)
Fixpoint check_records (output_dir : string) (fs : Fs) (l : list ArtifactRecord) : result bool :=
  match l with
  | [] => Ok true
  | r :: l =>
    let full_path := path_join output_dir (relative_path r) in
    if negb (exists_path fs full_path) then Ok false
    else
      actual ← compute_file_sha256 (files fs) full_path;
      if negb (bool_decide (actual = sha256_of r)) then Ok false
      else check_records output_dir fs l
  end.

Definition verify_integrity (m : ArtifactManifest) (output_dir : string) (fs : Fs) : result bool :=
  ok ← check_records output_dir fs (artifacts m);
  Ok (ok && forallb (λ e : string * string, bool_decide (e.1 ∈ relative_path <$> artifacts m))
              (collect_files_sorted output_dir (files fs))).
End Artifacts.
