(* ===== verification/ArtifactsProps.v ===== *)
(** What an artifact manifest pins: a directory verifies against a manifest exactly when it holds
    the files the manifest was generated from, where the walk looks; and what the digest of a
    source tree does not tell apart. *)

From S2P Require Import Prelude RustStd RustPath RustNum Sorting Digest Supervisor SupervisorProps Artifacts.
#[local] Open Scope string_scope.
#[local] Open Scope list_scope.

Lemma collect_elem dir d rel data :
  (rel, data) ∈ collect_files_sorted dir d
  ↔ d !! child dir rel = Some data ∧ collected rel = true.
Proof.
  unfold collect_files_sorted. rewrite elem_of_sort_by, list_elem_of_filter, list_elem_of_omap.
  cbn [fst]. split.
  - intros [Hc ([p x] & Hin & Hp)]. apply elem_of_map_to_list in Hin. cbn [fst snd] in Hp.
    apply fmap_Some in Hp as (r & Hr & [= -> ->]). apply child_strip in Hr as ->. done.
  - intros [Hd Hc]. split; [done|]. exists (child dir rel, data). rewrite elem_of_map_to_list.
    split; [done|]. cbn [fst snd]. by rewrite (proj2 (child_strip dir rel (child dir rel)) eq_refl).
Qed.

(** A directory's path with an ending that is no separator. *)
Definition plain_dir (dir : string) : Prop :=
  dir ≠ "" ∧ String.get (String.length dir - 1) dir ≠ Some slash.

Lemma collected_join dir rel : plain_dir dir → collected rel = true → path_join dir rel = child dir rel.
Proof.
  intros [Hne Hs] Hc. unfold path_join, child.
  assert (has_root rel = false) as ->.
  { destruct (has_root rel) eqn:E; [|done]. apply starts_with_iff in E as [t ->]. done. }
  by rewrite !bool_decide_false.
Qed.

Section Props.
Context `{Sha256}.

(** A record's file is there with its digest. *)
Definition record_holds (dir : string) (fs : Fs) (r : ArtifactRecord) : Prop :=
  ∃ data, files fs !! path_join dir (relative_path r) = Some data ∧ sha256_hex data = sha256_of r.

Lemma check_records_ok dir fs l :
  check_records dir fs l = Ok true ↔ Forall (record_holds dir fs) l.
Proof.
  induction l as [|r l IH]; cbn [check_records]; [by split|].
  rewrite Forall_cons, <- IH. unfold record_holds, compute_file_sha256, read_file.
  destruct (files fs !! path_join dir (relative_path r)) as [data|] eqn:E; cbn.
  - assert (exists_path fs (path_join dir (relative_path r)) = true) as ->.
    { unfold exists_path, present. rewrite E. rewrite (bool_decide_true (is_Some _)) by done.
      by rewrite orb_true_r. }
    cbn [negb]. case_bool_decide as Hd; cbn [negb]; [|by naive_solver]. naive_solver.
  - destruct (exists_path fs _); cbn; naive_solver.
Qed.

Lemma verify_ok m dir fs :
  verify_integrity m dir fs = Ok true
  ↔ Forall (record_holds dir fs) (artifacts m)
    ∧ ∀ rel data, files fs !! child dir rel = Some data → collected rel = true →
        rel ∈ relative_path <$> artifacts m.
Proof.
  unfold verify_integrity. rewrite <- check_records_ok.
  destruct (check_records dir fs (artifacts m)) as [b|e]; cbn; [|naive_solver].
  split.
  - intros [= Hb]. apply andb_prop in Hb as [-> Hf]. split; [done|]. intros rel data Hd Hc.
    rewrite forallb_forall in Hf. apply (bool_decide_unpack _).
    apply Is_true_true. apply (Hf (rel, data)). by apply list_elem_of_In, collect_elem.
  - intros [[= ->] Hf]. cbn. f_equal. apply forallb_forall. intros [rel data] Hin%list_elem_of_In.
    apply collect_elem in Hin as [Hd Hc]. apply bool_decide_eq_true. by eapply Hf.
Qed.

(** C20: a directory verifies against the manifest generated from another exactly when both hold the
    same files with the same contents (unless SHA-256 collides on them) wherever the walk goes,
    that is outside directories called [target], [.git] and [node_modules]. *)
Theorem verifies_iff_same_files candidate image source dir now executable d dir' fs :
  plain_dir dir' →
  no_collision ((collect_files_sorted dir d).*2 ++ (collect_files_sorted dir' (files fs)).*2) →
  verify_integrity (generate_from_output_dir candidate image source dir now executable d) dir' fs
  = Ok true
  ↔ ∀ rel, collected rel = true → files fs !! child dir' rel = d !! child dir rel.
Proof.
  intros Hdir Hn. rewrite verify_ok. cbn [artifacts generate_from_output_dir].
  assert (∀ rel, rel ∈ relative_path <$> (record_of executable <$> collect_files_sorted dir d)
    ↔ ∃ data, d !! child dir rel = Some data ∧ collected rel = true) as Hrel.
  { intros rel. rewrite <- list_fmap_compose, list_elem_of_fmap. split.
    - intros ([r data] & -> & Hin%collect_elem). by exists data.
    - intros (data & Hd). exists (rel, data). split; [done|]. by apply collect_elem. }
  rewrite Forall_fmap, Forall_forall. setoid_rewrite Hrel. split.
  - intros [Hrec Hex] rel Hc.
    destruct (d !! child dir rel) as [data|] eqn:E.
    + destruct (Hrec (rel, data)) as (data' & Hd' & Heq); [by apply collect_elem|].
      cbn in Hd', Heq. rewrite collected_join in Hd' by done. rewrite Hd'. f_equal.
      eapply sha256_hex_inj; [exact Hn|..|exact Heq]; apply elem_of_app; [right|left];
        apply list_elem_of_fmap; eexists (rel, _); (split; [done|]); by apply collect_elem.
    + destruct (files fs !! child dir' rel) as [data|] eqn:E'; [|done].
      destruct (Hex rel data E' Hc) as (x & Hx & _). congruence.
  - intros Hsame. split.
    + intros [rel data] [Hd Hc]%collect_elem. exists data. cbn.
      rewrite collected_join, Hsame by done. done.
    + intros rel data Hd Hc. exists data. by rewrite <- Hsame.
Qed.
End Props.

(** ** Limits *)

Section Examples.
Import Checksum.

(** The walk does not look everywhere. *)
Example target_not_verified :
  let m := generate_from_output_dir "c" "i" "s" "/o" "t" (λ _, false) {["/o/a" := "x"]} in
  verify_integrity m "/o" {| files := {["/o/a" := "x"; "/o/target/evil" := "y"]}; dirs := {["/o"]};
                             links := ∅ |} = Ok true.
Proof. vm_compute. reflexivity. Qed.

(** Names and digests are concatenated without their lengths: a file whose name spells another
    file's entry hides it, and two trees have one digest. *)
Example source_digest_ambiguous :
  let hidden := "a" +:+ sha256_hex "x" +:+ "b" in
  compute_source_digest "/r" {["/r/a" := "x"; "/r/b" := "y"]}
  = compute_source_digest "/r" {[child "/r" hidden := "y"]}.
Proof. vm_compute. reflexivity. Qed.

Lemma verifies_iff_same_files_witness :
  let d : disk := {["/o/a" := "x"; "/o/d/b" := "y"]} in
  let fs := {| files := {["/p/a" := "x"; "/p/d/b" := "y"; "/p/target/t" := "z"]}; dirs := {["/p"]};
               links := ∅ |} in
  plain_dir "/p"
  ∧ (verify_integrity (generate_from_output_dir "c" "i" "s" "/o" "t" (λ _, false) d) "/p" fs = Ok true
     ↔ ∀ rel, collected rel = true → files fs !! child "/p" rel = d !! child "/o" rel).
Proof.
  split; [by split|].
  apply (verifies_iff_same_files "c" "i" "s" "/o" "t" (λ _, false)); [by split|].
  apply (bool_decide_unpack _). vm_compute. exact I.
Defined.
End Examples.
