(* ===== verification/Judge.v ===== *)
(** The blind judge ([src/actor/judge.rs]): holdout suites and their digest, the version 2
    preflight, the comparison of the two trees, the scoring of the holdouts and the binding of
    the receipt.

    A directory tree is read once: its files do not change while it is walked, except the
    subject, which is read again before the receipt is signed.  The jail's answers, the JSON
    reader and the bytes of the judge's executable are inputs. *)

From stdpp Require Import sorting.
From S2P Require Import Prelude RustStd RustPath RustNum Digest LedgerRecord Receipt.
#[local] Open Scope string_scope.
#[local] Open Scope list_scope.
#[local] Set Warnings "-register-all".

(** ** Holdout suites *)

Record HoldoutCase := {
  case_id : string;
  case_name : string;
  input : string;
  expected_output : string;
  category : string
}.
Record HoldoutSuite := {
  suite_id : string;
  suite_name : string;
  cases : list HoldoutCase
}.

(** An entry of the holdout directory: its name, whether it is a regular file, its bytes. *)
Record DirEntry := { entry_name : string; is_file : bool; entry_bytes : string }.

Section Holdouts.
Context `{Sha256}.
Context (suite_of_json : string → option HoldoutSuite).

(** The loop over the directory entries. *)
Fixpoint check_entries (l : list DirEntry) : result (list DirEntry) :=
  match l with
  | [] => Ok []
  | e :: l =>
    if negb (valid_utf8 (entry_name e)) then
      fail "holdout entry {:?} has a non-UTF-8 name" [entry_name e]
    else if negb (is_file e) || negb (ends_with ".json" (entry_name e)) then
      fail "unexpected holdout entry {:?}: only regular .json files are allowed. Production evaluation fails closed."
        [entry_name e]
    else l ← check_entries l; Ok (e :: l)
  end.

(** The loop over the cases of one suite, with the ids seen so far. *)
Fixpoint check_cases (file : string) (ids : gset string) (l : list HoldoutCase)
    : result (gset string) :=
  match l with
  | [] => Ok ids
  | c :: l =>
    if bool_decide (case_id c = "") || bool_decide (expected_output c = "") then
      fail "holdout file {} has an incomplete case (empty id or expected output)" [file]
    else if bool_decide (case_id c ∈ ids) then
      fail "duplicate holdout case id {}" [case_id c]
    else check_cases file ({[case_id c]} ∪ ids) l
  end.

Fixpoint load_suites (ids : gset string) (l : list DirEntry)
    : result (list HoldoutSuite) :=
  match l with
  | [] => Ok []
  | e :: l =>
    suite ← ok_or (suite_of_json (entry_bytes e))
      (Fmt "holdout file {} is corrupt: {}. Production evaluation fails closed." [entry_name e]);
    if bool_decide (cases suite = []) then
      fail "holdout file {} has no cases (incomplete suite)" [entry_name e]
    else
      ids ← check_cases (entry_name e) ids (cases suite);
      suites ← load_suites ids l;
      Ok (suite :: suites)
  end.

Definition entry_le (a b : DirEntry) : Prop := String.le (entry_name a) (entry_name b).
#[export] Instance entry_le_dec a b : Decision (entry_le a b).
Proof. unfold entry_le. apply _. Defined.
#[export] Instance entry_le_trans : Transitive entry_le.
Proof. intros a b c. unfold entry_le. apply transitivity. Qed.
#[export] Instance entry_le_total : Total entry_le.
Proof. intros a b. unfold entry_le. apply String.le_total. Qed.

(** The fields of the holdout-set digest. *)
Definition holdout_fields (files : list DirEntry) : list string :=
  [HOLDOUT_SET_DOMAIN; to_le_bytes (N.of_nat (length files))]
  ++ (files ≫= λ e, [entry_name e; sha256 (entry_bytes e)]).

(** [None] is a path that is not a directory. *)
Definition load_strict (dir : option (list DirEntry)) : result (list HoldoutSuite * string) :=
  match dir with
  | None => fail "Holdouts directory does not exist: {:?}. Production evaluation fails closed." []
  | Some entries =>
    files ← check_entries entries;
    if bool_decide (length files = 0)%nat then
      fail "No valid holdout suites found in {:?}. Production evaluation fails closed." []
    else
      let files := merge_sort entry_le files in
      suites ← load_suites ∅ files;
      Ok (suites, sha256_hex (put_fields (holdout_fields files)))
  end.

(** ** Trees *)

(** A tree entry; [Special] is a symlink or special file. *)
Inductive node :=
  | File (bytes : string)
  | Dir (entries : list (string * node))
  | Special.

Definition rel_path (prefix name : string) : string :=
  if bool_decide (prefix = "") then name else prefix +:+ "/" +:+ name.

(** The files below one entry, with their relative paths. *)
Fixpoint walk (rel : string) (n : node) : result (list (string * string)) :=
  match n with
  | File bytes => Ok [(rel, bytes)]
  | Special => fail "refusing special file or symlink {:?} in tree" [rel]
  | Dir entries =>
    (fix below (l : list (string * node)) : result (list (string * string)) :=
       match l with
       | [] => Ok []
       | (name, child) :: l =>
         if negb (valid_utf8 name) then fail "non-UTF-8 path {:?}" [rel_path rel name]
         else if bool_decide (name = ".git") then
           fail "refusing nested .git entry {:?} in tree" [rel_path rel name]
         else
           a ← walk (rel_path rel name) child;
           b ← below l;
           Ok (a ++ b)
       end) entries
  end.

(** The entries of the root: [.git] and [target] are skipped. *)
Fixpoint walk_root (l : list (string * node)) : result (list (string * string)) :=
  match l with
  | [] => Ok []
  | (name, child) :: l =>
    if negb (valid_utf8 name) then fail "non-UTF-8 path {:?}" [name]
    else if bool_decide (name = ".git") || bool_decide (name = "target") then walk_root l
    else
      a ← walk name child;
      b ← walk_root l;
      Ok (a ++ b)
  end.

(** The compared files of a tree, by relative path. *)
Definition tree_files (tree : list (string * node)) : result (gmap string string) :=
  l ← walk_root tree; Ok (list_to_map l).

Definition strict_changed_paths (parent candidate : list (string * node)) : result (list string) :=
  p ← tree_files parent;
  c ← tree_files candidate;
  let same rel := bool_decide (is_Some (p !! rel)) && bool_decide (is_Some (c !! rel))
                  && bool_decide (p !! rel = c !! rel) in
  Ok (List.filter (λ rel, negb (same rel)) (merge_sort String.le (elements (dom p ∪ dom c)))).

Definition sha256_file (bytes : option string) : result string :=
  b ← ok_or bytes (Fmt "cannot read {:?}: {}" []); Ok (sha256_hex b).

(** ** The preflight *)

Record V2Request := {
  req_subject_path : string;
  req_policy : EvaluationPolicy;
  req_policy_sha256 : string
}.

(** [executable] is the configured program, [build_release] whether the judge builds it. *)
Definition check_executable (executable : option string) (build_release : bool) : result unit :=
  match executable with
  | None =>
    fail "a version 2 evaluation names its executable; refusing to search the trees for one" []
  | Some exe =>
    if build_release then Ok tt
    else
      let e := if valid_utf8 exe then exe else "" in
      if negb (is_clean_relative e) || path_is_under e "target"
         || existsb (λ c, bool_decide (c = ".git")) (split_on slash e) then
        fail "without a judge build the executable {:?} must be a clean relative path the tree comparison covers (not under target or .git)"
          [exe]
      else Ok tt
  end.

Definition v2_preflight (executable : option string) (build_release : bool) (req : V2Request)
    (holdouts : string) (parent candidate : list (string * node)) : result string :=
  if negb (bool_decide (holdouts = pinned_holdouts (req_policy req))) then
    fail "holdout set digest {} does not match the policy's pinned {}; refusing to evaluate"
      [holdouts; pinned_holdouts (req_policy req)]
  else
    let subject := req_subject_path req in
    if negb (is_clean_relative subject) then
      fail "subject path {:?} is not a clean relative path" [subject]
    else if negb (existsb (λ t, bool_decide (t = subject)) (allowed_targets (req_policy req))) then
      fail "subject {} is not an allowed target in the policy" [subject]
    else match List.find (path_is_under subject) (protected_paths (req_policy req)) with
    | Some p => fail "subject {} is under protected path {}" [subject; p]
    | None =>
      _ ← check_executable executable build_release;
      changed ← strict_changed_paths parent candidate;
      if negb (bool_decide (changed = [subject])) then
        fail "candidate must differ from parent in exactly the subject {}; differs in {:?}"
          (subject :: changed)
      else
        files ← tree_files candidate;
        sha256_file (files !! subject)
    end.

(** ** Scoring and signing *)

(** What the jail returned for a case: it ran and succeeded, ran and failed, or did not run. *)
Inductive jail_answer := JailOk (stdout : string) | JailFail (stderr : string) | JailErr (e : string).

Definition actual_output (a : jail_answer) : string :=
  match a with
  | JailOk stdout => str_trim stdout
  | JailFail stderr => "EXEC_FAIL:" +:+ str_trim stderr
  | JailErr e => "JAIL_ERR:" +:+ e
  end.

(** The holdouts run, the holdouts passed and the messages of the failed ones. *)
Fixpoint run_cases (jail : string → jail_answer) (l : list HoldoutCase)
    : N * N * list error :=
  match l with
  | [] => (0%N, 0%N, [])
  | c :: l =>
    let '(total, passed, bad) := run_cases jail l in
    let actual := actual_output (jail (input c)) in
    if bool_decide (actual = expected_output c) then ((total + 1)%N, (passed + 1)%N, bad)
    else ((total + 1)%N, passed,
          Fmt "Holdout '{}' ({}) assertion failed: expected '{}', got '{}'"
            [case_name c; case_id c; expected_output c; actual] :: bad)
  end.
Definition run_holdouts (jail : string → jail_answer) (suites : list HoldoutSuite)
    : N * N * list error :=
  run_cases jail (suites ≫= cases).

Definition reject (r : EvaluationReceipt) : EvaluationReceipt :=
  {| cycle_id := cycle_id r; candidate_id := candidate_id r; parent_id := parent_id r;
     evaluated_at := evaluated_at r; evaluator_version := evaluator_version r;
     passed_all_hard_invariants := passed_all_hard_invariants r;
     passed_statistical_gates := passed_statistical_gates r; admitted := false;
     layer_results := layer_results r; metrics_summary := metrics_summary r;
     receipt_digest := receipt_digest r; receipt_signature := receipt_signature r;
     format_version := format_version r; binding := binding r |}.

Context `{P256}.

(** The version 2 end of [evaluate_cycle]: [after] are the subject's bytes once the candidate
    has run, [exe] the bytes of the judge's executable. *)
Definition finish_v2 (req : V2Request) (subject_sha : string) (after : option string)
    (holdouts : string) (total passed : N) (exe : option string) (k : SigningKey)
    (receipt : EvaluationReceipt) : result EvaluationReceipt :=
  now ← sha256_file after;
  if negb (bool_decide (now = subject_sha)) then
    fail "subject file changed during evaluation; refusing to sign" []
  else
    let receipt :=
      if (total =? 0)%N || f64_lt (f64_of_N passed)
           (f64_mul (min_holdout_pass_ratio (req_policy req)) (f64_of_N total))
      then reject receipt else receipt in
    evaluator ← sha256_file exe;
    bind_and_sign_v2
      {| subject_path := req_subject_path req; subject_sha256 := subject_sha;
         holdout_set_sha256 := holdouts; holdouts_total := total; holdouts_passed := passed;
         policy_sha256 := req_policy_sha256 req; evaluator_binary_sha256 := evaluator |}
      k receipt.
End Holdouts.
