(* ===== verification/JudgeProps.v ===== *)
(** What the judge guarantees: the holdout digest pins the holdouts, the preflight pins the one
    change that is judged, and an admitted verdict passes the promotion gate. *)

From stdpp Require Import sorting.
From S2P Require Import Prelude RustStd RustPath RustNum Digest LedgerRecord Receipt ReceiptProps Judge.
#[local] Open Scope string_scope.
#[local] Open Scope list_scope.

(** ** The holdout set *)

Section Holdouts.
Context `{Sha256, !Sha256Len}.
Context (suite_of_json : string → option HoldoutSuite).

Lemma check_entries_ok l l' :
  check_entries l = Ok l' → l' = l ∧ Forall (λ e, is_file e = true) l.
Proof.
  revert l'. induction l as [|e l IH]; intros l'; cbn [check_entries].
  - intros [= <-]. by split.
  - destruct (valid_utf8 (entry_name e)); [|done]. cbn [negb].
    destruct (is_file e) eqn:Hf; [|done]. cbn [negb orb].
    destruct (ends_with ".json" (entry_name e)); [|done]. cbn [negb].
    intros Hr. apply bind_ok in Hr as (l2 & Hl & [= <-]).
    destruct (IH _ Hl) as [-> Hall]. split; [done|]. by constructor.
Qed.

Lemma load_strict_ok dir suites h :
  load_strict suite_of_json dir = Ok (suites, h) →
  ∃ entries, dir = Some entries ∧ Forall (λ e, is_file e = true) entries
    ∧ load_suites suite_of_json ∅ (merge_sort entry_le entries) = Ok suites
    ∧ h = sha256_hex (put_fields (holdout_fields (merge_sort entry_le entries))).
Proof.
  unfold load_strict. destruct dir as [entries|]; [|done]. intros Hr.
  apply bind_ok in Hr as (files & Hf & Hr). destruct (check_entries_ok _ _ Hf) as [-> Hall].
  destruct (bool_decide (length entries = 0%nat)); [done|]. cbv zeta in Hr.
  apply bind_ok in Hr as (s & Hs & [= <- <-]). eauto.
Qed.

(** The names and contents of a directory's files, and the texts its digest hashes. *)
Definition holdout_preimage (entries : list DirEntry) : string :=
  put_fields (holdout_fields (merge_sort entry_le entries)).

Definition names_ok (entries : list DirEntry) : Prop :=
  Forall (λ e, field_ok (entry_name e)) entries
  ∧ (N.of_nat (length entries) <= u64_max)%N.

Lemma holdout_fields_inj xs l l' :
  no_collision xs →
  Forall (λ e, is_file e = true ∧ entry_bytes e ∈ xs) l →
  Forall (λ e, is_file e = true ∧ entry_bytes e ∈ xs) l' →
  (l ≫= λ e, [entry_name e; sha256 (entry_bytes e)])
  = (l' ≫= λ e, [entry_name e; sha256 (entry_bytes e)]) → l = l'.
Proof.
  intros Hx Hl. revert l'. induction Hl as [|e l [Hf Hb] Hl IH]; intros [|e' l'] Hl'; try done.
  apply Forall_cons in Hl' as [[Hf' Hb'] Hl']. cbn [mbind list_bind app]. intros Heq.
  apply cons_inv in Heq as [Hn Heq]. apply cons_inv in Heq as [Hs Heq].
  f_equal; [|by apply IH]. apply (no_collision_elim xs) in Hs; [|done..].
  destruct e, e'; simpl in *; by subst.
Qed.

Lemma fields_ok_holdouts l :
  Forall (λ e, field_ok (entry_name e)) l → Forall field_ok (holdout_fields l).
Proof.
  intros Hl. unfold holdout_fields. cbn [app].
  constructor; [by vm_compute|]. constructor.
  { unfold field_ok, to_le_bytes. rewrite le_bytes_length. by vm_compute. }
  induction Hl as [|e l He Hl IH]; [constructor|]. cbn [mbind list_bind app].
  constructor; [done|]. constructor; [|done]. unfold field_ok. rewrite sha256_length. by vm_compute.
Qed.

(** the holdout-set digest pins the holdouts: two directories that load with the same digest
    hold the same files with the same names and bytes, and the same suites, unless file contents
    or digest texts collide. *)
Theorem holdout_digest_pins dir dir' entries entries' suites suites' h :
  dir = Some entries → dir' = Some entries' →
  load_strict suite_of_json dir = Ok (suites, h) →
  load_strict suite_of_json dir' = Ok (suites', h) →
  names_ok entries → names_ok entries' →
  no_collision (entry_bytes <$> entries ++ entries') →
  no_collision [holdout_preimage entries; holdout_preimage entries'] →
  entries ≡ₚ entries' ∧ suites = suites'.
Proof.
  intros -> -> Hl Hl' [Hn Hlen] [Hn' Hlen'] Hc Hp.
  apply load_strict_ok in Hl as (? & [= <-] & Hf & Hs & Hh).
  apply load_strict_ok in Hl' as (? & [= <-] & Hf' & Hs' & Hh').
  assert (merge_sort entry_le entries = merge_sort entry_le entries') as Heq.
  { rewrite Hh in Hh'.
    apply (sha256_hex_inj [holdout_preimage entries; holdout_preimage entries']) in Hh';
      [|done|by left|by right; left].
    apply put_fields_inj in Hh';
      [|apply fields_ok_holdouts; by rewrite merge_sort_Permutation..].
    unfold holdout_fields in Hh'. cbn [app] in Hh'.
    apply cons_inv in Hh' as [_ Hh']. apply cons_inv in Hh' as [_ Hh'].
    eapply holdout_fields_inj; [exact Hc| | |exact Hh'].
    - rewrite merge_sort_Permutation. rewrite Forall_forall in Hf. apply Forall_forall.
      intros e He. split; [by apply Hf|]. apply list_elem_of_fmap. exists e.
      split; [done|]. apply elem_of_app. by left.
    - rewrite merge_sort_Permutation. rewrite Forall_forall in Hf'. apply Forall_forall.
      intros e He. split; [by apply Hf'|]. apply list_elem_of_fmap. exists e.
      split; [done|]. apply elem_of_app. by right. }
  split.
  - by rewrite <- (merge_sort_Permutation entry_le entries), Heq, merge_sort_Permutation.
  - rewrite Heq in Hs. congruence.
Qed.

End Holdouts.

(** ** Trees as file systems *)

(** The entry a path leads to below a node, name by name. *)
Inductive node_at : node → list string → node → Prop :=
  | at_here n : node_at n [] n
  | at_inside entries name child path n :
      (name, child) ∈ entries → node_at child path n → node_at (Dir entries) (name :: path) n.

(** What every file system guarantees: within a directory no name occurs twice, and a name is
    not empty and holds no separator. *)
Definition file_name_ok (name : string) : Prop := name ≠ "" ∧ contains_byte slash name = false.
Definition real_tree (n : node) : Prop := ∀ path entries, node_at n path (Dir entries) →
  NoDup entries.*1 ∧ Forall file_name_ok entries.*1.

(** The paths that are compared: all but those below the root's [.git] and [target]. *)
Definition compared (path : list string) : Prop :=
  head path ≠ None ∧ head path ≠ Some ".git" ∧ head path ≠ Some "target".

Lemma node_ind' (P : node → Prop) :
  (∀ b, P (File b)) → P Special → (∀ l, Forall (λ e, P e.2) l → P (Dir l)) → ∀ n, P n.
Proof.
  intros Hf Hs Hd. fix IH 1. intros [b|l|]; [apply Hf| |apply Hs]. apply Hd.
  induction l as [|[name child] l IHl]; constructor; [apply IH|exact IHl].
Qed.

Lemma real_dir l : real_tree (Dir l) ↔
  NoDup l.*1 ∧ Forall file_name_ok l.*1 ∧ Forall (λ e, real_tree e.2) l.
Proof.
  split.
  - intros Hr. destruct (Hr [] l (at_here _)) as [Hn Hok]. split_and!; [done..|].
    apply Forall_forall. intros [name child] Hin path entries Hp.
    apply (Hr (name :: path) entries). by apply (at_inside l name child).
  - intros (Hn & Hok & Hc) path entries Hp. inversion Hp as [|? name child path' ? Hin Hp']; subst; [done|].
    rewrite Forall_forall in Hc. by apply (Hc _ Hin path').
Qed.
Lemma real_file b : real_tree (File b).
Proof. intros path entries Hp. inversion Hp. Qed.

Lemma node_at_names n path m : real_tree n → node_at n path m → Forall file_name_ok path.
Proof.
  intros Hr Hp. induction Hp as [|l name child path m Hin _ IH]; [constructor|].
  apply real_dir in Hr as (_ & Hok & Hc). rewrite Forall_forall in Hc.
  constructor; [|by apply IH, (Hc _ Hin)].
  rewrite Forall_forall in Hok. apply Hok. by apply (list_elem_of_fmap_2 fst l (name, child)).
Qed.

(** A path leads to one entry. *)
Lemma node_at_once n path m m' : real_tree n → node_at n path m → node_at n path m' → m = m'.
Proof.
  intros Hr Hp. revert m'. induction Hp as [|l name child path m Hin _ IH]; intros m' Hp'.
  { by inversion Hp'. }
  inversion Hp' as [|? ? child' ? ? Hin' Hp2]; subst. apply real_dir in Hr as (Hn & _ & Hc).
  assert (child' = child) as ->.
  { apply (elem_of_list_to_map_1 (M := gmap string) _ _ _ Hn) in Hin, Hin'. congruence. }
  rewrite Forall_forall in Hc. apply IH; [|done]. exact (Hc _ Hin).
Qed.

(** [walk] on a directory, entry by entry. *)
Fixpoint walk_below (rel : string) (l : list (string * node)) : result (list (string * string)) :=
  match l with
  | [] => Ok []
  | (name, child) :: l =>
    if negb (valid_utf8 name) then fail "non-UTF-8 path {:?}" [rel_path rel name]
    else if bool_decide (name = ".git") then
      fail "refusing nested .git entry {:?} in tree" [rel_path rel name]
    else a ← walk (rel_path rel name) child; b ← walk_below rel l; Ok (a ++ b)
  end.
Lemma walk_dir rel l : walk rel (Dir l) = walk_below rel l.
Proof.
  cbn [walk]. induction l as [|[name child] l IH]; [done|]. cbn [walk_below].
  destruct (negb _); [done|]. destruct (bool_decide _); [done|]. by rewrite IH.
Qed.

Lemma join_app l k : l ≠ [] → k ≠ [] →
  join_with slash (l ++ k) = join_with slash l +:+ String slash (join_with slash k).
Proof.
  intros Hl Hk. induction l as [|a l IH]; [done|]. destruct l as [|b l].
  - cbn [app]. by destruct k.
  - change (join_with slash ((a :: b :: l) ++ k))
      with (a +:+ String slash (join_with slash ((b :: l) ++ k))).
    rewrite IH by done.
    change (join_with slash (a :: b :: l)) with (a +:+ String slash (join_with slash (b :: l))).
    by rewrite <- str_app_assoc.
Qed.

Lemma rel_path_join pre name : Forall file_name_ok pre →
  rel_path (join_with slash pre) name = join_with slash (pre ++ [name]).
Proof.
  intros Hp. unfold rel_path. destruct pre as [|a l]; [done|]. rewrite join_app by done.
  apply Forall_cons in Hp as [[Ha _] _]. rewrite bool_decide_false; [done|].
  destruct l; cbn [join_with]; [done|]. by destruct a.
Qed.

(** The files a walk lists, and what it has ruled out. *)
Definition lists_files (n : node) (pre : list string) (files : list (string * string)) : Prop :=
  (∀ rel b, (rel, b) ∈ files ↔
     ∃ path, node_at n path (File b) ∧ rel = join_with slash (pre ++ path))
  ∧ ∀ path m, node_at n path m → m ≠ Special ∧ ".git" ∉ path.

Lemma walk_lists n : ∀ pre files, real_tree n → pre ≠ [] → Forall file_name_ok pre →
  walk (join_with slash pre) n = Ok files → lists_files n pre files.
Proof.
  induction n as [b| |l IH] using node_ind'; intros pre files Hr Hne Hpre.
  - intros [= <-]. split.
    + intros rel b'. rewrite list_elem_of_singleton. split.
      * intros [= -> ->]. exists []. rewrite app_nil_r. split; [constructor|done].
      * intros (path & Hp & ->). inversion Hp; subst. by rewrite app_nil_r.
    + intros path m Hp. inversion Hp; subst. split; [done|]. apply not_elem_of_nil.
  - done.
  - rewrite walk_dir. apply real_dir in Hr as (_ & Hok & Hc). revert files.
    induction IH as [|[name child] l Hchild _ IHl]; intros files; cbn [walk_below].
    { intros [= <-]. split.
      - intros rel b. rewrite elem_of_nil. split; [done|]. intros (path & Hp & _).
        inversion Hp as [|? ? ? ? ? Hin]; subst. by apply elem_of_nil in Hin.
      - intros path m Hp. inversion Hp as [|? ? ? ? ? Hin]; subst; [|by apply elem_of_nil in Hin].
        split; [done|]. apply not_elem_of_nil. }
    destruct (negb _); [done|]. case_bool_decide as Hg; [done|]. intros Hw.
    apply bind_ok in Hw as (fa & Ha & Hw). apply bind_ok in Hw as (fb & Hb & [= <-]).
    rewrite fmap_cons in Hok. apply Forall_cons in Hok as [Hname Hok].
    apply Forall_cons in Hc as [Hc1 Hc]. cbn [fst snd] in *.
    rewrite rel_path_join in Ha by done.
    assert (Forall file_name_ok (pre ++ [name])) as Hpre' by (apply Forall_app; split; [done|by apply Forall_singleton]).
    destruct (Hchild (pre ++ [name]) fa Hc1 ltac:(by destruct pre) Hpre' Ha) as [Hf1 Hn1].
    destruct (IHl Hok Hc _ Hb) as [Hf2 Hn2]. split.
    + intros rel b. rewrite elem_of_app, Hf1, Hf2. split.
      * intros [(path & Hp & ->)|(path & Hp & ->)].
        -- exists (name :: path). rewrite <- app_assoc. split; [|done].
           apply (at_inside _ name child); [by left|done].
        -- exists path. split; [|done]. inversion Hp as [|? nm ch p ? Hin Hp']; subst.
           apply (at_inside _ nm ch); [by right|done].
      * intros (path & Hp & ->). inversion Hp as [|? nm ch p ? Hin Hp']; subst.
        apply elem_of_cons in Hin as [[= -> ->]|Hin].
        -- left. exists p. by rewrite <- app_assoc.
        -- right. exists (nm :: p). split; [|done]. by apply (at_inside _ nm ch).
    + intros path m Hp. inversion Hp as [|? nm ch p ? Hin Hp']; subst.
      { split; [done|]. apply not_elem_of_nil. }
      apply elem_of_cons in Hin as [[= -> ->]|Hin].
      * destruct (Hn1 _ _ Hp') as [Hm Hgit]. split; [done|]. rewrite not_elem_of_cons. by split.
      * apply (Hn2 (nm :: p)). by apply (at_inside _ nm ch).
Qed.

Lemma walk_root_lists l : ∀ files, real_tree (Dir l) → walk_root l = Ok files →
  (∀ rel b, (rel, b) ∈ files ↔
     ∃ path, compared path ∧ node_at (Dir l) path (File b) ∧ rel = join_with slash path)
  ∧ ∀ path m, compared path → node_at (Dir l) path m → m ≠ Special ∧ ".git" ∉ path.
Proof.
  intros files Hr%real_dir. destruct Hr as (_ & Hok & Hc). revert files.
  induction l as [|[name child] l IH]; intros files; cbn [walk_root].
  { intros [= <-]. split.
    - intros rel b. rewrite elem_of_nil. split; [done|]. intros (path & _ & Hp & _).
      inversion Hp as [|? ? ? ? ? Hin]; subst. by apply elem_of_nil in Hin.
    - intros path m [Hcp _] Hp. inversion Hp as [|? ? ? ? ? Hin]; subst; [done|by apply elem_of_nil in Hin]. }
  rewrite fmap_cons in Hok. apply Forall_cons in Hok as [Hname Hok].
  apply Forall_cons in Hc as [Hc1 Hc]. cbn [fst snd] in *.
  destruct (negb _); [done|].
  destruct (bool_decide (name = ".git") || bool_decide (name = "target")) eqn:Hskip.
  - intros Hw. destruct (IH Hok Hc _ Hw) as [Hf Hn].
    assert (∀ path m, compared path → node_at (Dir ((name, child) :: l)) path m → node_at (Dir l) path m)
      as Hsub.
    { intros path m (H1 & H2 & H3) Hp. inversion Hp as [|? nm ch p ? Hin Hp']; subst; [done|].
      apply elem_of_cons in Hin as [[= -> ->]|Hin]; [|by apply (at_inside _ nm ch)].
      exfalso. apply orb_true_iff in Hskip as [E|E]; apply bool_decide_eq_true in E as ->; done. }
    split; [|by eauto]. intros rel b. rewrite Hf. split.
    + intros (path & Hcp & Hp & ->). exists path. split_and!; [done| |done].
      inversion Hp as [|? nm ch p ? Hin Hp']; subst. apply (at_inside _ nm ch); [by right|done].
    + intros (path & Hcp & Hp & ->). eauto 10.
  - apply orb_false_elim in Hskip as [Hgit%bool_decide_eq_false Htgt%bool_decide_eq_false].
    intros Hw. apply bind_ok in Hw as (fa & Ha & Hw). apply bind_ok in Hw as (fb & Hb & [= <-]).
    destruct (walk_lists child [name] fa Hc1 ltac:(done) ltac:(by constructor) Ha) as [Hf1 Hn1].
    destruct (IH Hok Hc _ Hb) as [Hf2 Hn2]. split.
    + intros rel b. rewrite elem_of_app, Hf1, Hf2. split.
      * intros [(path & Hp & ->)|(path & Hcp & Hp & ->)].
        -- exists (name :: path). split_and!; [|apply (at_inside _ name child); [by left|done]|done].
           by split_and!; [done|intros [= ->]..].
        -- exists path. split_and!; [done| |done]. inversion Hp as [|? nm ch p ? Hin Hp']; subst.
           apply (at_inside _ nm ch); [by right|done].
      * intros (path & Hcp & Hp & ->). inversion Hp as [|? nm ch p ? Hin Hp']; subst.
        apply elem_of_cons in Hin as [[= -> ->]|Hin]; [left; by exists p|].
        right. exists (nm :: p). split_and!; [done| |done]. by apply (at_inside _ nm ch).
    + intros path m Hcp Hp. inversion Hp as [|? nm ch p ? Hin Hp']; subst; [by destruct Hcp|].
      apply elem_of_cons in Hin as [[= -> ->]|Hin].
      * destruct (Hn1 _ _ Hp') as [Hm Hgit']. split; [done|]. rewrite not_elem_of_cons. by split.
      * apply (Hn2 (nm :: p)); [done|]. by apply (at_inside _ nm ch).
Qed.

(** The map of a tree's files is the tree, seen through the texts of its compared paths. *)
Lemma tree_files_at l files : real_tree (Dir l) → tree_files l = Ok files →
  (∀ path b, compared path → Forall file_name_ok path →
     files !! join_with slash path = Some b ↔ node_at (Dir l) path (File b))
  ∧ (∀ rel b, files !! rel = Some b → ∃ path, compared path ∧ Forall file_name_ok path ∧
       rel = join_with slash path)
  ∧ ∀ path m, compared path → node_at (Dir l) path m → m ≠ Special ∧ ".git" ∉ path.
Proof.
  unfold tree_files. intros Hr Hw. apply bind_ok in Hw as (fl & Hw & [= <-]).
  destruct (walk_root_lists l fl Hr Hw) as [Hf Hn].
  assert (∀ path, compared path → Forall file_name_ok path → split_on slash (join_with slash path) = path)
    as Hback.
  { intros path [Hc _] Hok. apply split_join; [by intros ->|]. eapply Forall_impl; [exact Hok|].
    by intros ? []. }
  assert (∀ path b, compared path → Forall file_name_ok path →
    (join_with slash path, b) ∈ fl ↔ node_at (Dir l) path (File b)) as Hat.
  { intros path b Hc Hok. rewrite Hf. split; [|by eauto]. intros (path' & Hc' & Hp & Heq).
    apply (f_equal (split_on slash)) in Heq.
    rewrite !Hback in Heq by (try done; by eapply node_at_names). by subst. }
  split_and!; [| |done].
  - intros path b Hc Hok. rewrite <- Hat by done. symmetry. apply elem_of_list_to_map'.
    intros b' Hb Hb'. apply Hat in Hb, Hb'; [|done..].
    by pose proof (node_at_once _ _ _ _ Hr Hb Hb') as [= ->].
  - intros rel b Hl%elem_of_list_to_map_2. apply Hf in Hl as (path & Hc & Hp & ->).
    exists path. split_and!; [done| |done]. by eapply node_at_names.
Qed.

(** ** The preflight *)

Section Preflight.
Context `{Sha256}.

Lemma changed_single parent candidate subject :
  strict_changed_paths parent candidate = Ok [subject] →
  ∃ p c, tree_files parent = Ok p ∧ tree_files candidate = Ok c
    ∧ p !! subject ≠ c !! subject ∧ delete subject p = delete subject c.
Proof.
  unfold strict_changed_paths. intros Hr. apply bind_ok in Hr as (p & Hp & Hr).
  apply bind_ok in Hr as (c & Hc & Hr). injection Hr as Hr. exists p, c. split_and!; try done.
  - intros Heq. assert (subject ∈ [subject]) as Hin by by left. rewrite <- Hr in Hin.
    rewrite list_elem_of_In, filter_In, <- list_elem_of_In, merge_sort_Permutation in Hin.
    destruct Hin as [Hin Hb]. apply elem_of_elements, elem_of_union in Hin.
    rewrite !elem_of_dom in Hin. rewrite Heq in Hin, Hb.
    rewrite !bool_decide_true in Hb by (try done; tauto). done.
  - apply map_eq. intros k. destruct (decide (k = subject)) as [->|Hne].
    { by rewrite !lookup_delete_eq. }
    rewrite !lookup_delete_ne by done.
    destruct (decide (p !! k = c !! k)) as [|Hd]; [done|]. exfalso.
    assert (k ∈ [subject]) as Hin; [|by apply list_elem_of_singleton in Hin].
    rewrite <- Hr, list_elem_of_In, filter_In, <- list_elem_of_In, merge_sort_Permutation.
    rewrite elem_of_elements, elem_of_union, !elem_of_dom. split.
    + destruct (p !! k), (c !! k); try done; eauto.
    + apply negb_true_iff. rewrite (bool_decide_false (p !! k = c !! k)) by done.
      by rewrite andb_false_r.
Qed.

(** A clean relative path, by its components. *)
Definition clean_components (path : string) : Prop :=
  Forall (λ c, c ≠ "" ∧ c ≠ "." ∧ c ≠ "..") (split_on slash path).

Lemma clean_iff path : is_clean_relative path = true ↔ clean_components path.
Proof.
  unfold is_clean_relative, clean_components. rewrite !andb_true_iff, !negb_true_iff.
  assert (forallb (λ c, negb (bool_decide (c = "")) && negb (bool_decide (c = "."))
      && negb (bool_decide (c = ".."))) (split_on slash path) = true
    ↔ Forall (λ c, c ≠ "" ∧ c ≠ "." ∧ c ≠ "..") (split_on slash path)) as Hall.
  { induction (split_on slash path) as [|c l IH]; cbn [forallb]; [by split|].
    rewrite Forall_cons, <- IH, !andb_true_iff, !negb_true_iff, !bool_decide_eq_false. tauto. }
  rewrite Hall. split; [tauto|]. intros Hc. split; [|done]. split.
  - apply bool_decide_eq_false. intros ->. change (split_on slash "") with [""] in Hc.
    apply Forall_cons in Hc as [(Hne & _) _]. by apply Hne.
  - destruct (starts_with "/" path) eqn:Hs; [|done]. apply starts_with_iff in Hs as [t ->].
    change (split_on slash ("/" +:+ t)) with ("" :: split_on slash t) in Hc.
    apply Forall_cons in Hc as [(Hne & _) _]. by destruct Hne.
Qed.

(** Below a prefix, component by component; trailing separators of the prefix do not count. *)
Lemma under_iff path prefix :
  path_is_under path prefix = true
  ↔ split_on slash (trim_end_byte "/" prefix) `prefix_of` split_on slash path.
Proof.
  unfold path_is_under. generalize (trim_end_byte "/" prefix). intros q.
  rewrite orb_true_iff, bool_decide_eq_true, starts_with_iff. split.
  - intros [->|[t ->]]; [done|]. change (q +:+ "/") with (q +:+ String slash "").
    rewrite <- str_app_assoc. change (String slash "" +:+ t) with (String slash t).
    exists (split_on slash t). apply split_on_app.
  - intros [k Hk]. rewrite <- (join_split slash path), Hk.
    destruct k as [|w k]; [left; by rewrite app_nil_r, join_split|right].
    exists (join_with slash (w :: k)). rewrite join_app, join_split by (try done; apply split_on_nonempty).
    by rewrite <- str_app_assoc.
Qed.

(** What the preflight established. *)
Record preflighted (executable : option string) (build : bool) (req : V2Request) (holdouts : string)
    (parent candidate : list (string * node)) (sha : string) : Prop := {
  pre_holdouts : holdouts = pinned_holdouts (req_policy req);
  pre_clean : clean_components (req_subject_path req);
  pre_allowed : req_subject_path req ∈ allowed_targets (req_policy req);
  pre_unprotected : Forall (λ p, ¬ split_on slash (trim_end_byte "/" p)
                                   `prefix_of` split_on slash (req_subject_path req))
                      (protected_paths (req_policy req));
  pre_executable : ∃ exe, executable = Some exe ∧ (build = false → clean_components exe
    ∧ head (split_on slash exe) ≠ Some "target" ∧ ".git" ∉ split_on slash exe);
  pre_regular : ∀ path n, compared path → node_at (Dir parent) path n ∨ node_at (Dir candidate) path n →
    n ≠ Special ∧ ".git" ∉ path;
  pre_same : ∀ path bytes, compared path → path ≠ split_on slash (req_subject_path req) →
    node_at (Dir parent) path (File bytes) ↔ node_at (Dir candidate) path (File bytes);
  pre_change : compared (split_on slash (req_subject_path req))
    ∧ ∃ bytes, node_at (Dir candidate) (split_on slash (req_subject_path req)) (File bytes)
        ∧ ¬ node_at (Dir parent) (split_on slash (req_subject_path req)) (File bytes)
        ∧ sha = sha256_hex bytes
}.

Lemma preflight_checks executable build req holdouts parent candidate sha :
  v2_preflight executable build req holdouts parent candidate = Ok sha →
  holdouts = pinned_holdouts (req_policy req)
  ∧ is_clean_relative (req_subject_path req) = true
  ∧ req_subject_path req ∈ allowed_targets (req_policy req)
  ∧ Forall (λ p, path_is_under (req_subject_path req) p = false) (protected_paths (req_policy req))
  ∧ check_executable executable build = Ok tt
  ∧ strict_changed_paths parent candidate = Ok [req_subject_path req]
  ∧ ∃ files bytes, tree_files candidate = Ok files
      ∧ files !! req_subject_path req = Some bytes ∧ sha = sha256_hex bytes.
Proof.
  unfold v2_preflight. case_bool_decide as Hh; [|done]. cbn [negb].
  destruct (is_clean_relative (req_subject_path req)); [|done]. cbn [negb].
  destruct (existsb _ (allowed_targets (req_policy req))) eqn:Ha; [|done]. cbn [negb].
  destruct (List.find _ (protected_paths (req_policy req))) eqn:Hp; [done|]. intros Hr.
  apply bind_ok in Hr as ([] & Hx & Hr). apply bind_ok in Hr as (changed & Hch & Hr).
  case_bool_decide as Hs; [|done]. cbn [negb] in Hr. subst changed.
  apply bind_ok in Hr as (files & Hf & Hr). unfold sha256_file in Hr.
  apply bind_ok in Hr as (bytes & Hb & [= <-]). apply ok_or_ok in Hb.
  split_and!; try done; [| |by eauto].
  - apply existsb_exists in Ha as (t & Hin & Ht). apply bool_decide_eq_true in Ht as <-.
    by apply list_elem_of_In.
  - apply Forall_forall. intros q Hq. apply list_elem_of_In in Hq.
    exact (List.find_none _ _ Hp q Hq).
Qed.

Lemma executable_named executable build : check_executable executable build = Ok tt →
  ∃ exe, executable = Some exe ∧ (build = false → clean_components exe
    ∧ head (split_on slash exe) ≠ Some "target" ∧ ".git" ∉ split_on slash exe).
Proof.
  unfold check_executable. destruct executable as [exe|]; [|done]. intros Hr. exists exe.
  split; [done|]. intros ->. cbv zeta in Hr.
  destruct (negb _ || _ || _) eqn:E; [done|].
  apply orb_false_elim in E as [[E1%negb_false_iff E2]%orb_false_elim E3].
  destruct (valid_utf8 exe); [|discriminate E1]. split_and!; [by apply clean_iff| |].
  - intros Hh. assert (path_is_under exe "target" = true); [|congruence]. apply under_iff.
    change (split_on slash (trim_end_byte "/" "target")) with ["target"].
    destruct (split_on slash exe) as [|c l]; [done|]. injection Hh as ->. by exists l.
  - intros Hin. assert (existsb (λ c, bool_decide (c = ".git")) (split_on slash exe) = true); [|congruence].
    apply existsb_exists. exists ".git". rewrite <- list_elem_of_In. by rewrite bool_decide_true.
Qed.

Lemma same_lookup (p c : gmap string string) k k' b :
  delete k p = delete k c → k' ≠ k → p !! k' = Some b ↔ c !! k' = Some b.
Proof.
  intros Hd Hne. apply (f_equal (.!! k')) in Hd. by rewrite !lookup_delete_ne, Hd in *.
Qed.

(** C18: a version 2 evaluation starts only when the candidate differs from its parent in exactly
    the subject file. The two trees are those of a file system. Outside the root's [.git] and
    [target] neither holds a symlink, a special file or a [.git] entry, and at every path but the
    subject's the one has a file with some bytes exactly when the other does; at the subject's the
    candidate has a file that the parent does not have with these bytes, and the digest that will
    be signed is theirs. The subject is a clean path, an allowed target below no protected path,
    the holdouts are the pinned ones, and the executable is named, inside the compared files when
    the judge does not build it. *)
Theorem preflight_pins_change executable build req holdouts parent candidate sha :
  real_tree (Dir parent) → real_tree (Dir candidate) →
  v2_preflight executable build req holdouts parent candidate = Ok sha →
  preflighted executable build req holdouts parent candidate sha.
Proof.
  intros Hrp Hrc Hpre.
  destruct (preflight_checks _ _ _ _ _ _ _ Hpre)
    as (Hh & Hc & Ha & Hp & Hx & Hch & files & bytes & Hf & Hb & Hsha).
  destruct (changed_single _ _ _ Hch) as (p & c & Hpp & Hcc & Hne & Hdel).
  rewrite Hcc in Hf. injection Hf as <-.
  destruct (tree_files_at _ _ Hrp Hpp) as (Hp1 & _ & Hp3).
  destruct (tree_files_at _ _ Hrc Hcc) as (Hc1 & Hc2 & Hc3).
  apply clean_iff in Hc. set (subject := req_subject_path req) in *.
  destruct (Hc2 _ _ Hb) as (path & Hcmp & Hok & Hsub).
  assert (split_on slash subject = path) as Hpath.
  { rewrite Hsub. apply split_join; [intros ->; by destruct Hcmp|]. eapply Forall_impl; [exact Hok|]. by intros ? []. }
  split; [done|exact Hc|done| |by apply executable_named| | |].
  - eapply Forall_impl; [exact Hp|]. intros q Hq Hpre'.
    apply (under_iff subject q) in Hpre'. cbv beta in Hq. congruence.
  - intros q n Hq [Hn|Hn]; eauto.
  - intros q b Hq Hqs. fold subject in Hqs. split; intros Hn.
    + pose proof (node_at_names _ _ _ Hrp Hn) as Hqok.
      apply Hc1; [done..|]. apply (same_lookup p c subject); [done| |by apply Hp1].
      intros Heq. apply Hqs. rewrite <- Heq. symmetry. apply split_join; [intros ->; by destruct Hq|].
      eapply Forall_impl; [exact Hqok|]. by intros ? [].
    + pose proof (node_at_names _ _ _ Hrc Hn) as Hqok.
      apply Hp1; [done..|]. apply (same_lookup p c subject); [done| |by apply Hc1].
      intros Heq. apply Hqs. rewrite <- Heq. symmetry. apply split_join; [intros ->; by destruct Hq|].
      eapply Forall_impl; [exact Hqok|]. by intros ? [].
  - fold subject. rewrite Hpath. split; [done|]. exists bytes. split_and!; [|  |done].
    + apply Hc1; [done..|]. by rewrite <- Hsub.
    + intros Hn. apply Hne. rewrite Hb, Hsub. by apply Hp1.
Qed.

(** ** From the judge to the gate *)

Context `{P256, !P256Spec} `{!EqDecision VerifyingKey}.
Context (policy_of_json : string → option EvaluationPolicy).
Context (key_of_sec1 : string → option VerifyingKey).

(** C27: an admitted verdict promotes: when the judge loaded the operator's policy, passed the
    preflight and signed an admitting receipt, the gate with the same policy file and the judge's
    key lets exactly the judged bytes through. *)
Theorem judged_change_promotes d file req holdouts executable build parent candidate
    sha total passed after exe k r r' key_hex own s :
  load_policy policy_of_json d file = Ok (req_policy req, req_policy_sha256 req) →
  v2_preflight executable build req holdouts parent candidate = Ok sha →
  finish_v2 req sha after holdouts total passed exe k r = Ok r' → admitted r' = true →
  judge_key_of key_of_sec1 (Some key_hex) = Ok (verifying_key k) → verifying_key k ≠ own →
  s = same_subject (parent_id r) (req_subject_path req) sha →
  check_v2_promotion policy_of_json key_of_sec1 d r' (Some key_hex) own (Some file) s = Ok tt.
Proof.
  intros Hp Hpre Hfin Had Hj Hown ->.
  destruct (preflight_checks _ _ _ _ _ _ _ Hpre) as (Hh & _ & Hallow & _).
  apply load_policy_ok in Hp as (bytes & Hd & Hpj & Hcp & Hsha).
  unfold finish_v2 in Hfin. apply bind_ok in Hfin as (now & _ & Hfin).
  destruct (bool_decide (now = sha)); [|done]. cbn [negb] in Hfin. cbv zeta in Hfin.
  apply bind_ok in Hfin as (ev & _ & Hfin).
  destruct (signed_v2_verifies _ _ _ _ Hfin) as (_ & _ & _ & Ha & _).
  destruct ((total =? 0)%N || f64_lt (f64_of_N passed)
              (f64_mul (min_holdout_pass_ratio (req_policy req)) (f64_of_N total))) eqn:He.
  { rewrite Had in Ha. discriminate Ha. }
  eapply (honest_passes policy_of_json key_of_sec1 d r _ k r' key_hex own file bytes
    (req_policy req)); try exact Hfin; try done.
  - congruence.
  - unfold enough_holdouts. simpl. by rewrite He.
Qed.
End Preflight.

(** ** A concrete evaluation *)

Module JudgeExample.
Import Checksum KeyedChecksum.

Definition e1 : DirEntry := {| entry_name := "a.json"; is_file := true; entry_bytes := "A" |}.
Definition e2 : DirEntry := {| entry_name := "b.json"; is_file := true; entry_bytes := "B" |}.
(** A reader whose suite has one case named by the text. *)
Definition suite_of_json (text : string) : option HoldoutSuite :=
  Some {| suite_id := text; suite_name := "n"; cases :=
    [{| case_id := text; case_name := "n"; input := text; expected_output := "ok";
        category := "c" |}] |}.
Definition suites : list HoldoutSuite := option_list (suite_of_json "A") ++ option_list (suite_of_json "B").
Definition holdouts : string := sha256_hex (holdout_preimage [e1; e2]).

Lemma loads12 : load_strict suite_of_json (Some [e1; e2]) = Ok (suites, holdouts).
Proof. vm_compute. reflexivity. Qed.
Lemma loads21 : load_strict suite_of_json (Some [e2; e1]) = Ok (suites, holdouts).
Proof. vm_compute. reflexivity. Qed.

Definition parent : list (string * node) :=
  [(".git", Dir [("HEAD", File "ref")]); ("src", Dir [("observe.rs", File "old"); ("x.rs", File "x")])].
Definition candidate : list (string * node) :=
  [("src", Dir [("x.rs", File "x"); ("observe.rs", File "new")]); ("target", Dir [])].
Ltac real := repeat match goal with
  | |- real_tree (File _) => apply real_file
  | |- real_tree (Dir _) => apply real_dir; split; [apply (bool_decide_unpack _); by vm_compute|split]
  | |- Forall _ _ => constructor
  | |- file_name_ok _ => done
  | |- real_tree _ => progress cbn [snd]
  end.
Lemma parent_real : real_tree (Dir parent).
Proof. unfold parent. real. Qed.
Lemma candidate_real : real_tree (Dir candidate).
Proof. unfold candidate. real. Qed.
Definition policy : EvaluationPolicy :=
  {| policy_id := "p1"; pinned_holdouts := holdouts; min_holdout_pass_ratio := f64_lit 5 1;
     require_admitted := true; allowed_targets := ["src/observe.rs"];
     protected_paths := ["src/ledger/"]; non_inferiority_margin_pct := None |}.
Definition of_json (text : string) : option EvaluationPolicy :=
  if bool_decide (text = "policy") then Some policy else None.
Definition d : disk := {["/etc/policy.json" := "policy"]}.
Definition req : V2Request :=
  {| req_subject_path := "src/observe.rs"; req_policy := policy;
     req_policy_sha256 := sha256_hex "policy" |}.

Lemma policy_loads :
  load_policy of_json d "/etc/policy.json" = Ok (req_policy req, req_policy_sha256 req).
Proof. vm_compute. reflexivity. Qed.
Lemma preflight_passes :
  v2_preflight (Some "bin/x") false req holdouts parent candidate = Ok (sha256_hex "new").
Proof. vm_compute. reflexivity. Qed.
(** A second changed file, or a hidden one, is refused. *)
Example other_change_refused :
  is_ok (v2_preflight (Some "bin/x") false req holdouts parent
           (("build.rs", File "evil") :: candidate)) = false
  ∧ is_ok (v2_preflight (Some "bin/x") false req holdouts parent
           [("src", Dir [("x.rs", File "x"); (".git", File ""); ("observe.rs", File "new")])]) = false.
Proof. split; vm_compute; reflexivity. Qed.

Definition jail (input : string) : jail_answer :=
  if bool_decide (input = "A") then JailOk " ok " else JailFail "no".
Example half_pass : (run_holdouts jail suites).1 = (2%N, 1%N).
Proof. vm_compute. reflexivity. Qed.

Definition binding_made : ReceiptBindingV2 :=
  {| subject_path := "src/observe.rs"; subject_sha256 := sha256_hex "new";
     holdout_set_sha256 := holdouts; holdouts_total := 2; holdouts_passed := 1;
     policy_sha256 := sha256_hex "policy"; evaluator_binary_sha256 := sha256_hex "judge" |}.
Definition final : EvaluationReceipt :=
  let r := with_binding binding_made ReceiptExample.plain in
  sign_receipt sk (with_digest (sha256_hex (v2_preimage r binding_made)) r).
Lemma finishes :
  finish_v2 req (sha256_hex "new") (Some "new") holdouts 2 1 (Some "judge") sk
    ReceiptExample.plain = Ok final.
Proof. vm_compute. reflexivity. Qed.
Definition key_of_sec1 (s : string) : option (@VerifyingKey p256) := Some s.
Lemma judge_key_loads : judge_key_of key_of_sec1 (Some "6b6579") = Ok (verifying_key sk).
Proof. vm_compute. reflexivity. Qed.
Lemma separate : verifying_key sk ≠ other.
Proof. discriminate. Qed.
End JudgeExample.

Lemma holdout_digest_pins_witness :
  [JudgeExample.e1; JudgeExample.e2] ≡ₚ [JudgeExample.e2; JudgeExample.e1].
Proof.
  refine (proj1 (holdout_digest_pins (H := Checksum.sha) JudgeExample.suite_of_json _ _ _ _ _ _ _
    eq_refl eq_refl JudgeExample.loads12 JudgeExample.loads21 _ _ _ _));
    try (apply (bool_decide_unpack _); by vm_compute).
Defined.

Lemma preflight_pins_change_witness :
  preflighted (Some "bin/x") false JudgeExample.req JudgeExample.holdouts JudgeExample.parent
    JudgeExample.candidate (sha256_hex "new")
  ∧ node_at (Dir JudgeExample.candidate) ["src"; "x.rs"] (File "x").
Proof.
  assert (preflighted (Some "bin/x") false JudgeExample.req JudgeExample.holdouts
    JudgeExample.parent JudgeExample.candidate (sha256_hex "new")) as Hpre.
  { exact (preflight_pins_change _ _ _ _ _ _ _ JudgeExample.parent_real JudgeExample.candidate_real
      JudgeExample.preflight_passes). }
  split; [exact Hpre|]. apply Hpre; [by split_and!|done|].
  apply (at_inside _ "src" (Dir [("observe.rs", File "old"); ("x.rs", File "x")])).
  { right. left. }
  apply (at_inside _ "x.rs" (File "x")); [right; left|]. constructor.
Defined.

Lemma judged_change_promotes_witness :
  check_v2_promotion (H := Checksum.sha) (H0 := KeyedChecksum.p256)
    (EqDecision0 := KeyedChecksum.key_eq_dec) JudgeExample.of_json JudgeExample.key_of_sec1
    JudgeExample.d JudgeExample.final (Some "6b6579") KeyedChecksum.other
    (Some "/etc/policy.json")
    (same_subject "abc" "src/observe.rs" (sha256_hex "new")) = Ok tt.
Proof.
  exact (judged_change_promotes (H := Checksum.sha) (H0 := KeyedChecksum.p256) _ _ _ _ _ _ _ _ _
    _ _ _ _ _ _ _ ReceiptExample.plain _ _ _ _ JudgeExample.policy_loads
    JudgeExample.preflight_passes JudgeExample.finishes eq_refl JudgeExample.judge_key_loads
    JudgeExample.separate eq_refl).
Defined.
