(* ===== verification/Evaluator.v ===== *)
(** The objective evaluator: the six layers of [src/evaluator/layers/], the process metrics they
    read ([evaluator/metrics.rs]) and the verdict [ObjectiveEvaluator] composes from them.

    What cargo answered and what the kernel reports about a process are inputs.  Counters of
    type [usize] wrap, as they do in the release build. *)

From S2P Require Import Prelude RustStd RustNum RustFloat Digest LedgerRecord Stats PatchGate Receipt.
#[local] Open Scope string_scope.
#[local] Open Scope list_scope.
#[local] Open Scope N_scope.

(** A score is kept as the bits of the [f64]. *)
Definition one : N := f64_to_bits (f64_of_N 1).
Definition half : N := f64_to_bits (f64_lit 5 1).
Definition zero : N := f64_to_bits (f64_of_N 0).

Definition ratio (a b : N) : N := f64_to_bits (f64_div (f64_of_N a) (f64_of_N b)).

Definition text_if (b : bool) (yes no : string) : string := if b then yes else no.
Definition debug_bool (b : bool) : string := text_if b "true" "false".

(** [i64] arithmetic that wraps, and the decimal text of an [i64]. *)
Definition wrap_i64 (z : Z) : Z := ((z + 2 ^ 63) mod 2 ^ 64 - 2 ^ 63)%Z.
Definition dec_z (z : Z) : string :=
  if (z <? 0)%Z then "-" +:+ dec (Z.to_N (- z)) else dec (Z.to_N z).

(** ** Process metrics *)

Module Metrics.

Record RusageMetrics := {
  user_time_us : N;
  system_time_us : N;
  max_rss_kb : Z;
  voluntary_context_switches : Z;
  involuntary_context_switches : Z
}.

Definition sat_sub (a b : N) : N := a - b.
(** [i64::saturating_sub], [i64::saturating_add]. *)
Definition sat_i64 (z : Z) : Z := Z.max (- 2 ^ 63) (Z.min z (2 ^ 63 - 1)).

Definition diff (self baseline : RusageMetrics) : RusageMetrics := {|
  user_time_us := sat_sub (user_time_us self) (user_time_us baseline);
  system_time_us := sat_sub (system_time_us self) (system_time_us baseline);
  max_rss_kb := Z.max (max_rss_kb self) (max_rss_kb baseline);
  voluntary_context_switches :=
    sat_i64 (voluntary_context_switches self - voluntary_context_switches baseline);
  involuntary_context_switches :=
    sat_i64 (involuntary_context_switches self - involuntary_context_switches baseline)
|}.

Definition accumulate (self delta : RusageMetrics) : RusageMetrics := {|
  user_time_us := sat_add64 (user_time_us self) (user_time_us delta);
  system_time_us := sat_add64 (system_time_us self) (system_time_us delta);
  max_rss_kb := Z.max (max_rss_kb self) (max_rss_kb delta);
  voluntary_context_switches :=
    sat_i64 (voluntary_context_switches self + voluntary_context_switches delta);
  involuntary_context_switches :=
    sat_i64 (involuntary_context_switches self + involuntary_context_switches delta)
|}.

Definition no_usage : RusageMetrics := {|
  user_time_us := 0; system_time_us := 0; max_rss_kb := 0;
  voluntary_context_switches := 0; involuntary_context_switches := 0 |}.

Record StatmMetrics := {
  total_pages : N;
  resident_pages : N;
  shared_pages : N;
  text_pages : N;
  data_pages : N;
  resident_kb : N
}.

Definition page_count (name : string) (token : option (list N)) : result N :=
  ok_or (t ← token; parse_uint u64_max t) (Fmt ("Invalid " +:+ name +:+ ": {}") []).

(** [parse_statm]; the page size of the system is an input. *)
Definition parse_statm (page_size_kb : N) (content : string) : result StatmMetrics :=
  let tokens := split_whitespace content in
  if (length tokens <? 6)%nat then fail "Malformed statm content: expected at least 6 tokens" []
  else
    total ← page_count "total_pages" (tokens !! 0%nat);
    resident ← page_count "resident_pages" (tokens !! 1%nat);
    shared ← page_count "shared_pages" (tokens !! 2%nat);
    text ← page_count "text_pages" (tokens !! 3%nat);
    data ← page_count "data_pages" (tokens !! 5%nat);
    Ok {| total_pages := total; resident_pages := resident; shared_pages := shared;
          text_pages := text; data_pages := data;
          resident_kb := sat_mul64 resident page_size_kb |}.

End Metrics.

(** ** Correctness *)

Module Correctness.

Record CorrectnessEvaluation := {
  compilation_passed : bool;
  unit_tests_passed : N;
  unit_tests_failed : N;
  integration_tests_passed : N;
  integration_tests_failed : N;
  abi_stability_passed : bool;
  passed : bool;
  failures : list string
}.

Definition to_layer_result (e : CorrectnessEvaluation) : LayerResult :=
  let total_passed := wadd64 (unit_tests_passed e) (integration_tests_passed e) in
  let total := wadd64 total_passed (wadd64 (unit_tests_failed e) (integration_tests_failed e)) in
  {| layer_name := "Correctness";
     is_hard_invariant := true;
     Receipt.passed := passed e;
     score := if negb (compilation_passed e) || negb (abi_stability_passed e) then zero
              else if total =? 0 then one else ratio total_passed total;
     summary := render (Fmt "Correctness: compile={}, abi={}, unit={}/{}, integ={}/{}"
       [text_if (compilation_passed e) "OK" "FAIL"; text_if (abi_stability_passed e) "STABLE" "BROKEN";
        dec (unit_tests_passed e); dec (wadd64 (unit_tests_passed e) (unit_tests_failed e));
        dec (integration_tests_passed e);
        dec (wadd64 (integration_tests_passed e) (integration_tests_failed e))]);
     violations := failures e |}.

Definition evaluate_synthetic (compiled : bool) (up uf ip ifl : N) (abi : bool)
    : CorrectnessEvaluation := {|
  compilation_passed := compiled; unit_tests_passed := up; unit_tests_failed := uf;
  integration_tests_passed := ip; integration_tests_failed := ifl; abi_stability_passed := abi;
  passed := compiled && (uf =? 0) && (ifl =? 0) && abi;
  failures := (if compiled then [] else ["Compilation failed"])
    ++ (if 0 <? uf then [render (Fmt "{} unit tests failed" [dec uf])] else [])
    ++ (if 0 <? ifl then [render (Fmt "{} integration tests failed" [dec ifl])] else [])
    ++ (if abi then [] else ["ABI stability check failed"])
|}.

(** What running cargo in the sandbox gave: its exit and its two output texts, or no run. *)
Inductive CargoRun :=
  | Finished (success : bool) (stdout stderr : string)
  | NotStarted (e : string).

(** The number in front of [word] on a line: the last word before its first occurrence. *)
Definition count_before (word line : string) : option N :=
  pos ← String.index 0 word line;
  w ← last (split_whitespace (String.substring 0 pos line));
  parse_uint u64_max w.

Definition add_count (word line : string) (n : N) : N :=
  wadd64 n (default 0 (count_before word line)).

(** The totals over the lines that report a test result. *)
Definition test_counts (stdout : string) : N * N :=
  foldl (λ '(p, f) line,
      if str_contains "test result:" line
      then (add_count "passed" line p, add_count "failed" line f) else (p, f))
    (0, 0) (str_lines stdout).

Definition not_compiled (failures : list string) : CorrectnessEvaluation := {|
  compilation_passed := false; unit_tests_passed := 0; unit_tests_failed := 1;
  integration_tests_passed := 0; integration_tests_failed := 0; abi_stability_passed := false;
  passed := false; failures := failures |}.

(** [evaluate_repo]: the check runs first and the tests only when it succeeded. *)
Definition evaluate_repo (check test : CargoRun) : CorrectnessEvaluation :=
  match check with
  | Finished false _ stderr => not_compiled [render (Fmt "Cargo check failed: {}" [stderr])]
  | NotStarted e => not_compiled [render (Fmt "Failed to execute cargo check: {}" [e])]
  | Finished true _ _ =>
    let '(up, uf, exited_ok, failures) :=
      match test with
      | Finished ok stdout _ =>
        let '(p, f) := test_counts stdout in
        (p, f, ok, if ok then [] else ["Cargo test returned non-zero status code"])
      | NotStarted e => (0, 1, false, [render (Fmt "Failed to run cargo test: {}" [e])])
      end in
    {| compilation_passed := true; unit_tests_passed := up; unit_tests_failed := uf;
       integration_tests_passed := 0; integration_tests_failed := 0;
       abi_stability_passed := true; passed := exited_ok && (uf =? 0); failures := failures |}
  end.

Example counts : test_counts ("running" +:+ String lf "test result: ok. 12 passed; 1 failed; 0 ignored")
  = (12, 1).
Proof. vm_compute. reflexivity. Qed.

End Correctness.

(** ** Security and style *)

Definition security_layer_result (e : SecurityEvaluation) : LayerResult :=
  let pass b := text_if b "PASS" "FAIL" in
  {| layer_name := "Security";
     is_hard_invariant := true;
     Receipt.passed := sec_passed e;
     score := if sec_passed e then one else zero;
     summary := render (Fmt "Security: root_of_trust={}, zero_disk_secrets={}, network_isolation={}"
       [pass (root_of_trust_compliant e); pass (zero_disk_secrets_clean e);
        pass (network_isolation_compliant e)]);
     violations := render <$> sec_violations e |}.

Module Style.

Definition FORBIDDEN_BUZZWORDS : list string :=
  ["delve"; "tapestry"; "testament"; "beacon"; "crucial"; "pivotal"; "elevate"; "game-changer";
   "unleash"; "harness"; "seamlessly"].
Definition ANTITHESIS_TROPES : list string := ["it's not "; "it is not "; "not only "; "not just "].
Definition TRANSITIONAL_FLUFF : list string :=
  ["furthermore"; "moreover"; "in conclusion"; "at its core"].

(** [str::to_lowercase], exact on every character whose lower case contains an ASCII letter: the
    ASCII capitals, the dotted capital I and the Kelvin sign.  Other capitals, whose lower case
    is not ASCII either, stay as they are, which no search for an ASCII word can tell. *)
Definition lower_char (c : N) : list N :=
  if (65 <=? c) && (c <=? 90) then [c + 32]
  else if c =? 304 then [105; 775]
  else if c =? 8490 then [107]
  else [c].
Definition to_lowercase (s : string) : string := string_of_chars (concat (lower_char <$> chars s)).

Record StyleEvaluation := {
  em_dash_count : N;
  en_dash_count : N;
  buzzword_violations : list string;
  antithesis_violations : list string;
  transitional_fluff_violations : list string;
  passed : bool;
  style_violations : list string
}.

Definition to_layer_result (e : StyleEvaluation) : LayerResult :=
  {| layer_name := "Style";
     is_hard_invariant := true;
     Receipt.passed := passed e;
     score := if passed e then one else zero;
     summary := render (Fmt "Style: em_dashes={}, en_dashes={}, buzzwords={}, tropes={}"
       [dec (em_dash_count e); dec (en_dash_count e); dec (len (buzzword_violations e));
        dec (len (antithesis_violations e) + len (transitional_fluff_violations e))]);
     violations := style_violations e |}.

Definition count_char (c : N) (s : string) : N := len (List.filter (N.eqb c) (chars s)).

Definition evaluate_text (content : string) : StyleEvaluation :=
  let em := count_char 8212 content in
  let en := count_char 8211 content in
  let lower := to_lowercase content in
  let buzz := found FORBIDDEN_BUZZWORDS lower in
  let fluff := found TRANSITIONAL_FLUFF lower in
  let tropes := found ANTITHESIS_TROPES lower in
  let report t w := render (Fmt t [w]) in
  {| em_dash_count := em; en_dash_count := en; buzzword_violations := buzz;
     antithesis_violations := tropes; transitional_fluff_violations := fluff;
     passed := (em =? 0) && (en =? 0) && bool_decide (buzz = []) && bool_decide (tropes = [])
               && bool_decide (fluff = []);
     style_violations :=
       (if 0 <? em then [report "Detected {} em dash characters (—)" (dec em)] else [])
       ++ (if 0 <? en then [report "Detected {} en dash characters (–)" (dec en)] else [])
       ++ (report "Forbidden AI buzzword detected: '{}'" <$> buzz)
       ++ (report "Forbidden transitional fluff detected: '{}'" <$> fluff)
       ++ (report "Forbidden antithesis trope detected: '{}'" <$> tropes) |}.

Example style_examples :
  passed ∘ evaluate_text <$> ["Clean text."; "We Delve deeper"; "high — low"; "Moreover, fine";
                              "uNLEASH"; "see_K_ harness"]
  = [true; false; false; false; false; false].
Proof. vm_compute. reflexivity. Qed.

End Style.

(** ** Performance *)

Module Performance.

Record PerformanceEvaluation := {
  bootstrap_estimate : BootstrapEstimate;
  p95_non_inferiority : TailNonInferiorityResult;
  p99_non_inferiority : TailNonInferiorityResult;
  target_metric_improved : bool;
  non_target_metrics_safe : bool;
  passed : bool;
  perf_violations : list string
}.

Definition to_layer_result (e : PerformanceEvaluation) : LayerResult :=
  {| layer_name := "Performance";
     is_hard_invariant := false;
     Receipt.passed := passed e;
     score := if passed e then one else if non_target_metrics_safe e then half else zero;
     summary := render (Fmt
       "Performance: delta={}%, p_val={}, p95_ci_upper={}%, p99_ci_upper={}%, sig={}"
       [fmt_fixed 2 (delta_pct (bootstrap_estimate e));
        fmt_fixed 4 (Stats.p_value (bootstrap_estimate e));
        fmt_fixed 2 (ci_95_upper_pct (p95_non_inferiority e));
        fmt_fixed 2 (ci_95_upper_pct (p99_non_inferiority e));
        text_if (is_statistically_significant (bootstrap_estimate e)) "YES" "NO"]);
     violations := perf_violations e |}.

(** The target metric moved significantly in the wanted direction. *)
Definition improved (latency_reduction : bool) (boot : BootstrapEstimate) : bool :=
  is_statistically_significant boot
  && (if latency_reduction then f64_lt (observed_delta_mean boot) (f64_of_N 0)
      else f64_gt (observed_delta_mean boot) (f64_of_N 0)).

Definition tail_report (t : string) (r : TailNonInferiorityResult) (margin : f64) : list string :=
  if passes_non_inferiority r then []
  else [render (Fmt (t +:+ " tail latency exceeded non-inferiority bound: upper_ci={}% > {}%")
          [fmt_fixed 2 (ci_95_upper_pct r); fmt_fixed 1 margin])].

Definition evaluate_latencies_with_policy (parent candidate : list f64)
    (latency_reduction require_improvement : bool) (margin : f64) (resamples : N)
    (seed : option N) : option (result PerformanceEvaluation) :=
  boot ← bootstrap_paired_comparison parent candidate resamples seed;
  match boot with Err e => Some (Err e) | Ok boot =>
  let target := improved latency_reduction boot in
  p95 ← evaluate_tail_non_inferiority parent candidate (f64_of_N 95) margin resamples
          ((λ s, wadd64 s 1) <$> seed);
  match p95 with Err e => Some (Err e) | Ok p95 =>
  p99 ← evaluate_tail_non_inferiority parent candidate (f64_of_N 99) margin resamples
          ((λ s, wadd64 s 2) <$> seed);
  match p99 with Err e => Some (Err e) | Ok p99 =>
  let safe := passes_non_inferiority p95 && passes_non_inferiority p99 in
  Some (Ok {| bootstrap_estimate := boot; p95_non_inferiority := p95; p99_non_inferiority := p99;
    target_metric_improved := target; non_target_metrics_safe := safe;
    passed := if require_improvement then target && safe else safe;
    perf_violations :=
      (if require_improvement && negb target
       then [render (Fmt
         "Target metric did not achieve statistical significance (p={}, delta={}%)"
         [fmt_fixed 4 (Stats.p_value boot); fmt_fixed 2 (delta_pct boot)])] else [])
      ++ tail_report "p95" p95 margin ++ tail_report "p99" p99 margin |})
  end end end.

Definition evaluate_latencies (parent candidate : list f64) (latency_reduction : bool)
    (resamples : N) (seed : option N) : option (result PerformanceEvaluation) :=
  evaluate_latencies_with_policy parent candidate latency_reduction true (f64_of_N 1) resamples seed.

End Performance.

(** ** Resource efficiency *)

Module Resource.
Import Metrics.

Record ResourceEfficiencyEvaluation := {
  parent_rss_kb : Z;
  candidate_rss_kb : Z;
  growth_pct : f64;
  rss_growth_within_budget : bool;
  host_memory_within_budget : bool;
  context_switches_delta : Z;
  passed : bool;
  res_violations : list string
}.

Definition to_layer_result (e : ResourceEfficiencyEvaluation) : LayerResult :=
  {| layer_name := "ResourceEfficiency";
     is_hard_invariant := false;
     Receipt.passed := passed e;
     score := if passed e then one else if host_memory_within_budget e then half else zero;
     summary := render (Fmt "ResourceEfficiency: rss_growth={}%, limit_mb_ok={}, ctxt_delta={}"
       [fmt_fixed 2 (growth_pct e); debug_bool (host_memory_within_budget e);
        dec_z (context_switches_delta e)]);
     violations := res_violations e |}.

Definition MAX_RSS_GROWTH_PCT : f64 := f64_of_N 2.
Definition DEFAULT_UNIFIED_MEMORY_LIMIT_MB : N := 49152.

(** The growth of the peak resident set, in percent of the parent's. *)
Definition rss_growth (parent candidate : Z) : f64 :=
  if (0 <? parent)%Z
  then f64_mul (f64_div (f64_of_Z (wrap_i64 (candidate - parent))) (f64_of_Z parent)) (f64_of_N 100)
  else f64_of_N 0.

Definition over_limit (statm : option StatmMetrics) (limit_mb : N) : option N :=
  s ← statm;
  let resident_mb := resident_kb s / 1024 in
  if limit_mb <? resident_mb then Some resident_mb else None.

Definition switches (r : RusageMetrics) : Z :=
  wrap_i64 (voluntary_context_switches r + involuntary_context_switches r).

Definition evaluate (parent candidate : RusageMetrics) (statm : option StatmMetrics)
    (memory_limit_mb : option N) : ResourceEfficiencyEvaluation :=
  let p := max_rss_kb parent in
  let c := max_rss_kb candidate in
  let growth := rss_growth p c in
  let within := f64_le growth MAX_RSS_GROWTH_PCT in
  let limit_mb := default DEFAULT_UNIFIED_MEMORY_LIMIT_MB memory_limit_mb in
  let over := over_limit statm limit_mb in
  let host := bool_decide (over = None) in
  {| parent_rss_kb := p; candidate_rss_kb := c; growth_pct := growth;
     rss_growth_within_budget := within; host_memory_within_budget := host;
     context_switches_delta := wrap_i64 (switches candidate - switches parent);
     passed := within && host;
     res_violations :=
       (if within then [] else [render (Fmt
         "Candidate peak RSS growth exceeded 2.0% threshold: {}% (parent={} KB, cand={} KB)"
         [fmt_fixed 2 growth; dec_z p; dec_z c])])
       ++ (match over with
           | Some mb => [render (Fmt
               "Candidate resident memory exceeded unified memory limit: {} MB > {} MB"
               [dec mb; dec limit_mb])]
           | None => []
           end) |}.

End Resource.

(** ** Longitudinal replay *)

Module Replay.

Record DefectTestResult := {
  defect_id : string;
  title : string;
  defect_passed : bool;
  details : option string
}.

Record LongitudinalReplayEvaluation := {
  total_cases : N;
  passed_cases : N;
  regressions_detected : list string;
  passed : bool
}.

Definition to_layer_result (e : LongitudinalReplayEvaluation) : LayerResult :=
  {| layer_name := "LongitudinalReplay";
     is_hard_invariant := true;
     Receipt.passed := passed e;
     score := if total_cases e =? 0 then one else ratio (passed_cases e) (total_cases e);
     summary := render (Fmt "LongitudinalReplay: passed={}/{}, regressions={}"
       [dec (passed_cases e); dec (total_cases e); dec (len (regressions_detected e))]);
     violations := regressions_detected e |}.

Definition regression (r : DefectTestResult) : string :=
  render (Fmt "[{}] {}: {}"
    [defect_id r; title r; default "Defect regression assertion failed" (details r)]).

(** The loop over the corpus: the cases that passed and the regressions, in order. *)
Fixpoint replay (results : list DefectTestResult) (passed_cases : N) (regressions : list string)
    : N * list string :=
  match results with
  | [] => (passed_cases, regressions)
  | r :: rs =>
    if defect_passed r then replay rs (passed_cases + 1) regressions
    else replay rs passed_cases (regressions ++ [regression r])
  end.

Definition evaluate_results (results : list DefectTestResult) : LongitudinalReplayEvaluation :=
  let '(ok, regressions) := replay results 0 [] in
  {| total_cases := len results; passed_cases := ok; regressions_detected := regressions;
     passed := bool_decide (regressions = []) |}.

Definition builtin_regression_corpus : list DefectTestResult :=
  (λ '(i, t), {| defect_id := i; title := t; defect_passed := true; details := None |}) <$>
  [("ROT-001", "Root-of-trust path tampering rejection");
   ("SEC-001", "Zero plaintext credentials in repository files");
   ("STY-001", "Strict prohibition of em dashes and en dashes");
   ("SUP-001", "Host supervisor 48 GB unified LPDDR5x budget enforcement")].

End Replay.

(** ** The verdict *)

Section Objective.
Context `{Sha256}.

(** [ObjectiveEvaluator::evaluate_candidate]; the time and the engine's version are inputs. *)
Definition evaluate_layers (now version cycle candidate parent : string)
    (c : Correctness.CorrectnessEvaluation) (sec : SecurityEvaluation)
    (sty : Style.StyleEvaluation) (perf : Performance.PerformanceEvaluation)
    (res : Resource.ResourceEfficiencyEvaluation)
    (rep : Replay.LongitudinalReplayEvaluation) : EvaluationReceipt :=
  let layers := [Correctness.to_layer_result c; security_layer_result sec;
    Style.to_layer_result sty; Performance.to_layer_result perf;
    Resource.to_layer_result res; Replay.to_layer_result rep] in
  let hard := Correctness.passed c && sec_passed sec && Style.passed sty && Replay.passed rep in
  let statistical := Performance.passed perf && Resource.passed res in
  let verdict := hard && statistical in
  let summary := {|
    latency_delta_pct := f64_to_bits (delta_pct (Performance.bootstrap_estimate perf));
    Receipt.p_value := f64_to_bits (Stats.p_value (Performance.bootstrap_estimate perf));
    p95_ci_upper_degradation_pct :=
      f64_to_bits (ci_95_upper_pct (Performance.p95_non_inferiority perf));
    p99_ci_upper_degradation_pct :=
      f64_to_bits (ci_95_upper_pct (Performance.p99_non_inferiority perf));
    rss_growth_pct := f64_to_bits (Resource.growth_pct res);
    candidate_resident_mb :=
      Z.to_N (Z.quot (Resource.candidate_rss_kb res) 1024 mod 2 ^ 64) |} in
  {| cycle_id := cycle; candidate_id := candidate; parent_id := parent; evaluated_at := now;
     evaluator_version := version; passed_all_hard_invariants := hard;
     passed_statistical_gates := statistical; admitted := verdict; layer_results := layers;
     metrics_summary := Some summary;
     receipt_digest := compute_digest cycle candidate parent verdict layers;
     receipt_signature := None; format_version := 1; binding := None |}.

End Objective.
