(* ===== verification/EvaluatorProps.v ===== *)
(** The evaluator's layers: the performance layer never panics, a candidate that is not faster in
    any pair is never an improvement, and what each layer's pass and the composed verdict mean. *)

From S2P Require Import Prelude RustStd RustNum RustFloat Digest LedgerRecord Stats StatsProps.
From S2P Require Import PatchGate Receipt Evaluator.
#[local] Open Scope N_scope.

(** ** The performance layer *)

Import Performance.

Lemma improvement_result p c lr ri mg n seed r :
  evaluate_latencies_with_policy p c lr ri mg n seed = Some (Ok r) →
  bootstrap_paired_comparison p c n seed = Some (Ok (bootstrap_estimate r))
  ∧ target_metric_improved r = improved lr (bootstrap_estimate r)
  ∧ non_target_metrics_safe r = passes_non_inferiority (p95_non_inferiority r)
                                && passes_non_inferiority (p99_non_inferiority r)
  ∧ passed r = (if ri then target_metric_improved r && non_target_metrics_safe r
                else non_target_metrics_safe r)
  ∧ evaluate_tail_non_inferiority p c (f64_of_N 95) mg n ((λ s, wadd64 s 1) <$> seed)
    = Some (Ok (p95_non_inferiority r))
  ∧ evaluate_tail_non_inferiority p c (f64_of_N 99) mg n ((λ s, wadd64 s 2) <$> seed)
    = Some (Ok (p99_non_inferiority r)).
Proof.
  unfold evaluate_latencies_with_policy. intros H.
  apply bind_Some in H as ([boot|] & Hb & H); [|done].
  apply bind_Some in H as ([p95|] & H95 & H); [|done].
  apply bind_Some in H as ([p99|] & H99 & H); [|done].
  injection H as <-. done.
Qed.

(** Whatever the samples are, the performance layer computes a result: no index it derives
    from random numbers or from floating-point ranks is out of bounds.  The result is an error
    exactly when the samples are empty or not paired. *)
Lemma performance_total p c lr ri mg n seed : len p < 2 ^ 53 → len c < 2 ^ 53 →
  ∃ r, evaluate_latencies_with_policy p c lr ri mg n seed = Some r
     ∧ (is_ok r = true ↔ p ≠ [] ∧ len p = len c).
Proof.
  intros Hp Hc. unfold evaluate_latencies_with_policy.
  pose proof (bootstrap_total p c n seed) as Hb. destruct (decide _) as [[Hne Hlen]|Hbad];
    destruct Hb as [e ->]; cbn [mbind option_bind].
  2: { eexists. split; [done|]. split; [done|]. intros ?. by exfalso; apply Hbad. }
  assert (c ≠ []) as Hce by (destruct c; [destruct p; [done|unfold len in Hlen; cbn in Hlen; lia]|done]).
  assert (f64_of_N 95 ∈ asked_percentiles ∧ f64_of_N 99 ∈ asked_percentiles) as [H95 H99].
  { unfold asked_percentiles. split; [by right; left|by right; right; left]. }
  destruct (tail_total p c (f64_of_N 95) mg n ((λ s, wadd64 s 1) <$> seed) H95 Hne Hce Hp Hc) as [t ->].
  destruct (tail_total p c (f64_of_N 99) mg n ((λ s, wadd64 s 2) <$> seed) H99 Hne Hce Hp Hc) as [u ->].
  cbn [mbind option_bind]. eexists. split; [done|]. done.
Qed.

(** No measured pair shows the candidate faster. *)
Definition never_faster (p c : list f64) : Prop :=
  Forall not_negative (zip_with (λ p c, f64_sub c p) p c).

Lemma bootstrap_delta p c n seed e : bootstrap_paired_comparison p c n seed = Some (Ok e) →
  observed_delta_mean e
  = f64_div (sum_samples (zip_with (λ p c, f64_sub c p) p c)) (f64_of_N (len p)).
Proof.
  unfold bootstrap_paired_comparison. destruct (_ || _); [done|]. intros H.
  apply bind_Some in H as (means & _ & H). apply bind_Some in H as (lo & _ & H).
  apply bind_Some in H as (hi & _ & H). symmetry.
  exact (f_equal (λ o, match o with Some (Ok r) => observed_delta_mean r | _ => S754_nan end) H).
Qed.

Lemma never_faster_not_improved p c n seed e : never_faster p c →
  bootstrap_paired_comparison p c n seed = Some (Ok e) → improved true e = false.
Proof.
  intros Hn He. unfold improved. apply andb_false_intro2. rewrite (bootstrap_delta _ _ _ _ _ He).
  apply div_not_negative; [|by apply normalize_plus; lia].
  apply sum_not_negative; [by apply not_negative_cases|done].
Qed.
