(* ===== verification/JudgeCycle.v ===== *)
(** One evaluation by the blind judge ([evaluate_cycle] of [src/actor/judge.rs]) for a version 2
    request: the difference of the trees, the paired benchmark, the six layers and the signed
    receipt, composed as the judge composes them.

    The trees are those of [Judge.v]; a symbolic link is not followed, which the preflight of a
    version 2 request makes unnecessary because it refuses both trees when they contain one.
    What the operating system, cargo and the jail answer is a record of inputs. *)

From stdpp Require Import sorting.
From S2P Require Import Prelude RustStd RustPath RustNum RustFloat Digest LedgerRecord.
From S2P Require Import Stats PatchGate Receipt Judge Evaluator.
#[local] Open Scope string_scope.
#[local] Open Scope list_scope.
#[local] Set Warnings "-register-all".

(** ** The difference of the trees *)

(** Directory entries the comparison does not look at, at any depth. *)
Definition skipped_name (name : string) : bool :=
  bool_decide (name = "target") || bool_decide (name = ".git")
  || bool_decide (name = "node_modules") || starts_with "." name.

Abbreviation found_files := (list (string * string)).

Definition name_le (a b : string * found_files) : Prop := String.le a.1 b.1.
#[export] Instance name_le_dec a b : Decision (name_le a b).
Proof. unfold name_le. apply _. Defined.

(** The regular files below a directory, siblings in the order of their names. *)
Fixpoint collect (rel : string) (n : node) : found_files :=
  match n with
  | File bytes => [(rel, bytes)]
  | Special => []
  | Dir entries =>
    let below := (λ e : string * node, (e.1, collect (rel_path rel (from_utf8_lossy e.1)) e.2))
                 <$> entries in
    concat (merge_sort name_le (List.filter (λ e, negb (skipped_name e.1)) below)).*2
  end.
Definition collect_files_recursive (tree : list (string * node)) : found_files :=
  collect "" (Dir tree).

Fixpoint node_at (parts : list string) (n : node) : option node :=
  match parts with
  | [] => Some n
  | p :: parts =>
    match n with
    | Dir entries => e ← List.find (λ e, bool_decide (e.1 = p)) entries; node_at parts e.2
    | _ => None
    end
  end.
Definition lookup_path (tree : list (string * node)) (rel : string) : option node :=
  node_at (split_on slash rel) (Dir tree).

(** [fs::read(p).unwrap_or_default()]. *)
Definition read_or_empty (n : node) : string := match n with File b => b | _ => "" end.

Record Difference := {
  modified_files : list string;
  patch_diff : string;
  style_text : string
}.

Definition line (s : string) : string := s +:+ String lf "".
Definition lines_of (l : list string) : string := foldr (λ s acc, line s +:+ acc) "" l.
Definition no_difference : Difference :=
  {| modified_files := []; patch_diff := ""; style_text := "" |}.
Definition add_difference (d : Difference) (rel patch style : string) : Difference :=
  {| modified_files := modified_files d ++ [rel]; patch_diff := patch_diff d +:+ patch;
     style_text := style_text d +:+ style |}.

(** One file of the candidate against the parent's tree. *)
Definition compare_file (parent : list (string * node)) (d : Difference) (f : string * string)
    : Difference :=
  let '(rel, bytes) := f in
  match lookup_path parent rel with
  | None =>
    let content := if valid_utf8 bytes then bytes else "" in
    add_difference d rel
      (line ("+++ " +:+ rel) +:+ lines_of ((λ l, "+ " +:+ l) <$> str_lines content)) (line content)
  | Some n =>
    if bool_decide (bytes = read_or_empty n) then d
    else
      let content := from_utf8_lossy bytes in
      let before := from_utf8_lossy (read_or_empty n) in
      add_difference d rel
        (line ("--- a/" +:+ rel) +:+ line ("+++ b/" +:+ rel)
         +:+ lines_of ((λ l, "+ " +:+ l) <$>
               List.filter (λ l, negb (str_contains l before)) (str_lines content)))
        (line content)
  end.

(** A file of the parent that the candidate lost. *)
Definition compare_removed (candidate : list (string * node)) (d : Difference)
    (f : string * string) : Difference :=
  match lookup_path candidate f.1 with
  | Some _ => d
  | None => add_difference d f.1 (line ("--- a/" +:+ f.1)) ""
  end.

Definition compute_candidate_diff (parent candidate : list (string * node)) : Difference :=
  foldl (compare_removed candidate)
    (foldl (compare_file parent) no_difference (collect_files_recursive candidate))
    (collect_files_recursive parent).

(** ** The paired benchmark *)

Section Bench.
Import Metrics.

(** One jailed run between two readings of the children's resource usage. *)
Record BenchRun := {
  usage_before : result RusageMetrics;
  jail_run : result (bool * string);
  elapsed_us : f64;
  usage_after : result RusageMetrics
}.

Inductive side := Parent | Candidate.
#[export] Instance side_eq_dec : EqDecision side.
Proof. solve_decision. Defined.
Definition side_name (s : side) : string := match s with Parent => "parent" | Candidate => "candidate" end.
Definition Side_name (s : side) : string := match s with Parent => "Parent" | Candidate => "Candidate" end.

Record BenchState := {
  parent_latencies : list f64;
  candidate_latencies : list f64;
  parent_rusage : RusageMetrics;
  candidate_rusage : RusageMetrics
}.

Definition bench_start : BenchState :=
  {| parent_latencies := []; candidate_latencies := []; parent_rusage := no_usage;
     candidate_rusage := no_usage |}.

Definition map_err {A} (t : string) (args : list string) (r : result A) : result A :=
  match r with Ok a => Ok a | Err e => Err (Fmt t (args ++ [render e])) end.

(** One side of one iteration. *)
Definition bench_one (s : side) (i : N) (b : BenchRun) (st : BenchState) : result BenchState :=
  before ← map_err ("Failed to capture " +:+ side_name s +:+ " baseline: {}") [] (usage_before b);
  run ← map_err ("Jail execution failed for " +:+ side_name s +:+ " on iteration {}: {}") [dec i]
          (jail_run b);
  let '(ok, stderr) := run in
  if negb ok then
    fail (Side_name s +:+ " execution exited with error on iteration {}: {}") [dec i; stderr]
  else
    after ← map_err ("Failed to capture " +:+ side_name s +:+ " child rusage: {}") [] (usage_after b);
    let used := diff after before in
    Ok match s with
       | Parent =>
         {| parent_latencies := parent_latencies st ++ [elapsed_us b];
            candidate_latencies := candidate_latencies st;
            parent_rusage := accumulate (parent_rusage st) used;
            candidate_rusage := candidate_rusage st |}
       | Candidate =>
         {| parent_latencies := parent_latencies st;
            candidate_latencies := candidate_latencies st ++ [elapsed_us b];
            parent_rusage := parent_rusage st;
            candidate_rusage := accumulate (candidate_rusage st) used |}
       end.

Context (runs : side → N → BenchRun).

(** The parent runs first in the even iterations and second in the odd ones. *)
Definition iteration_order (i : N) : list side :=
  if N.even i then [Parent; Candidate] else [Candidate; Parent].

Definition bench_iteration (i : N) (st : BenchState) : result BenchState :=
  foldl (λ r s, r ≫= bench_one s i (runs s i)) (Ok st) (iteration_order i).

Fixpoint bench_loop (k : nat) (i : N) (st : BenchState) : result BenchState :=
  match k with
  | O => Ok st
  | S k => st ← bench_iteration i st; bench_loop k (i + 1)%N st
  end.

Definition run_paired_benchmarks_bins (iterations : nat) : result BenchState :=
  bench_loop iterations 0 bench_start.
End Bench.

(** ** The evaluation *)

Section Cycle.
Context `{Sha256} `{P256}.
Context (suite_of_json : string → option HoldoutSuite).

Record BlindJudge := {
  signing_key : option SigningKey;
  require_latency_improvement : bool;
  non_inferiority_margin_pct : f64;
  require_build_verification : bool;
  executable : option string;
  build_release : bool
}.

(** What the judge meets while it runs: the holdout directory, the two trees, whether the two
    programs were found or built, the jail's answers, cargo's runs, the benchmark runs, the
    judge's own memory, the subject's bytes afterwards, the judge's executable, the time and
    whether the receipt could be saved. *)
Record Surroundings := {
  holdout_dir : option (list DirEntry);
  parent_tree : list (string * node);
  candidate_tree : list (string * node);
  binaries : result unit;
  jail : string → jail_answer;
  cargo_check : Correctness.CargoRun;
  cargo_test : Correctness.CargoRun;
  bench_runs : side → N → BenchRun;
  own_statm : option Metrics.StatmMetrics;
  subject_after : option string;
  judge_exe : option string;
  clock : string;
  engine_version : string;
  saved : result unit
}.

Definition correctness_of (j : BlindJudge) (w : Surroundings) (total passed : N)
    : Correctness.CorrectnessEvaluation :=
  if negb (require_build_verification j) then Correctness.evaluate_synthetic true 1 0 0 0 true
  else match lookup_path (candidate_tree w) "Cargo.toml" with
       | Some _ => Correctness.evaluate_repo (cargo_check w) (cargo_test w)
       | None => Correctness.evaluate_synthetic true passed (total - passed) 8 0 true
       end.

Definition styled_text (d : Difference) : string :=
  if bool_decide (style_text d = "")
  then "Native compiled Rust execution running on DGX Spark GB10." else style_text d.

(** The built-in cases and one failed case for every failed holdout. *)
Definition replay_cases (bad : list error) : list Replay.DefectTestResult :=
  Replay.builtin_regression_corpus
  ++ ((λ v, {| Replay.defect_id := "HOLD-FAIL";
               Replay.title := "Blind holdout test suite assertion failure";
               Replay.defect_passed := false; Replay.details := Some (render v) |}) <$> bad).

Definition ITERATIONS : nat := 20.
Definition RESAMPLES : N := 5000.
Definition SEED : N := 42.
Definition JUDGE_MEMORY_LIMIT_MB : N := 49152.

(** The verdict over the layers, before the receipt is bound and signed; [None] is a panic. *)
Definition judge_layers (j : BlindJudge) (w : Surroundings) (cycle candidate parent : string)
    (total passed : N) (bad : list error) : option (result EvaluationReceipt) :=
  let d := compute_candidate_diff (parent_tree w) (candidate_tree w) in
  match run_paired_benchmarks_bins (bench_runs w) ITERATIONS with
  | Err e => Some (Err e)
  | Ok b =>
    perf ← Performance.evaluate_latencies_with_policy (parent_latencies b) (candidate_latencies b)
             true (require_latency_improvement j) (non_inferiority_margin_pct j)
             RESAMPLES (Some SEED);
    Some (perf ← perf;
      Ok (evaluate_layers (clock w) (engine_version w) cycle candidate parent
        (correctness_of j w total passed)
        (evaluate_candidate (modified_files d) (patch_diff d) 0)
        (Style.evaluate_text (styled_text d)) perf
        (Resource.evaluate (parent_rusage b) (candidate_rusage b) (own_statm w)
           (Some JUDGE_MEMORY_LIMIT_MB))
        (Replay.evaluate_results (replay_cases bad))))
  end.

(** [evaluate_cycle] with a version 2 request. *)
Definition evaluate_cycle (j : BlindJudge) (req : V2Request) (w : Surroundings)
    (cycle candidate parent : string) : option (result EvaluationReceipt) :=
  match signing_key j with
  | None => Some (fail "No authorized cryptographic signing key provided to BlindJudge. Production evaluation fails closed." [])
  | Some key =>
    match load_strict suite_of_json (holdout_dir w) with
    | Err e => Some (Err e)
    | Ok (suites, holdouts) =>
      match v2_preflight (executable j) (build_release j) req holdouts
              (parent_tree w) (candidate_tree w) with
      | Err e => Some (Err e)
      | Ok subject_sha =>
        match binaries w with
        | Err e => Some (Err e)
        | Ok _ =>
          let '(total, passed, bad) := run_holdouts (jail w) suites in
          r ← judge_layers j w cycle candidate parent total passed bad;
          Some (r ← r;
            r ← finish_v2 req subject_sha (subject_after w) holdouts total passed (judge_exe w)
                  key r;
            _ ← saved w; Ok r)
        end
      end
    end
  end.

(** [evaluate_cycle] without a request, as the daemon calls it: nothing is bound and the receipt of
    the layers is signed as it is. *)
Definition evaluate_cycle_v1 (j : BlindJudge) (w : Surroundings) (cycle candidate parent : string)
    : option (result EvaluationReceipt) :=
  match signing_key j with
  | None => Some (fail "No authorized cryptographic signing key provided to BlindJudge. Production evaluation fails closed." [])
  | Some key =>
    match load_strict suite_of_json (holdout_dir w) with
    | Err e => Some (Err e)
    | Ok (suites, _) =>
      match binaries w with
      | Err e => Some (Err e)
      | Ok _ =>
        let '(total, passed, bad) := run_holdouts (jail w) suites in
        r ← judge_layers j w cycle candidate parent total passed bad;
        Some (r ← r; let r := sign_receipt key r in _ ← saved w; Ok r)
      end
    end
  end.
End Cycle.
