(* ===== verification/JudgeCycleProps.v ===== *)
(** One evaluation by the judge, end to end: it always ends, an admitted receipt means that every
    holdout passed and every layer was satisfied, a candidate that was never faster is not
    admitted when an improvement is required, and the memory growth budget cannot reject. *)

From stdpp Require Import sorting.
From S2P Require Import Prelude RustStd RustPath RustNum RustFloat Digest LedgerRecord.
From S2P Require Import Stats StatsProps PatchGate PatchGateProps Receipt ReceiptProps.
From S2P Require Import Judge JudgeProps Evaluator EvaluatorProps JudgeCycle.
#[local] Open Scope string_scope.
#[local] Open Scope list_scope.

(** ** The benchmark *)

Section BenchProps.
Context (runs : side → N → BenchRun).

Lemma map_err_ok {A} t args (r : result A) a : map_err t args r = Ok a ↔ r = Ok a.
Proof. destruct r; cbn; split; congruence. Qed.

Definition lengths (st : BenchState) : nat * nat :=
  (length (parent_latencies st), length (candidate_latencies st)).

Lemma bench_one_ok s i b st st' : bench_one s i b st = Ok st' →
  ∃ before after, usage_before b = Ok before ∧ usage_after b = Ok after ∧
    match s with
    | Parent =>
      lengths st' = (S (lengths st).1, (lengths st).2)
      ∧ candidate_rusage st' = candidate_rusage st
      ∧ parent_rusage st' = Metrics.accumulate (parent_rusage st) (Metrics.diff after before)
    | Candidate =>
      lengths st' = ((lengths st).1, S (lengths st).2)
      ∧ parent_rusage st' = parent_rusage st
      ∧ candidate_rusage st' = Metrics.accumulate (candidate_rusage st) (Metrics.diff after before)
    end.
Proof.
  unfold bench_one. intros H. run_ok. destruct x0 as [ok err]. run_ok.
  repeat match goal with H : map_err _ _ _ = Ok _ |- _ => apply map_err_ok in H end.
  do 2 eexists. do 2 (split; [done|]). subst st'.
  destruct s; unfold lengths; cbn; by rewrite length_app, Nat.add_comm.
Qed.

Lemma bench_iteration_ok i st st' : bench_iteration runs i st = Ok st' →
  ∃ st1, if N.even i
         then bench_one Parent i (runs Parent i) st = Ok st1
              ∧ bench_one Candidate i (runs Candidate i) st1 = Ok st'
         else bench_one Candidate i (runs Candidate i) st = Ok st1
              ∧ bench_one Parent i (runs Parent i) st1 = Ok st'.
Proof.
  unfold bench_iteration, iteration_order. intros H.
  destruct (N.even i); cbn [foldl] in H; run_ok; simplify_eq; eauto.
Qed.

Lemma bench_lengths k i st st' : bench_loop runs k i st = Ok st' →
  lengths st' = ((lengths st).1 + k, (lengths st).2 + k)%nat.
Proof.
  revert i st. induction k as [|k IH]; intros i st; cbn [bench_loop].
  { intros [= ->]. destruct (lengths st'); cbn. by rewrite !Nat.add_0_r. }
  intros H. run_ok. apply IH in H0 as ->. apply bench_iteration_ok in H as [st1 H].
  destruct (N.even i); destruct H as [(? & ? & _ & _ & E1 & _)%bench_one_ok (? & ? & _ & _ & E2 & _)%bench_one_ok];
    rewrite E2, E1; cbn; f_equal; lia.
Qed.

Lemma bench_paired k b : run_paired_benchmarks_bins runs k = Ok b →
  length (parent_latencies b) = k ∧ length (candidate_latencies b) = k.
Proof. intros H%bench_lengths. unfold lengths in H. cbn in H. by injection H. Qed.
End BenchProps.

(** ** The evaluation *)

Section Props.
Context `{Sha256} `{P256}.
Context (suite_of_json : string → option HoldoutSuite).
Implicit Types (j : BlindJudge) (w : Surroundings).

Lemma judge_layers_inv j w cy ca pa total passed bad r :
  judge_layers j w cy ca pa total passed bad = Some (Ok r) →
  ∃ b perf, run_paired_benchmarks_bins (bench_runs w) ITERATIONS = Ok b
  ∧ Performance.evaluate_latencies_with_policy (parent_latencies b) (candidate_latencies b)
      true (require_latency_improvement j) (non_inferiority_margin_pct j) RESAMPLES (Some SEED)
    = Some (Ok perf)
  ∧ r = let d := compute_candidate_diff (parent_tree w) (candidate_tree w) in
        evaluate_layers (clock w) (engine_version w) cy ca pa (correctness_of j w total passed)
          (evaluate_candidate (modified_files d) (patch_diff d) 0)
          (Style.evaluate_text (styled_text d)) perf
          (Resource.evaluate (parent_rusage b) (candidate_rusage b) (own_statm w)
             (Some JUDGE_MEMORY_LIMIT_MB))
          (Replay.evaluate_results (replay_cases bad)).
Proof.
  unfold judge_layers. destruct (run_paired_benchmarks_bins _ _) as [b|]; [|done].
  intros (perf & Hp & Hr)%bind_Some. destruct perf as [perf|]; [|done].
  injection Hr as <-. by exists b, perf.
Qed.

Lemma judge_layers_total j w cy ca pa total passed bad :
  ∃ r, judge_layers j w cy ca pa total passed bad = Some r.
Proof.
  unfold judge_layers. destruct (run_paired_benchmarks_bins _ _) as [b|] eqn:Hb; [|by eauto].
  apply bench_paired in Hb as [E1 E2].
  destruct (performance_total (parent_latencies b) (candidate_latencies b) true
    (require_latency_improvement j) (non_inferiority_margin_pct j) RESAMPLES (Some SEED))
    as (p & -> & _); [unfold len, ITERATIONS in *; lia..|].
  cbn [mbind option_bind]. by eauto.
Qed.

Lemma cycle_inv j req w cy ca pa r :
  evaluate_cycle suite_of_json j req w cy ca pa = Some (Ok r) →
  ∃ key suites holdouts sha total passed bad r0,
    load_strict suite_of_json (holdout_dir w) = Ok (suites, holdouts)
    ∧ v2_preflight (executable j) (build_release j) req holdouts (parent_tree w) (candidate_tree w)
      = Ok sha
    ∧ run_holdouts (jail w) suites = (total, passed, bad)
    ∧ judge_layers j w cy ca pa total passed bad = Some (Ok r0)
    ∧ finish_v2 req sha (subject_after w) holdouts total passed (judge_exe w) key r0 = Ok r.
Proof.
  unfold evaluate_cycle. destruct (signing_key j) as [key|]; [|done].
  destruct (load_strict _ _) as [[suites holdouts]|] eqn:Hload; [|done].
  destruct (v2_preflight _ _ _ _ _ _) as [sha|] eqn:Hpre; [|done].
  destruct (binaries w); [|done].
  destruct (run_holdouts _ _) as [[total passed] bad] eqn:Hrun.
  intros (r0 & Hl & Hr)%bind_Some. injection Hr as Hr. run_ok. simplify_eq.
  do 8 eexists. split_and!; done.
Qed.

(** C35: An evaluation always ends with a signed receipt or an error: whatever the trees, the
    holdouts and the measurements are, no index computed along the way is out of bounds. *)
Theorem evaluation_total j req w cy ca pa :
  ∃ r, evaluate_cycle suite_of_json j req w cy ca pa = Some r.
Proof.
  unfold evaluate_cycle. destruct (signing_key j) as [key|]; [|by eauto].
  destruct (load_strict _ _) as [[suites holdouts]|]; [|by eauto].
  destruct (v2_preflight _ _ _ _ _ _) as [sha|]; [|by eauto].
  destruct (binaries w); [|by eauto].
  destruct (run_holdouts _ _) as [[total passed] bad].
  destruct (judge_layers_total j w cy ca pa total passed bad) as [r ->].
  cbn [mbind option_bind]. by eauto.
Qed.

(** ** What the layers report *)

Lemma run_cases_all jl l total passed : run_cases jl l = (total, passed, []) →
  total = passed ∧ ∀ c, c ∈ l → actual_output (jl (input c)) = expected_output c.
Proof.
  revert total passed. induction l as [|c l IH]; intros total passed; cbn [run_cases].
  { intros [= <- <-]. split; [done|]. by intros c ?%elem_of_nil. }
  destruct (run_cases jl l) as [[t p] bad]. destruct (bool_decide _) eqn:E; [|done].
  intros [= <- <- ->]. destruct (IH t p eq_refl) as [-> Hall]. split; [done|].
  apply bool_decide_eq_true in E. intros c' [->|Hc]%elem_of_cons; [done|by apply Hall].
Qed.

Lemma replay_regressions rs n acc : (Replay.replay rs n acc).2
  = acc ++ (Replay.regression <$> List.filter (λ r, negb (Replay.defect_passed r)) rs).
Proof.
  revert n acc. induction rs as [|r rs IH]; intros n acc; cbn [Replay.replay]; [by rewrite app_nil_r|].
  cbn [List.filter]. destruct (Replay.defect_passed r); cbn [negb]; rewrite IH; [done|].
  by rewrite <- app_assoc.
Qed.

Lemma results_passed rs : Replay.passed (Replay.evaluate_results rs) = true →
  Forall (λ r, negb (Replay.defect_passed r) = false) rs.
Proof.
  unfold Replay.evaluate_results. pose proof (replay_regressions rs 0 []) as E.
  destruct (Replay.replay rs 0 []) as [ok regs]. cbn [snd app] in E. cbn [Replay.passed].
  rewrite E, bool_decide_eq_true. by intros ?%fmap_nil_inv%filter_nil_iff.
Qed.

Lemma replay_passed bad :
  Replay.passed (Replay.evaluate_results (replay_cases bad)) = true → bad = [].
Proof.
  intros Hnil%results_passed. unfold replay_cases in Hnil. apply Forall_app in Hnil as [_ Hnil].
  destruct bad as [|v bad]; [done|]. rewrite fmap_cons in Hnil. by apply Forall_cons in Hnil as [? _].
Qed.

Lemma repo_passed check test : Correctness.passed (Correctness.evaluate_repo check test) = true →
  (∃ o e, check = Correctness.Finished true o e)
  ∧ ∃ o e, test = Correctness.Finished true o e ∧ (Correctness.test_counts o).2 = 0%N.
Proof.
  unfold Correctness.evaluate_repo.
  destruct check as [[] o e|]; cbn [Correctness.not_compiled Correctness.passed]; [|done|done].
  destruct test as [ok o' e'|]; [|done].
  destruct (Correctness.test_counts o') as [p f] eqn:E. cbn [Correctness.passed].
  intros [-> Hf%N.eqb_eq]%andb_prop. split; [by eauto|]. exists o', e'. by rewrite E.
Qed.

Lemma finish_admitted req sha after holdouts total passed exe k r0 r :
  finish_v2 req sha after holdouts total passed exe k r0 = Ok r → admitted r = true →
  admitted r0 = true ∧ total ≠ 0%N ∧
  ∃ bd, binding r = Some bd ∧ subject_path bd = req_subject_path req ∧ subject_sha256 bd = sha
    ∧ holdout_set_sha256 bd = holdouts ∧ holdouts_total bd = total ∧ holdouts_passed bd = passed.
Proof.
  unfold finish_v2. intros Hf Ha. apply bind_ok in Hf as (now & _ & Hf).
  destruct (negb _); [done|]. apply bind_ok in Hf as (ev & _ & Hf).
  unfold bind_and_sign_v2 in Hf. apply bind_ok in Hf as (dg & _ & Hf). injection Hf as <-.
  destruct (_ || _) eqn:E; [done|]. apply orb_false_elim in E as [E%N.eqb_neq _].
  split; [done|]. split; [done|]. eexists. split; [done|]. done.
Qed.

Lemma layers_admitted now v cy ca pa c sec sty perf res rep :
  admitted (evaluate_layers now v cy ca pa c sec sty perf res rep) = true ↔
  Correctness.passed c = true ∧ sec_passed sec = true ∧ Style.passed sty = true
  ∧ Replay.passed rep = true ∧ Performance.passed perf = true ∧ Resource.passed res = true.
Proof. clear suite_of_json. unfold evaluate_layers; cbn [admitted]. rewrite !andb_true_iff. tauto. Qed.

(** The candidate's text that the judge reads holds none of the listed phrases. *)
Definition free_of (l : list string) (text : string) : Prop :=
  Forall (λ p, str_contains p text = false) l.

Lemma security_clean files patch tier : sec_passed (evaluate_candidate files patch tier) = true →
  validate_declared_files files tier = []
  ∧ free_of secret_signatures patch ∧ free_of NETWORK_RISK_PATTERNS patch.
Proof.
  unfold evaluate_candidate; cbn [sec_passed].
  rewrite !andb_true_iff, !bool_decide_eq_true. intros [[Hv Hs] Hn].
  split; [done|]. by split; apply none_found.
Qed.

Lemma style_clean text : Style.passed (Style.evaluate_text text) = true →
  Style.count_char 8212 text = 0%N ∧ Style.count_char 8211 text = 0%N
  ∧ free_of (Style.FORBIDDEN_BUZZWORDS ++ Style.ANTITHESIS_TROPES ++ Style.TRANSITIONAL_FLUFF)
      (Style.to_lowercase text).
Proof.
  unfold Style.evaluate_text; cbn [Style.passed].
  rewrite !andb_true_iff, !bool_decide_eq_true, !N.eqb_eq. intros [[[[H1 H2] Hb] Ht] Hf].
  split; [done|]. split; [done|]. unfold free_of. rewrite !Forall_app. split_and!; by apply none_found.
Qed.

Lemma count_char_none c s : Style.count_char c s = 0%N → c ∉ chars s.
Proof.
  unfold Style.count_char, len. intros Hz Hin. apply list_elem_of_In in Hin.
  assert (In c (List.filter (N.eqb c) (chars s))) as Hf.
  { apply List.filter_In. by rewrite N.eqb_refl. }
  destruct (List.filter (N.eqb c) (chars s)); [done|]. discriminate Hz.
Qed.

Lemma tail_accepts p c pct mg n seed t : evaluate_tail_non_inferiority p c pct mg n seed = Some (Ok t) →
  passes_non_inferiority t = true → f64_le (ci_95_upper_pct t) mg = true.
Proof.
  unfold evaluate_tail_non_inferiority. destruct (_ || _); [done|]. intros Ht.
  apply bind_Some in Ht as (x & _ & Ht). apply bind_Some in Ht as (y & _ & Ht).
  apply bind_Some in Ht as (l & _ & Ht). apply bind_Some in Ht as (u & _ & Ht). by injection Ht as <-.
Qed.

(** What a published text must not say. *)
Definition refused_phrases : list string :=
  ["delve"; "tapestry"; "testament"; "beacon"; "crucial"; "pivotal"; "elevate"; "game-changer";
   "unleash"; "harness"; "seamlessly"; "it's not "; "it is not "; "not only "; "not just ";
   "furthermore"; "moreover"; "in conclusion"; "at its core"].

(** The memory of the judge and of the two programs is within its limits: 48 GB resident, and a
    peak that grew by at most two percent where the parent's is known. *)
Definition memory_within (statm : option Metrics.StatmMetrics) (parent candidate : Z) : Prop :=
  (∀ m, statm = Some m → (Metrics.resident_kb m / 1024 <= 49152)%N)
  ∧ ((0 < parent)%Z →
     f64_le (f64_mul (f64_div (f64_of_Z (wrap_i64 (candidate - parent))) (f64_of_Z parent))
               (f64_of_N 100)) (f64_of_N 2) = true).

Lemma resource_within p c statm :
  Resource.passed (Resource.evaluate p c statm (Some JUDGE_MEMORY_LIMIT_MB)) = true →
  memory_within statm (Metrics.max_rss_kb p) (Metrics.max_rss_kb c).
Proof.
  unfold Resource.evaluate; cbn [Resource.passed default].
  rewrite andb_true_iff, bool_decide_eq_true. intros [Hg Ho]. split.
  - intros m ->. unfold Resource.over_limit in Ho. cbn [mbind option_bind] in Ho.
    revert Ho. case_match; [done|]. intros _. by apply N.ltb_ge.
  - intros Hp. unfold Resource.rss_growth in Hg. by rewrite (proj2 (Z.ltb_lt _ _) Hp) in Hg.
Qed.

(** A tail of the measured latencies is no worse than the margin. *)
Definition tail_within j (b : BenchState) (pct : N) : Prop :=
  ∃ seed t, evaluate_tail_non_inferiority (parent_latencies b) (candidate_latencies b)
      (f64_of_N pct) (non_inferiority_margin_pct j) RESAMPLES seed = Some (Ok t)
    ∧ f64_le (ci_95_upper_pct t) (non_inferiority_margin_pct j) = true.

Lemma tails_within j b perf imp :
  Performance.evaluate_latencies_with_policy (parent_latencies b) (candidate_latencies b)
    true imp (non_inferiority_margin_pct j) RESAMPLES (Some SEED) = Some (Ok perf) →
  Performance.passed perf = true →
  bootstrap_paired_comparison (parent_latencies b) (candidate_latencies b) RESAMPLES (Some SEED)
    = Some (Ok (Performance.bootstrap_estimate perf))
  ∧ tail_within j b 95 ∧ tail_within j b 99
  ∧ (imp = true → is_statistically_significant (Performance.bootstrap_estimate perf) = true
       ∧ f64_lt (observed_delta_mean (Performance.bootstrap_estimate perf)) (f64_of_N 0) = true).
Proof.
  intros (Hboot & Htgt & Hsafe & Hpass & H95 & H99)%improvement_result Hperf.
  rewrite Hperf in Hpass. symmetry in Hpass.
  assert (Performance.non_target_metrics_safe perf = true
    ∧ (imp = true → Performance.target_metric_improved perf = true)) as [Hs Hi].
  { destruct imp; [by apply andb_prop in Hpass as [-> ->]|done]. }
  rewrite Hsafe in Hs. apply andb_prop in Hs as [Hs95 Hs99]. split; [done|]. split_and!.
  - do 2 eexists. split; [exact H95|]. by apply (tail_accepts _ _ _ _ _ _ _ H95).
  - do 2 eexists. split; [exact H99|]. by apply (tail_accepts _ _ _ _ _ _ _ H99).
  - intros Himp. specialize (Hi Himp). rewrite Htgt in Hi. by apply andb_prop in Hi.
Qed.

Lemma additions_free patch : free_of secret_signatures patch → free_of NETWORK_RISK_PATTERNS patch →
  Forall (λ p, ¬ occurs_in p patch) refused_additions.
Proof.
  intros Hs Hn. change refused_additions with (secret_signatures ++ NETWORK_RISK_PATTERNS).
  apply Forall_app. split; (eapply Forall_impl; [eassumption|]); intros p Hp;
    rewrite <- str_contains_occurs; by rewrite Hp.
Qed.

Lemma declared_open files : validate_declared_files files 0 = [] → Forall open_path files.
Proof.
  unfold validate_declared_files. induction files as [|f l IH]; [constructor|].
  cbn [omap list_omap]. destruct (assert_patch_permitted f 0) as [[]|] eqn:Ha; [|done].
  intros Hl. constructor; [|by apply IH]. apply unprotected_open.
  unfold assert_patch_permitted in Ha. destruct (normalize_strict f) as [n|] eqn:Hn; [|done].
  change (0 <? 2)%N with true in Ha. rewrite andb_true_r in Ha.
  destruct (is_protected_path n) eqn:Hp; [done|]. by rewrite <- (protected_normal f n).
Qed.

(** C6: An admitted receipt is backed by every layer.  The candidate answered every pinned
    holdout case as expected (whatever pass ratio the policy allows), cargo's check and tests
    succeeded with no failed test when the judge verifies builds, every changed path leads
    outside the root of trust, the change brings in no secret, network primitive, dash or
    refused phrase, both measured latency tails are within the margin, an improvement was
    significant when one was required, and the memory measured is within its limits. *)
Theorem admission_sound j req w cy ca pa r :
  evaluate_cycle suite_of_json j req w cy ca pa = Some (Ok r) → admitted r = true →
  let d := compute_candidate_diff (parent_tree w) (candidate_tree w) in
  (∃ suites b, load_strict suite_of_json (holdout_dir w) = Ok (suites, holdout_set_sha256 b)
     ∧ binding r = Some b ∧ holdouts_passed b = holdouts_total b ∧ holdouts_total b ≠ 0%N
     ∧ holdout_set_sha256 b = pinned_holdouts (req_policy req)
     ∧ ∀ c, c ∈ (suites ≫= cases) → actual_output (jail w (input c)) = expected_output c)
  ∧ (require_build_verification j = true → is_Some (lookup_path (candidate_tree w) "Cargo.toml") →
     (∃ o e, cargo_check w = Correctness.Finished true o e)
     ∧ ∃ o e, cargo_test w = Correctness.Finished true o e ∧ (Correctness.test_counts o).2 = 0%N)
  ∧ Forall open_path (modified_files d)
  ∧ Forall (λ p, ¬ occurs_in p (patch_diff d)) refused_additions
  ∧ ((8211%N ∉ chars (styled_text d)) ∧ (8212%N ∉ chars (styled_text d))
     ∧ free_of refused_phrases (Style.to_lowercase (styled_text d)))
  ∧ ∃ b boot, run_paired_benchmarks_bins (bench_runs w) ITERATIONS = Ok b
     ∧ bootstrap_paired_comparison (parent_latencies b) (candidate_latencies b) RESAMPLES (Some SEED)
       = Some (Ok boot)
     ∧ tail_within j b 95 ∧ tail_within j b 99
     ∧ (require_latency_improvement j = true → is_statistically_significant boot = true
        ∧ f64_lt (observed_delta_mean boot) (f64_of_N 0) = true)
     ∧ memory_within (own_statm w) (Metrics.max_rss_kb (parent_rusage b))
         (Metrics.max_rss_kb (candidate_rusage b)).
Proof.
  intros Hc Ha d. apply cycle_inv in Hc as (key & suites & hs & sha & total & passed & bad & r0
    & Hload & Hpre & Hrun & Hl & Hf).
  destruct (finish_admitted _ _ _ _ _ _ _ _ _ _ Hf Ha) as (Ha0 & Htot & bd & Hbd & _ & _ & Eh & Et & Ep).
  apply judge_layers_inv in Hl as (b & perf & Hb & Hp & ->). apply layers_admitted in Ha0
    as (Hcor & Hsec & Hsty & Hrep & Hperf & Hres).
  apply replay_passed in Hrep as ->. apply run_cases_all in Hrun as [-> Hall].
  apply security_clean in Hsec as (Hv & Hs & Hn). apply style_clean in Hsty as (Hem & Hen & Hsty).
  destruct (tails_within _ _ _ _ Hp Hperf) as (Hboot & H95 & H99 & Hi).
  split_and!.
  - exists suites, bd. rewrite Eh, Et, Ep. split_and!; try done.
    unfold v2_preflight in Hpre. destruct (bool_decide (hs = _)) eqn:E; [|done].
    by apply bool_decide_eq_true in E.
  - intros Hreq [n Hn']. unfold correctness_of in Hcor. rewrite Hreq, Hn' in Hcor. by apply repo_passed.
  - by apply declared_open.
  - by apply additions_free.
  - by apply count_char_none.
  - by apply count_char_none.
  - exact Hsty.
  - exists b, (Performance.bootstrap_estimate perf). split_and!;
      [exact Hb|exact Hboot|exact H95|exact H99|exact Hi|]. exact (resource_within _ _ _ Hres).
Qed.

(** When the judge requires an improvement, a candidate that was not measured faster in a
    single pair is not admitted, whatever the resampling draws. *)
Theorem never_faster_not_admitted j req w cy ca pa r b :
  require_latency_improvement j = true →
  run_paired_benchmarks_bins (bench_runs w) ITERATIONS = Ok b →
  never_faster (parent_latencies b) (candidate_latencies b) →
  evaluate_cycle suite_of_json j req w cy ca pa = Some (Ok r) → admitted r = false.
Proof.
  intros Hreq Hb Hn Hc. apply cycle_inv in Hc as (key & suites & hs & sha & total & passed & bad & r0
    & _ & _ & _ & Hl & Hf).
  destruct (admitted r) eqn:Ha; [|done].
  destruct (finish_admitted _ _ _ _ _ _ _ _ _ _ Hf Ha) as (Ha0 & _).
  apply judge_layers_inv in Hl as (b' & perf & Hb' & Hp & ->).
  rewrite Hb in Hb'. injection Hb' as <-.
  apply layers_admitted in Ha0 as (_ & _ & _ & _ & Hperf & _).
  apply improvement_result in Hp as (Hboot & Htgt & _ & Hpass & _).
  rewrite Hpass, Hreq, Htgt, (never_faster_not_improved _ _ _ _ _ Hn Hboot) in Hperf. done.
Qed.
End Props.

(** ** The memory growth budget *)

Section Growth.
Import Metrics.
Context (runs : side → N → BenchRun).

(** The readings of the children's resource usage and their place in time. *)
Definition reading (s : side) (i : N) (after : bool) : result RusageMetrics :=
  if after then usage_after (runs s i) else usage_before (runs s i).
Definition read_order (s : side) (i : N) (after : bool) : N :=
  (4 * i + (if bool_decide (head (iteration_order i) = Some s) then 0 else 2)
   + (if after then 1 else 0))%N.

(** [getrusage(RUSAGE_CHILDREN)] reports the largest resident set of any child waited for so
    far, so it never shrinks; it is a non-negative [i64]. *)
Definition high_water : Prop := ∀ s i a u s' i' a' u',
  reading s i a = Ok u → reading s' i' a' = Ok u' →
  (read_order s i a <= read_order s' i' a')%N → (0 <= max_rss_kb u <= max_rss_kb u' ∧ max_rss_kb u' < 2 ^ 63)%Z.

Lemma bench_loop_snoc k i st : bench_loop runs (S k) i st
  = (bench_loop runs k i st ≫= bench_iteration runs (i + N.of_nat k)%N).
Proof.
  revert i st. induction k as [|k IH]; intros i st.
  - change (N.of_nat 0) with 0%N. rewrite N.add_0_r. cbn [bench_loop mbind result_bind].
    by destruct (bench_iteration runs i st).
  - change (bench_loop runs (S (S k)) i st)
      with (bench_iteration runs i st ≫= bench_loop runs (S k) (i + 1)%N).
    change (bench_loop runs (S k) i st) with (bench_iteration runs i st ≫= bench_loop runs k (i + 1)%N).
    destruct (bench_iteration runs i st) as [st1|]; [|done].
    change (bench_loop runs (S k) (i + 1) st1
      = (bench_loop runs k (i + 1) st1 ≫= bench_iteration runs (i + N.of_nat (S k))%N)).
    rewrite IH. replace (i + 1 + N.of_nat k)%N with (i + N.of_nat (S k))%N by lia. done.
Qed.

(** Both accumulated peaks lie between zero and [M]. *)
Definition peaks_below (M : Z) (st : BenchState) : Prop :=
  (0 <= max_rss_kb (parent_rusage st) <= M ∧ 0 <= max_rss_kb (candidate_rusage st) <= M)%Z.

Lemma one_below M s i st st' : bench_one s i (runs s i) st = Ok st' →
  (∀ a u, reading s i a = Ok u → (max_rss_kb u <= M)%Z) → peaks_below M st → peaks_below M st'.
Proof.
  unfold peaks_below. intros (b & a & Hb & Ha & E)%bench_one_ok HM Hst.
  pose proof (HM true a Ha). pose proof (HM false b Hb).
  destruct s; destruct E as (_ & -> & ->); unfold accumulate, diff; cbn [max_rss_kb]; lia.
Qed.

Lemma iteration_below M i st st' : bench_iteration runs i st = Ok st' →
  (∀ s a u, reading s i a = Ok u → (max_rss_kb u <= M)%Z) → peaks_below M st → peaks_below M st'.
Proof.
  intros H HM Hst. apply bench_iteration_ok in H as [st1 H].
  destruct (N.even i); destruct H as [H1 H2];
    (eapply one_below; [exact H2|by apply HM|]); (eapply one_below; [exact H1|by apply HM|done]).
Qed.

Lemma loop_below M k st st' : bench_loop runs k 0 st = Ok st' →
  (∀ s i a u, (i < N.of_nat k)%N → reading s i a = Ok u → (max_rss_kb u <= M)%Z) →
  peaks_below M st → peaks_below M st'.
Proof.
  revert st'. induction k as [|k IH]; intros st' H HM Hst; [by injection H as <-|].
  rewrite bench_loop_snoc in H. apply bind_ok in H as (st1 & H1 & H2). rewrite N.add_0_l in H2.
  eapply iteration_below; [exact H2| |].
  - intros s a u. apply HM. lia.
  - apply IH; [done| |done]. intros s i a u Hi. apply HM. lia.
Qed.

Lemma growth_within p c : (0 <= c <= p)%Z → (p < 2 ^ 63)%Z →
  f64_le (Resource.rss_growth p c) Resource.MAX_RSS_GROWTH_PCT = true.
Proof.
  intros Hc Hp. unfold Resource.rss_growth. destruct (Z.ltb_spec 0 p); [|by vm_compute].
  assert (wrap_i64 (c - p) = (c - p)%Z) as ->.
  { unfold wrap_i64. rewrite Z.mod_small; lia. }
  destruct p as [|p|]; [lia| |lia]. destruct (of_Z_finite p) as (m & e & ->); [lia|].
  pose proof (div_at_most_zero _ m e (of_Z_at_most_zero (c - Z.pos p) ltac:(lia))) as Hd.
  apply (mul_at_most_zero _ 7036874417766400 (-46)) in Hd.
  by apply at_most_zero_le.
Qed.
End Growth.

(** The growth budget for the peak resident set cannot reject a candidate, however much
    memory it takes: both sides read one high-water mark of all children, and the last of the
    twenty iterations reads the parent after the candidate. *)
Theorem rss_budget_never_rejects runs b statm limit : high_water runs →
  run_paired_benchmarks_bins runs ITERATIONS = Ok b →
  Resource.rss_growth_within_budget
    (Resource.evaluate (parent_rusage b) (candidate_rusage b) statm limit) = true.
Proof.
  intros Hw Hb. unfold Resource.evaluate; cbn [Resource.rss_growth_within_budget].
  unfold run_paired_benchmarks_bins, ITERATIONS in Hb.
  pose proof Hb as Hall. rewrite bench_loop_snoc in Hb. apply bind_ok in Hb as (st & _ & Hb).
  apply bench_iteration_ok in Hb as [st1 Hb].
  change (N.even (0 + N.of_nat 19)) with false in Hb. cbv iota in Hb.
  destruct Hb as [_ (before & after & _ & Ha & _ & _ & E)%bench_one_ok].
  change (0 + N.of_nat 19)%N with 19%N in Ha.
  destruct (Hw Parent 19%N true after Parent 19%N true after Ha Ha (N.le_refl _)) as [Hpos Hmax].
  assert (peaks_below (Metrics.max_rss_kb after) b) as [Hpar Hcand].
  { apply (loop_below runs _ 20 _ _ Hall); [|split; cbn [bench_start parent_rusage candidate_rusage Metrics.no_usage Metrics.max_rss_kb]; lia].
    intros s i a u Hi Hu. apply (Hw s i a u Parent 19%N true after Hu Ha).
    unfold read_order. change (bool_decide (head (iteration_order 19) = Some Parent)) with false.
    repeat case_match; lia. }
  apply growth_within; [|lia]. rewrite E in *.
  unfold Metrics.accumulate, Metrics.diff in *; cbn [Metrics.max_rss_kb] in *. lia.
Qed.

(** ** A concrete evaluation *)

Module CycleExample.
Import Checksum KeyedChecksum.

(** Both programs always take 100 microseconds; the candidate needs 9 GB, the parent 1 MB. *)
Definition usage (kb : Z) : Metrics.RusageMetrics :=
  {| Metrics.user_time_us := 10; Metrics.system_time_us := 5; Metrics.max_rss_kb := kb;
     Metrics.voluntary_context_switches := 1; Metrics.involuntary_context_switches := 0 |}.
Definition hundred : f64 := f64_of_N 100.
Definition peak_at (time : N) : Z :=
  if (time =? 0)%N then 0 else if (time <=? 2)%N then 1000 else 9000000.
Definition runs (s : side) (i : N) : BenchRun :=
  {| usage_before := Ok (usage (peak_at (read_order s i false))); jail_run := Ok (true, "");
     elapsed_us := hundred; usage_after := Ok (usage (peak_at (read_order s i true))) |}.
Definition measured : BenchState :=
  {| parent_latencies := repeat hundred 20; candidate_latencies := repeat hundred 20;
     parent_rusage := {| Metrics.user_time_us := 0; Metrics.system_time_us := 0;
       Metrics.max_rss_kb := 9000000; Metrics.voluntary_context_switches := 0;
       Metrics.involuntary_context_switches := 0 |};
     candidate_rusage := {| Metrics.user_time_us := 0; Metrics.system_time_us := 0;
       Metrics.max_rss_kb := 9000000; Metrics.voluntary_context_switches := 0;
       Metrics.involuntary_context_switches := 0 |} |}.

Lemma runs_measured : run_paired_benchmarks_bins runs ITERATIONS = Ok measured.
Proof. vm_compute. reflexivity. Qed.

Lemma runs_high_water : high_water runs.
Proof.
  assert (∀ s i a, reading runs s i a = Ok (usage (peak_at (read_order s i a)))) as Hr.
  { by intros s i []. }
  intros s i a u s' i' a' u'. rewrite !Hr. intros [= <-] [= <-] Ht. cbn [usage Metrics.max_rss_kb].
  unfold peak_at. repeat case_match; guards; lia.
Qed.

Definition jail_ok (_ : string) : jail_answer := JailOk " ok ".
Definition judge (improvement : bool) : BlindJudge :=
  {| signing_key := Some sk; require_latency_improvement := improvement;
     non_inferiority_margin_pct := f64_of_N 5; require_build_verification := true;
     executable := Some "bin/x"; build_release := false |}.
Definition world : Surroundings :=
  {| holdout_dir := Some [JudgeExample.e1; JudgeExample.e2];
     parent_tree := JudgeExample.parent;
     candidate_tree := JudgeExample.candidate; binaries := Ok tt; jail := jail_ok;
     cargo_check := Correctness.NotStarted "no cargo"; cargo_test := Correctness.NotStarted "no cargo";
     bench_runs := runs; own_statm := None; subject_after := Some "new"; judge_exe := Some "judge";
     clock := "2026-01-01T00:00:00Z"; engine_version := "0.1.0"; saved := Ok tt |}.

Lemma finishes_any r0 : ∃ r, finish_v2 JudgeExample.req (sha256_hex "new") (Some "new")
    JudgeExample.holdouts 2 2 (Some "judge") sk r0 = Ok r ∧ admitted r = admitted r0.
Proof.
  unfold finish_v2. cbn [sha256_file ok_or mbind result_bind].
  rewrite (bool_decide_eq_true_2 (sha256_hex "new" = sha256_hex "new")) by done. cbn [negb].
  assert ((2 =? 0)%N || f64_lt (f64_of_N 2) (f64_mul (min_holdout_pass_ratio
    (req_policy JudgeExample.req)) (f64_of_N 2)) = false) as -> by (vm_compute; reflexivity).
  unfold bind_and_sign_v2. cbn [compute_digest_v2 with_binding binding ok_or mbind result_bind].
  eexists. split; [reflexivity|done].
Qed.

(** The performance layer's result: safe, whatever the five thousand resamples are. *)
Lemma performance_safe b : ∃ perf, Performance.evaluate_latencies_with_policy
    (parent_latencies measured) (candidate_latencies measured) true b (f64_of_N 5) RESAMPLES (Some SEED)
    = Some (Ok perf)
  ∧ (b = false → Performance.passed perf = true).
Proof.
  destruct (performance_total (parent_latencies measured) (candidate_latencies measured) true b
    (f64_of_N 5) RESAMPLES (Some SEED)) as (r & Hr & Hok); [vm_compute; done..|].
  destruct r as [perf|e].
  2: { clear Hr. assert (is_ok (@Err Performance.PerformanceEvaluation e) = true) as Hf; [|discriminate Hf].
       apply Hok. split; [discriminate|reflexivity]. }
  exists perf. split; [exact Hr|]. intros ->.
  apply improvement_result in Hr as (_ & _ & Hsafe & Hpass & H95 & H99). rewrite Hpass, Hsafe.
  assert (passes_non_inferiority (Performance.p95_non_inferiority perf) = true) as ->.
  { refine (tail_constant hundred 20 _ _ _ _ hundred _ _ _ _ H95); vm_compute; reflexivity. }
  refine (tail_constant hundred 20 _ _ _ _ hundred _ _ _ _ H99); vm_compute; reflexivity.
Qed.

Lemma evaluates b : ∃ r, evaluate_cycle JudgeExample.suite_of_json (judge b) JudgeExample.req world
    "c1" "cand" "base" = Some (Ok r) ∧ (b = false → admitted r = true).
Proof.
  unfold evaluate_cycle. cbn [judge world signing_key holdout_dir executable build_release
    parent_tree candidate_tree binaries].
  rewrite JudgeExample.loads12, JudgeExample.preflight_passes.
  assert (run_holdouts (jail world) JudgeExample.suites = (2, 2, [])%N) as Hrun by (vm_compute; reflexivity).
  rewrite Hrun. unfold judge_layers.
  change (bench_runs world) with runs. rewrite runs_measured.
  cbn [require_latency_improvement non_inferiority_margin_pct judge].
  destruct (performance_safe b) as (perf & -> & Hsafe). cbn [mbind option_bind result_bind].
  match goal with |- context [finish_v2 _ _ _ _ _ _ _ _ ?r] => set (r0 := r) end.
  destruct (finishes_any r0) as (r & Hr & Ha). cbn [subject_after judge_exe world saved].
  rewrite Hr. cbn [mbind result_bind]. exists r. split; [done|]. intros Hb. rewrite Ha.
  subst r0. rewrite layers_admitted.
  do 4 (split; [vm_compute; reflexivity|]). split; [by apply Hsafe|vm_compute; reflexivity].
Qed.
End CycleExample.

Lemma admission_sound_witness : ∃ r,
  evaluate_cycle JudgeExample.suite_of_json (CycleExample.judge false) JudgeExample.req
    CycleExample.world "c1" "cand" "base" = Some (Ok r)
  ∧ admitted r = true
  ∧ (∃ suites b, load_strict JudgeExample.suite_of_json (holdout_dir CycleExample.world)
         = Ok (suites, holdout_set_sha256 b)
       ∧ binding r = Some b ∧ holdouts_passed b = holdouts_total b).
Proof.
  destruct (CycleExample.evaluates false) as (r & Hr & Ha). exists r.
  split; [exact Hr|]. split; [exact (Ha eq_refl)|].
  destruct (admission_sound JudgeExample.suite_of_json _ _ _ _ _ _ _ Hr (Ha eq_refl))
    as ((suites & b & Hl & Hb & Hp & _) & _).
  exists suites, b. split; [exact Hl|]. split; [exact Hb|exact Hp].
Defined.

Lemma never_faster_not_admitted_witness : ∃ r,
  evaluate_cycle JudgeExample.suite_of_json (CycleExample.judge true) JudgeExample.req
    CycleExample.world "c1" "cand" "base" = Some (Ok r) ∧ admitted r = false.
Proof.
  destruct (CycleExample.evaluates true) as (r & Hr & _). exists r. split; [exact Hr|].
  apply (never_faster_not_admitted JudgeExample.suite_of_json (CycleExample.judge true)
    JudgeExample.req CycleExample.world "c1" "cand" "base" r CycleExample.measured eq_refl
    CycleExample.runs_measured); [|exact Hr].
  unfold never_faster. apply (bool_decide_unpack _). vm_compute. exact I.
Defined.

(** The candidate here needs nine thousand times the parent's memory. *)
Lemma rss_budget_never_rejects_witness :
  high_water CycleExample.runs ∧
  Resource.rss_growth_within_budget
    (Resource.evaluate (parent_rusage CycleExample.measured) (candidate_rusage CycleExample.measured)
       None None) = true.
Proof.
  split; [exact CycleExample.runs_high_water|].
  exact (rss_budget_never_rejects CycleExample.runs CycleExample.measured None None
    CycleExample.runs_high_water CycleExample.runs_measured).
Defined.

(** A printed line decides against a tree whose tests succeeded. *)
Lemma printed_count_rejects :
  Correctness.passed (Correctness.evaluate_repo (Correctness.Finished true "" "")
    (Correctness.Finished true "test result: simulated. 3 passed; 1 failed" "")) = false.
Proof. vm_compute. reflexivity. Qed.
