(* ===== verification/Engine.v ===== *)
(** The engine ([src/daemon.rs]): one cycle, from the measurement of the pipeline and the proposals
    through screening, eligibility, the build, the invariants, the judge, the supervised canary,
    the safety envelope and the promotion gate to the switched link, the promotion block and the
    review branch, and the log of its stage samples.
    [Engine] is the state a cycle changes: the ledger, the daemon with its file system, the stage
    clock, the repository's references and the two sample logs.  What the outside world decides
    (clocks, identifiers, the model, git, cargo, the jails, the worker, the envelope's backend) is
    in [CycleWorld].  A disk that a part keeps in a map of its own (the ledger's blobs, the patches)
    stays apart from the file system.  The lessons sent to the memory service leave no trace here. *)
From S2P Require Import Prelude RustStd RustPath RustNum RustFloat Digest Json Identity Workload ObservationLog Supervisor Ipc Daemon Admission Executor LedgerRecord Ledger PatchGate Receipt Graph Dual Contract Measure Meta Adapter Propose Verifier Telemetry Ratify Artifacts Judge Evaluator JudgeCycle.
#[local] Open Scope string_scope.
#[local] Open Scope list_scope.

(** ** Configuration *)

(** The configuration of a cycle; [measured] holds the fields the measurement reads. *)
Record EngineConfig := {
  target_repo : string;
  measured : RsiConfig;
  sandbox_root : string;
  signing_key_hex : option string;
  require_latency : bool;
  operator_key_hex : option string;
  non_inferiority_margin : option f64;
  dual_price_vector_dir : option string;
  judge_public_key_hex : option string;
  judge_policy_file : option string;
  target_improvement_pct : f64;
  canary_workload_path : option string;
  canary_workload_sha256 : option string;
  canary_exempt_kinds : list ProposalKind
}.

Definition engine_root (c : EngineConfig) : string :=
  path_join (target_repo c) (cfg_rsi_root (measured c)).
Definition roots_of (c : EngineConfig) : list string := cfg_ratify_roots (measured c).
Definition target_of (c : EngineConfig) : N := cfg_canary_target (measured c).
Definition BUILD_OUTPUT_ROOT : string := "/tmp/spark-rsi-target".

(** ** The canary summary *)

Record CanaryExecutionRecord := {
  x_requests_planned : nat;
  x_issued : nat;
  x_verified_success : nat;
  x_wrong_result : nat;
  x_timeout : nat;
  x_invalid_response : nat;
  x_connection_closed : nat;
  x_rejections : nat;
  x_ready : bool;
  x_reverted : bool;
  x_first_failure : option string
}.
Record QuotaDecisionRecord := {
  q_admitted : bool;
  q_counted : option N;
  q_target : N;
  q_refusal : option string
}.
Record GateDecisionRecord := { g_passed : bool; g_detail : string }.

Record CanarySummary := {
  applicable : bool;
  exemption : option string;
  eligible : bool;
  refusal : option string;
  identity_binding_digest : option string;
  summary_executable : option string;
  workload_digest : option string;
  summary_log_digest : option string;
  commitment_block_hash : option string;
  execution : option CanaryExecutionRecord;
  quota : option QuotaDecisionRecord;
  envelope : option GateDecisionRecord;
  envelope_note : option string;
  promotion_gate : option GateDecisionRecord
}.

Definition ENVELOPE_REFERENCE_NOTE : string :=
  "the safety envelope evaluated through aien_probe::DeterministicReferenceBackend; this is a reference evaluation and does not establish production safety".

Definition start_canary (applicable_ : bool) (exemption_ : option string) : CanarySummary :=
  {| applicable := applicable_; exemption := exemption_; eligible := false; refusal := None;
     identity_binding_digest := None; summary_executable := None; workload_digest := None;
     summary_log_digest := None; commitment_block_hash := None; execution := None; quota := None;
     envelope := None; envelope_note := None; promotion_gate := None |}.
(** The assignments to its fields. *)
Definition set_eligibility (ok : bool) (why : option string) (s : CanarySummary) : CanarySummary :=
  {| applicable := applicable s; exemption := exemption s; eligible := ok; refusal := why;
     identity_binding_digest := identity_binding_digest s;
     summary_executable := summary_executable s; workload_digest := workload_digest s;
     summary_log_digest := summary_log_digest s; commitment_block_hash := commitment_block_hash s;
     execution := execution s; quota := quota s; envelope := envelope s;
     envelope_note := envelope_note s; promotion_gate := promotion_gate s |}.
Definition set_workload (d : string) (s : CanarySummary) : CanarySummary :=
  {| applicable := applicable s; exemption := exemption s; eligible := eligible s;
     refusal := refusal s; identity_binding_digest := identity_binding_digest s;
     summary_executable := summary_executable s; workload_digest := Some d;
     summary_log_digest := summary_log_digest s; commitment_block_hash := commitment_block_hash s;
     execution := execution s; quota := quota s; envelope := envelope s;
     envelope_note := envelope_note s; promotion_gate := promotion_gate s |}.
Definition set_identity (binding executable : string) (s : CanarySummary) : CanarySummary :=
  {| applicable := applicable s; exemption := exemption s; eligible := eligible s;
     refusal := refusal s; identity_binding_digest := Some binding;
     summary_executable := Some executable; workload_digest := workload_digest s;
     summary_log_digest := summary_log_digest s; commitment_block_hash := commitment_block_hash s;
     execution := execution s; quota := quota s; envelope := envelope s;
     envelope_note := envelope_note s; promotion_gate := promotion_gate s |}.
Definition set_execution (x : CanaryExecutionRecord) (log : string) (s : CanarySummary)
    : CanarySummary :=
  {| applicable := applicable s; exemption := exemption s; eligible := eligible s;
     refusal := refusal s; identity_binding_digest := identity_binding_digest s;
     summary_executable := summary_executable s; workload_digest := workload_digest s;
     summary_log_digest := Some log; commitment_block_hash := commitment_block_hash s;
     execution := Some x; quota := quota s; envelope := envelope s;
     envelope_note := envelope_note s; promotion_gate := promotion_gate s |}.
Definition set_commitment (block : string) (s : CanarySummary) : CanarySummary :=
  {| applicable := applicable s; exemption := exemption s; eligible := eligible s;
     refusal := refusal s; identity_binding_digest := identity_binding_digest s;
     summary_executable := summary_executable s; workload_digest := workload_digest s;
     summary_log_digest := summary_log_digest s; commitment_block_hash := Some block;
     execution := execution s; quota := quota s; envelope := envelope s;
     envelope_note := envelope_note s; promotion_gate := promotion_gate s |}.
Definition set_quota (q : QuotaDecisionRecord) (s : CanarySummary) : CanarySummary :=
  {| applicable := applicable s; exemption := exemption s; eligible := eligible s;
     refusal := refusal s; identity_binding_digest := identity_binding_digest s;
     summary_executable := summary_executable s; workload_digest := workload_digest s;
     summary_log_digest := summary_log_digest s; commitment_block_hash := commitment_block_hash s;
     execution := execution s; quota := Some q; envelope := envelope s;
     envelope_note := envelope_note s; promotion_gate := promotion_gate s |}.
Definition set_envelope (g : GateDecisionRecord) (s : CanarySummary) : CanarySummary :=
  {| applicable := applicable s; exemption := exemption s; eligible := eligible s;
     refusal := refusal s; identity_binding_digest := identity_binding_digest s;
     summary_executable := summary_executable s; workload_digest := workload_digest s;
     summary_log_digest := summary_log_digest s; commitment_block_hash := commitment_block_hash s;
     execution := execution s; quota := quota s; envelope := Some g;
     envelope_note := Some ENVELOPE_REFERENCE_NOTE; promotion_gate := promotion_gate s |}.
Definition set_promotion_gate (g : GateDecisionRecord) (s : CanarySummary) : CanarySummary :=
  {| applicable := applicable s; exemption := exemption s; eligible := eligible s;
     refusal := refusal s; identity_binding_digest := identity_binding_digest s;
     summary_executable := summary_executable s; workload_digest := workload_digest s;
     summary_log_digest := summary_log_digest s; commitment_block_hash := commitment_block_hash s;
     execution := execution s; quota := quota s; envelope := envelope s;
     envelope_note := envelope_note s; promotion_gate := Some g |}.

(** The executor's counters, copied. *)
Definition execution_record (s : ExecutionSummary) : CanaryExecutionRecord :=
  {| x_requests_planned := requests_planned s; x_issued := issued s;
     x_verified_success := verified_success s; x_wrong_result := wrong_result s;
     x_timeout := timeout s; x_invalid_response := invalid_response s;
     x_connection_closed := connection_closed s; x_rejections := rejections s;
     x_ready := ready s; x_reverted := reverted s; x_first_failure := first_failure s |}.

(** Their JSON values. *)
Definition opt_str (o : option string) : value := match o with Some s => Str s | None => Null end.
Definition opt_num (o : option N) : value := match o with Some n => Number n | None => Null end.
Definition quota_value (q : QuotaDecisionRecord) : value :=
  Object [("admitted", Bool (q_admitted q)); ("counted", opt_num (q_counted q));
          ("target", Number (q_target q)); ("refusal", opt_str (q_refusal q))].
Definition gate_value (g : GateDecisionRecord) : value :=
  Object [("passed", Bool (g_passed g)); ("detail", Str (g_detail g))].
Definition opt_value {A} (f : A → value) (o : option A) : value :=
  match o with Some a => f a | None => Null end.

(** ** The world of a cycle *)

(** What happens to one candidate; [stamp n] is the clock at the [n]-th record it leaves. *)
Record CandidateWorld := {
  stamp : nat → string;
  staging : StageFates;
  stale_removed : bool;
  build : result (bool * string * string);
  build_writes : disk;
  build_us : N;
  check_answer : cargo_answer;
  test_answer : cargo_answer;
  surroundings : Surroundings;
  evaluation_fate : blob_fate;
  evaluation_uuid : string;
  evaluation_us : N
}.

Record SupervisedWorld := {
  sv_stamp : nat → string;
  worker_secret : string;
  staged_now : string;
  exe_dir_made : bool;
  exe_copied : bool;
  mono_start : N;
  oracle : Oracle;
  envelope_answer : string → result unit;
  rollback_env : Env;
  rolled_back_at : string;
  link_fate : SwapFate;
  link_uuid : string;
  ratify : RatifyInput;
  commit_us : N
}.

Record CycleWorld := {
  cycle_uuid : string;
  open_now : string;
  observed : Observed;
  observe_us : N;
  platform : Platform;
  repo_identity : string;
  head_commit : option string;
  price_vectors : Directory;
  hypothesis_uuid : string;
  recall : string → list string;
  seat_available : bool;
  complete : string → result string;
  model_stamp : string * string;
  scan_stamp : string * string;
  propose_us : N;
  candidate_world : nat → CandidateWorld;
  supervised : SupervisedWorld;
  canary_us : N;
  checkpoint_now : string;
  recorded_now : string;
  samples_fate : Measure.write_fate
}.

(** ** State and steps *)

Record Engine := {
  store : Store;
  host : SupervisorDaemon;
  clock : StageClock;
  repo : Repo;
  complete_log : option string;
  partial_log : option string
}.
Definition set_store (s : Store) (e : Engine) : Engine :=
  {| store := s; host := host e; clock := clock e; repo := repo e;
     complete_log := complete_log e; partial_log := partial_log e |}.
Definition set_host (h : SupervisorDaemon) (e : Engine) : Engine :=
  {| store := store e; host := h; clock := clock e; repo := repo e;
     complete_log := complete_log e; partial_log := partial_log e |}.
Definition set_clock (k : StageClock) (e : Engine) : Engine :=
  {| store := store e; host := host e; clock := k; repo := repo e;
     complete_log := complete_log e; partial_log := partial_log e |}.
Definition set_repo (r : Repo) (e : Engine) : Engine :=
  {| store := store e; host := host e; clock := clock e; repo := r;
     complete_log := complete_log e; partial_log := partial_log e |}.
Definition set_logs (complete partial : option string) (e : Engine) : Engine :=
  {| store := store e; host := host e; clock := clock e; repo := repo e;
     complete_log := complete; partial_log := partial |}.

Definition disk_of (e : Engine) : disk := files (fs (host e)).
Definition with_disk (d : disk) (e : Engine) : Engine :=
  let f := fs (host e) in
  set_host (set_fs {| files := d; dirs := dirs f; links := links f |} (host e)) e.

(** A step returns, fails with an error the cycle returns, or panics. *)
Inductive outcome (A : Type) := Value (a : A) | Error (e : error) | Panic.
Arguments Value {A} a.
Arguments Error {A} e.
Arguments Panic {A}.
Definition step (A : Type) : Type := Engine → Engine * outcome A.
#[export] Instance step_ret : MRet step := λ A a s, (s, Value a).
#[export] Instance step_bind : MBind step := λ A B f m s,
  match m s with
  | (s, Value a) => f a s
  | (s, Error e) => (s, Error e)
  | (s, Panic) => (s, Panic)
  end.
Definition of_result {A} (r : result A) : outcome A :=
  match r with Ok a => Value a | Err e => Error e end.
Definition lift {A} (r : result A) : step A := λ s, (s, of_result r).
Definition panic {A} : step A := λ s, (s, Panic).
Definition gets {A} (f : Engine → A) : step A := λ s, (s, Value (f s)).
Definition modify (f : Engine → Engine) : step unit := λ s, (f s, Value tt).
(** Operations of the parts of the state; [try] keeps the error as a value. *)
Definition at_store {A} (m : M Store A) : step A := λ e,
  let '(s, r) := m (store e) in (set_store s e, of_result r).
Definition at_host {A} (m : M SupervisorDaemon A) : step A := λ e,
  let '(h, r) := m (host e) in (set_host h e, of_result r).
Definition at_fs {A} (m : M Fs A) : step A := λ e,
  let '(f, r) := m (fs (host e)) in (set_host (set_fs f (host e)) e, of_result r).
Definition at_repo {A} (m : M Repo A) : step A := λ e,
  let '(r, a) := m (repo e) in (set_repo r e, of_result a).
Definition try {A} (m : step A) : step (result A) := λ e,
  match m e with
  | (e, Value a) => (e, Value (Ok a))
  | (e, Error why) => (e, Value (Err why))
  | (e, Panic) => (e, Panic)
  end.
(** The message of an error goes into a template. *)
Definition failing {A} (t : string) (m : step A) : step A := λ e,
  match m e with
  | (e, Error why) => (e, Error (Fmt t [render why]))
  | o => o
  end.
Definition timed (s : Stage) (us : N) (o : StageOutcome) : step unit :=
  modify (λ e, set_clock (record s us o (clock e)) e).

(** serde_json, the TOML reader and the key readers, on the values a cycle reads and writes; the
    shortest decimal form of a binary64. *)
Class Formats `{P256} := {
  strings_of_json : string → option (list string);
  receipt_json : EvaluationReceipt → string;
  workload_of_json : string → option CanaryWorkloadManifest;
  adapter_of_toml : string → option CanaryAdapterManifest;
  log_record_of_json : string → option LogRecord;
  policy_of_json : string → option EvaluationPolicy;
  signing_key_of_bytes : string → option SigningKey;
  key_of_sec1 : string → option VerifyingKey;
  show_f64 : f64 → string
}.

(** A candidate that the judge admitted, with what the rest of the cycle uses. *)
Record Winner := {
  win_proposal : ImprovementProposal;
  win_sandbox : string;
  win_invariants : InvariantReport;
  win_balance : BalanceVerdict;
  win_receipt : EvaluationReceipt;
  win_block : LedgerBlock;
  win_summary : CanarySummary;
  win_build : option (LoadedAdapterManifest * string)
}.

(** What the supervised part of a cycle leaves. *)
Record Supervision := {
  sup_success : bool;
  sup_summary : CanarySummary;
  sup_promotion : option (GenerationInfo * LedgerBlock * RatificationRecord)
}.

(** The time a cycle took is not modelled. *)
Record CycleResult := {
  res_cycle_id : string;
  res_telemetry : TelemetrySnapshot;
  res_proposal : option ImprovementProposal;
  res_invariants : option InvariantReport;
  res_balance : option BalanceVerdict;
  res_receipt : option EvaluationReceipt;
  res_generation : option GenerationInfo;
  res_block : option LedgerBlock;
  res_ratification : option RatificationRecord;
  res_success : bool;
  res_scarcity : ScarcityDiagnostic;
  res_canary : option CanarySummary
}.

Section Engine.
Context `{Sha256, JsonStr, P256, !EqDecision VerifyingKey, WorkerCodec, RecordCodec, Unicode, !Formats}.
(** The judge, on its surroundings and the identifiers of the cycle, the candidate and its parent;
    nothing is a panic. *)
Context (judge : BlindJudge → Surroundings → string → string → string → option (result EvaluationReceipt)).
Context (blob_root : string).
Context (c : EngineConfig).

(** ** One candidate *)

(** A reason is recorded in the ledger; a failed append is dropped. *)
Definition note (w : CandidateWorld) (n : nat) (reason : string) : step unit :=
  _ ← try (at_store (append_block strings_of_json (stamp w n) Evaluation reason [])); mret tt.

(** The reason an engine change is refused, when it is. *)
Definition operator_refusal (p : ImprovementProposal) : option string :=
  match operator_key_hex c with
  | None => Some "Tier 2 candidate refused: no operator key configured"
  | Some key_hex =>
    match validate_tier2_candidate_boundaries (target_file p) with
    | Err e => Some ("Tier 2 Invariant Rejected: " +:+ render e)
    | Ok _ =>
      match hex_decode key_hex with
      | None => Some "Invalid operator_key_hex"
      | Some bytes =>
        match key_of_sec1 bytes with
        | None => Some "Invalid operator verifying key"
        | Some key =>
          if is_ok (verify_operator_authorization (sha256 (proposed_patch p))
                      (default "" (operator_signature p)) key)
          then None else Some "Operator signature unauthorized"
        end
      end
    end
  end.

(** The claim policy, the declared target and the tier, before anything is staged. *)
Definition screen (diagnosis_measured : bool) (p : ImprovementProposal) : option string :=
  match check_claim (kind p) (require_latency c) diagnosis_measured with
  | Err e => Some (render e)
  | Ok _ =>
    match check_declared_target (target_file p) (roots_of c) with
    | Err e => Some ("Declared target refused: " +:+ render e)
    | Ok _ =>
      match classify_proposal (bool_decide (kind p = MetaEngineImprovement)) (target_file p) with
      | Tier1Target => None
      | Tier2Engine => operator_refusal p
      end
    end
  end.

Definition is_code_change (p : ImprovementProposal) : bool :=
  ends_with ".rs" (target_file p) || ends_with ".toml" (target_file p)
  || ends_with "Cargo.lock" (target_file p).
Definition heuristic_build (f : Fs) (sandbox : string) (p : ImprovementProposal) : bool :=
  exists_path f (path_join sandbox "Cargo.toml")
  && (negb (exists_path f (path_join sandbox "spark-rsi")) || ends_with ".rs" (target_file p)).
Definition executable_change (f : Fs) (sandbox : string) (p : ImprovementProposal) : bool :=
  is_code_change p || heuristic_build f sandbox p || is_declared (files f) sandbox.
Definition exempt (f : Fs) (sandbox : string) (p : ImprovementProposal) : bool :=
  negb (executable_change f sandbox p) && bool_decide (kind p ∈ canary_exempt_kinds c).
(** [{:?}]. *)
Definition kind_debug (k : ProposalKind) : string :=
  match k with
  | Refactor => "Refactor" | Documentation => "Documentation" | Optimization => "Optimization"
  | UnslopSanitization => "UnslopSanitization" | InvariantFix => "InvariantFix"
  | MetaEngineImprovement => "MetaEngineImprovement"
  end.

Definition load_pinned_workload (d : disk) : result PinnedWorkload :=
  pin ← ok_or (canary_workload_sha256 c)
    (Fmt "canary_workload_sha256 is not set: the operator must pin the canary workload" []);
  let path := match canary_workload_path c with
              | Some p => p
              | None => path_join (path_join (engine_root c) "canary") "workload.json"
              end in
  load_pinned workload_of_json d path pin.

Definition Target : Type := LoadedAdapterManifest * string.

(** The candidate is not eligible: the reason is recorded and kept. *)
Definition ineligible (w : CandidateWorld) (recorded why : string) (pinned : option PinnedWorkload)
    (s : CanarySummary) : step (option PinnedWorkload * CanarySummary * option Target) :=
  _ ← note w 0 recorded; mret (pinned, set_eligibility false (Some why) s, None).

(** The pinned workload, loaded once in a cycle; a refusal ends the cycle. *)
Definition pin_workload (w : CandidateWorld) (pinned : option PinnedWorkload) : step PinnedWorkload :=
  match pinned with
  | Some x => mret x
  | None =>
    d ← gets disk_of;
    match load_pinned_workload d with
    | Ok x => mret x
    | Err e => _ ← note w 0 ("Canary workload refused: " +:+ render e);
               lift (fail "Fatal: canary workload refused: {}" [render e])
    end
  end.

(** A file or link at [built] is removed; [false] when that fails. *)
Definition clear_stale (w : CandidateWorld) (built : string) : step bool := λ e,
  let f := fs (host e) in
  if present f built || bool_decide (is_Some (links f !! built)) then
    if bool_decide (built ∈ dirs f) || negb (stale_removed w) then (e, Value false)
    else (set_host (set_fs {| files := delete built (files f); dirs := dirs f;
                              links := delete built (links f) |} (host e)) e, Value true)
  else (e, Value true).

Definition eligibility (w : CandidateWorld) (sandbox : string) (pinned : option PinnedWorkload)
    (s : CanarySummary) : step (option PinnedWorkload * CanarySummary * option Target) :=
  d ← gets disk_of;
  match load_from_tree adapter_of_toml d sandbox with
  | Err e => ineligible w ("Canary refused, candidate not eligible: " +:+ render e) (render e) pinned s
  | Ok adapter =>
    workload ← pin_workload w pinned;
    let s := set_workload (pinned_digest workload) s in
    let named := workload_id (Adapter.manifest adapter) in
    let pinned_id := Workload.workload_id (Workload.manifest workload) in
    if negb (bool_decide (named = pinned_id)) then
      let why := render (Fmt "adapter names workload {:?}, the pinned workload is {:?}" [named; pinned_id]) in
      ineligible w ("Canary refused, candidate not eligible: " +:+ why) why (Some workload) s
    else
      let built := executable_path (Adapter.manifest adapter) BUILD_OUTPUT_ROOT in
      cleared ← clear_stale w built;
      if negb cleared then
        let why := render (Fmt "cannot clear stale executable {:?}: {}" [built]) in
        ineligible w why why (Some workload) s
      else mret (Some workload, set_eligibility true None s, Some (adapter, built))
  end.

(** The build jail; [false] when the candidate is given up. *)
Definition build_candidate (w : CandidateWorld) (p : ImprovementProposal) : step bool :=
  match build w with
  | Err e =>
    _ ← timed BuildJail (build_us w) StageFailed;
    _ ← note w 1 ("Build Jail exec error: " +:+ render e);
    mret false
  | Ok (success, stdout, stderr) =>
    _ ← modify (λ e, with_disk (build_writes w ∪ disk_of e) e);
    _ ← timed BuildJail (build_us w) (if success then StageOk else StageFailed);
    if success then mret true
    else
      _ ← note w 1 (write_canonical (Object
            [("proposal_id", Str (id p)); ("stage", Str "build_jail");
             ("error", Str (concat_all ["Candidate failed to compile in Build Jail:"; String lf ""; stderr]));
             ("stdout", Str stdout)]));
      mret false
  end.

(** The adapter's executable must be there as a file after the build. *)
Definition check_built (w : CandidateWorld) (s : CanarySummary) (target : option Target)
    : step (CanarySummary * option Target) :=
  d ← gets disk_of;
  match target with
  | Some (adapter, built) =>
    if bool_decide (is_Some (d !! built)) then mret (s, target)
    else
      let why := render (Fmt "the build did not produce the adapter executable {:?}; not eligible for canary"
                           [built]) in
      _ ← note w 1 why; mret (set_eligibility false (Some why) s, None)
  | None => mret (s, None)
  end.

Definition balance_of (t : TelemetrySnapshot) : BalanceVerdict :=
  balance_evaluate (drive_score (soul_tension t)) (humanity_score (soul_tension t)).
Definition cycle_judge (key : SigningKey) (is_code : bool) : BlindJudge :=
  {| signing_key := Some key; JudgeCycle.require_latency_improvement := require_latency c;
     non_inferiority_margin_pct := default (f64_of_N 5) (non_inferiority_margin c);
     require_build_verification := is_code; JudgeCycle.executable := None; build_release := false |}.

(** Invariants and balance, then the judge; what the judge admitted. *)
Definition judge_candidate (w : CandidateWorld) (cycle : string) (key : SigningKey)
    (t : TelemetrySnapshot) (sandbox : string) (p : ImprovementProposal)
    : step (option (InvariantReport * EvaluationReceipt * LedgerBlock)) :=
  f ← gets (λ e, fs (host e));
  let report := run_full_verification_scoped sandbox (is_code_change p) (check_answer w)
                  (test_answer w) f in
  let balanced := bool_decide (verdict (balance_of t) = "balanced") in
  if negb (inv_passed report) || negb balanced then
    _ ← timed JudgeEvaluation (evaluation_us w) StageRefused;
    _ ← note w 2 (write_canonical (Object
          [("proposal_id", Str (id p)); ("invariants_passed", Bool (inv_passed report));
           ("is_balanced", Bool balanced); ("notes", Array (Str <$> notes report));
           ("compile_error", opt_str (compilation_error report));
           ("test_summary", opt_str (test_output_summary report))]));
    mret None
  else match judge (cycle_judge key (is_code_change p)) (surroundings w) cycle (id p) "parent" with
  | None => panic
  | Some (Err e) =>
    _ ← timed JudgeEvaluation (evaluation_us w) StageFailed;
    _ ← note w 2 ("Judge evaluation error: " +:+ render e);
    mret None
  | Some (Ok receipt) =>
    blk ← failing "Fatal: Failed to append evaluation to ledger: {}"
            (at_store (append_evaluation strings_of_json blob_root (stamp w 2) (evaluation_fate w)
               (evaluation_uuid w) (receipt_json receipt) (Some (receipt_json receipt))));
    _ ← timed JudgeEvaluation (evaluation_us w) (if admitted receipt then StageOk else StageRefused);
    mret (if admitted receipt then Some (report, receipt, blk) else None)
  end.

(** A staged candidate, from its applicability to the judge's admission. *)
Definition evaluate_staged (w : CandidateWorld) (cycle : string) (key : SigningKey)
    (t : TelemetrySnapshot) (pinned : option PinnedWorkload) (sandbox : string)
    (p : ImprovementProposal) : step (option PinnedWorkload * option Winner) :=
  f ← gets (λ e, fs (host e));
  let ex := exempt f sandbox p in
  let s := start_canary (negb ex)
             (if ex then Some (render (Fmt "kind {:?} is exempt by configuration and the change is not executable"
                                         [kind_debug (kind p)])) else None) in
  '(pinned, s, target) ← (if ex then mret (pinned, s, None) else eligibility w sandbox pinned s);
  going ← (if heuristic_build f sandbox p || bool_decide (is_Some target)
           then build_candidate w p else mret true);
  if negb going then mret (pinned, None)
  else
    '(s, target) ← check_built w s target;
    verdict ← judge_candidate w cycle key t sandbox p;
    mret (pinned,
          match verdict with
          | Some (report, receipt, blk) =>
            Some {| win_proposal := p; win_sandbox := sandbox; win_invariants := report;
                    win_balance := balance_of t; win_receipt := receipt; win_block := blk;
                    win_summary := s; win_build := target |}
          | None => None
          end).

Definition consider (w : CandidateWorld) (cycle : string) (key : SigningKey)
    (t : TelemetrySnapshot) (diagnosis_measured : bool) (pinned : option PinnedWorkload)
    (p : ImprovementProposal) : step (option PinnedWorkload * option Winner) :=
  match screen diagnosis_measured p with
  | Some why => _ ← note w 0 why; mret (pinned, None)
  | None =>
    staged ← try (at_fs (stage_in_sandbox (staging w) p (target_repo c) (sandbox_root c)));
    match staged with
    | Err e => _ ← note w 0 ("Stage failed: " +:+ render e); mret (pinned, None)
    | Ok (sandbox, p) => evaluate_staged w cycle key t pinned sandbox p
    end
  end.

(** The candidates in order, up to the first the judge admits. *)
Fixpoint first_admitted (world : nat → CandidateWorld) (i : nat) (cycle : string) (key : SigningKey)
    (t : TelemetrySnapshot) (diagnosis_measured : bool) (pinned : option PinnedWorkload)
    (ps : list ImprovementProposal) : step (option PinnedWorkload * option Winner) :=
  match ps with
  | [] => mret (pinned, None)
  | p :: ps =>
    '(pinned, won) ← consider (world i) cycle key t diagnosis_measured pinned p;
    match won with
    | Some x => mret (pinned, Some x)
    | None => first_admitted world (S i) cycle key t diagnosis_measured pinned ps
    end
  end.

(** ** The supervised canary *)

Definition supervisor_config (secret : string) : SupervisorConfig :=
  {| Daemon.rsi_root := engine_root c;
     config_socket_path := path_join (engine_root c) "supervisor.sock";
     config_memory_limit_mb := 49152; Daemon.canary_target := target_of c;
     config_max_latency_us := 1000000; max_error_rate := f64_of_N 0; shared_secret := secret |}.
Definition host_supervisor (secret : string) : HostSupervisor := supervisor (supervisor_config secret).

(** The chain of identities: the patch, the evaluated tree, the staged tree and the staged copy of
    the built executable. *)
Definition identify (sv : SupervisedWorld) (x : Winner) (built : string) (gen : GenerationInfo)
    : step (CandidateIdentity * string) :=
  d ← gets disk_of;
  let evaluated := compute_source_digest (win_sandbox x) d in
  let staged := compute_source_digest (installed_path gen) d in
  if negb (bool_decide (staged = evaluated)) then
    lift (fail "staged tree digest {} differs from the evaluated tree digest {}" [staged; evaluated])
  else
    name ← lift (ok_or (file_name built) (Fmt "adapter executable path {:?} has no file name" [built]));
    let dir := path_join (installed_path gen) ".rsi-canary" in
    let exe := path_join dir name in
    if negb (exe_dir_made sv) then lift (fail "cannot create {:?}: {}" [dir])
    else
      _ ← at_fs (λ f, (create_dir_all dir f, Ok tt));
      f ← gets (λ e, fs (host e));
      match files f !! built with
      | None => lift (fail "cannot stage executable {:?}: {}" [built])
      | Some bytes =>
        if negb (exe_copied sv) || bool_decide (exe ∈ dirs f)
        then lift (fail "cannot stage executable {:?}: {}" [built])
        else
          _ ← modify (λ e, with_disk (<[exe := bytes]> (disk_of e)) e);
          d ← gets disk_of;
          digest ← lift (digest_file d exe);
          let identity := new_identity (sha256_hex (proposed_patch (win_proposal x))) evaluated digest
                            (id (win_proposal x)) in
          _ ← lift (Identity.validate identity);
          mret (identity, exe)
      end.

(** The executor's run over the cycle's disk; a run that halts is refused. *)
Definition execute (sv : SupervisedWorld) (workload : PinnedWorkload) (identity : CandidateIdentity)
    (exe : string) (args : list string) (gen : GenerationInfo)
    : step (SealedObservationLog * ExecutionSummary * GenerationInfo) := λ e,
  let '(w, r) := Executor.run log_record_of_json (host_supervisor (worker_secret sv))
                   (supervisor_config (worker_secret sv)) workload identity exe args default_config
                   (oracle sv)
                   {| w_disk := disk_of e; w_gen := gen; w_clock := mono_start sv; w_ops := 0;
                      w_written := [] |} in
  (with_disk (w_disk w) e,
   match r with
   | Ok (SealedOutcome sealed summary) => Value (sealed, summary, w_gen w)
   | Ok (Halted _) => Error (Fmt "canary run halted without sealing; refusing" [])
   | Err why => Error why
   end).

Definition commitment_value (identity : CandidateIdentity) (workload : PinnedWorkload)
    (adapter : LoadedAdapterManifest) (sealed : SealedObservationLog) : value :=
  Object [("canary_commitment", Object
    [("generation_id", Str (Identity.generation_id identity));
     ("patch_digest", Str (patch_digest identity)); ("tree_digest", Str (tree_digest identity));
     ("executable_digest", Str (executable_digest identity));
     ("identity_binding_digest", Str (binding_digest identity));
     ("workload_id", Str (Workload.workload_id (Workload.manifest workload)));
     ("workload_digest", Str (pinned_digest workload));
     ("adapter_manifest_digest", Str (loaded_digest adapter));
     ("sealed_log_path", opt_str (s_path sealed));
     ("log_digest", Str (log_digest (s_seal sealed)));
     ("observation_count", Number (observation_count (s_seal sealed)));
     ("qualifying_count", Number (qualifying_count (s_seal sealed)));
     ("rejection_count", Number (N.of_nat (length (s_rejections sealed))))])].

(** The quota decision on the sealed log, with the reason and its first failure. *)
Definition decide_quota (sealed : SealedObservationLog) (summary : ExecutionSummary)
    (identity : CandidateIdentity) (workload : PinnedWorkload)
    : QuotaDecisionRecord * result unit :=
  match admit_sealed_quota sealed identity (Workload.manifest workload) (target_of c) with
  | Ok d => ({| q_admitted := true; q_counted := Some (counted d); q_target := Admission.target d;
                q_refusal := None |}, Ok tt)
  | Err e =>
    let why := match first_failure summary with
               | Some f => Fmt "{} (first failure: {})" [render e; f]
               | None => e
               end in
    ({| q_admitted := false; q_counted := None; q_target := target_of c;
        q_refusal := Some (render why) |}, Err why)
  end.

(** The 32 bytes the envelope takes as its subject. *)
Definition subject_of (binding : string) : result string :=
  match hex_decode binding with
  | Some bytes => if (String.length bytes =? 32)%nat then Ok bytes
                  else fail "identity binding digest is not 32 bytes of hex: {}" []
  | None => fail "identity binding digest is not 32 bytes of hex: {}" []
  end.

(** The canary of a candidate that is not exempt: identify, run and seal, commit, decide.
    The summary keeps what was established when a step is refused. *)
Definition run_admission (sv : SupervisedWorld) (x : Winner) (adapter : LoadedAdapterManifest)
    (built : string) (workload : PinnedWorkload) (gen : GenerationInfo) (s : CanarySummary)
    : step (CanarySummary * result (string * GenerationInfo)) :=
  found ← try (identify sv x built gen);
  match found with
  | Err e => mret (s, Err e)
  | Ok (identity, exe) =>
    let s := set_identity (binding_digest identity) (executable_digest identity) s in
    ran ← try (execute sv workload identity exe (Adapter.args (Adapter.manifest adapter)) gen);
    match ran with
    | Err e => mret (s, Err e)
    | Ok (sealed, summary, gen) =>
      let s := set_execution (execution_record summary) (log_digest (s_seal sealed)) s in
      committed ← try (failing "cannot commit the sealed log to the ledger: {}"
        (at_store (append_block strings_of_json (sv_stamp sv 0) Evaluation
           (write_canonical (commitment_value identity workload adapter sealed)) [])));
      match committed with
      | Err e => mret (s, Err e)
      | Ok blk =>
        let '(q, decided) := decide_quota sealed summary identity workload in
        let s := set_quota q (set_commitment (block_hash blk) s) in
        mret (s, _ ← decided; subject ← subject_of (binding_digest identity); Ok (subject, gen))
      end
    end
  end.

Definition admit_canary (sv : SupervisedWorld) (x : Winner) (pinned : option PinnedWorkload)
    (gen : GenerationInfo) (s : CanarySummary)
    : step (CanarySummary * result (string * GenerationInfo)) :=
  match (if applicable s then refusal s else None) with
  | Some why => mret (s, fail "canary refused, candidate not eligible: {}" [why])
  | None =>
    if negb (applicable s) then mret (s, Ok (sha256 (proposed_patch (win_proposal x)), gen))
    else match win_build x, pinned with
    | Some (adapter, built), Some workload => run_admission sv x adapter built workload gen s
    | _, _ => mret (s, fail "canary applies but no adapter or pinned workload was resolved" [])
    end
  end.

Definition decision_value (generation : string) (s : CanarySummary) : value :=
  Object [("canary_decision", Object
    [("generation_id", Str generation);
     ("identity_binding_digest", opt_str (identity_binding_digest s));
     ("log_digest", opt_str (summary_log_digest s));
     ("commitment_block_hash", opt_str (commitment_block_hash s));
     ("quota", opt_value quota_value (quota s)); ("envelope", opt_value gate_value (envelope s));
     ("envelope_note", opt_str (envelope_note s));
     ("promotion_gate", opt_value gate_value (promotion_gate s))])].
Definition record_decision (sv : SupervisedWorld) (generation : string) (s : CanarySummary)
    : step unit :=
  _ ← try (at_store (append_block strings_of_json (sv_stamp sv 2) Evaluation
                       (write_canonical (decision_value generation s)) []));
  mret tt.

(** The staged generation is rolled back and the reason recorded. *)
Definition roll_back (sv : SupervisedWorld) (generation reason : string) : step unit :=
  _ ← at_host (trigger_instant_rollback (supervisor_config (worker_secret sv)) (rollback_env sv)
                 (path_join (engine_root c) "active.sock"));
  _ ← try (at_store (append_rollback strings_of_json (sv_stamp sv 1) (rolled_back_at sv)
                       generation reason));
  mret tt.

(** A refusal: roll back, record the decision, no promotion. *)
Definition refuse (sv : SupervisedWorld) (generation reason : string) (s : CanarySummary)
    : step Supervision :=
  _ ← roll_back sv generation reason;
  _ ← record_decision sv generation s;
  mret {| sup_success := false; sup_summary := s; sup_promotion := None |}.

(** What the gate compares: the change, and the file of the generation to promote. *)
Definition promotion_subject (sv : SupervisedWorld) (d : disk) (p : ImprovementProposal)
    : PromotionSubject :=
  let staged := lexical (path_join (path_join (generations_root (host_supervisor (worker_secret sv)))
                                              (id p)) (target_file p)) in
  {| Receipt.parent := "parent"; Receipt.path := target_file p;
     content_sha256 := sha256_hex (proposed_patch p);
     disk_sha256 := match sha256_file (d !! staged) with
                    | Ok h => h
                    | Err e => "unreadable: " +:+ render e
                    end |}.

Definition gate (sv : SupervisedWorld) (key : SigningKey) (x : Winner) (d : disk) : result unit :=
  check_v2_promotion policy_of_json key_of_sec1 d (win_receipt x) (judge_public_key_hex c)
    (verifying_key key) (judge_policy_file c) (promotion_subject sv d (win_proposal x)).

(** The link is switched, the promotion recorded, and the proposal ratified. *)
Definition promote (sv : SupervisedWorld) (x : Winner) (gen : GenerationInfo)
    : step (GenerationInfo * LedgerBlock * RatificationRecord) :=
  let p := win_proposal x in
  _ ← at_fs (atomic_symlink_swap (host_supervisor (worker_secret sv)) (link_fate sv) (link_uuid sv)
               (id p));
  let gen := set_state Durable gen in
  blk ← failing "Fatal: Failed to append promotion to ledger: {}"
          (at_store (append_promotion strings_of_json (sv_stamp sv 3) gen
                       (receipt_digest (win_receipt x))));
  rat ← at_repo (ratify_proposal (ratify sv) p (inv_passed (win_invariants x))
                   (debug_list (notes (win_invariants x))) (roots_of c)
                   (path_join (cfg_rsi_root (measured c)) "patches"));
  _ ← timed CortexCommit (commit_us sv) (if cortex_recorded rat then StageOk else StageFailed);
  mret (gen, blk, rat).

Definition supervise (sv : SupervisedWorld) (key : SigningKey) (pinned : option PinnedWorkload)
    (x : Winner) : step Supervision :=
  let p := win_proposal x in
  _ ← modify (λ e, set_host (new_daemon (fs (host e)) (log_disk (host e))) e);
  gen ← at_host (stage_canary (supervisor_config (worker_secret sv)) (id p) (win_sandbox x)
                   (receipt_digest (win_receipt x)) (staged_now sv));
  '(s, admitted_) ← admit_canary sv x pinned gen (win_summary x);
  match admitted_ with
  | Err why => refuse sv (id p) (render why) s
  | Ok (subject, gen) =>
    match envelope_answer sv subject with
    | Err e =>
      refuse sv (id p) ("Safety envelope rejected promotion: " +:+ render e)
        (set_envelope {| g_passed := false; g_detail := render e |} s)
    | Ok _ =>
      let s := set_envelope {| g_passed := true;
                               g_detail := "signed canary evaluation receipt issued" |} s in
      d ← gets disk_of;
      match gate sv key x d with
      | Err e =>
        refuse sv (id p) ("Promotion gate refused: " +:+ render e)
          (set_promotion_gate {| g_passed := false; g_detail := render e |} s)
      | Ok _ =>
        let s := set_promotion_gate {| g_passed := true;
                                       g_detail := "version 2 judge receipt accepted" |} s in
        _ ← record_decision sv (id p) s;
        done ← promote sv x gen;
        mret {| sup_success := true; sup_summary := s; sup_promotion := Some done |}
      end
    end
  end.

(** ** The cycle *)

Definition measure_context (w : CycleWorld) : MeasureContext :=
  from_parts (repo_identity w) (detect (measured c) (platform w)) (head_commit w).
Definition cycle_id_of (w : CycleWorld) : string := "cycle-" +:+ cycle_uuid w.

Definition read_signing_key : result SigningKey :=
  hex ← ok_or (signing_key_hex c)
    (Fmt "Fatal: Missing cryptographic signing key (signing_key_hex). Production evaluation fails closed." []);
  bytes ← ok_or (hex_decode hex) (Fmt "Fatal: Invalid signing_key_hex: {}" []);
  ok_or (signing_key_of_bytes bytes) (Fmt "Fatal: Invalid P-256 signing key: {}" []).

Definition holdouts_path : string :=
  default (path_join (engine_root c) "holdouts") (cfg_holdouts_dir (measured c)).

(** The top bottleneck and whether its diagnosis rests on a measured latency. *)
Definition diagnosis (ms : list (Stage * StageMeasurement)) (top : option BottleneckRank) : bool :=
  match top with
  | Some b =>
    existsb (λ s, bool_decide (stage_id s = rank_node_id b)
                  && match measurement_of ms s with Some (StageMeasured _ _ _ _) => true | _ => false end)
      all_stages
  | None => false
  end.

Definition find_bottleneck (w : CycleWorld) (file : option string)
    : outcome (option BottleneckRank * bool) :=
  match measure_stages (read_records file) (cycle_id_of w) (measure_context w) (measured c) with
  | None => Panic
  | Some ms =>
    match build_capability_graph ms with
    | Err e => Error e
    | Ok g =>
      match top_bottleneck (map_to_list (nodes g)) g with
      | None => Panic
      | Some top => Value (top, diagnosis ms top)
      end
    end
  end.

Definition cycle_hypothesis (w : CycleWorld) (b : BottleneckRank) : HypothesisContract :=
  with_falsification_test "assert!(receipt.passed_all_hard_invariants)"
    (with_protected_metric "correctness" (f64_of_N 0)
       (from_bottleneck ("hypo-" +:+ hypothesis_uuid w) (cycle_id_of w) b (target_improvement_pct c))).

(** [UnavailableReason::name] and [ScarcityDiagnostic::summary]. *)
Definition reason_name (r : UnavailableReason) : string :=
  match r with
  | UMissing => "MISSING" | UStale => "STALE" | UFrozen => "FROZEN"
  | UUncalibrated => "UNCALIBRATED" | URefused => "REFUSED" | UDigestMismatch => "DIGEST_MISMATCH"
  | UMalformed => "MALFORMED"
  end.
Definition scarcity_summary (d : ScarcityDiagnostic) : string :=
  match d with
  | Available id u cl only la gen root =>
    concat_all ["dominant fresh calibrated scarcity: resource "; dec id; " ("; unit_name u;
                "), class "; match cl with Capacity => "CAPACITY" | Soft => "SOFT" end;
                if only then " (diagnostic only, never relaxable)" else ""; ", lambda "; show_f64 la;
                ", generation "; dec gen; ", evidence root "; root; ", state FRESH"]
  | Dual.Unavailable reason detail =>
    concat_all ["scarcity reading unavailable: price is "; reason_name reason; " ("; detail; ")"]
  end.

Definition node_debug (top : option BottleneckRank) : string :=
  match top with Some b => concat_all ["Some("; Graph.quote; rank_node_name b; Graph.quote; ")"]
  | None => "None" end.

Definition target_source : string := "src/lib.rs".

(** What the model is asked. *)
Definition diagnostic_context (w : CycleWorld) (top : option BottleneckRank)
    (h : option HypothesisContract) (scarcity : ScarcityDiagnostic) (d : disk) : DiagnosticContext :=
  let query := match h with
               | Some h => observed_problem h +:+ " " +:+ suspected_root_cause h
               | None => "performance bottleneck repair"
               end in
  let text := default "" (d !! path_join (target_repo c) target_source) in
  let diag := from_violations (cycle_id_of w) target_source
                (if valid_utf8 text then text else "") PerformanceRegression
                (("Bottleneck identified at " +:+ node_debug top)
                 :: match dual_price_vector_dir c with
                    | Some _ => ["DUAL scarcity reading (diagnostic only, no authority): "
                                 +:+ scarcity_summary scarcity]
                    | None => []
                    end)
                (recall w query) in
  match h with Some h => with_hypothesis h diag | None => diag end.

(** The model's proposal, when it is there and answers with one, then the punctuation scan's; and
    how the stage ended. *)
Definition gather (w : CycleWorld) (top : option BottleneckRank) (h : option HypothesisContract)
    (scarcity : ScarcityDiagnostic) (d : disk) : list ImprovementProposal * StageOutcome :=
  let diag := diagnostic_context w top h scarcity d in
  let '(model, o) :=
    if seat_available w then
      match propose_from_diagnosis (model_stamp w).1 (model_stamp w).2
              (complete w (user_prompt diag)) diag with
      | Ok p => ([p], StageOk)
      | Err _ => ([], StageFailed)
      end
    else ([], StageOk) in
  (model ++ option_list (scan_and_propose_unslop (scan_stamp w).1 (scan_stamp w).2 (target_repo c) d), o).

Definition scarcity_reading (w : CycleWorld) : ScarcityDiagnostic :=
  match dual_price_vector_dir c with
  | Some dir => load_from_dir dir (price_vectors w)
  | None => not_configured
  end.

(** The stage of the supervised block is what it took less the commit inside it. *)
Definition time_canary (us : N) (success : bool) : step unit :=
  modify (λ e, set_clock (record SupervisorCanary (us - duration CortexCommit (clock e))
                            (if success then StageOk else StageRefused) (clock e)) e).

Definition cycle_result (w : CycleWorld) (t : TelemetrySnapshot) (scarcity : ScarcityDiagnostic)
    (won : option (Winner * Supervision)) : CycleResult :=
  let promotion := won ≫= λ xs, sup_promotion xs.2 in
  {| res_cycle_id := cycle_id_of w; res_telemetry := t;
     res_proposal := (λ xs, win_proposal xs.1) <$> won;
     res_invariants := (λ xs, win_invariants xs.1) <$> won;
     res_balance := Some (match won with Some xs => win_balance xs.1 | None => balance_of t end);
     res_receipt := (λ xs, win_receipt xs.1) <$> won;
     res_generation := (λ x, x.1.1) <$> promotion;
     res_block := match promotion with
                  | Some x => Some x.1.2
                  | None => (λ xs, win_block xs.1) <$> won
                  end;
     res_ratification := (λ x, x.2) <$> promotion;
     res_success := match won with Some xs => sup_success xs.2 | None => true end;
     res_scarcity := scarcity; res_canary := (λ xs, sup_summary xs.2) <$> won |}.

Definition run_cycle_inner (w : CycleWorld) : step CycleResult :=
  _ ← failing "Fatal: Improvement Ledger must be active and accessible at {:?}: {}"
        (at_store (open strings_of_json (open_now w)));
  f ← gets (λ e, fs (host e));
  if negb (exists_path f holdouts_path) then
    lift (fail "Fatal: Missing holdouts directory at {:?}. Production evaluation fails closed."
            [holdouts_path])
  else
    key ← lift read_signing_key;
    let t := observe_codebase (target_repo c) (observed w) f in
    _ ← timed Observe (observe_us w) StageOk;
    file ← gets complete_log;
    '(top, diagnosis_measured) ← (λ e, (e, find_bottleneck w file));
    let scarcity := scarcity_reading w in
    let '(candidates, proposed) := gather w top (cycle_hypothesis w <$> top) scarcity (files f) in
    _ ← timed Measure.Propose (propose_us w) proposed;
    '(pinned, won) ← first_admitted (candidate_world w) 0 (cycle_id_of w) key t diagnosis_measured
                       None candidates;
    done ← match won with
           | Some x =>
             sup ← supervise (supervised w) key pinned x;
             _ ← time_canary (canary_us w) (sup_success sup);
             mret (Some (x, sup))
           | None => mret None
           end;
    _ ← try (at_store (checkpoint strings_of_json (checkpoint_now w) (Some key)));
    mret (cycle_result w t scarcity done).

(** The record of a cycle's samples, appended to the log of complete or of partial cycles; a
    failure to record it is only traced. *)
Definition samples_of (w : CycleWorld) (k : StageClock) : CycleSampleRecord :=
  let ctx := measure_context w in
  {| schema_version := SCHEMA_VERSION; Measure.cycle_id := cycle_id_of w;
     rec_workload_key := workload_key ctx; execution_profile_fingerprint := ctx_fingerprint ctx;
     execution_profile := profile ctx; stages := samples Adapter.CANARY_PROTOCOL_VERSION k;
     rec_source_commit := source_commit ctx; recorded_at := recorded_now w |}.

Definition record_stage_samples (w : CycleWorld) (completed : bool) (e : Engine) : Engine :=
  if bool_decide (samples Adapter.CANARY_PROTOCOL_VERSION (clock e) = []) then e
  else
    let r := samples_of w (clock e) in
    if completed
    then set_logs (append (samples_fate w) r (complete_log e)).1 (partial_log e) e
    else set_logs (complete_log e) (append (samples_fate w) r (partial_log e)).1 e.

(** A panic unwinds past the recording. *)
Definition run_cycle (w : CycleWorld) : step CycleResult := λ e,
  match run_cycle_inner w (set_clock new_clock e) with
  | (e, Panic) => (e, Panic)
  | (e, Value r) => (record_stage_samples w true e, Value r)
  | (e, Error why) => (record_stage_samples w false e, Error why)
  end.
End Engine.
