(* ===== verification/EngineProps.v ===== *)
(** What a cycle of the engine guarantees: it promotes only through every gate, whatever judge it
    runs; with the judge it runs in process it never promotes; it only appends to the ledger, a
    bounded number of blocks; and only a completed cycle's samples reach the log that is ranked. *)
From S2P Require Import Prelude RustStd RustPath RustNum RustFloat Digest Json Identity Workload ObservationLog Supervisor SupervisorProps Ipc Daemon Admission Executor LedgerRecord Ledger LedgerProps PatchGate Receipt ReceiptProps Graph Dual Contract Measure Meta Adapter Propose ProposeProps Verifier Telemetry Ratify Artifacts Judge Evaluator JudgeCycle JudgeCycleProps Engine.
#[local] Open Scope string_scope.
#[local] Open Scope list_scope.

(** ** Steps and relations on states *)

#[local] Hint Extern 0 (PreOrder _) => exact _ : core.

Section Keeps.
Context (R : relation Engine) `{!PreOrder R}.

(** Whatever the step returns, it relates the states; a value it returns satisfies [Q]. *)
Definition keeps {A} (m : step A) (Q : A → Prop) : Prop :=
  ∀ e, R e (m e).1 ∧ ∀ a, (m e).2 = Value a → Q a.

Lemma keeps_ret {A} (a : A) (Q : A → Prop) : Q a → keeps (mret a) Q.
Proof. intros Hq e. split; [reflexivity|by intros ? [= <-]]. Qed.

Lemma keeps_mono {A} (m : step A) (P Q : A → Prop) : keeps m P → (∀ a, P a → Q a) → keeps m Q.
Proof. intros Hm Hpq e. destruct (Hm e) as [Hr Hv]. split; [done|]. eauto. Qed.

Lemma keeps_bind {A B} (m : step A) (f : A → step B) P Q :
  keeps m P → (∀ a, P a → keeps (f a) Q) → keeps (m ≫= f) Q.
Proof.
  intros Hm Hf e. unfold mbind, step_bind. destruct (Hm e) as [Hr Hv].
  destruct (m e) as [e1 [a|why|]]; cbn [fst snd] in *; [|by split..].
  destruct (Hf a (Hv a eq_refl) e1) as [Hr' Hv']. split; [by transitivity e1|done].
Qed.

(** When the value is not needed. *)
Lemma keeps_then {A B} (m : step A) (f : A → step B) P Q :
  keeps m P → (∀ a, keeps (f a) Q) → keeps (m ≫= f) Q.
Proof. intros Hm Hf. eapply keeps_bind; [exact Hm|]. intros a _. apply Hf. Qed.

Lemma keeps_try {A} (m : step A) Q :
  keeps m Q → keeps (try m) (λ r, match r with Ok a => Q a | Err _ => True end).
Proof.
  intros Hm e. unfold try. destruct (Hm e) as [Hr Hv].
  destruct (m e) as [e1 [a|why|]]; cbn [fst snd] in *; (split; [done|]); intros ? [= <-]; eauto.
Qed.

Lemma keeps_failing {A} t (m : step A) Q : keeps m Q → keeps (failing t m) Q.
Proof.
  intros Hm e. unfold failing. destruct (Hm e) as [Hr Hv]. by destruct (m e) as [e1 [a|why|]].
Qed.

Lemma keeps_gets {A} (f : Engine → A) : keeps (gets f) (λ _, True).
Proof. intros e. by split. Qed.

Lemma keeps_lift {A} (r : result A) : keeps (lift r) (λ a, r = Ok a).
Proof. intros e. unfold lift. split; [reflexivity|]. destruct r; [by intros ? [= <-]|done]. Qed.

Lemma keeps_panic {A} (Q : A → Prop) : keeps panic Q.
Proof. intros e. by split. Qed.

Lemma keeps_modify f : (∀ e, R e (f e)) → keeps (modify f) (λ _, True).
Proof. intros Hf e. by split; [apply Hf|]. Qed.

Lemma keeps_at_store {A} (m : M Store A) :
  (∀ e, R e (set_store (m (store e)).1 e)) → keeps (at_store m) (λ _, True).
Proof. intros Hm e. specialize (Hm e). unfold at_store. by destruct (m (store e)). Qed.

Lemma keeps_at_fs {A} (m : M Fs A) Q :
  (∀ e, R e (set_host (set_fs (m (fs (host e))).1 (host e)) e)) →
  (∀ f a, (m f).2 = Ok a → Q a) → keeps (at_fs m) Q.
Proof.
  intros Hm Hq e. specialize (Hm e). unfold at_fs. specialize (Hq (fs (host e))).
  destruct (m (fs (host e))) as [f [a|why]]; (split; [done|]); [|done].
  intros ? [= <-]. by apply Hq.
Qed.
End Keeps.

(** ** What a cycle leaves alone until it promotes *)

Definition promotions (s : Store) : list BlockRow :=
  List.filter (λ r, bool_decide (r_block_type r = type_text Promotion)) (blocks s).

(** The active link, the repository, the promotions and the sample logs stay, and no parent
    appears. *)
Record still (link : string) (e e' : Engine) : Prop := {
  still_link : links (fs (host e')) !! link = links (fs (host e)) !! link;
  still_parent : active_generation (host e') = active_generation (host e);
  still_repo : repo e' = repo e;
  still_promotions : promotions (store e') = promotions (store e);
  still_complete : complete_log e' = complete_log e;
  still_partial : partial_log e' = partial_log e
}.
#[export] Instance still_preorder link : PreOrder (still link).
Proof.
  split.
  - intros e. by split.
  - intros e1 e2 e3 [] []. split; congruence.
Qed.

(** The same, whatever parent the daemon has. *)
Record quiet (link : string) (e e' : Engine) : Prop := {
  quiet_link : links (fs (host e')) !! link = links (fs (host e)) !! link;
  quiet_repo : repo e' = repo e;
  quiet_promotions : promotions (store e') = promotions (store e);
  quiet_complete : complete_log e' = complete_log e;
  quiet_partial : partial_log e' = partial_log e
}.
#[export] Instance quiet_preorder link : PreOrder (quiet link).
Proof.
  split.
  - intros e. by split.
  - intros e1 e2 e3 [] []. split; congruence.
Qed.
Lemma still_quiet link e e' : still link e e' → quiet link e e'.
Proof. by intros []. Qed.

(** Only the clock and the blocks other than promotions change. *)
Record settled (e e' : Engine) : Prop := {
  settled_host : host e' = host e;
  settled_repo : repo e' = repo e;
  settled_promotions : promotions (store e') = promotions (store e);
  settled_complete : complete_log e' = complete_log e;
  settled_partial : partial_log e' = partial_log e
}.
#[export] Instance settled_preorder : PreOrder settled.
Proof.
  split.
  - intros e. by split.
  - intros e1 e2 e3 [] []. split; congruence.
Qed.
Lemma settled_quiet link e e' : settled e e' → quiet link e e'.
Proof. intros [Hh]. split; [by rewrite Hh|done..]. Qed.

(** What an observer of the system sees of it. *)
Definition untouched (link : string) (e e' : Engine) : Prop :=
  links (fs (host e')) !! link = links (fs (host e)) !! link
  ∧ repo e' = repo e ∧ promotions (store e') = promotions (store e).

(** On a daemon without a parent generation. *)
Definition orphan_still (link : string) (e e' : Engine) : Prop :=
  active_generation (host e) = None → still link e e'.
#[export] Instance orphan_still_preorder link : PreOrder (orphan_still link).
Proof.
  split.
  - intros e _. reflexivity.
  - intros e1 e2 e3 H12 H23 Hp. pose proof (H12 Hp) as H. transitivity e2; [done|].
    apply H23. by rewrite (still_parent _ _ _ H).
Qed.
Lemma keeps_orphan {A} link (m : step A) Q : keeps (still link) m Q → keeps (orphan_still link) m Q.
Proof. intros Hm e. destruct (Hm e) as [Hr Hv]. split; [by intros _|done]. Qed.

Lemma still_store link e s : promotions s = promotions (store e) → still link e (set_store s e).
Proof. intros Hs. by split. Qed.

Lemma still_clock link e k : still link e (set_clock k e).
Proof. by split. Qed.

Lemma still_disk link e d : still link e (with_disk d e).
Proof. by split. Qed.

Lemma still_fs link e f : links f !! link = links (fs (host e)) !! link →
  still link e (set_host (set_fs f (host e)) e).
Proof. intros Hf. by split. Qed.

Lemma timed_still link s us o : keeps (still link) (timed s us o) (λ _, True).
Proof. apply keeps_modify. intros e. apply still_clock. Qed.

(** ** The parts' operations *)

Section Parts.
Context `{Sha256, JsonStr, P256}.
Context (parse_strings : string → option (list string)).

Lemma insert_promotions b s : block_type b ≠ Promotion →
  promotions (insert_block_internal b s).1 = promotions s.
Proof.
  intros Hb. unfold insert_block_internal. destruct (existsb _ _); [done|].
  unfold promotions. cbn. rewrite List.filter_app. cbn. rewrite bool_decide_eq_false_2.
  - apply app_nil_r.
  - by destruct (block_type b).
Qed.

Lemma append_promotions now t payload blobs s : t ≠ Promotion →
  promotions (append_block parse_strings now t payload blobs s).1 = promotions s.
Proof.
  intros Ht. unfold append_block. destruct (latest_block parse_strings s) as [[latest|]|]; [|done..].
  set (b := new_block _ _ _ _ _ _).
  pose proof (insert_promotions b s Ht) as Hi. unfold mbind, M_bind.
  destruct (insert_block_internal b s) as [s' [[]|e]]; exact Hi.
Qed.

Lemma open_promotions now s : promotions (open parse_strings now s).1 = promotions s.
Proof.
  unfold open. destruct (latest_block parse_strings s) as [[latest|]|]; [done| |done].
  unfold init_genesis. set (b := new_block _ _ _ _ _ _).
  pose proof (insert_promotions b s ltac:(done)) as Hi. unfold mbind, M_bind.
  destruct (insert_block_internal b s) as [s' [[]|e]]; exact Hi.
Qed.

Lemma evaluation_promotions blob_root now fate uuid receipt raw s :
  promotions (append_evaluation parse_strings blob_root now fate uuid receipt raw s).1 = promotions s.
Proof.
  unfold append_evaluation. destruct raw as [data|]; [|by apply append_promotions].
  destruct (put_blob _ _ _ _ _) as [files [digest|e]]; [|done].
  rewrite append_promotions by done. unfold index_blob_or_ignore. by case_match.
Qed.

Lemma checkpoint_promotions now key s :
  promotions (checkpoint parse_strings now key s).1 = promotions s.
Proof. unfold checkpoint. by destruct (last _). Qed.

(** A link outside a removed directory stays. *)
Lemma removed_link dir link (f : Fs) :
  under dir link = false → links (remove_dir_all dir f) !! link = links f !! link.
Proof.
  intros Hu. cbn. destruct (links f !! link) as [t|] eqn:E.
  - by apply map_lookup_filter_Some.
  - apply map_lookup_filter_None. by left.
Qed.

Lemma what_goes_link fates dir link (f : Fs) :
  under dir link = false → links (remove_what_goes fates dir f) !! link = links f !! link.
Proof.
  intros Hu. cbn. destruct (links f !! link) as [t|] eqn:E.
  - apply map_lookup_filter_Some. split; [done|]. cbn. by rewrite Hu.
  - apply map_lookup_filter_None. by left.
Qed.

Lemma stage_in_sandbox_links fates p repo_root base link f :
  under (path_join base (id p)) link = false →
  links (stage_in_sandbox fates p repo_root base f).1 !! link = links f !! link.
Proof.
  intros Hu. unfold stage_in_sandbox. set (dir := path_join base (id p)) in *.
  set (f' := if exists_path f dir then _ else f).
  assert (links f' !! link = links f !! link) as Hf by (unfold f'; case_match; [by apply what_goes_link|done]).
  destruct (sandbox_made fates); [|exact Hf].
  unfold copy_dir_recursive. case_bool_decide; cbn [negb fst snd]; [|exact Hf].
  destruct (copy_stops fates); [exact Hf|]. unfold write_file.
  destruct (path_parent _); case_bool_decide; [exact Hf| |exact Hf|]; by destruct (patch_torn fates).
Qed.

Lemma stage_in_sandbox_proposal fates p repo_root base f dir p' :
  (stage_in_sandbox fates p repo_root base f).2 = Ok (dir, p') →
  dir = path_join base (id p) ∧ p' = with_sandbox dir p.
Proof.
  unfold stage_in_sandbox. destruct (sandbox_made fates); [|done].
  destruct (copy_dir_recursive _ _ _ _) as [f' [[]|]]; [|done].
  destruct (write_file _ _ _ _) as [f2 [[]|]]; [|done]. by intros [= <- <-].
Qed.

Lemma stage_generation_links sup gid src d now link f :
  under (path_join (generations_root sup) gid) link = false →
  links (stage_generation sup gid src d now f).1 !! link = links f !! link.
Proof.
  intros Hu. unfold stage_generation. set (dest := path_join _ gid) in *.
  set (f' := if exists_path f dest then _ else f).
  assert (links f' !! link = links f !! link) as Hf by (unfold f'; case_match; [by apply removed_link|done]).
  unfold copy_dir_all. by case_bool_decide.
Qed.

Lemma create_proposal_id uuid now title d target patch k :
  id (create_proposal uuid now title d target patch k) = "prop-" +:+ uuid.
Proof. done. Qed.

Lemma scanned_id uuid now root d p :
  scan_and_propose_unslop uuid now root d = Some p → id p = "prop-" +:+ uuid.
Proof.
  unfold scan_and_propose_unslop. generalize scanned_files as l.
  induction l as [|rel l IH]; cbn [scan_files]; [done|].
  destruct (d !! _) as [content|]; [|done].
  destruct (valid_utf8 content && has_dash content); [|done]. by intros [= <-].
Qed.

Lemma diagnosed_id uuid now completion diag p :
  propose_from_diagnosis uuid now completion diag = Ok p → id p = "prop-" +:+ uuid.
Proof.
  unfold propose_from_diagnosis. destruct completion; [|done]. case_bool_decide; [done|].
  by destruct (has_dash _); intros [= <-].
Qed.
End Parts.

(** ** Paths *)

Lemma path_join_shared a : ∃ pre, ∀ b, has_root b = false → path_join a b = pre +:+ b.
Proof.
  unfold path_join. case_bool_decide as Ha; [by exists ""; intros b ->|].
  case_bool_decide; [by exists a; intros b ->|exists (a +:+ "/"); intros b ->].
  by rewrite <- str_app_assoc.
Qed.

(** The active link is not in a generation's directory. *)
Lemma generation_apart root u :
  under (path_join (path_join root "generations") ("prop-" +:+ u)) (path_join root "active") = false.
Proof.
  destruct (path_join_shared root) as [pre Hpre]. rewrite !Hpre by done.
  assert (∃ x, path_join (pre +:+ "generations") ("prop-" +:+ u) = pre +:+ ("generations" +:+ x)) as [x ->].
  { unfold path_join. cbn [has_root starts_with String.append]. change (has_root _) with false.
    case_bool_decide as E; [by destruct pre|].
    case_bool_decide; [by exists ("prop-" +:+ u); rewrite <- str_app_assoc|].
    exists ("/" +:+ "prop-" +:+ u). by rewrite <- str_app_assoc. }
  unfold under. apply orb_false_iff. split.
  - apply bool_decide_eq_false. by intros Heq%str_app_inj_l.
  - destruct (starts_with _ _) eqn:E; [|done]. apply starts_with_iff in E as [t Ht].
    rewrite <- !str_app_assoc in Ht. by apply str_app_inj_l in Ht.
Qed.

(** ** The candidates *)

Section Cycle.
Context `{Sha256, JsonStr, P256, !EqDecision VerifyingKey, WorkerCodec, RecordCodec, Unicode, !Formats}.
Context (judge : BlindJudge → Surroundings → string → string → string → option (result EvaluationReceipt)).
Context (blob_root : string) (c : EngineConfig).

Definition active : string := path_join (engine_root c) "active".

(** The sandboxes and the build output lie apart from the active link. *)
Record Layout : Prop := {
  layout_sandbox : ∀ u, under (path_join (sandbox_root c) ("prop-" +:+ u)) active = false;
  layout_build : starts_with (BUILD_OUTPUT_ROOT +:+ "/") active = false
}.
Context (Hlayout : Layout).

Abbreviation still := (still active).

Lemma append_still now t payload blobs : t ≠ Promotion →
  keeps still (at_store (append_block strings_of_json now t payload blobs)) (λ _, True).
Proof. intros Ht. apply keeps_at_store. intros e. by apply still_store, append_promotions. Qed.

Lemma note_still w n reason : keeps still (note w n reason) (λ _, True).
Proof.
  eapply keeps_then; [exact _|apply keeps_try, append_still; done|]. intros _. by apply keeps_ret.
Qed.

(** A step that only notes something. *)
Lemma noted_still {A} w n reason (m : step A) Q :
  keeps still m Q → keeps still (_ ← note w n reason; m) Q.
Proof. intros Hm. eapply keeps_then; [exact _|apply note_still|done]. Qed.

Lemma timed_then {A} s us o (m : step A) Q :
  keeps still m Q → keeps still (_ ← timed s us o; m) Q.
Proof. intros Hm. eapply keeps_then; [exact _|apply timed_still|done]. Qed.

Lemma ineligible_still w recorded why pinned s :
  keeps still (ineligible w recorded why pinned s) (λ _, True).
Proof. apply noted_still. by apply keeps_ret. Qed.

Lemma pin_workload_still w pinned : keeps still (pin_workload c w pinned) (λ _, True).
Proof.
  unfold pin_workload. destruct pinned as [x|]; [by apply keeps_ret|].
  eapply keeps_then; [exact _|by apply keeps_gets|]. intros d.
  destruct (load_pinned_workload c d) as [x|e]; [by apply keeps_ret|]. apply noted_still.
  eapply keeps_mono; [by apply keeps_lift|done].
Qed.

Lemma clear_stale_still w built : built ≠ active → keeps still (clear_stale w built) (λ _, True).
Proof.
  intros Hne e. unfold clear_stale. set (f := fs (host e)).
  destruct (present f built || _); [|by split].
  destruct (bool_decide (built ∈ dirs f) || _); [by split|]. split; [|done].
  apply still_fs. cbn. by rewrite lookup_delete_ne.
Qed.

(** The executable of an adapter that loads lies below the build output. *)
Lemma executable_apart d sandbox adapter :
  load_from_tree adapter_of_toml d sandbox = Ok adapter →
  executable_path (Adapter.manifest adapter) BUILD_OUTPUT_ROOT ≠ active.
Proof.
  intros Hl. destruct (executable_stays_inside _ _ _ _ BUILD_OUTPUT_ROOT Hl) as [-> _]; [done..|].
  intros Heq. pose proof (layout_build Hlayout) as Hb. rewrite <- Heq in Hb.
  assert (starts_with (BUILD_OUTPUT_ROOT +:+ "/")
            (BUILD_OUTPUT_ROOT +:+ "/" +:+ Adapter.executable (Adapter.manifest adapter)) = true) as Ht.
  { apply starts_with_iff. eexists. apply str_app_assoc. }
  congruence.
Qed.

Lemma eligibility_still w sandbox pinned s : keeps still (eligibility c w sandbox pinned s) (λ _, True).
Proof.
  unfold eligibility. eapply keeps_then; [exact _|by apply keeps_gets|]. intros d.
  destruct (load_from_tree adapter_of_toml d sandbox) as [adapter|e] eqn:Hl;
    [|by apply ineligible_still].
  eapply keeps_then; [exact _|apply pin_workload_still|]. intros workload. cbv zeta.
  case_bool_decide; cbn [negb]; [|apply ineligible_still].
  eapply keeps_then; [exact _|apply clear_stale_still; by eapply executable_apart|]. intros cleared.
  destruct cleared; cbn [negb]; [by apply keeps_ret|apply ineligible_still].
Qed.

Lemma build_candidate_still w p : keeps still (build_candidate w p) (λ _, True).
Proof.
  unfold build_candidate. destruct (build w) as [[[success out] err]|e].
  - eapply keeps_then; [exact _|apply keeps_modify; intros e; apply still_disk|]. intros _.
    apply timed_then. destruct success; [by apply keeps_ret|]. apply noted_still. by apply keeps_ret.
  - apply timed_then, noted_still. by apply keeps_ret.
Qed.

Lemma check_built_still w s target : keeps still (check_built w s target) (λ _, True).
Proof.
  unfold check_built. eapply keeps_then; [exact _|by apply keeps_gets|]. intros d.
  destruct target as [[adapter built]|]; [|by apply keeps_ret].
  case_bool_decide; [by apply keeps_ret|]. apply noted_still. by apply keeps_ret.
Qed.

(** What the judge's admission of a candidate rests on. *)
Definition judged (w : CandidateWorld) (cycle : string) (key : SigningKey) (t : TelemetrySnapshot)
    (p : ImprovementProposal) (report : InvariantReport) (receipt : EvaluationReceipt) : Prop :=
  inv_passed report = true ∧ verdict (balance_of t) = "balanced"
  ∧ judge (cycle_judge c key (is_code_change p)) (surroundings w) cycle (id p) "parent"
    = Some (Ok receipt)
  ∧ admitted receipt = true.

Lemma judge_candidate_still w cycle key t sandbox p :
  keeps still (judge_candidate judge blob_root c w cycle key t sandbox p)
    (λ v, ∀ report receipt blk, v = Some (report, receipt, blk) →
          judged w cycle key t p report receipt).
Proof.
  unfold judge_candidate. eapply keeps_then; [exact _|by apply keeps_gets|]. intros f. cbv zeta.
  destruct (inv_passed _) eqn:Hi; cbn [negb orb];
    [|by apply timed_then, noted_still, keeps_ret].
  case_bool_decide as Hb; cbn [negb]; [|by apply timed_then, noted_still, keeps_ret].
  destruct (judge _ _ _ _ _) as [[receipt|e]|] eqn:Hj;
    [|by apply timed_then, noted_still, keeps_ret|by apply keeps_panic].
  eapply keeps_then; [exact _| |].
  { apply keeps_failing, keeps_at_store. intros e. by apply still_store, evaluation_promotions. }
  intros blk. apply timed_then, keeps_ret; [done|]. intros report receipt' blk'.
  destruct (admitted receipt) eqn:Ha; [|done]. intros [= <- <- <-]. by split_and!.
Qed.

(** A candidate on its way to the supervisor. *)
Record cleared (world : nat → CandidateWorld) (cycle : string) (key : SigningKey)
    (t : TelemetrySnapshot) (measured : bool) (p : ImprovementProposal) (x : Winner) : Prop := {
  cl_screen : screen c measured p = None;
  cl_sandbox : win_sandbox x = path_join (sandbox_root c) (id p);
  cl_proposal : win_proposal x = with_sandbox (win_sandbox x) p;
  cl_judged : ∃ i, judged (world i) cycle key t p (win_invariants x) (win_receipt x)
}.

Lemma evaluate_staged_still w cycle key t pinned sandbox p :
  keeps still (evaluate_staged judge blob_root c w cycle key t pinned sandbox p)
    (λ v, ∀ x, v.2 = Some x → win_sandbox x = sandbox ∧ win_proposal x = p
          ∧ judged w cycle key t p (win_invariants x) (win_receipt x)).
Proof.
  unfold evaluate_staged. eapply keeps_then; [exact _|by apply keeps_gets|]. intros f. cbv zeta.
  eapply (keeps_then _ _ _ (λ _, True)).
  { destruct (exempt c f sandbox p); [by apply keeps_ret|apply eligibility_still]. }
  intros [[pinned' s] target].
  eapply (keeps_then _ _ _ (λ _, True)).
  { destruct (heuristic_build f sandbox p || _); [apply build_candidate_still|by apply keeps_ret]. }
  intros going. destruct going; cbn [negb]; [|by apply keeps_ret].
  eapply keeps_then; [exact _|apply check_built_still|]. intros [s' target'].
  eapply keeps_bind; [exact _|apply judge_candidate_still|]. intros v Hv. apply keeps_ret; [done|]. cbn [snd].
  intros x. destruct v as [[[report receipt] blk]|]; [|done]. intros [= <-]. cbn. eauto.
Qed.

(** The identifiers the proposers give. *)
Definition fresh_id (p : ImprovementProposal) : Prop := ∃ u, id p = "prop-" +:+ u.

Lemma consider_still world i cycle key t measured pinned p : fresh_id p →
  keeps still (consider judge blob_root c (world i) cycle key t measured pinned p)
    (λ v, ∀ x, v.2 = Some x → cleared world cycle key t measured p x).
Proof.
  intros [u Hu]. unfold consider. destruct (screen c measured p) as [why|] eqn:Hs;
    [by apply noted_still, keeps_ret|].
  eapply keeps_bind; [exact _| |].
  - apply keeps_try, (keeps_at_fs _ _ (λ v, v.1 = path_join (sandbox_root c) (id p)
                                           ∧ v.2 = with_sandbox v.1 p)).
    + intros e. apply still_fs, stage_in_sandbox_links. rewrite Hu. apply (layout_sandbox Hlayout).
    + intros f [dir p']. apply stage_in_sandbox_proposal.
  - intros [[sandbox p']|e]; [|by intros _; apply noted_still, keeps_ret].
    cbn [fst snd]. intros [Hd Hp]. eapply keeps_mono; [apply evaluate_staged_still|].
    intros v Hv x Hx. destruct (Hv x Hx) as (Hsx & Hpx & Hj). subst p'. rewrite <- Hsx in Hpx.
    split; [done|congruence|done|by exists i].
Qed.

Lemma first_admitted_still world cycle key t measured ps : Forall fresh_id ps → ∀ i pinned,
  keeps still (first_admitted judge blob_root c world i cycle key t measured pinned ps)
    (λ v, ∀ x, v.2 = Some x → ∃ p, p ∈ ps ∧ cleared world cycle key t measured p x).
Proof.
  induction 1 as [|p ps Hp Hps IH]; intros i pinned; cbn [first_admitted]; [by apply keeps_ret|].
  eapply keeps_bind; [exact _|by apply consider_still|]. intros [pinned' [x|]] Hx; cbn [snd] in *.
  - apply keeps_ret; [done|]. intros ? [= <-]. exists p. split; [by left|]. by apply Hx.
  - eapply keeps_mono; [apply IH|]. intros v Hv x Hxv. destruct (Hv x Hxv) as (q & Hq & Hc).
    exists q. split; [by right|done].
Qed.

(** ** The supervised part *)

(** What stands behind the subject of the envelope: a configured exemption and the change's own
    digest, or a run of the executor over the pinned workload, sealed, which the quota admits for
    the identity of this change. *)
Definition canary_evidence (sv : SupervisedWorld) (pinned : option PinnedWorkload) (x : Winner)
    (subject : string) : Prop :=
  (applicable (win_summary x) = false ∧ subject = sha256 (proposed_patch (win_proposal x)))
  ∨ ∃ adapter built workload identity exe sealed summary d w w',
      refusal (win_summary x) = None
      ∧ win_build x = Some (adapter, built) ∧ pinned = Some workload
      ∧ patch_digest identity = sha256_hex (proposed_patch (win_proposal x))
      ∧ Identity.generation_id identity = id (win_proposal x)
      ∧ Executor.run log_record_of_json (host_supervisor c (worker_secret sv))
          (supervisor_config c (worker_secret sv)) workload identity exe
          (Adapter.args (Adapter.manifest adapter)) default_config (oracle sv) w
        = (w', Ok (SealedOutcome sealed summary))
      ∧ admit_sealed_quota sealed identity (Workload.manifest workload) (target_of c) = Ok d
      ∧ hex_decode (binding_digest identity) = Some subject.

Lemma identify_still sv x built gen :
  keeps still (identify sv x built gen)
    (λ v, patch_digest v.1 = sha256_hex (proposed_patch (win_proposal x))
          ∧ Identity.generation_id v.1 = id (win_proposal x)).
Proof.
  assert (∀ {A} (r : result A), keeps still (lift r) (λ _, True)) as Hlift.
  { intros A r. eapply keeps_mono; [by apply keeps_lift|done]. }
  assert (∀ {A} (e : error) Q, keeps still (lift (Err e) : step A) Q) as Hfail.
  { intros A e Q. eapply keeps_mono; [by apply keeps_lift|done]. }
  unfold identify. eapply keeps_then; [done|by apply keeps_gets|]. intros d. cbv zeta.
  case_bool_decide; cbn [negb]; [|apply Hfail].
  eapply keeps_then; [done|apply Hlift|]. intros name.
  destruct (exe_dir_made sv); cbn [negb]; [|apply Hfail].
  eapply keeps_then; [done|apply (keeps_at_fs _ _ (λ _, True)); [intros e; by apply still_fs|done]|].
  intros _. eapply keeps_then; [done|by apply keeps_gets|]. intros f.
  destruct (files f !! built) as [bytes|]; [|apply Hfail].
  destruct (negb (exe_copied sv) || _); [apply Hfail|].
  eapply keeps_then; [done|apply keeps_modify; intros e; apply still_disk|]. intros _.
  eapply keeps_then; [done|by apply keeps_gets|]. intros d'.
  eapply keeps_then; [done|apply Hlift|]. intros digest.
  eapply keeps_then; [done|apply Hlift|]. intros _. by apply keeps_ret.
Qed.

Lemma execute_still sv workload identity exe args gen :
  keeps still (execute c sv workload identity exe args gen)
    (λ v, ∃ w w', Executor.run log_record_of_json (host_supervisor c (worker_secret sv))
            (supervisor_config c (worker_secret sv)) workload identity exe args default_config
            (oracle sv) w = (w', Ok (SealedOutcome v.1.1 v.1.2))).
Proof.
  intros e. unfold execute. destruct (Executor.run _ _ _ _ _ _ _ _ _ _) as [w' r] eqn:Hr.
  cbn [fst snd]. split; [apply still_disk|].
  destruct r as [[sealed summary|summary]|why]; [|done..]. intros [[? ?] ?] [= <- <- <-]. eauto.
Qed.

Lemma decide_quota_ok sealed summary identity workload :
  (decide_quota c sealed summary identity workload).2 = Ok tt →
  ∃ d, admit_sealed_quota sealed identity (Workload.manifest workload) (target_of c) = Ok d.
Proof. unfold decide_quota. destruct (admit_sealed_quota _ _ _ _); [eauto|done]. Qed.

Lemma run_admission_still sv x adapter built workload gen s :
  refusal (win_summary x) = None → win_build x = Some (adapter, built) →
  keeps still (run_admission c sv x adapter built workload gen s)
    (λ v, ∀ subject gen', v.2 = Ok (subject, gen') → canary_evidence sv (Some workload) x subject).
Proof.
  intros Href Hbuild. unfold run_admission.
  eapply keeps_bind; [done|apply keeps_try, identify_still|].
  intros [[identity exe]|why] Hid; [|by apply keeps_ret]. cbn [fst snd] in Hid. cbv zeta.
  eapply keeps_bind; [done|apply keeps_try, execute_still|].
  intros [[[sealed summary] gen']|why] Hx; [|by apply keeps_ret]. cbn [fst snd] in Hx.
  eapply keeps_then; [done|apply keeps_try, keeps_failing, append_still; done|].
  intros [blk|why]; [|by apply keeps_ret].
  pose proof (decide_quota_ok sealed summary identity workload) as Hd.
  destruct (decide_quota c sealed summary identity workload) as [q decided]. cbn [snd] in Hd.
  apply keeps_ret; [done|]. cbn [snd]. intros subject gen'' Hv.
  apply Prelude.bind_ok in Hv as ([] & Hdec & Hv). apply Prelude.bind_ok in Hv as (subject' & Hs & [= -> ->]).
  destruct (Hd Hdec) as [d Hq]. destruct Hid, Hx as (w & w' & Hrun). right.
  exists adapter, built, workload, identity, exe, sealed, summary, d, w, w'. split_and!; try done.
  unfold subject_of in Hs. destruct (hex_decode _); [|done]. case_match; congruence.
Qed.

Lemma admit_canary_still sv x pinned gen :
  keeps still (admit_canary c sv x pinned gen (win_summary x))
    (λ v, ∀ subject gen', v.2 = Ok (subject, gen') → canary_evidence sv pinned x subject).
Proof.
  unfold admit_canary. destruct (applicable (win_summary x)) eqn:Ha; cbn [negb].
  - destruct (refusal (win_summary x)) as [why|] eqn:Hr; [by apply keeps_ret|].
    destruct (win_build x) as [[adapter built]|] eqn:Hb; [|by apply keeps_ret].
    destruct pinned as [workload|]; [|by apply keeps_ret]. by apply run_admission_still.
  - apply keeps_ret; [done|]. intros subject gen' [= <- <-]. by left.
Qed.

Lemma record_decision_still sv g s : keeps still (record_decision sv g s) (λ _, True).
Proof.
  eapply keeps_then; [done|apply keeps_try, append_still; done|]. intros _. by apply keeps_ret.
Qed.

(** It touches the ledger only, and cannot fail. *)
Lemma record_decision_total sv g s e :
  ∃ st, record_decision sv g s e = (set_store st e, Value tt).
Proof.
  unfold record_decision, mbind, step_bind, try, at_store.
  destruct (append_block _ _ _ _ _ (store e)) as [st [blk|why]]; by exists st.
Qed.

Lemma refuse_still sv g reason s :
  keeps (orphan_still active) (refuse c sv g reason s) (λ sup, sup_promotion sup = None).
Proof.
  unfold refuse, roll_back. eapply (keeps_then _ _ _ (λ _, True)).
  - eapply (keeps_then _ _ _ (λ _, True)).
    + intros e. split; [|done]. intros Hp. unfold at_host, trigger_instant_rollback. rewrite Hp.
      by split.
    + intros _. eapply keeps_then; [done| |intros _; by apply keeps_ret].
      apply keeps_orphan, keeps_try, keeps_at_store. intros e. by apply still_store, append_promotions.
  - intros _. eapply keeps_then; [done|apply keeps_orphan, record_decision_still|].
    intros _. by apply keeps_ret.
Qed.

(** The supervised part ends without a promotion and leaves everything alone, or it promotes from a
    state in which every gate has passed. *)
Definition promotes_cleared (sv : SupervisedWorld) (key : SigningKey)
    (pinned : option PinnedWorkload) (x : Winner) (R : relation Engine) (e e' : Engine) : Prop :=
  ∃ subject gen e1, R e e1 ∧ canary_evidence sv pinned x subject
    ∧ envelope_answer sv subject = Ok tt ∧ gate c sv key x (disk_of e1) = Ok tt
    ∧ (promote c sv x gen e1).1 = e'.

Definition guarded (sv : SupervisedWorld) (key : SigningKey) (pinned : option PinnedWorkload)
    (x : Winner) (m : step Supervision) : Prop :=
  ∀ e, active_generation (host e) = None →
  (still e (m e).1 ∧ ∀ sup, (m e).2 = Value sup → sup_promotion sup = None)
  ∨ promotes_cleared sv key pinned x still e (m e).1.

Lemma guarded_keeps sv key pinned x m :
  keeps (orphan_still active) m (λ sup, sup_promotion sup = None) → guarded sv key pinned x m.
Proof. intros Hm e Hp. destruct (Hm e) as [Hs Hv]. left. split; [by apply Hs|done]. Qed.

Lemma guarded_bind {A} sv key pinned x (m : step A) f P :
  keeps (orphan_still active) m P → (∀ a, P a → guarded sv key pinned x (f a)) →
  guarded sv key pinned x (m ≫= f).
Proof.
  intros Hm Hf e Hp. destruct (Hm e) as [Hs Hv]. specialize (Hs Hp). unfold mbind, step_bind.
  destruct (m e) as [e1 [a|why|]]; cbn [fst snd] in *; [|by left..].
  destruct (Hf a (Hv a eq_refl) e1) as [[Hs' Hn]|Hpr].
  { by rewrite (still_parent _ _ _ Hs). }
  - left. split; [by transitivity e1|done].
  - right. destruct Hpr as (subject & gen & e2 & He2 & Hr). exists subject, gen, e2.
    split; [by transitivity e1|done].
Qed.

Lemma value_bind {A B} (m : step A) (f : A → step B) e e1 a :
  m e = (e1, Value a) → (m ≫= f) e = f a e1.
Proof. unfold mbind, step_bind. by intros ->. Qed.
Lemma error_bind {A B} (m : step A) (f : A → step B) e e1 why :
  m e = (e1, Error why) → (m ≫= f) e = (e1, Error why).
Proof. unfold mbind, step_bind. by intros ->. Qed.
Lemma panic_bind {A B} (m : step A) (f : A → step B) e e1 :
  m e = (e1, Panic) → (m ≫= f) e = (e1, Panic).
Proof. unfold mbind, step_bind. by intros ->. Qed.
Lemma gets_bind {A B} (g : Engine → A) (f : A → step B) e : (gets g ≫= f) e = f (g e) e.
Proof. done. Qed.

Lemma guarded_promotion sv key pinned x s gen subject :
  canary_evidence sv pinned x subject → envelope_answer sv subject = Ok tt →
  guarded sv key pinned x
    (d ← gets disk_of;
     match gate c sv key x d with
     | Err e => refuse c sv (id (win_proposal x)) ("Promotion gate refused: " +:+ render e)
                  (set_promotion_gate {| g_passed := false; g_detail := render e |} s)
     | Ok _ =>
       _ ← record_decision sv (id (win_proposal x))
             (set_promotion_gate {| g_passed := true; g_detail := "version 2 judge receipt accepted" |} s);
       done ← promote c sv x gen;
       mret {| sup_success := true;
               sup_summary := set_promotion_gate
                 {| g_passed := true; g_detail := "version 2 judge receipt accepted" |} s;
               sup_promotion := Some done |}
     end).
Proof.
  intros Hev Henv e Hp. rewrite !gets_bind.
  destruct (gate c sv key x (disk_of e)) as [[]|why] eqn:Hg.
  2: { exact (guarded_keeps sv key pinned x _ (refuse_still _ _ _ _) e Hp). }
  right. set (s' := set_promotion_gate _ s).
  destruct (record_decision_total sv (id (win_proposal x)) s' e) as [st Hst].
  destruct (record_decision_still sv (id (win_proposal x)) s' e) as [Hs _].
  exists subject, gen, (set_store st e). unfold mbind, step_bind. rewrite Hst in *. cbn [fst snd] in *.
  split_and!; [done..|]. by destruct (promote c sv x gen (set_store st e)) as [e2 [a|why|]].
Qed.

Lemma supervise_guarded sv key pinned x e : fresh_id (win_proposal x) →
  let o := supervise c sv key pinned x e in
  (quiet active e o.1 ∧ ∀ sup, o.2 = Value sup → sup_promotion sup = None)
  ∨ promotes_cleared sv key pinned x (quiet active) e o.1.
Proof.
  intros [u Hu]. cbv zeta. unfold supervise. cbv zeta.
  set (e0 := set_host (new_daemon (fs (host e)) (log_disk (host e))) e).
  assert (quiet active e e0) as He0 by by split.
  match goal with |- context [(?m ≫= ?f) e] => change ((m ≫= f) e) with (f tt e0) end.
  match goal with |- context [?f tt e0] => set (rest := f tt) end.
  assert (guarded sv key pinned x rest) as Hg.
  { unfold rest. eapply (guarded_bind _ _ _ _ _ _ (λ _, True)).
    { intros e1. split; [|done]. intros _. unfold at_host, stage_canary.
      pose proof (stage_generation_links
        (supervisor (supervisor_config c (worker_secret sv))) (id (win_proposal x)) (win_sandbox x)
        (receipt_digest (win_receipt x)) (staged_now sv) active (fs (host e1))) as Hl.
      destruct (stage_generation _ _ _ _ _ _) as [f [gen|why]]; (split; [|done..]);
        cbn; apply Hl; rewrite Hu; apply generation_apart. }
    intros gen _. eapply guarded_bind; [apply keeps_orphan, admit_canary_still|].
    intros [s [[subject gen']|why]]; cbn [snd]; intros Hev; [|apply guarded_keeps, refuse_still].
    specialize (Hev subject gen' eq_refl).
    destruct (envelope_answer sv subject) as [[]|why] eqn:Henv; [|apply guarded_keeps, refuse_still].
    eapply guarded_promotion; [exact Hev|done]. }
  destruct (Hg e0 eq_refl) as [[Hs Hn]|(subject & gen & e1 & He1 & Hr)].
  - left. split; [|done]. transitivity e0; [done|]. by apply still_quiet.
  - right. exists subject, gen, e1. split; [|done]. transitivity e0; [done|]. by apply still_quiet.
Qed.

(** ** The cycle *)

Lemma gather_fresh w top h scarcity d : Forall fresh_id (gather c w top h scarcity d).1.
Proof.
  unfold gather. set (diag := diagnostic_context c w top h scarcity d).
  assert (Forall fresh_id (option_list
    (scan_and_propose_unslop (scan_stamp w).1 (scan_stamp w).2 (target_repo c) d))) as Hscan.
  { destruct (scan_and_propose_unslop _ _ _ _) as [p|] eqn:Hp; [|constructor].
    apply Forall_singleton. exists (scan_stamp w).1. by eapply scanned_id. }
  destruct (seat_available w); [|exact Hscan].
  destruct (propose_from_diagnosis _ _ _ _) as [p|e] eqn:Hp; [|exact Hscan].
  constructor; [|exact Hscan]. exists (model_stamp w).1. by eapply diagnosed_id.
Qed.

(** Everything between the ledger's opening and the candidates. *)
Record underway (w : CycleWorld) (e : Engine) (key : SigningKey) (measured : bool)
    (p : ImprovementProposal) (x : Winner) : Prop := {
  uw_key : read_signing_key c = Ok key;
  uw_holdouts : exists_path (fs (host e)) (holdouts_path c) = true;
  uw_diagnosis : ∃ top, find_bottleneck c w (complete_log e) = Value (top, measured)
    ∧ p ∈ (gather c w top (cycle_hypothesis c w <$> top) (scarcity_reading c w)
             (files (fs (host e)))).1;
  uw_cleared : cleared (candidate_world w) (cycle_id_of w) key
    (observe_codebase (target_repo c) (observed w) (fs (host e))) measured p x
}.

(** A cycle that promotes: the candidate came all the way. *)
Definition promoted (w : CycleWorld) (e e' : Engine) : Prop :=
  ∃ key measured p x pinned e2, underway w e key measured p x
    ∧ promotes_cleared (supervised w) key pinned x (quiet active) e e2
    ∧ settled e2 e'.

Definition cycle_cases (w : CycleWorld) (e : Engine) (o : Engine * outcome CycleResult) : Prop :=
  (quiet active e o.1 ∧ ∀ r, o.2 = Value r → res_generation r = None) ∨ promoted w e o.1.

Lemma checkpoint_settled now key :
  keeps settled (try (at_store (checkpoint strings_of_json now (Some key)))) (λ _, True).
Proof.
  eapply keeps_mono; [apply keeps_try, keeps_at_store|done].
  intros e. split; try done. apply checkpoint_promotions.
Qed.

(** The end of a cycle after its supervised part. *)
Lemma cycle_end w t scarcity now key (m : step (option (Winner * Supervision))) e :
  let rest := done ← m; _ ← try (at_store (checkpoint strings_of_json now (Some key)));
              mret (cycle_result w t scarcity done) in
  settled (m e).1 (rest e).1
  ∧ ∀ r, (rest e).2 = Value r → ∃ done, (m e).2 = Value done ∧ r = cycle_result w t scarcity done.
Proof.
  cbv zeta. unfold mbind at 1 3, step_bind at 1 3.
  destruct (m e) as [e1 [done_|why|]]; cbn [fst snd]; [|by split..].
  unfold mbind, step_bind. pose proof (checkpoint_settled now key e1) as [Hs _].
  destruct (try _ e1) as [e2 [r|why|]]; cbn [fst snd] in *; (split; [done|done || idtac]).
  intros ? [= <-]. eauto.
Qed.

(** The supervised block of a cycle, with its time. *)
Lemma block_cases w key pinned x e : fresh_id (win_proposal x) →
  let o := (sup ← supervise c (supervised w) key pinned x;
            _ ← time_canary (canary_us w) (sup_success sup); mret (Some (x, sup))) e in
  (quiet active e o.1 ∧ ∀ d, o.2 = Value d → ∃ sup, d = Some (x, sup) ∧ sup_promotion sup = None)
  ∨ ∃ e2, promotes_cleared (supervised w) key pinned x (quiet active) e e2 ∧ settled e2 o.1.
Proof.
  intros Hx. pose proof (supervise_guarded (supervised w) key pinned x e Hx) as Hs.
  cbv zeta in *. unfold mbind, step_bind.
  destruct (supervise c (supervised w) key pinned x e) as [e1 [sup|why|]]; cbn [fst snd] in *.
  - destruct Hs as [[Hq Hn]|Hp].
    + left. split; [transitivity e1; [done|by split]|]. intros ? [= <-]. exists sup.
      split; [done|]. by apply Hn.
    + right. exists e1. split; [done|by split].
  - destruct Hs as [[Hq Hn]|Hp]; [left; by split|right; by exists e1].
  - destruct Hs as [[Hq Hn]|Hp]; [left; by split|right; by exists e1].
Qed.

(** The candidates and the supervised part of a cycle that has a key and a diagnosis. *)
Definition cycle_tail (w : CycleWorld) (key : SigningKey) (t : TelemetrySnapshot) (measured : bool)
    (scarcity : ScarcityDiagnostic) (ps : list ImprovementProposal) : step CycleResult :=
  '(pinned, won) ← first_admitted judge blob_root c (candidate_world w) 0 (cycle_id_of w) key t
                     measured None ps;
  done ← match won with
         | Some x =>
           sup ← supervise c (supervised w) key pinned x;
           _ ← time_canary (canary_us w) (sup_success sup);
           mret (Some (x, sup))
         | None => mret None
         end;
  _ ← try (at_store (checkpoint strings_of_json (checkpoint_now w) (Some key)));
  mret (cycle_result w t scarcity done).

Lemma tail_cases w key t measured scarcity ps e : Forall fresh_id ps →
  let o := cycle_tail w key t measured scarcity ps e in
  (quiet active e o.1 ∧ ∀ r, o.2 = Value r → res_generation r = None)
  ∨ ∃ p x pinned e1 e2, p ∈ ps
      ∧ cleared (candidate_world w) (cycle_id_of w) key t measured p x
      ∧ quiet active e e1
      ∧ promotes_cleared (supervised w) key pinned x (quiet active) e1 e2
      ∧ settled e2 o.1.
Proof.
  intros Hps. cbv zeta. unfold cycle_tail.
  destruct (first_admitted_still (candidate_world w) (cycle_id_of w) key t measured ps Hps 0 None e)
    as [Hs Hv].
  destruct (first_admitted _ _ _ _ _ _ _ _ _ _ _ e) as [e1 o] eqn:Hfa.
  cbn [fst snd] in Hs, Hv. apply still_quiet in Hs. destruct o as [[pinned won]|why|].
  2: { rewrite (error_bind _ _ _ _ _ Hfa). by left. }
  2: { rewrite (panic_bind _ _ _ _ Hfa). by left. }
  rewrite (value_bind _ _ _ _ _ Hfa). specialize (Hv _ eq_refl). cbn [snd] in Hv.
  set (m := match won with Some x => _ | None => _ end).
  destruct (cycle_end w t scarcity (checkpoint_now w) key m e1) as [Hend Hret].
  pose proof (settled_quiet active _ _ Hend) as Hend'.
  destruct won as [x|].
  - destruct (Hv x eq_refl) as (p & Hp & Hc).
    assert (fresh_id (win_proposal x)) as Hx.
    { rewrite Forall_forall in Hps. rewrite (cl_proposal _ _ _ _ _ _ _ Hc). exact (Hps p Hp). }
    destruct (block_cases w key pinned x e1 Hx) as [[Hq Hn]|(e2 & Hpr & Hq)].
    + left. split; [transitivity e1; [done|]; transitivity (m e1).1; [exact Hq|exact Hend']|].
      intros r Hr. destruct (Hret r Hr) as (d & Hd & ->). destruct (Hn d Hd) as (sup & -> & Hsup).
      unfold cycle_result. cbn. by rewrite Hsup.
    + right. exists p, x, pinned, e1, e2. split_and!; [done..|]. transitivity (m e1).1; [exact Hq|exact Hend].
  - left. split; [transitivity e1; [done|]; exact Hend'|].
    intros r Hr. destruct (Hret r Hr) as (d & Hd & ->). by injection Hd as <-.
Qed.

(** The beginning: the ledger, the holdouts, the key, the observation and the diagnosis. *)
Lemma open_outcome w e : ∃ st,
  promotions st = promotions (store e)
  ∧ let o := failing "Fatal: Improvement Ledger must be active and accessible at {:?}: {}"
               (at_store (Ledger.open strings_of_json (open_now w))) e in
    o = (set_store st e, Value tt) ∨ ∃ why, o = (set_store st e, Error why).
Proof.
  pose proof (open_promotions strings_of_json (open_now w) (store e)) as Hp.
  unfold failing, at_store. destruct (Ledger.open _ _ _) as [st [[]|why]]; exists st; eauto.
Qed.

Lemma inner_cases w e : cycle_cases w e (run_cycle_inner judge blob_root c w e).
Proof.
  unfold run_cycle_inner, cycle_cases. destruct (open_outcome w e) as (st & Hst & Ho).
  assert (∀ k, quiet active e (set_clock k (set_store st e))) as Hq by by split.
  destruct Ho as [Ho|(why & Ho)].
  2: { rewrite (error_bind _ _ _ _ _ Ho). left. by split. }
  rewrite (value_bind _ _ _ _ _ Ho), gets_bind. change (fs (host (set_store st e))) with (fs (host e)).
  destruct (exists_path (fs (host e)) (holdouts_path c)) eqn:Hh; cbn [negb]; [|left; by split].
  destruct (read_signing_key c) as [key|why] eqn:Hkey; [|left; by split].
  rewrite (value_bind (lift (Ok key)) _ _ (set_store st e) key eq_refl). cbv zeta.
  set (e1 := set_clock (record Observe (observe_us w) StageOk (clock (set_store st e))) (set_store st e)).
  rewrite (value_bind (timed Observe _ _) _ (set_store st e) e1 tt eq_refl), gets_bind.
  change (complete_log e1) with (complete_log e).
  destruct (find_bottleneck c w (complete_log e)) as [[top measured]|why|] eqn:Hf.
  2: { rewrite (error_bind _ _ e1 e1 why eq_refl). left. split; [apply Hq|done]. }
  2: { rewrite (panic_bind _ _ e1 e1 eq_refl). left. split; [apply Hq|done]. }
  rewrite (value_bind _ _ e1 e1 (top, measured) eq_refl).
  destruct (gather c w top (cycle_hypothesis c w <$> top) (scarcity_reading c w) (files (fs (host e))))
    as [ps proposed] eqn:Hg.
  pose proof (gather_fresh w top (cycle_hypothesis c w <$> top) (scarcity_reading c w)
    (files (fs (host e)))) as Hfresh. rewrite Hg in Hfresh. cbn [fst] in Hfresh.
  cbv beta iota zeta.
  set (e2 := set_clock (record Measure.Propose (propose_us w) proposed (clock e1)) e1).
  rewrite (value_bind (timed Measure.Propose _ _) _ e1 e2 tt eq_refl).
  set (t := observe_codebase (target_repo c) (observed w) (fs (host e))).
  change ((quiet active e (cycle_tail w key t measured (scarcity_reading c w) ps e2).1
    ∧ ∀ r, (cycle_tail w key t measured (scarcity_reading c w) ps e2).2 = Value r →
           res_generation r = None)
    ∨ promoted w e (cycle_tail w key t measured (scarcity_reading c w) ps e2).1).
  assert (quiet active e e2) as He2 by apply Hq.
  destruct (tail_cases w key t measured (scarcity_reading c w) ps e2 Hfresh) as [[Hqt Hn]|(p & x & pinned & e3 & e4 & Hp & Hc & He3 & Hpr & Hqt)].
  - left. split; [by transitivity e2|exact Hn].
  - right. exists key, measured, p, x, pinned, e4. split_and!; [|..|done].
    + split; [done|done| |done]. exists top. by rewrite Hg.
    + destruct Hpr as (subject & gen & e5 & He5 & Hr). exists subject, gen, e5. split; [|done].
      transitivity e2; [done|]. by transitivity e3.
Qed.

(** ** The gate and the promotion *)

(** What a passed gate establishes: the receipt is of version 2, admitted, signed by a judge other
    than the engine, for this path and this content, and the file to promote has this content. *)
Record judged_change (key : SigningKey) (x : Winner) : Prop := {
  jc_version : format_version (win_receipt x) = 2%N;
  jc_judge : ∃ judge_key, judge_key_of key_of_sec1 (judge_public_key_hex c) = Ok judge_key
               ∧ judge_key ≠ verifying_key key ∧ receipt_verifies judge_key (win_receipt x) = true;
  jc_binding : ∃ b, binding (win_receipt x) = Some b
                 ∧ subject_path b = target_file (win_proposal x)
                 ∧ subject_sha256 b = sha256_hex (proposed_patch (win_proposal x));
  jc_admitted : admitted (win_receipt x) = true
}.

Definition generation_dir (p : ImprovementProposal) : string :=
  path_join (path_join (engine_root c) "generations") (id p).

(** The generation holds the content of the change at its target. *)
Definition holds_change (d : disk) (p : ImprovementProposal) : Prop :=
  ∃ bytes, d !! lexical (path_join (generation_dir p) (target_file p)) = Some bytes
           ∧ sha256_hex bytes = sha256_hex (proposed_patch p).

Lemma unreadable_differs a b : sha256_hex a ≠ "unreadable: " +:+ b.
Proof.
  intros Heq. pose proof (hex_encode_hex (sha256 a)) as Hh. unfold sha256_hex in Heq.
  by rewrite Heq in Hh.
Qed.

Lemma file_digest_matches o t :
  match sha256_file o with Ok h => h | Err e => "unreadable: " +:+ render e end = sha256_hex t →
  ∃ bytes, o = Some bytes ∧ sha256_hex bytes = sha256_hex t.
Proof.
  destruct o as [bytes|]; [intros Hb; exists bytes; by split|].
  intros Hb. symmetry in Hb. by apply unreadable_differs in Hb.
Qed.

Lemma gate_ok sv key x d : gate c sv key x d = Ok tt →
  judged_change key x ∧ holds_change d (win_proposal x).
Proof.
  unfold gate, check_v2_promotion. case_bool_decide as Hc; cbn [negb]; [|done]. intros Hg.
  apply Prelude.bind_ok in Hg as (jk & Hjk & Hg). case_bool_decide as Hown; [done|].
  apply Prelude.bind_ok in Hg as (file & _ & Hg). apply Prelude.bind_ok in Hg as ([pol sha] & _ & Hg).
  apply Prelude.bind_ok in Hg as ([] & Hv & Hg). apply Prelude.bind_ok in Hg as (b & Hb & Hg).
  apply ok_or_ok in Hb. apply check_binding_ok in Hg as (_ & Hpath & _).
  apply verify_for_promotion_ok in Hv as (Hf & Hr & b' & Hb' & Hs & _ & _ & Ha).
  rewrite Hb in Hb'. injection Hb' as <-. split.
  - split; [done|exists jk; by split_and!|exists b; by split_and!|done].
  - apply (file_digest_matches (d !! lexical (path_join (generation_dir (win_proposal x))
      (target_file (win_proposal x))))). symmetry. exact Hc.
Qed.



(** What the recording of the samples leaves. *)
Lemma recording_leaves w completed e :
  let e' := record_stage_samples c w completed e in
  host e' = host e ∧ store e' = store e ∧ repo e' = repo e.
Proof. unfold record_stage_samples. by destruct (bool_decide _), completed. Qed.

Lemma cycle_outcome w e :
  let o := run_cycle_inner judge blob_root c w (set_clock new_clock e) in
  let o' := run_cycle judge blob_root c w e in
  o'.2 = o.2 ∧ host o'.1 = host o.1 ∧ store o'.1 = store o.1 ∧ repo o'.1 = repo o.1.
Proof.
  cbv zeta. unfold run_cycle.
  destruct (run_cycle_inner _ _ _ _ _) as [e1 [r|why|]]; cbn [fst snd];
    [|split; [done|apply recording_leaves]|done]. split; [done|apply recording_leaves].
Qed.


(** ** The sample logs *)

Lemma promote_logs sv x gen e :
  complete_log (promote c sv x gen e).1 = complete_log e
  ∧ partial_log (promote c sv x gen e).1 = partial_log e.
Proof.
  unfold promote, mbind, step_bind, failing, at_fs, at_store, at_repo, timed, modify.
  destruct (atomic_symlink_swap _ _ _ _ _) as [f [[]|why]]; cbn [of_result]; [|done].
  destruct (append_promotion _ _ _ _ _) as [st [blk|why]]; cbn [of_result]; [|done].
  by destruct (ratify_proposal _ _ _ _ _ _ _) as [r [rat|why]].
Qed.

Lemma inner_logs w e :
  let e' := (run_cycle_inner judge blob_root c w e).1 in
  complete_log e' = complete_log e ∧ partial_log e' = partial_log e.
Proof.
  cbv zeta. destruct (inner_cases w e) as [[[] _]|(key & m & p & x & pinned & e2 & _ & Hpc & Hset)]; [done|].
  destruct Hpc as (subject & gen & e3 & Hq & _ & _ & _ & <-).
  destruct (promote_logs (supervised w) x gen e3), Hset, Hq. cbn [fst] in *. split; congruence.
Qed.

(** only a cycle that returns reaches the log that is ranked: a cycle that ends in an error leaves
    the log of complete cycles as it was - its samples go to the log of partial cycles -, a panic
    leaves both, and a cycle that returns adds to the log of complete cycles at most the record of
    its own stages, after what is there. *)
Theorem only_completed_cycles_ranked w e :
  let o := run_cycle judge blob_root c w e in
  (∀ r, o.2 = Value r →
     partial_log o.1 = partial_log e
     ∧ (complete_log o.1 = complete_log e
        ∨ ∃ k, complete_log o.1 = (append (samples_fate w) (samples_of c w k) (complete_log e)).1))
  ∧ (∀ why, o.2 = Error why →
     complete_log o.1 = complete_log e
     ∧ (partial_log o.1 = partial_log e
        ∨ ∃ k, partial_log o.1 = (append (samples_fate w) (samples_of c w k) (partial_log e)).1))
  ∧ (o.2 = Panic → complete_log o.1 = complete_log e ∧ partial_log o.1 = partial_log e).
Proof.
  pose proof (inner_logs w (set_clock new_clock e)) as Hl. cbv zeta in *. unfold run_cycle.
  destruct (run_cycle_inner _ _ _ _ _) as [e1 [r|why|]]; cbn [fst] in Hl; destruct Hl as [Hc Hp];
    cbn [complete_log partial_log set_clock] in Hc, Hp; cbn [fst snd];
    (split_and!; [intros ? Ho|intros ? Ho|intros Ho]; try discriminate Ho); [| |done];
    unfold record_stage_samples; destruct (bool_decide _); cbn; rewrite ?Hc, ?Hp; eauto.
Qed.
End Cycle.

(** ** The judge in the engine's process *)

Section InProcess.
Context `{Sha256, JsonStr, P256, !EqDecision VerifyingKey, WorkerCodec, RecordCodec, Unicode, !Formats}.
Context (suite_of_json : string → option HoldoutSuite) (blob_root : string) (c : EngineConfig).

Lemma v1_format j w cycle candidate parent r :
  evaluate_cycle_v1 suite_of_json j w cycle candidate parent = Some (Ok r) → format_version r = 1%N.
Proof.
  unfold evaluate_cycle_v1. destruct (signing_key j) as [key|]; [|done].
  destruct (load_strict _ _) as [[suites ?]|]; [|done]. destruct (binaries w); [|done].
  destruct (run_holdouts _ _) as [[total passed] bad]. intros (r0 & Hl & Hr)%bind_Some.
  destruct r0 as [r0|]; [|done]. apply judge_layers_inv in Hl as (b & perf & _ & _ & ->).
  injection Hr as Hr. cbn in Hr. destruct (saved w); [|done]. by injection Hr as <-.
Qed.

(** C8: the engine that judges in its own process never promotes: its judge issues receipts of
    version 1, and however the holdouts, the benchmark, the canary and the envelope end, a cycle
    leaves the active link, the repository and the promotion blocks as they were and reports no
    generation. *)
Theorem in_process_judge_never_promotes w e :
  Layout c →
  let o := run_cycle (evaluate_cycle_v1 suite_of_json) blob_root c w e in
  untouched (active c) e o.1 ∧ ∀ r, o.2 = Value r → res_generation r = None.
Proof.
  intros Hlayout. cbv zeta.
  pose proof (inner_cases (evaluate_cycle_v1 suite_of_json) blob_root c Hlayout w (set_clock new_clock e)) as Hi.
  pose proof (cycle_outcome (evaluate_cycle_v1 suite_of_json) blob_root c w e) as (Hv & Hh & Hs & Hr).
  rewrite Hv. unfold untouched. rewrite Hh, Hs, Hr.
  destruct Hi as [[Hq Hn]|(key & measured & p & x & pinned & e2 & Huw & Hpc & _)].
  { split; [by destruct Hq|done]. }
  exfalso. destruct Hpc as (subject & gen & e3 & _ & _ & _ & Hg & _).
  destruct (gate_ok c _ _ _ _ Hg) as [Hj _]. pose proof (jc_version _ _ _ Hj) as H2v.
  destruct Huw as [_ _ _ Hcl]. destruct Hcl as [_ _ _ (i & _ & _ & Hjudge & _)].
  apply v1_format in Hjudge. congruence.
Qed.
End InProcess.
