(* ===== verification/EngineLedger.v ===== *)
(** The ledger of the engine: a cycle only appends, and no more than a fixed number of blocks. *)
From S2P Require Import Prelude RustStd RustPath RustNum RustFloat Digest Json Identity Workload ObservationLog Supervisor Ipc Daemon Admission Executor LedgerRecord Ledger LedgerProps PatchGate Receipt Graph Dual Contract Measure Meta Adapter Propose Verifier Telemetry Ratify Soak SoakProps Artifacts Judge Evaluator JudgeCycle Engine EngineProps.
#[local] Open Scope string_scope.
#[local] Open Scope list_scope.

Section Ledger.
Context `{Sha256, !Sha256Len, JsonStr, P256, !EqDecision VerifyingKey, WorkerCodec, RecordCodec, Unicode, !Formats}.
Context `{!DigestsRoundTrip strings_of_json}.
Context (judge : BlindJudge → Surroundings → string → string → string → option (result EvaluationReceipt)).
Context (blob_root : string) (c : EngineConfig).

Abbreviation ledger_inv := (ledger_inv blob_root).

(** Whatever the step returns, the ledger keeps its blocks and gains at most [n]. *)
Definition adds {A} (n : nat) (m : Engine.step A) : Prop :=
  ∀ bs e, ledger_inv bs (Engine.store e) → (N.of_nat (length bs + n) <= i64_max)%N →
  ∃ l, ledger_inv (bs ++ l) (Engine.store (m e).1) ∧ (length l <= n)%nat.

(** A step that leaves the ledger alone. *)
Lemma adds_none {A} n (m : Engine.step A) :
  (∀ e, Engine.store (m e).1 = Engine.store e) → adds n m.
Proof. intros Hm bs e Hi _. exists []. rewrite app_nil_r, Hm. by split; [|simpl; lia]. Qed.

Lemma adds_ret {A} n (a : A) : adds n (mret a).
Proof. by apply adds_none. Qed.
Lemma adds_gets {A} n (f : Engine → A) : adds n (gets f).
Proof. by apply adds_none. Qed.
Lemma adds_lift {A} n (r : result A) : adds n (lift r).
Proof. by apply adds_none. Qed.
Lemma adds_panic {A} n : adds n (panic : Engine.step A).
Proof. by apply adds_none. Qed.
Lemma adds_timed n s us o : adds n (timed s us o).
Proof. by apply adds_none. Qed.
Lemma adds_modify_disk n d : adds n (modify (λ e, with_disk (d e) e)).
Proof. by apply adds_none. Qed.
Lemma adds_fs {A} n (m : M Fs A) : adds n (at_fs m).
Proof. apply adds_none. intros e. unfold at_fs. by destruct (m _). Qed.
Lemma adds_host {A} n (m : M SupervisorDaemon A) : adds n (at_host m).
Proof. apply adds_none. intros e. unfold at_host. by destruct (m _). Qed.
Lemma adds_repo {A} n (m : M Repo A) : adds n (at_repo m).
Proof. apply adds_none. intros e. unfold at_repo. by destruct (m _). Qed.

Lemma adds_mono {A} n k (m : Engine.step A) : adds n m → (n <= k)%nat → adds k m.
Proof.
  intros Hm Hk bs e Hi Hb. destruct (Hm bs e Hi) as (l & Hl & Hn); [lia|]. exists l. split; [done|lia].
Qed.

Lemma adds_bind {A B} n k (m : Engine.step A) (f : A → Engine.step B) :
  adds n m → (∀ a, adds k (f a)) → adds (n + k) (m ≫= f).
Proof.
  intros Hm Hf bs e Hi Hb. destruct (Hm bs e Hi) as (l & Hl & Hn); [lia|].
  unfold mbind, step_bind. destruct (m e) as [e1 [a|why|]]; cbn [fst] in *;
    [|exists l; split; [done|lia]..].
  destruct (Hf a (bs ++ l) e1 Hl) as (l' & Hl' & Hn'); [rewrite length_app; lia|].
  exists (l ++ l'). rewrite app_assoc. split; [done|]. rewrite length_app. lia.
Qed.

(** After a step that leaves the ledger alone. *)
Lemma adds_after {A B} n (m : Engine.step A) (f : A → Engine.step B) :
  adds 0 m → (∀ a, adds n (f a)) → adds n (m ≫= f).
Proof. apply (adds_bind 0 n). Qed.

Lemma adds_try {A} n (m : Engine.step A) : adds n m → adds n (try m).
Proof.
  intros Hm bs e Hi Hb. destruct (Hm bs e Hi Hb) as (l & Hl & Hn). exists l.
  unfold try. by destruct (m e) as [e1 [a|why|]].
Qed.
Lemma adds_failing {A} n t (m : Engine.step A) : adds n m → adds n (failing t m).
Proof.
  intros Hm bs e Hi Hb. destruct (Hm bs e Hi Hb) as (l & Hl & Hn). exists l.
  unfold failing. by destruct (m e) as [e1 [a|why|]].
Qed.

(** An operation of the ledger. *)
Lemma adds_store {A} n (m : M Store A) Q : appends blob_root n m Q → adds n (at_store m).
Proof.
  intros Hm bs e Hi Hb. destruct (Hm bs (Engine.store e) Hi Hb) as (l & Hl & Hn & _). exists l.
  unfold at_store. by destruct (m (Engine.store e)).
Qed.

Lemma adds_block now t payload :
  adds 1 (at_store (append_block strings_of_json now t payload [])).
Proof. eapply adds_store, appends_block; exact _. Qed.

Lemma note_adds w n reason : adds 1 (note w n reason).
Proof. apply (adds_bind 1 0); [apply adds_try, adds_block|]. intros _. apply adds_ret. Qed.

Lemma noted_adds {A} w n reason (a : A) : adds 1 (_ ← note w n reason; mret a).
Proof. apply (adds_bind 1 0); [apply note_adds|]. intros _. apply adds_ret. Qed.

(** The same with the number of blocks for each value returned. *)
Definition adds_to {A} (n : nat) (q : A → nat) (m : Engine.step A) : Prop :=
  ∀ bs e, ledger_inv bs (Engine.store e) → (N.of_nat (length bs + n) <= i64_max)%N →
  ∃ l, ledger_inv (bs ++ l) (Engine.store (m e).1) ∧ (length l <= n)%nat
       ∧ ∀ a, (m e).2 = Value a → (length l <= q a)%nat.

Lemma adds_to_of {A} n (q : A → nat) m : adds n m → (∀ a, (n <= q a)%nat) → adds_to n q m.
Proof.
  intros Hm Hq bs e Hi Hb. destruct (Hm bs e Hi Hb) as (l & Hl & Hn). exists l. split_and!; [done..|].
  intros a _. specialize (Hq a). lia.
Qed.

Lemma adds_to_ret {A} n (q : A → nat) a : adds_to n q (mret a).
Proof.
  intros bs e Hi _. exists []. rewrite app_nil_r. split_and!; [done|simpl; lia|intros; simpl; lia].
Qed.

Lemma adds_to_adds {A} n (q : A → nat) m : adds_to n q m → adds n m.
Proof. intros Hm bs e Hi Hb. destruct (Hm bs e Hi Hb) as (l & Hl & Hn & _). by exists l. Qed.

(** After a step that adds nothing when it returns. *)
Lemma adds_to_free {A B} k n (m : Engine.step A) (f : A → Engine.step B) (r : B → nat) :
  adds_to k (λ _, 0%nat) m → (k <= n)%nat → (∀ a, adds_to n r (f a)) → adds_to n r (m ≫= f).
Proof.
  intros Hm Hk Hf bs e Hi Hb. destruct (Hm bs e Hi) as (l & Hl & Hn & Hq); [lia|].
  unfold mbind, step_bind. destruct (m e) as [e1 [a|why|]]; cbn [fst snd] in *;
    [|exists l; split_and!; [done|lia|done]..].
  specialize (Hq a eq_refl). destruct l; [|simpl in Hq; lia]. rewrite app_nil_r in Hl.
  by apply Hf.
Qed.

(** Only the total matters. *)
Lemma adds_bind_to {A B} k n (q : A → nat) (m : Engine.step A) (f : A → Engine.step B) :
  adds_to k q m → (k <= n)%nat → (∀ a, ∃ j, adds j (f a) ∧ (q a + j <= n)%nat) →
  adds n (m ≫= f).
Proof.
  intros Hm Hk Hf bs e Hi Hb. destruct (Hm bs e Hi) as (l & Hl & Hn & Hq); [lia|].
  unfold mbind, step_bind. destruct (m e) as [e1 [a|why|]]; cbn [fst snd] in *;
    [|exists l; split; [done|lia]..].
  specialize (Hq a eq_refl). destruct (Hf a) as (j & Hfa & Hj).
  destruct (Hfa (bs ++ l) e1 Hl) as (l' & Hl' & Hn'); [rewrite length_app; lia|].
  exists (l ++ l'). rewrite app_assoc, length_app. split; [done|lia].
Qed.

(** ** One candidate: at most two blocks *)

Lemma noted_adds_to {A} w n reason (a : A) (q : A → nat) :
  (1 <= q a)%nat → adds_to 1 q (_ ← note w n reason; mret a).
Proof.
  intros Hq bs e Hi Hb. destruct (noted_adds w n reason a bs e Hi Hb) as (l & Hl & Hn).
  exists l. split_and!; [done..|]. unfold mbind, step_bind.
  destruct (note w n reason e) as [e1 [?|why|]]; cbn; intros a' Ha; [|done..].
  injection Ha as <-. lia.
Qed.

Lemma adds_to_none {A} n (m : Engine.step A) :
  (∀ e, Engine.store (m e).1 = Engine.store e) → adds_to n (λ _, 0%nat) m.
Proof.
  intros Hm bs e Hi _. exists []. rewrite app_nil_r, Hm. split_and!; [done|simpl; lia|done].
Qed.

Definition refused_cost {A} (o : option A) : nat := match o with Some _ => 0 | None => 1 end.

Lemma pin_workload_adds w pinned : adds_to 1 (λ _, 0%nat) (pin_workload c w pinned).
Proof.
  unfold pin_workload. destruct pinned as [workload|]; [apply adds_to_ret|].
  eapply (adds_to_free 0); [by apply adds_to_none|lia|]. intros d.
  destruct (load_pinned_workload c d) as [workload|why]; [apply adds_to_ret|].
  intros bs e Hi Hb. destruct (note_adds w 0 ("Canary workload refused: " +:+ render why) bs e Hi Hb)
    as (l & Hl & Hn). exists l. unfold mbind, step_bind.
  by destruct (note _ _ _ e) as [e1 [?|?|]].
Qed.

Lemma eligibility_adds w sandbox pinned s :
  adds_to 1 (λ v, refused_cost v.2) (eligibility c w sandbox pinned s).
Proof.
  unfold eligibility. eapply (adds_to_free 0); [by apply adds_to_none|lia|]. intros d.
  destruct (load_from_tree _ _ _) as [adapter|e]; [|by apply noted_adds_to].
  eapply (adds_to_free 1); [apply pin_workload_adds|done|]. intros workload. cbv zeta.
  case_bool_decide; cbn [negb]; [|by apply noted_adds_to].
  eapply (adds_to_free 0); [|lia|].
  { apply adds_to_none. intros e. unfold clear_stale. by repeat case_match. }
  intros []; cbn [negb]; [|by apply noted_adds_to]. apply adds_to_ret.
Qed.

Lemma build_candidate_adds w p : adds_to 1 (λ ok : bool, if ok then 0 else 1)%nat (build_candidate w p).
Proof.
  unfold build_candidate. destruct (build w) as [[[success out] err]|e].
  - eapply (adds_to_free 0); [by apply adds_to_none|lia|]. intros _.
    eapply (adds_to_free 0); [by apply adds_to_none|lia|]. intros _.
    destruct success; [apply adds_to_ret|by apply noted_adds_to].
  - eapply (adds_to_free 0); [by apply adds_to_none|lia|]. intros _. by apply noted_adds_to.
Qed.

Lemma check_built_adds w s target :
  adds (1 - refused_cost target) (check_built w s target).
Proof.
  unfold check_built. apply adds_after; [apply adds_gets|]. intros d.
  destruct target as [[adapter built]|]; [|apply adds_ret]. cbn [refused_cost].
  case_bool_decide; [apply adds_ret|apply noted_adds].
Qed.

Lemma judge_candidate_adds w cycle key t sandbox p :
  adds 1 (judge_candidate judge blob_root c w cycle key t sandbox p).
Proof.
  unfold judge_candidate. apply adds_after; [apply adds_gets|]. intros f. cbv zeta.
  destruct (negb _ || negb _); [by apply adds_after; [apply adds_timed|intros _; apply noted_adds]|].
  destruct (judge _ _ _ _ _) as [[receipt|e]|];
    [|by apply adds_after; [apply adds_timed|intros _; apply noted_adds]|apply adds_panic].
  apply (adds_bind 1 0); [apply adds_failing; eapply adds_store, appends_evaluation; exact _|].
  intros blk. apply adds_after; [apply adds_timed|]. intros _. apply adds_ret.
Qed.

Lemma evaluate_staged_adds w cycle key t pinned sandbox p :
  adds 2 (evaluate_staged judge blob_root c w cycle key t pinned sandbox p).
Proof.
  unfold evaluate_staged. apply adds_after; [apply adds_gets|]. intros f. cbv zeta.
  eapply (adds_bind_to 1 2 (λ v, refused_cost v.2)); [|lia|].
  { destruct (exempt c f sandbox p); [apply adds_to_ret|apply eligibility_adds]. }
  intros [[pinned' s] target]. cbn [snd]. exists (2 - refused_cost target)%nat.
  split; [|destruct target; cbn; lia].
  eapply (adds_bind_to 1 _ (λ ok : bool, if ok then 0 else 1)%nat); [|destruct target; cbn; lia|].
  { destruct (heuristic_build f sandbox p || _); [apply build_candidate_adds|apply adds_to_ret]. }
  intros [|]; cbn [negb]; [|exists 0%nat; split; [apply adds_ret|destruct target; cbn; lia]].
  exists ((1 - refused_cost target) + 1)%nat. split; [|destruct target; cbn; lia].
  apply adds_bind; [apply check_built_adds|]. intros [s' target'].
  apply (adds_bind 1 0); [apply judge_candidate_adds|]. intros v. apply adds_ret.
Qed.

Lemma consider_adds w cycle key t measured pinned p :
  adds 2 (consider judge blob_root c w cycle key t measured pinned p).
Proof.
  unfold consider. destruct (screen c measured p) as [why|].
  { eapply adds_mono; [apply noted_adds|lia]. }
  apply adds_after; [apply adds_try, adds_fs|]. intros [[sandbox p']|e].
  - apply evaluate_staged_adds.
  - eapply adds_mono; [apply noted_adds|lia].
Qed.

Lemma first_admitted_adds world cycle key t measured ps : ∀ i pinned,
  adds (2 * length ps) (first_admitted judge blob_root c world i cycle key t measured pinned ps).
Proof.
  induction ps as [|p ps IH]; intros i pinned; cbn [first_admitted]; [apply adds_ret|].
  replace (2 * length (p :: ps))%nat with (2 + 2 * length ps)%nat by (simpl; lia).
  apply adds_bind; [apply consider_adds|]. intros [pinned' [x|]]; [apply adds_ret|apply IH].
Qed.

(** ** The supervised part: at most three *)

Lemma identify_adds sv x built gen : adds 0 (identify sv x built gen).
Proof.
  unfold identify. repeat first
    [ apply adds_ret | apply adds_lift
    | apply adds_after;
      [first [apply adds_gets | apply adds_lift | apply adds_fs | apply adds_modify_disk]|intros ?]
    | progress cbv zeta | case_match ].
Qed.

Lemma execute_adds sv workload identity exe args gen :
  adds 0 (execute c sv workload identity exe args gen).
Proof.
  apply adds_none. intros e. unfold execute. by destruct (Executor.run _ _ _ _ _ _ _ _ _ _).
Qed.

Lemma admit_canary_adds sv x pinned gen s : adds 1 (admit_canary c sv x pinned gen s).
Proof.
  unfold admit_canary. destruct (if applicable s then refusal s else None); [apply adds_ret|].
  destruct (applicable s); cbn [negb]; [|apply adds_ret].
  destruct (win_build x) as [[adapter built]|]; [|apply adds_ret].
  destruct pinned as [workload|]; [|apply adds_ret]. unfold run_admission.
  apply adds_after; [apply adds_try, identify_adds|]. intros [[identity exe]|e]; [|apply adds_ret].
  cbv zeta. apply adds_after; [apply adds_try, execute_adds|].
  intros [[[sealed summary] gen']|e]; [|apply adds_ret].
  apply (adds_bind 1 0); [apply adds_try, adds_failing, adds_block|]. intros [blk|e]; [|apply adds_ret].
  destruct (decide_quota _ _ _ _ _). apply adds_ret.
Qed.

Lemma record_decision_adds sv g s : adds 1 (record_decision sv g s).
Proof. apply (adds_bind 1 0); [apply adds_try, adds_block|]. intros _. apply adds_ret. Qed.

Lemma refuse_adds sv g reason s : adds 2 (refuse c sv g reason s).
Proof.
  unfold refuse, roll_back. apply (adds_bind 1 1).
  - apply adds_after; [apply adds_host|]. intros _.
    apply (adds_bind 1 0); [apply adds_try; eapply adds_store, appends_block; exact _|].
    intros _. apply adds_ret.
  - intros _. apply (adds_bind 1 0); [apply record_decision_adds|]. intros _. apply adds_ret.
Qed.

Lemma promote_adds sv x gen : adds 1 (promote c sv x gen).
Proof.
  unfold promote. cbv zeta. apply adds_after; [apply adds_fs|]. intros _.
  apply (adds_bind 1 0); [apply adds_failing; eapply adds_store, appends_block; exact _|]. intros blk.
  apply adds_after; [apply adds_repo|]. intros rat. apply adds_after; [apply adds_timed|]. intros _.
  apply adds_ret.
Qed.

Lemma supervise_adds sv key pinned x : adds 3 (supervise c sv key pinned x).
Proof.
  unfold supervise. cbv zeta. apply adds_after; [by apply adds_none|]. intros _.
  apply adds_after; [apply adds_host|]. intros gen. apply (adds_bind 1 2); [apply admit_canary_adds|].
  intros [s [[subject gen']|why]]; [|apply refuse_adds].
  destruct (envelope_answer sv subject); [|apply refuse_adds].
  apply adds_after; [apply adds_gets|]. intros d.
  destruct (gate c sv key x d); [|apply refuse_adds].
  apply (adds_bind 1 1); [apply record_decision_adds|]. intros _.
  apply (adds_bind 1 0); [apply promote_adds|]. intros done_. apply adds_ret.
Qed.

(** ** The cycle: at most seven *)

Lemma gather_length w top h scarcity d : (length (gather c w top h scarcity d).1 <= 2)%nat.
Proof.
  unfold gather. destruct (seat_available w); [destruct (propose_from_diagnosis _ _ _ _)|];
    destruct (scan_and_propose_unslop _ _ _ _); simpl; lia.
Qed.

Lemma inner_adds w : adds 7 (run_cycle_inner judge blob_root c w).
Proof.
  unfold run_cycle_inner. apply adds_after.
  { apply adds_failing. eapply adds_store, appends_open; exact _. }
  intros _. apply adds_after; [apply adds_gets|]. intros f.
  destruct (exists_path f (holdouts_path c)); cbn [negb]; [|apply adds_lift].
  apply adds_after; [apply adds_lift|]. intros key. cbv zeta.
  apply adds_after; [apply adds_timed|]. intros _. apply adds_after; [apply adds_gets|]. intros file.
  apply adds_after; [by apply adds_none|]. intros [top measured].
  pose proof (gather_length w top (cycle_hypothesis c w <$> top) (scarcity_reading c w) (files f)) as Hg.
  destruct (gather _ _ _ _ _ _) as [ps proposed]. cbn [fst] in Hg.
  apply adds_after; [apply adds_timed|]. intros _. apply (adds_bind 4 3).
  { eapply adds_mono; [apply first_admitted_adds|lia]. }
  intros [pinned won]. apply (adds_bind 3 0).
  - destruct won as [x|]; [|apply adds_ret]. apply (adds_bind 3 0); [apply supervise_adds|]. intros sup.
    apply adds_after; [by apply adds_none|]. intros _. apply adds_ret.
  - intros done_. apply adds_after; [apply adds_try; eapply adds_store, appends_checkpoint; exact _|].
    intros _. apply adds_ret.
Qed.

(** C3: a cycle of the engine only appends to the ledger: whatever the judge, the jails, the worker and
    the disk answer, and however it ends - a result, an error or a panic -, every earlier block stays
    in place, at most seven are added, and the ledger passes the audit. *)
Theorem cycle_only_appends n s w e now :
  reaches strings_of_json blob_root n s → (N.of_nat (S n + 7) <= i64_max)%N →
  Engine.store e = s →
  let s' := Engine.store (run_cycle judge blob_root c w e).1 in
  (∃ l, all_blocks strings_of_json s' = all_blocks strings_of_json s ++ l ∧ (length l <= 7)%nat)
  ∧ ∃ r, verify_chain_integrity strings_of_json blob_root now None s' = Ok r ∧ chain_valid r = true.
Proof.
  intros Hr Hb <-. cbv zeta. destruct (reaches_inv strings_of_json blob_root n _ Hr) as (bs & Hi & Hl); [lia|].
  destruct (inner_adds w bs (set_clock new_clock e) Hi) as (l & Hi' & Hn); [lia|].
  destruct (cycle_outcome judge blob_root c w e) as (_ & _ & Hs & _). rewrite <- Hs in Hi'. split.
  - exists l. by rewrite (inv_all_blocks _ _ _ _ Hi), (inv_all_blocks _ _ _ _ Hi').
  - eexists. split; [by apply (inv_audits _ _ (bs ++ l))|done].
Qed.
End Ledger.
