(* ===== verification/EngineExamples.v ===== *)
(** A cycle that promotes, evaluated: the punctuation scan finds a dash, the change is exempt from the
    canary by configuration, a judge of version 2 signs its receipt, and the link moves. *)
From S2P Require Import Prelude RustStd RustPath RustNum RustFloat Digest Json Identity Workload ObservationLog Supervisor Ipc Daemon DaemonProps Admission Executor LedgerRecord Ledger LedgerProps PatchGate Receipt Graph Dual Contract Measure Meta Adapter Propose Verifier VerifierProps Telemetry Ratify Artifacts Judge Evaluator JudgeCycle Engine EngineProps EngineLedger.
#[local] Open Scope string_scope.
#[local] Open Scope list_scope.

Module EngineExample.
Import Checksum PlainJson KeyedChecksum LedgerExample.
#[global] Instance codec : WorkerCodec := DaemonExample.codec.
#[global] Instance records : RecordCodec :=
  {| record_to_json r := Measure.cycle_id r; record_from_json _ := None |}.
#[global] Instance lower : Unicode := to_ascii_lowercase.

Definition policy : EvaluationPolicy :=
  {| policy_id := "p1"; pinned_holdouts := sha256_hex "holdouts";
     min_holdout_pass_ratio := f64_lit 9 1; require_admitted := true;
     allowed_targets := ["README.md"]; protected_paths := ["src/ledger/"];
     Receipt.non_inferiority_margin_pct := Some f64_one |}.
#[global] Instance formats : Formats :=
  {| strings_of_json := parse; receipt_json := receipt_digest;
     workload_of_json _ := None; adapter_of_toml _ := None; log_record_of_json _ := None;
     policy_of_json text := if bool_decide (text = "policy") then Some policy else None;
     signing_key_of_bytes s := Some s; key_of_sec1 s := Some s; show_f64 _ := "1" |}.

Definition rsi : RsiConfig :=
  {| cfg_model_url := "u"; cfg_model_id := "m"; cfg_rsi_root := ".rsi";
     cfg_holdouts_dir := Some "/holdouts"; cfg_canary_target := 5000; cfg_cortex_url := "c";
     cfg_cortex_space := "s"; cfg_ratify_roots := ["README.md"]; measure_min_samples := 3;
     measure_window_cycles := 20; measure_p95_min_samples := 20 |}.
Definition config : EngineConfig :=
  {| target_repo := "/repo"; measured := rsi; sandbox_root := "/sandbox";
     signing_key_hex := Some (hex_encode "key"); require_latency := false; operator_key_hex := None;
     non_inferiority_margin := None; dual_price_vector_dir := None;
     judge_public_key_hex := Some (hex_encode "judge"); judge_policy_file := Some "/etc/policy.json";
     target_improvement_pct := f64_of_N 5; canary_workload_path := None;
     canary_workload_sha256 := None; canary_exempt_kinds := [UnslopSanitization] |}.

Definition before_text : string := "build " +:+ em_dash +:+ " with care".
Definition after_text : string := sanitize before_text.

(** The separate judge: it admits, binds the change and signs with its own key. *)
Definition plain (cycle candidate parent : string) : EvaluationReceipt :=
  {| Receipt.cycle_id := cycle; candidate_id := candidate; parent_id := parent; evaluated_at := T;
     evaluator_version := "1"; passed_all_hard_invariants := true; passed_statistical_gates := true;
     admitted := true; layer_results := []; metrics_summary := None; receipt_digest := "";
     receipt_signature := None; format_version := 1; binding := None |}.
Definition bound : ReceiptBindingV2 :=
  {| subject_path := "README.md"; subject_sha256 := sha256_hex after_text;
     holdout_set_sha256 := sha256_hex "holdouts"; holdouts_total := 10; holdouts_passed := 10;
     policy_sha256 := sha256_hex "policy"; evaluator_binary_sha256 := sha256_hex "judge" |}.
Definition separate_judge (j : BlindJudge) (w : Surroundings) (cycle candidate parent : string)
    : option (result EvaluationReceipt) :=
  Some (bind_and_sign_v2 bound ("judge" : @SigningKey p256) (plain cycle candidate parent)).

Definition world_files : Fs :=
  {| files := {["/repo/README.md" := before_text; "/etc/policy.json" := "policy"]};
     dirs := {["/repo"; "/repo/.rsi"; "/holdouts"; "/sandbox"]};
     links := {["/repo/.rsi/active" := "/repo/.rsi/generations/prop-old"]} |}.
Definition start : Engine :=
  {| Engine.store := s3; host := new_daemon world_files ∅; Engine.clock := new_clock;
     repo := {| refs := {["refs/heads/main" := "c0"]}; patches := ∅ |};
     complete_log := None; partial_log := None |}.

Definition idle : Surroundings :=
  {| holdout_dir := None; parent_tree := []; candidate_tree := []; binaries := Ok tt;
     jail := λ _, JailErr ""; cargo_check := Correctness.NotStarted "";
     cargo_test := Correctness.NotStarted "";
     bench_runs := λ _ _, {| usage_before := fail "" []; jail_run := fail "" []; elapsed_us := f64_of_N 0;
                             usage_after := fail "" [] |};
     own_statm := None; subject_after := None; judge_exe := None; JudgeCycle.clock := T;
     engine_version := "1"; saved := Ok tt |}.
Definition candidate : CandidateWorld :=
  {| stamp := λ _, T; staging := all_done; stale_removed := true; build := Ok (true, "", ""); build_writes := ∅;
     build_us := 5; check_answer := None; test_answer := None; surroundings := idle;
     evaluation_fate := BlobWritten; evaluation_uuid := "e1"; evaluation_us := 7 |}.
Definition nothing : Oracle :=
  {| fate := λ _, ObservationLog.WriteOk; wall_ms := λ _, 0%N; Executor.bind_ok := false; spawned := None; vars := [];
     run_uuid := "r"; handshake_uuid := λ _, "h"; accepts := []; exited_at := None;
     proc_at := λ _, ∅; page_kb := 4; strays := λ _, [] |}.
Definition env : Env :=
  {| nonce_uuid := "n"; log_fate := ObservationLog.WriteOk; now_ms := 0; swap_fate := AllSucceed;
     sock_fate := AllSucceed; swap_uuid := "w"; sock_uuid := "k"; proc := ∅; page_size_kb := 4 |}.
Definition entry : ChangedEntry :=
  {| old_mode := "100644"; new_mode := "100644"; PatchGate.status := 77; entry_path := "README.md" |}.
Definition git : RatifyInput :=
  {| rat_now := T; rat_author := "a";
     staged_commit := λ _ _, Ok {| entries := [entry]; patch_text := "+text"; commit := "c1" |};
     default_branches := ["main"]; ref_format := Ok tt; update_ref := Ok tt;
     formatted := Ok "mail"; patch_dir_made := Ok tt; patch_written := Ok tt; lesson := None |}.
Definition supervision : SupervisedWorld :=
  {| sv_stamp := λ _, T; worker_secret := "k"; staged_now := T; exe_dir_made := true;
     exe_copied := true; mono_start := 0; oracle := nothing; envelope_answer := λ _, Ok tt;
     rollback_env := env; rolled_back_at := T; link_fate := AllSucceed; link_uuid := "l1";
     Engine.ratify := git; commit_us := 3 |}.
Definition world : CycleWorld :=
  {| cycle_uuid := "c1"; open_now := T;
     observed := {| rev_parse := None; git_status := None; home_dir := "/home";
                    cargo_check_ok := true; observed_at := T |};
     observe_us := 1; platform := {| cores := None; meminfo := None; gpu_names := None |};
     repo_identity := "id"; head_commit := None;
     price_vectors := {| contents := λ _, inl ""; listing := inl "" |};
     hypothesis_uuid := "h1"; recall := λ _, []; seat_available := false;
     complete := λ _, fail "" []; model_stamp := ("m1", T); scan_stamp := ("new", T);
     propose_us := 2; candidate_world := λ _, candidate; supervised := supervision;
     canary_us := 9; checkpoint_now := T; recorded_now := T; samples_fate := Measure.WriteDone |}.

Abbreviation run := (run_cycle separate_judge root config world start).

(** The generation is durable, the link leads to it, and the proposal is on a review branch; the
    patch lies under the root as it is configured, not under the repository. *)
Example promotes :
  (λ r, state <$> res_generation r) <$> (match run.2 with Value r => Some r | _ => None end)
  = Some (Some Durable)
  ∧ links (fs (host run.1)) !! "/repo/.rsi/active" = Some "/repo/.rsi/generations/prop-new"
  ∧ refs (repo run.1) !! "refs/heads/rsi/prop-new" = Some "c1"
  ∧ (map_to_list (patches (repo run.1))).*1 = [".rsi/patches/prop-new.patch"]
  ∧ complete_log run.1 = Some ("cycle-c1" +:+ nl).
Proof. vm_compute. repeat split. Qed.

(** The link moves before the promotion is recorded: when the ledger refuses the block, the cycle
    fails, and the unrecorded generation is live. *)
Definition winner : Winner :=
  {| win_proposal := create_proposal "new" T "t" "d" "README.md" after_text UnslopSanitization;
     win_sandbox := "/sandbox/prop-new";
     win_invariants := run_full_verification "/sandbox/prop-new" None None world_files;
     win_balance := balance_of (observe_codebase "/repo" (observed world) world_files);
     win_receipt := plain "cycle-c1" "prop-new" "parent";
     win_block := new_block 0 Evaluation T "" "" []; win_summary := start_canary false None;
     win_build := None |}.
Definition staged_generation : GenerationInfo :=
  {| generation_id := "prop-new"; installed_path := "/repo/.rsi/generations/prop-new";
     Supervisor.manifest_digest := ""; state := Staged; pid := None; socket_path := None;
     canary_transactions := 0; canary_errors := 0; max_latency_us := 0; total_latency_us := 0;
     staged_timestamp := T |}.
Definition refusing : Engine :=
  set_host (set_fs (with_links (λ _, links world_files) (fs (host run.1))) (host run.1))
    (set_store (empty_store ∅) run.1).
Example link_moves_before_the_block :
  let o := promote config supervision winner staged_generation refusing in
  links (fs (host refusing)) !! "/repo/.rsi/active" = Some "/repo/.rsi/generations/prop-old"
  ∧ links (fs (host o.1)) !! "/repo/.rsi/active" = Some "/repo/.rsi/generations/prop-new"
  ∧ promotions (Engine.store o.1) = [] ∧ (match o.2 with Error _ => true | _ => false end) = true.
Proof. vm_compute. repeat split. Qed.

Lemma returns : ∃ r, run.2 = Value r.
Proof. vm_compute. by eexists. Qed.
Lemma layout : Layout config.
Proof. split; [intros u; reflexivity|reflexivity]. Qed.
End EngineExample.

Section Witnesses.
Import Checksum PlainJson KeyedChecksum LedgerExample EngineExample.


Lemma in_process_judge_never_promotes_witness :
  untouched (active config) start
    (run_cycle (evaluate_cycle_v1 (λ _, None)) root config world start).1.
Proof. exact (proj1 (in_process_judge_never_promotes (λ _, None) root config world start layout)). Defined.

Lemma only_completed_cycles_ranked_witness : ∃ r, run.2 = Value r
  ∧ partial_log run.1 = partial_log start
  ∧ (complete_log run.1 = complete_log start
     ∨ ∃ k, complete_log run.1
            = (append (samples_fate world) (samples_of config world k) (complete_log start)).1).
Proof.
  pose proof (only_completed_cycles_ranked separate_judge root config layout world start) as Hall.
  cbv zeta in Hall. destruct returns as [r Hr], Hall as [Hall _]. exists r. split; [exact Hr|].
  exact (Hall r Hr).
Defined.

Lemma cycle_only_appends_witness :
  (∃ l, all_blocks strings_of_json (Engine.store run.1)
        = all_blocks strings_of_json (Engine.store start) ++ l ∧ (length l <= 7)%nat)
  ∧ ∃ r, verify_chain_integrity strings_of_json root T None (Engine.store run.1) = Ok r
         ∧ chain_valid r = true.
Proof.
  assert ((N.of_nat (4 + 7) <= i64_max)%N) as Hroom by (vm_compute; discriminate).
  exact (cycle_only_appends separate_judge root config 3 (Engine.store start) world start T reach3
           Hroom eq_refl).
Defined.
End Witnesses.
