(* ===== verification/Explain.v ===== *)
(** Explanations ([src/explain.rs]): the artifacts of one cycle as an evidence graph.

    The graph is a list of nodes in the order they are built; a node names the nodes it rests on.
    A capability graph is given by its nodes in the iteration order of its map.  Writing the
    document as JSON is [serde_json]'s part and is not modelled. *)

From S2P Require Import Prelude RustStd RustNum RustFloat Sorting Digest Graph Contract Receipt Propose Ratify.
#[local] Open Scope string_scope.
#[local] Open Scope list_scope.

Definition FORMAT : string := "aien.explain.evidence-graph".
Definition VERSION : N := 1.
Definition PRODUCER : string := "spark-rsi/explain".

Definition STATUS_UNCLASSIFIED : N := 0.
Definition STATUS_DIRECT_OBSERVATION : N := 1.
Definition STATUS_VERIFIED_FACT : N := 2.
Definition STATUS_INFERENCE : N := 3.
Definition STATUS_HYPOTHESIS : N := 4.

Definition KIND_CAPABILITY_METRIC : N := 2.
Definition KIND_CAPABILITY_ANALYSIS : N := 3.
Definition KIND_DIAGNOSTIC : N := 4.
Definition KIND_HYPOTHESIS : N := 5.
Definition KIND_PREDICTION : N := 6.
Definition KIND_FALSIFICATION : N := 7.
Definition KIND_EVALUATION_RECEIPT : N := 8.
Definition KIND_PROMOTION_STATE : N := 9.
Definition KIND_CONCLUSION : N := 12.
Definition KIND_ALTERNATIVE : N := 13.

Definition REL_SUPPORTED_BY : N := 1.
Definition REL_PART_OF : N := 3.
Definition REL_ALTERNATIVE_TO : N := 5.
Definition REL_REFERENCES : N := 6.

Definition MAX_ALTERNATIVES : nat := 3.
Definition MAX_PARENTS : N := 1024.

Record SourceRefDoc := { artifact : string; reference : string; digest : option string }.
Record MeasurementDoc := { measured_name : string; measured_value : string; unit_ : string }.
Record EdgeDoc := { to : string; relation : N }.
Record MissingDoc := { expected : string; reason : string }.
Record NodeDoc := {
  nid : string;
  nkind : N;
  nstatus : N;
  statement : string;
  source : SourceRefDoc;
  confidence_permille : option N;
  confidence_basis : option string;
  parents : list EdgeDoc;
  measurements : list MeasurementDoc;
  missing : list MissingDoc;
  node_notes : list string
}.
Record EvidenceGraphDoc := {
  doc_format : string;
  doc_version : N;
  producer : string;
  doc_nodes : list NodeDoc;
  truncated_at : list string
}.

(** [MetricsOrigin] has the one value [Measured]. *)
Record RsiCycleEvidence := {
  ev_cycle : string;
  capabilities : option (list CapabilityNode);
  bottlenecks : list BottleneckRank;
  ev_hypothesis : option HypothesisContract;
  ev_diagnostic : option DiagnosticContext;
  ev_receipt : option EvaluationReceipt;
  ev_ratification : option RatificationRecord
}.

Definition src (a r : string) (d : option string) : SourceRefDoc :=
  {| artifact := a; reference := r; digest := d |}.
Definition m (name value u : string) : MeasurementDoc :=
  {| measured_name := name; measured_value := value; unit_ := u |}.
Definition edge (t : string) (r : N) : EdgeDoc := {| to := t; relation := r |}.
Definition lacks (e r : string) : MissingDoc := {| expected := e; reason := r |}.

(** [node] and the fields set after it. *)
Definition node (id : string) (kind status : N) (text : string) (s : SourceRefDoc)
    (ps : list EdgeDoc) (ms : list MeasurementDoc) (miss : list MissingDoc) (notes : list string)
    : NodeDoc :=
  {| nid := id; nkind := kind; nstatus := status; statement := text; source := s;
     confidence_permille := None; confidence_basis := None; parents := ps; measurements := ms;
     missing := miss; node_notes := notes |}.
Definition with_confidence_of (p : option N) (n : NodeDoc) : NodeDoc :=
  {| nid := nid n; nkind := nkind n; nstatus := nstatus n; statement := statement n;
     source := source n; confidence_permille := p;
     confidence_basis := match p with
                         | Some _ => Some "declared in the HypothesisContract, not measured"
                         | None => None
                         end;
     parents := parents n; measurements := measurements n; missing := missing n;
     node_notes := node_notes n |}.

Definition capability_node_id (id : string) : string := "rsi:capability:" +:+ id.
Definition analysis_id (cycle : string) : string := "rsi:bottleneck:" +:+ cycle.
Definition alternative_id (cycle id : string) : string :=
  "rsi:alternative:" +:+ cycle +:+ ":" +:+ id.
Definition hypothesis_node_id (h : HypothesisContract) : string :=
  "rsi:hypothesis:" +:+ hypothesis_id h.
Definition diagnostic_id (cycle : string) : string := "rsi:diagnostic:" +:+ cycle.
Definition receipt_node_id (r : EvaluationReceipt) : string :=
  "rsi:receipt:" +:+ cycle_id r +:+ ":" +:+ candidate_id r.
Definition ratification_id (r : RatificationRecord) : string :=
  "rsi:ratification:" +:+ rat_proposal_id r.
Definition conclusion_id (cycle : string) : string := "rsi:conclusion:" +:+ cycle.

(** Equality of [f64]. *)
Definition f64_eqb (a b : f64) : bool := f64_le a b && f64_ge a b.

Definition hypothesis_derived_from (h : HypothesisContract) (b : BottleneckRank) : bool :=
  let quoted := "'" +:+ rank_node_name b +:+ "'" in
  (str_contains quoted (observed_problem h) || str_contains quoted (suspected_root_cause h))
  && match latency_claim h, rank_latency_median_us b with
     | Some (baseline, _), Some median => f64_eqb baseline median
     | None, None => true
     | _, _ => false
     end.

(** ** Capability metrics *)

Definition measured_median (c : CapabilityNode) : option f64 :=
  if bool_decide (measurement c = Measured) then latency_median_us c else None.

Definition capability_node (c : CapabilityNode) : NodeDoc :=
  let why := default "no measurement" (unavailable_reason c) in
  let stage := "'" +:+ node_name c +:+ "'" in
  let entry status text := node (capability_node_id (node_id c)) KIND_CAPABILITY_METRIC status text
    (src "CapabilityNode" (node_id c) None) [] in
  match measured_median c with
  | Some median =>
    entry STATUS_DIRECT_OBSERVATION
      (render (Fmt "'{}' ({}) has measured median latency {} us over {} samples"
         [node_name c; subsystem c; fmt_fixed 1 median; dec (sample_count c)]))
      ([m "latency_median_us" (fmt_fixed 3 median) "us"; m "sample_count" (dec (sample_count c)) ""]
       ++ match error_rate_measured c with
          | Some e => [m "error_rate_measured" (fmt_fixed 6 e) "fraction"] | None => [] end
       ++ match latency_p95_us_measured c with
          | Some p => [m "latency_p95_us_measured" (fmt_fixed 3 p) "us"] | None => [] end)
      (match latency_p95_us_measured c with
       | Some _ => [] | None => [lacks ("measured p95 latency of stage " +:+ stage) why] end) []
  | None =>
    entry STATUS_UNCLASSIFIED
      (render (Fmt "'{}' ({}) has no measured latency (unavailable)" [node_name c; subsystem c])) []
      [lacks ("measured median latency of stage " +:+ stage) why;
       lacks ("measured error rate of stage " +:+ stage) why] []
  end.

Definition capability_lt (a b : CapabilityNode) : bool := str_lt (node_id a) (node_id b).
Definition capability_nodes (caps : option (list CapabilityNode)) : list NodeDoc :=
  match caps with Some cs => capability_node <$> sort_by capability_lt cs | None => [] end.

(** ** The ranking *)

Definition basis_text (b : RankingBasis) : string :=
  match b with BasisStructural => "structural" | BasisMeasured => "measured" end.

Definition analysis_node (cycle : string) (total : N) (metric_ids : list string) (b : BottleneckRank)
    : NodeDoc :=
  let n_ids := N.of_nat (length metric_ids) in
  node (analysis_id cycle) KIND_CAPABILITY_ANALYSIS STATUS_INFERENCE
    (render (Fmt "The capability graph ranks '{}' ({}) as bottleneck #{} of {} ({})"
       [rank_node_name b; rank_subsystem b; dec (rank b); dec total; causal_explanation b]))
    (src "BottleneckRank" (rank_node_id b) None)
    ((λ i, edge i REL_SUPPORTED_BY) <$> take (N.to_nat MAX_PARENTS) metric_ids)
    ([m "bottleneck_score" (fmt_fixed 4 (bottleneck_score b)) "";
      m "centrality" (fmt_fixed 4 (centrality b)) "";
      m "ranking_basis" (basis_text (ranking_basis b)) ""]
     ++ match rank_latency_median_us b with
        | Some v => [m "latency_median_us" (fmt_fixed 3 v) "us"] | None => [] end)
    ((match rank_latency_median_us b with
      | Some _ => []
      | None => [lacks ("measured median latency of the top-ranked stage '" +:+ rank_node_name b +:+ "'")
                   (default "no measurement" (rank_unavailable_reason b))]
      end)
     ++ (if bool_decide (ranking_basis b = BasisStructural)
         then [lacks "latency and error terms of the bottleneck score"
                 "at least one stage is unavailable, so the ranking uses betweenness centrality only"]
         else [])
     ++ (if bool_decide (metric_ids = [])
         then [lacks "capability metrics the ranking was computed from"
                 "no capability graph was supplied with this cycle"]
         else []))
    ((if (MAX_PARENTS <? n_ids)%N
      then [render (Fmt "only the first {} of {} capability metrics are linked (contract cap)"
              [dec MAX_PARENTS; dec n_ids])]
      else [])
     ++ ["ranking computed by CapabilityGraph::rank_bottlenecks"]).

Definition alternative_node (cycle : string) (b : BottleneckRank) : NodeDoc :=
  let score := fmt_fixed 4 (bottleneck_score b) in
  node (alternative_id cycle (rank_node_id b)) KIND_ALTERNATIVE STATUS_INFERENCE
    (render (Fmt "Alternative bottleneck candidate #{}: '{}' ({}), score {}"
       [dec (rank b); rank_node_name b; rank_subsystem b; score]))
    (src "BottleneckRank" (rank_node_id b) None) [edge (analysis_id cycle) REL_ALTERNATIVE_TO]
    [m "bottleneck_score" score ""] [] [].

Definition ranking_nodes (cycle : string) (metric_ids : list string) (ranks : list BottleneckRank)
    : list NodeDoc :=
  match ranks with
  | [] => []
  | top :: others =>
    analysis_node cycle (N.of_nat (length ranks)) metric_ids top
    :: (alternative_node cycle <$> take MAX_ALTERNATIVES others)
  end.

(** ** The hypothesis, its prediction and its refutation *)

Definition permille (h : HypothesisContract) : option N :=
  if is_finite (confidence_score h) && negb (is_exploratory h)
  then Some (N.min 65535 (f64_as_usize (f64_round
         (f64_mul (f64_clamp (confidence_score h) (f64_of_N 0) (f64_of_N 1)) (f64_of_N 1000)))))
  else None.

Definition hypothesis_node (cycle : string) (top : option BottleneckRank) (h : HypothesisContract)
    : NodeDoc :=
  let linked := match top with Some b => hypothesis_derived_from h b | None => false end in
  with_confidence_of (permille h)
    (node (hypothesis_node_id h) KIND_HYPOTHESIS STATUS_HYPOTHESIS
       (render (Fmt "Suspected root cause: {}. Observed problem: {}"
          [suspected_root_cause h; observed_problem h]))
       (src "HypothesisContract" (hypothesis_id h) None)
       (if linked then [edge (analysis_id cycle) REL_REFERENCES] else []) []
       (if linked
        then [lacks "a recorded reference from the hypothesis to the bottleneck ranking"
                (concat_all ["linked only because the hypothesis text names '";
                   default "" (rank_node_name <$> top);
                   "' and its baseline equals that bottleneck's p95 latency"])]
        else [lacks "the system analysis this hypothesis was derived from"
                "the HypothesisContract carries no bottleneck reference and does not match the top-ranked bottleneck"])
       (match validate h with
        | Err e => ["hypothesis contract fails validation: " +:+ render e] | Ok _ => [] end)).

Definition prediction_id (h : HypothesisContract) : string := hypothesis_node_id h +:+ ":prediction".
Definition prediction_node (h : HypothesisContract) : NodeDoc :=
  let metric := m "target_metric" (target_metric h) "" in
  let entry text ms miss := node (prediction_id h) KIND_PREDICTION STATUS_HYPOTHESIS text
    (src "HypothesisContract" (hypothesis_id h) None) [edge (hypothesis_node_id h) REL_PART_OF] ms miss [] in
  match latency_claim h with
  | Some (baseline, delta) =>
    entry (render (Fmt "Predicts {} improves by {}% from baseline {}"
             [target_metric h; fmt_fixed 1 delta; fmt_fixed 3 baseline]))
      [metric; m "baseline_value" (fmt_fixed 3 baseline) "";
       m "predicted_delta_pct" (fmt_fixed 3 delta) "%"] []
  | None =>
    entry "Exploratory hypothesis: no performance prediction is made" [metric]
      [lacks "a measured latency baseline and a predicted improvement"
         "the top-ranked stage has no measured latency, so no performance claim is made"]
  end.

Definition falsification_id (h : HypothesisContract) : string :=
  hypothesis_node_id h +:+ ":falsification".
Definition protected_text (pm : ProtectedMetric) : string :=
  render (Fmt "{} may degrade at most {}%"
    [metric_name pm; fmt_fixed 1 (max_allowed_degradation_pct pm)]).
Definition protected_measurement (pm : ProtectedMetric) : MeasurementDoc :=
  m (concat_all ["protected."; metric_name pm; ".max_degradation_pct"])
    (fmt_fixed 3 (max_allowed_degradation_pct pm)) "%".
Definition falsification_node (h : HypothesisContract) : NodeDoc :=
  let protected := join_str "; " (protected_text <$> protected_metrics h) in
  let untested := bool_decide (falsification_test h = "") in
  node (falsification_id h) KIND_FALSIFICATION STATUS_HYPOTHESIS
    (if untested then "Protected metrics: " +:+ protected
     else render (Fmt "Refuted if this check fails: {}. Protected metrics: {}"
            [falsification_test h; protected]))
    (src "HypothesisContract" (hypothesis_id h) None) [edge (hypothesis_node_id h) REL_PART_OF]
    (protected_measurement <$> protected_metrics h)
    (if untested
     then [lacks "a falsification test" "the HypothesisContract has an empty falsification_test"]
     else []) [].

Definition hypothesis_nodes (cycle : string) (top : option BottleneckRank)
    (h : option HypothesisContract) : list NodeDoc :=
  match h with
  | Some h => [hypothesis_node cycle top h; prediction_node h; falsification_node h]
  | None => []
  end.

(** ** The diagnosis *)

Definition diagnosis_links (h : option HypothesisContract) (d : DiagnosticContext)
    : list EdgeDoc * list MissingDoc :=
  match Propose.hypothesis d, h with
  | None, _ => ([], [lacks "the hypothesis behind this diagnosis"
                       "the DiagnosticContext carries no hypothesis"])
  | Some dh, Some h =>
    if bool_decide (hypothesis_id h = hypothesis_id dh)
    then ([edge (hypothesis_node_id h) REL_SUPPORTED_BY], [])
    else ([], [lacks ("hypothesis " +:+ hypothesis_id dh)
                 "the diagnostic names a hypothesis that was not supplied"])
  | Some dh, None => ([], [lacks ("hypothesis " +:+ hypothesis_id dh)
                             "the diagnostic names a hypothesis that was not supplied"])
  end.

Definition diagnosis_node (cycle : string) (h : option HypothesisContract) (d : DiagnosticContext)
    : NodeDoc :=
  let '(ps, miss) := diagnosis_links h d in
  node (diagnostic_id cycle) KIND_DIAGNOSTIC STATUS_INFERENCE
    (render (Fmt "Diagnosis for {}: primary defect {}; {}"
       [diag_target_file d; defect_debug (primary_defect d);
        match diag_violations d with
        | [] => "no violations listed" | vs => join_str "; " vs end]))
    (src "DiagnosticContext" (diag_cycle_id d) None) ps [] miss
    (match past_lessons d with
     | [] => []
     | ls => [render (Fmt "{} recalled lesson(s) from the outside memory service were left out: they are free text, not evidence"
                [dec (N.of_nat (length ls))])]
     end).

(** ** The receipt *)

Definition bool_text (b : bool) : string := if b then "true" else "false".
Definition layer_measurements (l : LayerResult) : list MeasurementDoc :=
  [m (concat_all ["layer."; layer_name l; ".passed"]) (bool_text (passed l)) "";
   m (concat_all ["layer."; layer_name l; ".score"]) (fmt_fixed 4 (f64_from_bits (score l))) ""].
Definition summary_id (r : EvaluationReceipt) : string := receipt_node_id r +:+ ":summary".
Definition summary_measurements (ms : EvaluationMetricsSummary) : list MeasurementDoc :=
  [m "latency_delta_pct" (fmt_fixed 3 (f64_from_bits (latency_delta_pct ms))) "%";
   m "p_value" (fmt_fixed 6 (f64_from_bits (p_value ms))) "";
   m "p95_ci_upper_degradation_pct" (fmt_fixed 3 (f64_from_bits (p95_ci_upper_degradation_pct ms))) "%";
   m "p99_ci_upper_degradation_pct" (fmt_fixed 3 (f64_from_bits (p99_ci_upper_degradation_pct ms))) "%";
   m "rss_growth_pct" (fmt_fixed 3 (f64_from_bits (rss_growth_pct ms))) "%"].
Definition summary_node (r : EvaluationReceipt) : NodeDoc :=
  node (summary_id r) KIND_EVALUATION_RECEIPT STATUS_UNCLASSIFIED
    (render (Fmt "The evaluator reports: hard invariants passed={}, statistical gates passed={}"
       [bool_text (passed_all_hard_invariants r); bool_text (passed_statistical_gates r)]))
    (src "EvaluationReceipt" (candidate_id r) None) [edge (receipt_node_id r) REL_PART_OF]
    (match metrics_summary r with Some ms => summary_measurements ms | None => [] end) []
    ["these fields are not covered by the receipt digest, so they are reported, not verified"].

(** ** What belongs to the cycle *)

Definition foreign (what id theirs cycle : string) : MissingDoc :=
  lacks (concat_all ["the "; what; " for cycle "; cycle])
    (concat_all ["the supplied "; what; " "; id; " belongs to cycle "; theirs; "; it was left out"]).

(** An artifact of another cycle is left out and declared. *)
Definition same_cycle {A} (cycle what : string) (id theirs : A → string) (o : option A)
    : option A * list MissingDoc :=
  match o with
  | Some a =>
    if bool_decide (theirs a = cycle) then (Some a, [])
    else (None, [foreign what (id a) (theirs a) cycle])
  | None => (None, [])
  end.

(** A ratification belongs to the cycle through a receipt of its candidate. *)
Definition matched (cycle : string) (receipt : option EvaluationReceipt)
    (o : option RatificationRecord) : option RatificationRecord * list MissingDoc :=
  match o with
  | Some r =>
    if bool_decide (candidate_id <$> receipt = Some (rat_proposal_id r)) then (Some r, [])
    else (None, [lacks (concat_all ["an evaluation receipt of cycle "; cycle; " for proposal ";
                                    rat_proposal_id r])
                   "the supplied ratification matches no receipt of this cycle; it was left out"])
  | None => (None, [])
  end.

(** ** The conclusion *)

Definition ratified (r : option RatificationRecord) : bool :=
  match r with Some r => bool_decide (Ratify.status r = "Ratified") | None => false end.

Definition rationale (cycle : string) (d : option DiagnosticContext) (h : option HypothesisContract)
    : string :=
  match d, h with
  | Some d, _ => render (Fmt "RSI proposes changing {} to address {} (cycle {})"
                   [diag_target_file d; defect_debug (primary_defect d); cycle])
  | None, Some h => render (Fmt "RSI proposes improving {} (cycle {})" [target_metric h; cycle])
  | None, None => "RSI recorded no proposal rationale for cycle " +:+ cycle
  end.

Definition conclusion_parents (cycle : string) (h : option HypothesisContract)
    (d : option DiagnosticContext) (r : option EvaluationReceipt) (rat : option RatificationRecord)
    : list string :=
  match d, h with
  | Some _, _ => [diagnostic_id cycle]
  | None, Some h => [hypothesis_node_id h]
  | None, None => []
  end
  ++ match h with Some h => [prediction_id h; falsification_id h] | None => [] end
  ++ match r with Some r => [receipt_node_id r; summary_id r] | None => [] end
  ++ match rat with Some rat => [ratification_id rat] | None => [] end.

Definition untested (cycle : string) (h : option HypothesisContract) (r : option EvaluationReceipt)
    : list MissingDoc :=
  match r, h with
  | Some r, Some h =>
    [lacks (concat_all ["an artifact linking candidate "; candidate_id r; " to hypothesis ";
                        hypothesis_id h])
       (concat_all ["both belong to cycle "; cycle_id r;
          ", but no RSI artifact records that the candidate was generated from this hypothesis, so the evaluation is not shown as testing it"])]
  | None, _ => [lacks ("an evaluation receipt for cycle " +:+ cycle)
                  "none was supplied; the evaluation is incomplete"]
  | Some _, None => []
  end.

Definition conclusion_node (cycle : string) (h : option HypothesisContract)
    (d : option DiagnosticContext) (r : option EvaluationReceipt) (rat : option RatificationRecord)
    (left_out : list MissingDoc) : NodeDoc :=
  node (conclusion_id cycle) KIND_CONCLUSION
    (if ratified rat then STATUS_INFERENCE else STATUS_HYPOTHESIS) (rationale cycle d h)
    (src "RsiCycle" cycle None)
    ((λ i, edge i REL_SUPPORTED_BY) <$> conclusion_parents cycle h d r rat) []
    (untested cycle h r ++ left_out
     ++ match h with
        | None => [lacks "a hypothesis contract" "none was supplied for this cycle"]
        | Some _ => []
        end)
    ["this explanation is observational; it does not authorize promotion or any change"].

Section Explain.
Context `{Sha256} `{P256}.

Definition receipt_node (r : EvaluationReceipt) : NodeDoc :=
  let ok := verify_digest r in
  node (receipt_node_id r) KIND_EVALUATION_RECEIPT
    (if ok then STATUS_VERIFIED_FACT else STATUS_UNCLASSIFIED)
    (render (Fmt "Evaluation of candidate {} (parent {}): admitted={}, {} evaluation layer result(s)"
       [candidate_id r; parent_id r; bool_text (admitted r);
        dec (N.of_nat (length (layer_results r)))]))
    (src "EvaluationReceipt" (candidate_id r) (Some (receipt_digest r))) []
    (layer_results r ≫= layer_measurements) []
    ((if ok then [] else ["the receipt digest does not match its contents"])
     ++ [match receipt_signature r with
         | Some _ => "receipt is signed; the signature was not checked here (needs the evaluator public key)"
         | None => "receipt is unsigned"
         end]).
Definition receipt_nodes (r : option EvaluationReceipt) : list NodeDoc :=
  match r with Some r => [receipt_node r; summary_node r] | None => [] end.

Definition ratification_nodes (receipt : option EvaluationReceipt) (r : option RatificationRecord)
    : list NodeDoc :=
  match r with
  | Some r =>
    [node (ratification_id r) KIND_PROMOTION_STATE STATUS_DIRECT_OBSERVATION
       (render (Fmt "Ratification record for proposal {}: status {} ({})"
          [rat_proposal_id r; Ratify.status r; message r]))
       (src "RatificationRecord" (rat_proposal_id r) (commit_hash r))
       (match receipt with Some rc => [edge (receipt_node_id rc) REL_SUPPORTED_BY] | None => [] end)
       [] [] []]
  | None => []
  end.

(** The nodes before the conclusion, from the artifacts of the cycle. *)
Definition evidence_nodes (cycle : string) (caps : option (list CapabilityNode))
    (ranks : list BottleneckRank) (h : option HypothesisContract) (d : option DiagnosticContext)
    (r : option EvaluationReceipt) (rat : option RatificationRecord) : list NodeDoc :=
  let metrics := capability_nodes caps in
  metrics ++ ranking_nodes cycle (nid <$> metrics) ranks ++ hypothesis_nodes cycle (head ranks) h
  ++ match d with Some d => [diagnosis_node cycle h d] | None => [] end
  ++ receipt_nodes r ++ ratification_nodes r rat.

Definition evidence_graph (ev : RsiCycleEvidence) : EvidenceGraphDoc :=
  let cycle := ev_cycle ev in
  let '(h, no_h) := same_cycle cycle "hypothesis" hypothesis_id hypothesis_cycle_id (ev_hypothesis ev) in
  let '(d, no_d) := same_cycle cycle "diagnostic" diag_target_file diag_cycle_id (ev_diagnostic ev) in
  let '(r, no_r) := same_cycle cycle "evaluation receipt" candidate_id cycle_id (ev_receipt ev) in
  let '(rat, no_rat) := matched cycle r (ev_ratification ev) in
  {| doc_format := FORMAT; doc_version := VERSION; producer := PRODUCER;
     doc_nodes := evidence_nodes cycle (capabilities ev) (bottlenecks ev) h d r rat
                  ++ [conclusion_node cycle h d r rat (no_h ++ no_d ++ no_r ++ no_rat)];
     truncated_at := [] |}.
End Explain.
