(* ===== verification/ExplainProps.v ===== *)
(** The evidence graph of a cycle: every link leads back to an earlier node, ids are unique, nothing
    of another cycle is attached, and the order of the capability map does not show. *)

From S2P Require Import Prelude RustStd RustNum RustFloat Sorting Digest LedgerRecord Graph Contract Receipt Propose Ratify Explain.
#[local] Open Scope string_scope.
#[local] Open Scope list_scope.

(** ** Links lead back *)

(** Every link leads to a known node or to one that stands before. *)
Fixpoint grounded (known : list string) (ns : list NodeDoc) : Prop :=
  match ns with
  | [] => True
  | n :: ns => Forall (λ e, to e ∈ known) (parents n) ∧ grounded (nid n :: known) ns
  end.

Lemma grounded_mono known known' ns : known ⊆ known' → grounded known ns → grounded known' ns.
Proof.
  revert known known'. induction ns as [|n ns IH]; intros known known' Hk; [done|]. intros [Hn Hns].
  split; [by eapply Forall_impl; [exact Hn|]; eauto|]. eapply IH; [|exact Hns]. set_solver.
Qed.

Lemma grounded_app known a b :
  grounded known a → grounded ((nid <$> a) ++ known) b → grounded known (a ++ b).
Proof.
  revert known. induction a as [|n a IH]; intros known; [done|]. intros [Hn Ha] Hb.
  split; [done|]. apply IH; [done|]. eapply grounded_mono; [|exact Hb]. set_solver.
Qed.

Lemma grounded_lookup known ns i n e :
  grounded known ns → ns !! i = Some n → e ∈ parents n →
  to e ∈ known ∨ ∃ j n', (j < i)%nat ∧ ns !! j = Some n' ∧ nid n' = to e.
Proof.
  revert known i. induction ns as [|x ns IH]; intros known [|i]; [done..| |].
  - intros [Hx _] [= ->] He. left. rewrite Forall_forall in Hx. eauto.
  - intros [_ Hns] Hi He. destruct (IH _ i Hns Hi He) as [[->|Hk]%elem_of_cons|(j & n' & Hj & Hl & Ht)].
    + right. exists 0%nat, x. split_and!; [lia|done|done].
    + by left.
    + right. exists (S j), n'. split_and!; [lia|done..].
Qed.

(** Nodes without links. *)
Lemma grounded_free known ns : Forall (λ n, parents n = []) ns → grounded known ns.
Proof.
  revert known. induction ns as [|n ns IH]; intros known; [done|]. intros [Hn Hns]%Forall_cons.
  cbn [grounded]. rewrite Hn. split; [done|]. by apply IH.
Qed.

(** Nodes that all link into what is known. *)
Lemma grounded_known known ns :
  Forall (λ n, Forall (λ e, to e ∈ known) (parents n)) ns → grounded known ns.
Proof.
  revert known. induction ns as [|n ns IH]; intros known; [done|]. intros [Hn Hns]%Forall_cons.
  split; [done|]. apply IH. eapply Forall_impl; [exact Hns|]. intros x Hx.
  eapply Forall_impl; [exact Hx|]. set_solver.
Qed.

Lemma edges_to r (l known : list string) :
  Forall (λ i, i ∈ known) l → Forall (λ e, to e ∈ known) ((λ i, edge i r) <$> l).
Proof. intros Hl. by apply Forall_fmap. Qed.

(** ** The parts of the graph *)

Lemma capability_node_shape c :
  nid (capability_node c) = capability_node_id (node_id c) ∧ parents (capability_node c) = []
  ∧ nstatus (capability_node c) ≠ STATUS_VERIFIED_FACT.
Proof. unfold capability_node. by destruct (measured_median c). Qed.

Lemma capability_nodes_free caps : Forall (λ n, parents n = []) (capability_nodes caps).
Proof.
  destruct caps as [cs|]; [|done]. apply Forall_fmap, Forall_true. intros c. apply capability_node_shape.
Qed.

Lemma hypothesis_node_shape cycle top h :
  nid (hypothesis_node cycle top h) = hypothesis_node_id h
  ∧ nstatus (hypothesis_node cycle top h) = STATUS_HYPOTHESIS
  ∧ parents (hypothesis_node cycle top h)
    = match top with
      | Some b => if hypothesis_derived_from h b then [edge (analysis_id cycle) REL_REFERENCES] else []
      | None => []
      end.
Proof. by destruct top. Qed.

Lemma prediction_node_shape h :
  nid (prediction_node h) = prediction_id h ∧ nstatus (prediction_node h) = STATUS_HYPOTHESIS
  ∧ parents (prediction_node h) = [edge (hypothesis_node_id h) REL_PART_OF].
Proof. unfold prediction_node. by destruct (latency_claim h) as [[]|]. Qed.

Lemma diagnosis_node_shape cycle h d :
  nid (diagnosis_node cycle h d) = diagnostic_id cycle
  ∧ nstatus (diagnosis_node cycle h d) = STATUS_INFERENCE
  ∧ parents (diagnosis_node cycle h d) = (diagnosis_links h d).1.
Proof. unfold diagnosis_node. by destruct (diagnosis_links h d). Qed.

Lemma diagnosis_links_cases h d :
  (diagnosis_links h d).1 = []
  ∨ ∃ h', h = Some h' ∧ (diagnosis_links h d).1 = [edge (hypothesis_node_id h') REL_SUPPORTED_BY].
Proof.
  unfold diagnosis_links. destruct (Propose.hypothesis d), h; try (by left).
  case_bool_decide; [right; eauto|by left].
Qed.

Section Explain.
Context `{Sha256} `{P256}.

(** What a cycle's own artifacts are. *)
Definition own_hypothesis (ev : RsiCycleEvidence) : option HypothesisContract :=
  h ← ev_hypothesis ev; if bool_decide (hypothesis_cycle_id h = ev_cycle ev) then Some h else None.
Definition own_diagnostic (ev : RsiCycleEvidence) : option DiagnosticContext :=
  d ← ev_diagnostic ev; if bool_decide (diag_cycle_id d = ev_cycle ev) then Some d else None.
Definition own_receipt (ev : RsiCycleEvidence) : option EvaluationReceipt :=
  r ← ev_receipt ev; if bool_decide (cycle_id r = ev_cycle ev) then Some r else None.
Definition own_ratification (ev : RsiCycleEvidence) : option RatificationRecord :=
  r ← ev_ratification ev;
  if bool_decide (candidate_id <$> own_receipt ev = Some (rat_proposal_id r)) then Some r else None.

Definition body (ev : RsiCycleEvidence) : list NodeDoc :=
  evidence_nodes (ev_cycle ev) (capabilities ev) (bottlenecks ev) (own_hypothesis ev)
    (own_diagnostic ev) (own_receipt ev) (own_ratification ev).
Definition left_out (ev : RsiCycleEvidence) : list MissingDoc :=
  (same_cycle (ev_cycle ev) "hypothesis" hypothesis_id hypothesis_cycle_id (ev_hypothesis ev)).2
  ++ (same_cycle (ev_cycle ev) "diagnostic" diag_target_file diag_cycle_id (ev_diagnostic ev)).2
  ++ (same_cycle (ev_cycle ev) "evaluation receipt" candidate_id cycle_id (ev_receipt ev)).2
  ++ (matched (ev_cycle ev) (own_receipt ev) (ev_ratification ev)).2.
Definition conclusion (ev : RsiCycleEvidence) : NodeDoc :=
  conclusion_node (ev_cycle ev) (own_hypothesis ev) (own_diagnostic ev) (own_receipt ev)
    (own_ratification ev) (left_out ev).

Lemma same_cycle_own {A} cycle what (i t : A → string) o :
  (same_cycle cycle what i t o).1
  = (a ← o; if bool_decide (t a = cycle) then Some a else None).
Proof. destruct o as [a|]; [|done]. cbn. by case_bool_decide. Qed.

Lemma matched_own cycle r o :
  (matched cycle r o).1
  = (x ← o; if bool_decide (candidate_id <$> r = Some (rat_proposal_id x)) then Some x else None).
Proof. destruct o as [a|]; [|done]. cbn. by case_bool_decide. Qed.

Lemma graph_nodes ev : doc_nodes (evidence_graph ev) = body ev ++ [conclusion ev].
Proof.
  unfold evidence_graph, conclusion, body, left_out.
  pose proof (same_cycle_own (ev_cycle ev) "hypothesis" hypothesis_id hypothesis_cycle_id (ev_hypothesis ev)) as Hh.
  pose proof (same_cycle_own (ev_cycle ev) "diagnostic" diag_target_file diag_cycle_id (ev_diagnostic ev)) as Hd.
  pose proof (same_cycle_own (ev_cycle ev) "evaluation receipt" candidate_id cycle_id (ev_receipt ev)) as Hr.
  destruct (same_cycle _ "hypothesis" _ _ _) as [h no_h], (same_cycle _ "diagnostic" _ _ _) as [d no_d],
    (same_cycle _ "evaluation receipt" _ _ _) as [r no_r]; cbn [fst] in Hh, Hd, Hr.
  fold (own_hypothesis ev) in Hh. fold (own_diagnostic ev) in Hd. fold (own_receipt ev) in Hr.
  rewrite <- Hh, <- Hd, <- Hr.
  pose proof (matched_own (ev_cycle ev) r (ev_ratification ev)) as Ht.
  destruct (matched (ev_cycle ev) r (ev_ratification ev)) as [rat no_rat]. cbn [fst] in Ht.
  assert (own_ratification ev = rat) as -> by (unfold own_ratification; by rewrite <- Hr). done.
Qed.

(** ** Ids *)

(** Ids of different parts differ in the letters after [rsi:]. *)
Definition tag (id : string) : string := String.substring 4 3 id.

(** Parts with ids of their own letters: the ids of all are distinct when those of each are. *)
Definition part_ok (s : string * list string) : Prop := NoDup s.2 ∧ Forall (λ i, tag i = s.1) s.2.

Lemma parts_distinct (ss : list (string * list string)) :
  NoDup ss.*1 → Forall part_ok ss → NoDup (mjoin ss.*2).
Proof.
  induction ss as [|[t l] ss IH]; cbn; [intros; apply NoDup_nil_2|].
  intros [Ht Hss]%NoDup_cons [[Hl Htag] Hok]%Forall_cons. apply NoDup_app.
  split_and!; [done| |by apply IH]. cbn in *. intros i Hi Hin. apply Ht.
  apply list_elem_of_join in Hin as (l' & Hi' & ([t' l''] & -> & Hs)%list_elem_of_fmap).
  rewrite Forall_forall in Htag. rewrite Forall_forall in Hok. destruct (Hok _ Hs) as [_ Hl']. rewrite Forall_forall in Hl'.
  rewrite <- (Htag i Hi), (Hl' i Hi'). apply list_elem_of_fmap. by exists (t', l'').
Qed.

Lemma part_map t (f : string → string) l :
  NoDup l → Inj (=) (=) f → (∀ i, tag (f i) = t) → part_ok (t, f <$> l).
Proof. intros Hl Hf Ht. split; [by apply NoDup_fmap_2|]. apply Forall_fmap, Forall_true, Ht. Qed.
Lemma part_one t i : tag i = t → part_ok (t, [i]).
Proof. intros Hi. split; [apply NoDup_singleton|by repeat constructor]. Qed.
Lemma part_none t : part_ok (t, []).
Proof. split; [apply NoDup_nil_2|done]. Qed.

Lemma capability_ids caps :
  nid <$> capability_nodes caps
  = capability_node_id <$> (node_id <$> sort_by capability_lt (default [] caps)).
Proof.
  destruct caps as [cs|]; [|done]. cbn. rewrite <- !list_fmap_compose. apply list_fmap_ext.
  intros i c _. apply capability_node_shape.
Qed.

Lemma ranking_ids cycle ids ranks :
  nid <$> ranking_nodes cycle ids ranks
  = match ranks with
    | [] => []
    | _ :: others => analysis_id cycle
                     :: (alternative_id cycle <$> (rank_node_id <$> take MAX_ALTERNATIVES others))
    end.
Proof. destruct ranks as [|top others]; [done|]. cbn. by rewrite <- !list_fmap_compose. Qed.

Lemma hypothesis_ids cycle top h :
  nid <$> hypothesis_nodes cycle top h
  = match h with
    | Some h => [hypothesis_node_id h; prediction_id h; falsification_id h] | None => [] end.
Proof.
  destruct h as [h|]; [|done]. cbn [hypothesis_nodes]. rewrite !fmap_cons.
  by rewrite (proj1 (prediction_node_shape h)), (proj1 (hypothesis_node_shape cycle top h)).
Qed.

Lemma receipt_ids r :
  nid <$> receipt_nodes r = match r with Some r => [receipt_node_id r; summary_id r] | None => [] end.
Proof. by destruct r. Qed.
Lemma ratification_ids r rat :
  nid <$> ratification_nodes r rat = match rat with Some x => [ratification_id x] | None => [] end.
Proof. by destruct rat. Qed.
Lemma diagnosis_ids cycle h d :
  nid <$> match d with Some d => [diagnosis_node cycle h d] | None => [] end
  = match d with Some _ => [diagnostic_id cycle] | None => [] end.
Proof. destruct d as [d|]; [|done]. cbn. by rewrite (proj1 (diagnosis_node_shape cycle h d)). Qed.

#[local] Instance app_inj a : Inj (=) (=) (String.append a).
Proof. intros x y. induction a as [|c a IH]; [done|]. cbn. intros [= Hxy]. auto. Qed.

Lemma longer_differs a b : b ≠ "" → a +:+ b ≠ a.
Proof. intros Hb Ha. apply Hb, (app_inj a). by rewrite Ha, str_app_nil_r. Qed.

(** ** The whole graph *)

(** The ids of the graph, part by part. *)
Definition parts (ev : RsiCycleEvidence) : list (string * list string) :=
  let cycle := ev_cycle ev in
  [("cap", capability_node_id <$> (node_id <$> sort_by capability_lt (default [] (capabilities ev))));
   ("bot", match bottlenecks ev with [] => [] | _ => [analysis_id cycle] end);
   ("alt", alternative_id cycle <$> (rank_node_id <$> take MAX_ALTERNATIVES (tail (bottlenecks ev))));
   ("hyp", match own_hypothesis ev with
           | Some h => [hypothesis_node_id h; prediction_id h; falsification_id h] | None => [] end);
   ("dia", match own_diagnostic ev with Some _ => [diagnostic_id cycle] | None => [] end);
   ("rec", match own_receipt ev with Some r => [receipt_node_id r; summary_id r] | None => [] end);
   ("rat", match own_ratification ev with Some x => [ratification_id x] | None => [] end);
   ("con", [conclusion_id cycle])].

Lemma graph_ids ev : nid <$> doc_nodes (evidence_graph ev) = mjoin (parts ev).*2.
Proof.
  rewrite graph_nodes. unfold body, evidence_nodes. rewrite !fmap_app, capability_ids, ranking_ids,
    hypothesis_ids, diagnosis_ids, receipt_ids, ratification_ids.
  cbn [parts fmap list_fmap snd mjoin list_join]. rewrite !app_nil_r, <- !app_assoc.
  by destruct (bottlenecks ev).
Qed.

Lemma hypothesis_part h :
  part_ok ("hyp", [hypothesis_node_id h; prediction_id h; falsification_id h]).
Proof.
  assert (prediction_id h ≠ hypothesis_node_id h) as Hp by by apply longer_differs.
  assert (falsification_id h ≠ hypothesis_node_id h) as Hf by by apply longer_differs.
  assert (prediction_id h ≠ falsification_id h) as Hpf
    by (intros Hx; by apply (app_inj (hypothesis_node_id h)) in Hx).
  split; [|by repeat constructor]. cbn [snd]. repeat (apply NoDup_cons; split); [set_solver..|].
  apply NoDup_nil_2.
Qed.

Lemma receipt_part r : part_ok ("rec", [receipt_node_id r; summary_id r]).
Proof.
  assert (summary_id r ≠ receipt_node_id r) as Hs by by apply longer_differs.
  split; [|by repeat constructor]. cbn [snd]. repeat (apply NoDup_cons; split); [set_solver..|].
  apply NoDup_nil_2.
Qed.

Lemma ids_unique ev :
  NoDup (node_id <$> default [] (capabilities ev)) → NoDup (rank_node_id <$> bottlenecks ev) →
  NoDup (nid <$> doc_nodes (evidence_graph ev)).
Proof.
  intros Hc Hr. rewrite graph_ids. apply parts_distinct.
  { by apply (bool_decide_unpack (NoDup ["cap"; "bot"; "alt"; "hyp"; "dia"; "rec"; "rat"; "con"])). }
  unfold parts. repeat (apply Forall_cons; split).
  - apply part_map; [by rewrite sort_by_perm|exact _|done].
  - destruct (bottlenecks ev); [apply part_none|by apply part_one].
  - apply part_map; [|intros x y; unfold alternative_id; by intros ?%(inj _)%(inj _)%(inj _)|done].
    destruct (bottlenecks ev) as [|b l]; [apply NoDup_nil_2|]. cbn in Hr |- *.
    apply NoDup_cons in Hr as [_ Hr]. rewrite fmap_take. by eapply sublist_NoDup; [|apply sublist_take].
  - destruct (own_hypothesis ev); [apply hypothesis_part|apply part_none].
  - destruct (own_diagnostic ev); [by apply part_one|apply part_none].
  - destruct (own_receipt ev); [apply receipt_part|apply part_none].
  - destruct (own_ratification ev); [by apply part_one|apply part_none].
  - by apply part_one.
  - done.
Qed.

(** ** Links of the parts *)

Lemma ranking_grounded cycle known ids ranks :
  (∀ i, i ∈ ids → i ∈ known) → grounded known (ranking_nodes cycle ids ranks).
Proof.
  intros Hk. destruct ranks as [|top others]; [done|]. cbn [ranking_nodes grounded]. split.
  - apply edges_to, Forall_forall. intros i Hi. apply Hk.
    rewrite <- (take_drop (N.to_nat MAX_PARENTS) ids). apply elem_of_app. by left.
  - apply grounded_known, Forall_fmap, Forall_true. intros b. apply Forall_singleton. by left.
Qed.

Lemma hypothesis_grounded cycle known ranks h :
  (ranks ≠ [] → analysis_id cycle ∈ known) →
  grounded known (hypothesis_nodes cycle (head ranks) h).
Proof.
  intros Hk. destruct h as [h|]; [|done]. cbn [hypothesis_nodes grounded].
  destruct (hypothesis_node_shape cycle (head ranks) h) as (Hi & _ & Hp),
    (prediction_node_shape h) as (Hi' & _ & Hp').
  rewrite Hi, Hi', Hp, Hp'. split_and!; [|by apply Forall_singleton; left|apply Forall_singleton; set_solver|done].
  destruct ranks as [|b ranks]; [done|]. cbn [head]. destruct (hypothesis_derived_from h b); [|done].
  by apply Forall_singleton, Hk.
Qed.

Lemma diagnosis_grounded cycle known h d :
  (∀ h', h = Some h' → hypothesis_node_id h' ∈ known) →
  grounded known match d with Some d => [diagnosis_node cycle h d] | None => [] end.
Proof.
  intros Hk. destruct d as [d|]; [|done]. cbn [grounded]. split; [|done].
  rewrite (proj2 (proj2 (diagnosis_node_shape cycle h d))).
  destruct (diagnosis_links_cases h d) as [->|(h' & Hh & ->)]; [done|]. by apply Forall_singleton, Hk.
Qed.

Lemma receipt_grounded known r : grounded known (receipt_nodes r).
Proof. destruct r as [r|]; [|done]. split; [done|]. split; [|done]. by apply Forall_singleton; left. Qed.

Lemma ratification_grounded known r rat :
  (∀ r', r = Some r' → receipt_node_id r' ∈ known) → grounded known (ratification_nodes r rat).
Proof.
  intros Hk. destruct rat as [x|]; [|done]. split; [|done]. destruct r as [r|]; [|done].
  by apply Forall_singleton, Hk.
Qed.

Lemma graph_grounded ev : grounded [] (doc_nodes (evidence_graph ev)).
Proof.
  rewrite graph_nodes. apply grounded_app.
  - unfold body, evidence_nodes. set (metrics := capability_nodes (capabilities ev)).
    apply grounded_app; [apply grounded_free, capability_nodes_free|].
    apply grounded_app; [apply ranking_grounded; set_solver|].
    apply grounded_app; [|apply grounded_app; [|apply grounded_app; [apply receipt_grounded|]]].
    + apply hypothesis_grounded. intros Hr. rewrite ranking_ids.
      destruct (bottlenecks ev); [done|]. by left.
    + apply diagnosis_grounded. intros h ->. rewrite hypothesis_ids. by left.
    + apply ratification_grounded. intros r ->. rewrite receipt_ids. by left.
  - split; [|done]. apply edges_to, Forall_forall. intros i Hi. rewrite app_nil_r.
    unfold body, evidence_nodes. rewrite !fmap_app, hypothesis_ids, diagnosis_ids, receipt_ids,
      ratification_ids. unfold conclusion_parents in Hi.
    destruct (own_hypothesis ev), (own_diagnostic ev), (own_receipt ev), (own_ratification ev);
      set_solver.
Qed.

Lemma parents_capped ev n :
  n ∈ doc_nodes (evidence_graph ev) → (length (parents n) <= N.to_nat MAX_PARENTS)%nat.
Proof.
  assert (6 <= N.to_nat MAX_PARENTS)%nat as Hcap by (vm_compute; lia).
  rewrite graph_nodes. intros [Hn| ->%list_elem_of_singleton]%elem_of_app.
  2: { cbn [parents conclusion conclusion_node node]. rewrite length_fmap. unfold conclusion_parents.
    destruct (own_hypothesis ev), (own_diagnostic ev), (own_receipt ev), (own_ratification ev);
      cbn; lia. }
  unfold body, evidence_nodes in Hn. rewrite !elem_of_app in Hn.
  destruct Hn as [Hn|[Hn|[Hn|[Hn|[Hn|Hn]]]]].
  - pose proof (capability_nodes_free (capabilities ev)) as Hf. rewrite Forall_forall in Hf.
    rewrite (Hf n Hn). cbn. lia.
  - destruct (bottlenecks ev) as [|top others]; [by apply not_elem_of_nil in Hn|].
    apply elem_of_cons in Hn as [->|(b & -> & _)%list_elem_of_fmap]; [|cbn; lia].
    cbn [parents analysis_node node]. rewrite length_fmap, length_take. lia.
  - destruct (own_hypothesis ev) as [h|]; [|by apply not_elem_of_nil in Hn]. cbn [hypothesis_nodes] in Hn.
    apply elem_of_cons in Hn as [-> |[->| ->%list_elem_of_singleton]%elem_of_cons].
    + rewrite (proj2 (proj2 (hypothesis_node_shape _ _ h))). repeat case_match; cbn; lia.
    + rewrite (proj2 (proj2 (prediction_node_shape h))). cbn. lia.
    + cbn. lia.
  - destruct (own_diagnostic ev) as [d|]; [|by apply not_elem_of_nil in Hn].
    apply list_elem_of_singleton in Hn as ->.
    rewrite (proj2 (proj2 (diagnosis_node_shape _ (own_hypothesis ev) d))).
    destruct (diagnosis_links_cases (own_hypothesis ev) d) as [->|(h & _ & ->)]; cbn; lia.
  - destruct (own_receipt ev) as [r|]; [|by apply not_elem_of_nil in Hn].
    apply elem_of_cons in Hn as [->| ->%list_elem_of_singleton]; cbn; lia.
  - destruct (own_ratification ev) as [x|]; [|by apply not_elem_of_nil in Hn].
    apply list_elem_of_singleton in Hn as ->. cbn. destruct (own_receipt ev); cbn; lia.
Qed.

(** C39: the evidence graph of a cycle is acyclic and complete in itself: every link of a node leads to a
    node that stands before it, a node has no more links than the contract allows, the last node is
    the conclusion of the cycle, and - when the graph's and the ranking's stages have ids of their
    own - no two nodes share an id. *)
Theorem explanation_well_founded ev :
  NoDup (node_id <$> default [] (capabilities ev)) → NoDup (rank_node_id <$> bottlenecks ev) →
  let ns := doc_nodes (evidence_graph ev) in
  (∀ i n e, ns !! i = Some n → e ∈ parents n →
     ∃ j n', (j < i)%nat ∧ ns !! j = Some n' ∧ nid n' = to e)
  ∧ (∀ n, n ∈ ns → (length (parents n) <= N.to_nat MAX_PARENTS)%nat)
  ∧ nid <$> last ns = Some (conclusion_id (ev_cycle ev)) ∧ NoDup (nid <$> ns).
Proof.
  intros Hc Hr. cbv zeta. split_and!.
  - intros i n e Hi He.
    destruct (grounded_lookup [] _ i n e (graph_grounded ev) Hi He) as [[]%not_elem_of_nil|Hj]; done.
  - apply parents_capped.
  - rewrite graph_nodes. by rewrite last_snoc.
  - by apply ids_unique.
Qed.

(** ** Only the cycle's own artifacts *)

(** The evidence without what belongs to another cycle. *)
Definition own (ev : RsiCycleEvidence) : RsiCycleEvidence :=
  {| ev_cycle := ev_cycle ev; capabilities := capabilities ev; bottlenecks := bottlenecks ev;
     ev_hypothesis := own_hypothesis ev; ev_diagnostic := own_diagnostic ev;
     ev_receipt := own_receipt ev; ev_ratification := own_ratification ev |}.

Lemma own_twice ev :
  own_hypothesis (own ev) = own_hypothesis ev ∧ own_diagnostic (own ev) = own_diagnostic ev
  ∧ own_receipt (own ev) = own_receipt ev ∧ own_ratification (own ev) = own_ratification ev.
Proof.
  assert (own_receipt (own ev) = own_receipt ev) as Hr.
  { unfold own_receipt. cbn. unfold own_receipt. destruct (ev_receipt ev) as [r|]; [|done]. cbn.
    case_bool_decide as Hc; [|done]. cbn. by rewrite bool_decide_eq_true_2. }
  split_and!; [| |exact Hr|].
  - unfold own_hypothesis. cbn. unfold own_hypothesis. destruct (ev_hypothesis ev) as [h|]; [|done].
    cbn. case_bool_decide as Hc; [|done]. cbn. by rewrite bool_decide_eq_true_2.
  - unfold own_diagnostic. cbn. unfold own_diagnostic. destruct (ev_diagnostic ev) as [d|]; [|done].
    cbn. case_bool_decide as Hc; [|done]. cbn. by rewrite bool_decide_eq_true_2.
  - unfold own_ratification at 1. rewrite Hr. cbn [own ev_ratification].
    unfold own_ratification. destruct (ev_ratification ev) as [x|]; [|done].
    cbn. case_bool_decide as Hc; [|done]. cbn. by rewrite bool_decide_eq_true_2.
Qed.

(** How an explanation declares an artifact it leaves out: one of another cycle, by its kind, name
    and cycle, and a ratification whose candidate no receipt of the cycle is for. *)
Definition of_other_cycle (kind name theirs cycle : string) : MissingDoc :=
  {| expected := concat_all ["the "; kind; " for cycle "; cycle];
     reason := concat_all ["the supplied "; kind; " "; name; " belongs to cycle "; theirs;
                           "; it was left out"] |}.
Definition without_receipt (proposal cycle : string) : MissingDoc :=
  {| expected := concat_all ["an evaluation receipt of cycle "; cycle; " for proposal "; proposal];
     reason := "the supplied ratification matches no receipt of this cycle; it was left out" |}.

Inductive declares (ev : RsiCycleEvidence) : MissingDoc → Prop :=
  | declares_hypothesis h : ev_hypothesis ev = Some h → hypothesis_cycle_id h ≠ ev_cycle ev →
      declares ev (of_other_cycle "hypothesis" (hypothesis_id h) (hypothesis_cycle_id h) (ev_cycle ev))
  | declares_diagnostic d : ev_diagnostic ev = Some d → diag_cycle_id d ≠ ev_cycle ev →
      declares ev (of_other_cycle "diagnostic" (diag_target_file d) (diag_cycle_id d) (ev_cycle ev))
  | declares_receipt r : ev_receipt ev = Some r → cycle_id r ≠ ev_cycle ev →
      declares ev (of_other_cycle "evaluation receipt" (candidate_id r) (cycle_id r) (ev_cycle ev))
  | declares_ratification x : ev_ratification ev = Some x →
      (∀ r, ev_receipt ev = Some r → cycle_id r = ev_cycle ev → candidate_id r ≠ rat_proposal_id x) →
      declares ev (without_receipt (rat_proposal_id x) (ev_cycle ev)).

Lemma same_cycle_declares {A} cycle what (i t : A → string) (o : option A) md :
  md ∈ (same_cycle cycle what i t o).2 ↔
  ∃ a, o = Some a ∧ t a ≠ cycle ∧ md = of_other_cycle what (i a) (t a) cycle.
Proof.
  destruct o as [a|]; cbn; [|rewrite elem_of_nil; naive_solver].
  case_bool_decide; cbn; rewrite ?elem_of_nil, ?list_elem_of_singleton; naive_solver.
Qed.

Lemma matched_declares ev md :
  md ∈ (matched (ev_cycle ev) (own_receipt ev) (ev_ratification ev)).2 ↔
  ∃ x, ev_ratification ev = Some x
    ∧ (∀ r, ev_receipt ev = Some r → cycle_id r = ev_cycle ev → candidate_id r ≠ rat_proposal_id x)
    ∧ md = without_receipt (rat_proposal_id x) (ev_cycle ev).
Proof.
  assert (∀ x, candidate_id <$> own_receipt ev ≠ Some (rat_proposal_id x) ↔
    ∀ r, ev_receipt ev = Some r → cycle_id r = ev_cycle ev → candidate_id r ≠ rat_proposal_id x) as Hown.
  { intros x. unfold own_receipt. destruct (ev_receipt ev) as [r|]; cbn; [|by split].
    case_bool_decide as Hc; cbn.
    - split; [intros Hn r' [= <-] _ Hp; apply Hn; congruence|]. intros Hn [= Hp]. by apply (Hn r).
    - split; [|done]. by intros _ r' [= <-]. }
  destruct (ev_ratification ev) as [x|]; cbn; [|rewrite elem_of_nil; split; [done|by intros (? & ? & _)]].
  case_bool_decide as Hc; cbn; rewrite ?elem_of_nil, ?list_elem_of_singleton.
  - split; [done|]. intros (x' & [= <-] & Hn & _). by apply Hown in Hn.
  - split.
    + intros ->. exists x. split_and!; [done|by apply Hown|done].
    + by intros (x' & [= <-] & _ & ->).
Qed.

Lemma left_out_declares ev md : md ∈ left_out ev ↔ declares ev md.
Proof.
  unfold left_out. rewrite !elem_of_app, !same_cycle_declares, matched_declares. split.
  - intros [(a & ? & ? & ->)|[(a & ? & ? & ->)|[(a & ? & ? & ->)|(a & ? & ? & ->)]]].
    + by apply declares_hypothesis.
    + by apply declares_diagnostic.
    + by apply declares_receipt.
    + by apply declares_ratification.
  - intros [a ? ?|a ? ?|a ? ?|a ? ?]; eauto 10.
Qed.

(** Nothing is left out of the cycle's own artifacts. *)
Lemma own_declares ev md : ¬ declares (own ev) md.
Proof.
  destruct (own_twice ev) as (Hh & Hd & Hr & Ht). intros [a Ha Hn|a Ha Hn|a Ha Hn|a Ha Hn]; cbn in Ha, Hn.
  - unfold own_hypothesis in Ha. destruct (ev_hypothesis ev); cbn in Ha; [|done].
    case_bool_decide; [|done]. by injection Ha as ->.
  - unfold own_diagnostic in Ha. destruct (ev_diagnostic ev); cbn in Ha; [|done].
    case_bool_decide; [|done]. by injection Ha as ->.
  - unfold own_receipt in Ha. destruct (ev_receipt ev); cbn in Ha; [|done].
    case_bool_decide; [|done]. by injection Ha as ->.
  - unfold own_ratification in Ha. destruct (ev_ratification ev) as [x|]; cbn in Ha; [|done].
    case_bool_decide as Hc; [|done]. injection Ha as ->.
    apply fmap_Some in Hc as (r & Hor & Hp). apply (Hn r); [done| |done].
    unfold own_receipt in Hor. destruct (ev_receipt ev); cbn in Hor; [|done].
    case_bool_decide; [|done]. by injection Hor as ->.
Qed.

Definition with_missing (l : list MissingDoc) (n : NodeDoc) : NodeDoc :=
  {| nid := nid n; nkind := nkind n; nstatus := nstatus n; statement := statement n;
     source := source n; confidence_permille := confidence_permille n;
     confidence_basis := confidence_basis n; parents := parents n; measurements := measurements n;
     missing := l; node_notes := node_notes n |}.

Lemma status_cases ev n :
  n ∈ body ev → nstatus n = STATUS_VERIFIED_FACT →
  ∃ r, own_receipt ev = Some r ∧ n = receipt_node r ∧ verify_digest r = true.
Proof.
  unfold body, evidence_nodes. rewrite !elem_of_app. intros [Hn|[Hn|[Hn|[Hn|[Hn|Hn]]]]] Hs.
  - destruct (capabilities ev) as [cs|]; [|by apply not_elem_of_nil in Hn]. exfalso.
    apply list_elem_of_fmap in Hn as (cap & -> & _). by apply capability_node_shape in Hs.
  - exfalso. destruct (bottlenecks ev) as [|top others]; [by apply not_elem_of_nil in Hn|].
    by apply elem_of_cons in Hn as [->|(b & -> & _)%list_elem_of_fmap].
  - exfalso. destruct (own_hypothesis ev) as [h|]; [|by apply not_elem_of_nil in Hn].
    cbn [hypothesis_nodes] in Hn.
    apply elem_of_cons in Hn as [->|[->| ->%list_elem_of_singleton]%elem_of_cons]; [| |done].
    + by rewrite (proj1 (proj2 (hypothesis_node_shape _ _ h))) in Hs.
    + by rewrite (proj1 (proj2 (prediction_node_shape h))) in Hs.
  - exfalso. destruct (own_diagnostic ev) as [d|]; [|by apply not_elem_of_nil in Hn].
    apply list_elem_of_singleton in Hn as ->.
    by rewrite (proj1 (proj2 (diagnosis_node_shape _ (own_hypothesis ev) d))) in Hs.
  - destruct (own_receipt ev) as [r|]; [|by apply not_elem_of_nil in Hn].
    apply elem_of_cons in Hn as [->| ->%list_elem_of_singleton]; [|done]. exists r.
    cbn in Hs. by destruct (verify_digest r).
  - exfalso. destruct (own_ratification ev) as [x|]; [|by apply not_elem_of_nil in Hn].
    by apply list_elem_of_singleton in Hn as ->.
Qed.

(** C24: an explanation rests on the cycle's own artifacts: the only statement shown as a verified fact
    is the receipt of this cycle, and only when its digest matches its contents; and artifacts of
    another cycle - a hypothesis, a diagnosis, a receipt, a ratification without a receipt of its
    proposal - change nothing, in no field of any node, but the conclusion's list of what is
    missing, which gains a declaration of each of them and nothing else. *)
Theorem explanation_only_own ev :
  let ns := doc_nodes (evidence_graph ev) in
  (∀ n, n ∈ ns → nstatus n = STATUS_VERIFIED_FACT →
     ∃ r, ev_receipt ev = Some r ∧ cycle_id r = ev_cycle ev ∧ n = receipt_node r
          ∧ verify_digest r = true)
  ∧ ∃ b n0 l, doc_nodes (evidence_graph (own ev)) = b ++ [n0] ∧ ns = b ++ [with_missing l n0]
     ∧ ∀ md, md ∈ l ↔ md ∈ missing n0 ∨ declares ev md.
Proof.
  cbv zeta. rewrite !graph_nodes. split.
  - intros n [Hn| ->%list_elem_of_singleton]%elem_of_app Hs.
    + destruct (status_cases ev n Hn Hs) as (r & Hr & -> & Hv). exists r. unfold own_receipt in Hr.
      destruct (ev_receipt ev) as [r'|]; [|done]. cbn in Hr. case_bool_decide; [|done].
      injection Hr as ->. by split_and!.
    + cbn in Hs. by destruct (ratified _).
  - destruct (own_twice ev) as (Hh & Hd & Hr & Ht).
    exists (body ev), (conclusion (own ev)), (missing (conclusion ev)). split_and!.
    + f_equal. unfold body. by rewrite Hh, Hd, Hr, Ht.
    + unfold conclusion. by rewrite Hh, Hd, Hr, Ht.
    + intros md. unfold conclusion. rewrite Hh, Hd, Hr, Ht. cbn [missing conclusion_node node].
      rewrite !elem_of_app, !left_out_declares. pose proof (own_declares ev md).
      cbn [own ev_cycle]. tauto.
Qed.

(** ** The order of the capability map *)

Lemma same_key {A} (f : A → string) l a b : NoDup (f <$> l) → a ∈ l → b ∈ l → f a = f b → a = b.
Proof.
  intros Hn [i Hi]%list_elem_of_lookup [j Hj]%list_elem_of_lookup Hf.
  assert (i = j) as ->; [|congruence]. apply (NoDup_lookup _ _ _ (f a) Hn).
  - by rewrite list_lookup_fmap, Hi.
  - by rewrite list_lookup_fmap, Hj, Hf.
Qed.

#[local] Instance capability_order : WeakOrder (λ _, True) capability_lt.
Proof. exact (weak_pull node_id str_lt str_lt_order). Qed.

(** The evidence with the capability nodes in an order of iteration. *)
Definition in_order (cs : list CapabilityNode) (ev : RsiCycleEvidence) : RsiCycleEvidence :=
  {| ev_cycle := ev_cycle ev; capabilities := Some cs; bottlenecks := bottlenecks ev;
     ev_hypothesis := ev_hypothesis ev; ev_diagnostic := ev_diagnostic ev;
     ev_receipt := ev_receipt ev; ev_ratification := ev_ratification ev |}.

(** the explanation is the same document for every order in which the capability map is iterated. *)
Theorem explanation_order_free ev caps caps' :
  NoDup (node_id <$> caps) → caps ≡ₚ caps' →
  evidence_graph (in_order caps ev) = evidence_graph (in_order caps' ev).
Proof.
  intros Hn Hp. unfold evidence_graph. cbn [in_order ev_cycle capabilities bottlenecks ev_hypothesis
    ev_diagnostic ev_receipt ev_ratification].
  assert (capability_nodes (Some caps) = capability_nodes (Some caps')) as Hsame.
  { cbn. f_equal. apply (sort_by_canonical (λ _, True) capability_lt); [by apply Forall_true|done|].
    intros a b Ha Hb Hab Hba. by apply (same_key node_id caps a b Hn Ha Hb), str_lt_tie. }
  unfold evidence_nodes. by rewrite Hsame.
Qed.

(** ** The conclusion and the ratifier *)

(** The conclusion counts as more than a hypothesis only for a record with the status [Ratified];
    the ratifier never writes one, so whatever it did, the conclusion stays a hypothesis. *)
Lemma ratified_never_concluded i p ok text roots dir repo rec ev :
  (ratify_proposal i p ok text roots dir repo).2 = Ok rec → ev_ratification ev = Some rec →
  nstatus <$> last (doc_nodes (evidence_graph ev)) = Some STATUS_HYPOTHESIS.
Proof.
  intros Hr He. rewrite graph_nodes, last_snoc. cbn.
  assert (ratified (own_ratification ev) = false) as ->; [|done].
  unfold own_ratification. rewrite He. cbn. case_bool_decide; [|done]. cbn.
  apply bool_decide_eq_false_2. intros Hs.
  unfold ratify_proposal in Hr. destruct (check_proposal _ _ _ _ _) as [[br st]|e].
  - destruct (create_review_branch _ _ _ _) as [r' [[]|e]]; [|injection Hr as <-; discriminate].
    destruct (formatted i) as [t|]; [|done]. cbn in Hr. destruct (patch_dir_made i); [|done]. cbn in Hr.
    unfold write_patch in Hr. destruct (patch_written i); [|done]. cbn in Hr.
    injection Hr as <-. discriminate.
  - injection Hr as <-. discriminate.
Qed.
End Explain.

Module ExplainExample.
Import Checksum KeyedChecksum.

Definition stage (i n : string) (median : option f64) : CapabilityNode :=
  match median with
  | Some v => match with_measured_latency v None (f64_of_N 0) 3 (new_node i n "engine") with
              | Ok c => c | Err _ => new_node i n "engine" end
  | None => new_node i n "engine"
  end.
Definition caps : list CapabilityNode :=
  [stage "propose" "Propose Subsystem" None; stage "observe" "Observe Subsystem" (Some (f64_of_N 40))].
Definition ranking (cs : list CapabilityNode) : list BottleneckRank :=
  default [] (rank_bottlenecks ((λ c, (node_id c, c)) <$> cs)
                {| nodes := list_to_map ((λ c, (node_id c, c)) <$> cs); edges := [] |}).
Definition claim (b : BottleneckRank) : HypothesisContract :=
  from_bottleneck "h1" "c1" b (f64_of_N 5).
Definition evidence : RsiCycleEvidence :=
  {| ev_cycle := "c1"; capabilities := Some caps; bottlenecks := ranking caps;
     ev_hypothesis := claim <$> head (ranking caps);
     ev_diagnostic := (λ b, with_hypothesis (claim b)
       (from_violations "c1" "src/lib.rs" "" PerformanceRegression ["slow"] ["a lesson"]))
       <$> head (ranking caps);
     ev_receipt := None; ev_ratification := None |}.

(** The nodes of a small cycle and what they rest on. *)
Example explained :
  (λ n, (nid n, nstatus n, to <$> parents n)) <$> doc_nodes (evidence_graph evidence)
  = [("rsi:capability:observe", STATUS_DIRECT_OBSERVATION, []);
     ("rsi:capability:propose", STATUS_UNCLASSIFIED, []);
     ("rsi:bottleneck:c1", STATUS_INFERENCE, ["rsi:capability:observe"; "rsi:capability:propose"]);
     ("rsi:alternative:c1:propose", STATUS_INFERENCE, ["rsi:bottleneck:c1"]);
     ("rsi:hypothesis:h1", STATUS_HYPOTHESIS, ["rsi:bottleneck:c1"]);
     ("rsi:hypothesis:h1:prediction", STATUS_HYPOTHESIS, ["rsi:hypothesis:h1"]);
     ("rsi:hypothesis:h1:falsification", STATUS_HYPOTHESIS, ["rsi:hypothesis:h1"]);
     ("rsi:diagnostic:c1", STATUS_INFERENCE, ["rsi:hypothesis:h1"]);
     ("rsi:conclusion:c1", STATUS_HYPOTHESIS,
      ["rsi:diagnostic:c1"; "rsi:hypothesis:h1:prediction"; "rsi:hypothesis:h1:falsification"])].
Proof. vm_compute. reflexivity. Qed.

(** The first stage is measured and has no p95; the link to it is still explained by one. *)
Example link_names_p95 :
  rank_latency_p95_us_measured <$> head (ranking caps) = Some None
  ∧ (λ h, reason <$> missing (hypothesis_node "c1" (head (ranking caps)) h)) <$> ev_hypothesis evidence
    = Some ["linked only because the hypothesis text names 'Observe Subsystem' and its baseline equals that bottleneck's p95 latency"].
Proof. vm_compute. by split. Qed.
End ExplainExample.

Section Witnesses.
Import Checksum KeyedChecksum ExplainExample.

Lemma explanation_well_founded_witness :
  ∃ n, last (doc_nodes (evidence_graph evidence)) = Some n ∧ nid n = "rsi:conclusion:c1".
Proof.
  assert (NoDup (node_id <$> default [] (capabilities evidence))) as Hc
    by (apply (bool_decide_unpack _); vm_compute; exact I).
  assert (NoDup (rank_node_id <$> bottlenecks evidence)) as Hr
    by (apply (bool_decide_unpack _); vm_compute; exact I).
  pose proof (explanation_well_founded evidence Hc Hr) as Hall. cbv zeta in Hall.
  destruct Hall as (_ & _ & Hl & _). destruct (last _) as [n|]; [|discriminate Hl].
  exists n. split; [reflexivity|]. injection Hl as Hn. exact Hn.
Defined.

Lemma explanation_order_free_witness :
  evidence_graph (in_order caps evidence) = evidence_graph (in_order (rev caps) evidence).
Proof.
  assert (NoDup (node_id <$> caps)) as Hc by (apply (bool_decide_unpack _); vm_compute; exact I).
  exact (explanation_order_free evidence caps (rev caps) Hc (Permutation_rev caps)).
Defined.
End Witnesses.
