(* ===== verification/Jail.v ===== *)
(** The jails ([src/isolation/container.rs], [cargo_sandbox.rs]): the command lines of the build,
    the GPU and the candidate jail and of the judge's cargo sandbox, and the loop that waits for a
    jailed process until its deadline.

    What exists on the host, the environment variables and the ids of the user are inputs; the
    waiting loop takes the answers of the process and the clock, poll by poll.  Paths are text. *)

From S2P Require Import Prelude RustStd RustPath RustNum RustFloat PatchGate.
#[local] Open Scope string_scope.
#[local] Open Scope list_scope.

Record SandboxLimits := {
  max_memory_mb : N;
  max_cpu_percent : N;
  max_pids : N;
  timeout_seconds : N
}.
Definition default_limits : SandboxLimits :=
  {| max_memory_mb := 16384; max_cpu_percent := 800; max_pids := 256; timeout_seconds := 180 |}.
Definition new_limits (memory cpu pids timeout : N) : SandboxLimits :=
  {| max_memory_mb := memory; max_cpu_percent := cpu; max_pids := pids; timeout_seconds := timeout |}.

(** ** Waiting for a process *)

(** What [try_wait] answers, with the bytes that can be read from the ended process. *)
Inductive poll := Exited (success : bool) (stdout stderr : string) | StillRunning | WaitFails (e : string).

(** How the wait ended, and whether the process was killed. *)
Record Waited := { killed : bool; answer : result (bool * string * string) }.

Definition micros (n : N) : N := n * 1000.
Definition millis (n : N) : N := n * 1000000.

(** The pause before the next poll, in nanoseconds. *)
Definition next_interval (elapsed interval : N) : N :=
  if ((millis 50 <? elapsed) && (interval <? millis 1))%N then millis 1
  else if (millis 500 <? elapsed)%N then millis 5
  else interval.

(** [polls k] is what the [k]-th poll answers and [clock k] the time elapsed at it.  The second
    part of the result are the pauses that were made. *)
Fixpoint wait_loop (fuel : nat) (timeout_secs : N) (polls : nat → poll) (clock : nat → N) (k : nat)
    (interval : N) : option (Waited * list N) :=
  match fuel with
  | O => None
  | S fuel =>
    match polls k with
    | Exited success out err => Some ({| killed := false; answer := Ok (success, read_text out, read_text err) |}, [])
    | StillRunning =>
      if (timeout_secs * 1000000000 <=? clock k)%N then
        Some ({| killed := true;
                 answer := fail "Process timed out after {} seconds" [dec timeout_secs] |}, [])
      else
        let interval := next_interval (clock k) interval in
        '(w, pauses) ← wait_loop fuel timeout_secs polls clock (S k) interval;
        Some (w, interval :: pauses)
    | WaitFails e =>
      Some ({| killed := true; answer := fail "Error waiting on child process: {}" [e] |}, [])
    end
  end.

Definition FIRST_INTERVAL : N := micros 100.
Definition execute_with_timeout (fuel : nat) (timeout_secs : N) (spawned : result unit)
    (polls : nat → poll) (clock : nat → N) : option (Waited * list N) :=
  match spawned with
  | Err e => Some ({| killed := false; answer := fail "Failed to spawn process: {}" [render e] |}, [])
  | Ok _ => wait_loop fuel timeout_secs polls clock 0 FIRST_INTERVAL
  end.

(** ** The host *)

Record Host := {
  exists_ : string → bool;
  is_dir : string → bool;
  is_file : string → bool;
  env : string → option string;
  uid : N;
  gid : N
}.

Definition DEFAULT_HOME : string := "/home/drakestapleton".
Definition home_of (h : Host) : string := default DEFAULT_HOME (env h "HOME").

(** A read-only bind of a path to itself, when it is there. *)
Definition bind_if (h : Host) (p : string) : list string :=
  if exists_ h p then ["--ro-bind"; p; p] else [].

Definition jail_path (home : string) : string :=
  home +:+ "/.cargo/bin:/usr/local/cuda/bin:/usr/local/bin:/usr/bin:/bin".

(** ** Docker *)

Definition cpus (l : SandboxLimits) : string :=
  fmt_fixed 2 (f64_div (f64_of_N (max_cpu_percent l)) (f64_of_N 100)).
Definition docker_limits (h : Host) (l : SandboxLimits) : list string :=
  ["--read-only"; "--cap-drop"; "ALL"; "--security-opt"; "no-new-privileges";
   "--memory"; dec (max_memory_mb l) +:+ "m"; "--cpus"; cpus l; "--pids-limit"; dec (max_pids l);
   "-u"; concat_all [dec (uid h); ":"; dec (gid h)]].

Record BuildJail := {
  builder_image : string;
  host_source_dir : string;
  host_output_dir : string;
  build_limits : SandboxLimits
}.
Definition new_build_jail (image source output : string) : BuildJail :=
  {| builder_image := image; host_source_dir := source; host_output_dir := output;
     build_limits := default_limits |}.

Definition build_docker_args (h : Host) (j : BuildJail) (command : list string) : list string :=
  ["run"; "--rm"; "--network"; "none"] ++ docker_limits h (build_limits j)
  ++ ["-v"; host_source_dir j +:+ ":/workspace/src:ro"; "-v"; host_output_dir j +:+ ":/output:rw";
      "--tmpfs"; "/tmp:rw,size=4G,mode=1777"; "--tmpfs"; "/build:rw,size=8G,mode=1777";
      "-w"; "/build"; builder_image j]
  ++ command.

Record GpuEvaluationJail := {
  eval_image : string;
  host_artifact_dir : string;
  cdi_device : string;
  gpu_limits : SandboxLimits
}.
Definition new_gpu_jail (image artifacts : string) : GpuEvaluationJail :=
  {| eval_image := image; host_artifact_dir := artifacts; cdi_device := "nvidia.com/gpu=0";
     gpu_limits := new_limits 49152 800 256 300 |}.

Definition gpu_docker_args (h : Host) (j : GpuEvaluationJail) (command : list string) : list string :=
  ["run"; "--rm"; "--network"; "none"; "--device"; cdi_device j] ++ docker_limits h (gpu_limits j)
  ++ ["-v"; host_artifact_dir j +:+ ":/artifacts:ro"; "--tmpfs"; "/tmp:rw,size=4G,mode=1777";
      "-w"; "/artifacts"; eval_image j]
  ++ command.

(** ** Bubblewrap *)

Definition unshared : list string :=
  ["--unshare-user"; "--unshare-ipc"; "--unshare-pid"; "--unshare-net"; "--unshare-uts";
   "--die-with-parent"].
Definition system_mounts : list string :=
  ["--ro-bind"; "/usr"; "/usr"; "--ro-bind"; "/lib"; "/lib"; "--proc"; "/proc"; "--dev"; "/dev";
   "--tmpfs"; "/tmp"].
(** The rest of the system and the toolchain of the user, where they exist. *)
Definition host_mounts (h : Host) : list string :=
  bind_if h "/lib64" ++ bind_if h "/bin" ++ bind_if h "/etc"
  ++ bind_if h (path_join (home_of h) ".cargo") ++ bind_if h (path_join (home_of h) ".rustup").
Definition jail_env (h : Host) : list string :=
  ["--setenv"; "PATH"; jail_path (home_of h); "--setenv"; "HOME"; home_of h].

Definition TARGET_DIR : string := "/tmp/spark-rsi-target".
Definition build_bwrap_args (h : Host) (j : BuildJail) (command : list string) : list string :=
  unshared ++ system_mounts
  ++ ["--ro-bind"; host_source_dir j; "/workspace/src"; "--bind"; host_output_dir j; "/output";
      "--chdir"; "/output"]
  ++ host_mounts h
  ++ ["--bind"; TARGET_DIR; TARGET_DIR; "--setenv"; "CARGO_TARGET_DIR"; TARGET_DIR]
  ++ jail_env h ++ command.

Record CandidateJailRunner := {
  candidate_bin : string;
  working_dir : option string;
  runner_limits : SandboxLimits
}.
Definition new_runner (bin : string) : CandidateJailRunner :=
  {| candidate_bin := bin; working_dir := None; runner_limits := new_limits 49152 800 256 30 |}.
Definition with_working_dir (dir : string) (r : CandidateJailRunner) : CandidateJailRunner :=
  {| candidate_bin := candidate_bin r; working_dir := Some dir; runner_limits := runner_limits r |}.
Definition with_timeout_seconds (t : N) (r : CandidateJailRunner) : CandidateJailRunner :=
  let l := runner_limits r in
  {| candidate_bin := candidate_bin r; working_dir := working_dir r;
     runner_limits := new_limits (max_memory_mb l) (max_cpu_percent l) (max_pids l) t |}.

Definition bin_dir (r : CandidateJailRunner) : string :=
  default "/" (path_parent (candidate_bin r)).
Definition in_jail_bin (r : CandidateJailRunner) : string :=
  "/app/" +:+ default "candidate" (file_name (candidate_bin r)).

Definition runner_bwrap_args (h : Host) (r : CandidateJailRunner) (args : list string) : list string :=
  unshared ++ ["--clearenv"] ++ system_mounts ++ host_mounts h
  ++ ["--ro-bind"; bin_dir r; "/app"]
  ++ match working_dir r with
     | Some work => ["--bind"; work; "/workspace"; "--chdir"; "/workspace"]
     | None => ["--chdir"; "/tmp"]
     end
  ++ jail_env h ++ [in_jail_bin r] ++ args.

(** ** The judge's cargo sandbox *)

Definition env_dir (h : Host) (var below_home : string) : option string :=
  d ← match env h var with
      | Some v => Some v
      | None => (λ home, path_join home below_home) <$> env h "HOME"
      end;
  if is_dir h d then Some d else None.

(** A directory that is not the home and does not hold it. *)
Definition safe_dir (h : Host) (d : string) : bool :=
  match env h "HOME" with
  | Some home => negb (component_prefix (components d) (components home))
  | None => true
  end.
Definition if_safe (h : Host) (o : option string) : option string :=
  d ← o; if safe_dir h d then Some d else None.

Definition rustup_home (h : Host) : option string := if_safe h (env_dir h "RUSTUP_HOME" ".rustup").
Definition cargo_home (h : Host) : option string := if_safe h (env_dir h "CARGO_HOME" ".cargo").
Definition cargo_dir (h : Host) : option string :=
  if_safe h (List.find (λ d, is_file h (path_join d "cargo"))
               (split_on (ascii_of_N 58) (default "/usr/bin:/bin" (env h "PATH")))).

Definition setenv_dir (var : string) (o : option string) : list string :=
  match o with Some d => ["--setenv"; var; d] | None => [] end.

Definition sandboxed_cargo (h : Host) (tree target : string) (args : list string) : list string :=
  unshared ++ ["--clearenv"; "--proc"; "/proc"; "--dev"; "/dev"; "--tmpfs"; "/tmp"]
  ++ (["/usr"; "/lib"; "/lib64"; "/bin"; "/etc"] ≫= bind_if h)
  ++ ((option_list (rustup_home h) ++ option_list (cargo_home h) ++ option_list (cargo_dir h))
        ≫= λ d, ["--ro-bind"; d; d])
  ++ setenv_dir "RUSTUP_HOME" (rustup_home h) ++ setenv_dir "CARGO_HOME" (cargo_home h)
  ++ ["--ro-bind"; tree; "/src"; "--bind"; target; "/target"; "--setenv"; "PATH";
      join_str ":" (option_list (cargo_dir h) ++ ["/usr/bin"; "/bin"]);
      "--setenv"; "HOME"; "/tmp"; "--setenv"; "CARGO_TARGET_DIR"; "/target";
      "--chdir"; "/src"; "cargo"]
  ++ args.

(** ** Running the jails *)

Section Running.
(** What running a program with arguments does: whether it is spawned, the answers to the polls
    and the clock at them. *)
Context (run : string → list string → result unit * (nat → poll) * (nat → N)).

Definition run_limited (fuel : nat) (program : string) (l : SandboxLimits) (args : list string)
    : option (Waited * list N) :=
  let '(spawned, polls, clock) := run program args in
  execute_with_timeout fuel (timeout_seconds l) spawned polls clock.

Definition build_execute (fuel : nat) (h : Host) (j : BuildJail) (command : list string) :=
  run_limited fuel "docker" (build_limits j) (build_docker_args h j command).
Definition build_execute_bwrap (fuel : nat) (h : Host) (j : BuildJail) (command : list string) :=
  run_limited fuel "bwrap" (build_limits j) (build_bwrap_args h j command).
Definition gpu_execute (fuel : nat) (h : Host) (j : GpuEvaluationJail) (command : list string) :=
  run_limited fuel "docker" (gpu_limits j) (gpu_docker_args h j command).
Definition runner_execute (fuel : nat) (h : Host) (r : CandidateJailRunner) (args : list string) :=
  run_limited fuel "bwrap" (runner_limits r) (runner_bwrap_args h r args).
End Running.
