(* ===== verification/JailProps.v ===== *)
(** The jails: what their command lines ask of bubblewrap, and that waiting for a process ends. *)

From S2P Require Import Prelude RustStd RustPath RustNum PatchGate Jail.
#[local] Open Scope string_scope.
#[local] Open Scope list_scope.

(** ** Reading a command line

    The options as bubblewrap's manual lists them, with their number of arguments; the first word
    that is no option starts the command. *)

Inductive bopt :=
  | Unshare (ns : string) | DieWithParent | ClearEnv
  | ProcAt (d : string) | DevAt (d : string) | TmpfsAt (d : string) | Chdir (d : string)
  | RoBind (s d : string) | Bind (s d : string) | SetEnv (k v : string).

Definition namespaces : list string := ["user"; "ipc"; "pid"; "net"; "uts"].

Definition flag (w : string) : option bopt :=
  if bool_decide (w = "--die-with-parent") then Some DieWithParent
  else if bool_decide (w = "--clearenv") then Some ClearEnv
  else Unshare <$> List.find (λ ns, bool_decide (w = "--unshare-" +:+ ns)) namespaces.
Definition unary (w : string) : option (string → bopt) :=
  if bool_decide (w = "--proc") then Some ProcAt
  else if bool_decide (w = "--dev") then Some DevAt
  else if bool_decide (w = "--tmpfs") then Some TmpfsAt
  else if bool_decide (w = "--chdir") then Some Chdir else None.
Definition binary (w : string) : option (string → string → bopt) :=
  if bool_decide (w = "--ro-bind") then Some RoBind
  else if bool_decide (w = "--bind") then Some Bind
  else if bool_decide (w = "--setenv") then Some SetEnv else None.

Definition is_option (w : string) : bool := starts_with "--" w.

Fixpoint read_bwrap (ws : list string) : option (list bopt * list string) :=
  match ws with
  | [] => None
  | w :: ws' =>
    if negb (is_option w) then Some ([], ws)
    else match flag w, unary w, binary w, ws' with
    | Some o, _, _, _ => '(os, c) ← read_bwrap ws'; Some (o :: os, c)
    | None, Some f, _, a :: ws'' => '(os, c) ← read_bwrap ws''; Some (f a :: os, c)
    | None, None, Some f, a :: b :: ws'' => '(os, c) ← read_bwrap ws''; Some (f a b :: os, c)
    | _, _, _, _ => None
    end
  end.

(** The words of an option. *)
Definition words (o : bopt) : list string :=
  match o with
  | Unshare ns => ["--unshare-" +:+ ns] | DieWithParent => ["--die-with-parent"]
  | ClearEnv => ["--clearenv"]
  | ProcAt d => ["--proc"; d] | DevAt d => ["--dev"; d] | TmpfsAt d => ["--tmpfs"; d]
  | Chdir d => ["--chdir"; d]
  | RoBind s d => ["--ro-bind"; s; d] | Bind s d => ["--bind"; s; d] | SetEnv k v => ["--setenv"; k; v]
  end.
Definition known (o : bopt) : bool :=
  match o with Unshare ns => bool_decide (ns ∈ namespaces) | _ => true end.

(** Options are read back whatever their arguments are, up to the command. *)
Lemma read_words os p args :
  forallb known os = true → is_option p = false →
  read_bwrap ((os ≫= words) ++ p :: args) = Some (os, p :: args).
Proof.
  intros Hk Hp. induction os as [|o os IH]; cbn in *; [by rewrite Hp|].
  apply andb_prop in Hk as [Ho Hk]. specialize (IH Hk). rewrite <- app_assoc.
  destruct o as [ns| | | | | | | | |]; cbn; rewrite ?IH; try reflexivity.
  apply bool_decide_eq_true in Ho. unfold namespaces in Ho.
  set_unfold in Ho. destruct_or! Ho; subst; try done; cbn; by rewrite IH.
Qed.

(** ** The options of the jails *)

Definition contained : list bopt :=
  [Unshare "user"; Unshare "ipc"; Unshare "pid"; Unshare "net"; Unshare "uts"; DieWithParent].
Definition system_opts : list bopt :=
  [RoBind "/usr" "/usr"; RoBind "/lib" "/lib"; ProcAt "/proc"; DevAt "/dev"; TmpfsAt "/tmp"].
Definition bind_opt (h : Host) (p : string) : list bopt :=
  if exists_ h p then [RoBind p p] else [].
Definition toolchain (h : Host) : list string :=
  ["/lib64"; "/bin"; "/etc"; path_join (home_of h) ".cargo"; path_join (home_of h) ".rustup"].
Definition env_opts (h : Host) : list bopt :=
  [SetEnv "PATH" (jail_path (home_of h)); SetEnv "HOME" (home_of h)].

Lemma bind_words h p : bind_opt h p ≫= words = bind_if h p.
Proof. unfold bind_opt, bind_if. by destruct (exists_ h p). Qed.

Lemma binds_words h l : (l ≫= bind_opt h) ≫= words = l ≫= bind_if h.
Proof. induction l as [|p l IH]; [done|]. cbn. by rewrite bind_app, bind_words, IH. Qed.

Lemma host_mounts_words h : (toolchain h ≫= bind_opt h) ≫= words = host_mounts h.
Proof. rewrite binds_words. unfold host_mounts. cbn. by rewrite app_nil_r. Qed.

Lemma binds_known h l : forallb known (l ≫= bind_opt h) = true.
Proof.
  induction l as [|p l IH]; [done|]. cbn. rewrite forallb_app, IH. unfold bind_opt.
  by destruct (exists_ h p).
Qed.

Lemma elem_of_binds h l o : o ∈ l ≫= bind_opt h → ∃ p, o = RoBind p p ∧ p ∈ l.
Proof.
  rewrite list_elem_of_bind. intros (p & Ho & Hp). unfold bind_opt in Ho. exists p.
  destruct (exists_ h p); [|by apply not_elem_of_nil in Ho]. by apply list_elem_of_singleton in Ho.
Qed.

Definition runner_opts (h : Host) (r : CandidateJailRunner) : list bopt :=
  contained ++ [ClearEnv] ++ system_opts ++ (toolchain h ≫= bind_opt h) ++ [RoBind (bin_dir r) "/app"]
  ++ match working_dir r with
     | Some work => [Bind work "/workspace"; Chdir "/workspace"]
     | None => [Chdir "/tmp"]
     end
  ++ env_opts h.

Lemma runner_words h r args :
  runner_bwrap_args h r args = (runner_opts h r ≫= words) ++ in_jail_bin r :: args.
Proof.
  unfold runner_opts, runner_bwrap_args. rewrite !bind_app, host_mounts_words.
  destruct (working_dir r); cbn; by rewrite <- !app_assoc.
Qed.

(** What the options of a list of parts can be. *)
Ltac in_parts :=
  repeat match goal with
  | H : _ ∈ _ ++ _ |- _ => apply elem_of_app in H as [H|H]
  | H : _ ∈ _ :: _ |- _ => apply elem_of_cons in H as [H|H]
  | H : _ ∈ [] |- _ => by apply not_elem_of_nil in H
  | H : _ ∈ _ ≫= bind_opt _ |- _ => apply elem_of_binds in H as (? & H & ?)
  end.

(** C23: the jail a candidate runs in is closed: its command line asks bubblewrap for every namespace of
    its own - the network included -, a cleared environment with nothing but [PATH] and [HOME] in
    it, no writable host directory but the working directory, and read-only binds of the system,
    the toolchain and the candidate's directory alone; the program is the candidate with its
    arguments, whatever they are. *)
Theorem candidate_jail_closed h r args :
  ∃ os, read_bwrap (runner_bwrap_args h r args) = Some (os, in_jail_bin r :: args)
  ∧ contained ⊆ os ∧ ClearEnv ∈ os
  ∧ (∀ s d, Bind s d ∈ os → working_dir r = Some s ∧ d = "/workspace")
  ∧ (∀ s d, RoBind s d ∈ os →
       (s = d ∧ s ∈ "/usr" :: "/lib" :: toolchain h) ∨ (s = bin_dir r ∧ d = "/app"))
  ∧ (∀ k v, SetEnv k v ∈ os →
       (k = "PATH" ∧ v = jail_path (home_of h)) ∨ (k = "HOME" ∧ v = home_of h)).
Proof.
  exists (runner_opts h r). rewrite runner_words, read_words; [| |done].
  2: { unfold runner_opts. rewrite !forallb_app, binds_known. by destruct (working_dir r). }
  split_and!; [done|unfold runner_opts; set_solver|unfold runner_opts; set_solver|..];
    unfold runner_opts, contained, system_opts, env_opts; intros x y Hin.
  - in_parts; simplify_eq; destruct (working_dir r); in_parts; by simplify_eq.
  - in_parts; simplify_eq; [left; set_solver..|by right|].
    destruct (working_dir r); in_parts; by simplify_eq.
  - in_parts; simplify_eq; auto. destruct (working_dir r); in_parts; by simplify_eq.
Qed.

(** ** The judge's cargo *)

Definition bind_dirs (l : list string) : list bopt := (λ d, RoBind d d) <$> l.
Definition set_dir (var : string) (o : option string) : list bopt :=
  match o with Some d => [SetEnv var d] | None => [] end.
Definition toolchain_dirs (h : Host) : list string :=
  option_list (rustup_home h) ++ option_list (cargo_home h) ++ option_list (cargo_dir h).
Definition system_dirs : list string := ["/usr"; "/lib"; "/lib64"; "/bin"; "/etc"].

Definition cargo_opts (h : Host) (tree target : string) : list bopt :=
  contained ++ [ClearEnv; ProcAt "/proc"; DevAt "/dev"; TmpfsAt "/tmp"]
  ++ (system_dirs ≫= bind_opt h) ++ bind_dirs (toolchain_dirs h)
  ++ set_dir "RUSTUP_HOME" (rustup_home h) ++ set_dir "CARGO_HOME" (cargo_home h)
  ++ [RoBind tree "/src"; Bind target "/target";
      SetEnv "PATH" (join_str ":" (option_list (cargo_dir h) ++ ["/usr/bin"; "/bin"]));
      SetEnv "HOME" "/tmp"; SetEnv "CARGO_TARGET_DIR" "/target"; Chdir "/src"].

Lemma bind_dirs_words l : bind_dirs l ≫= words = l ≫= λ d, ["--ro-bind"; d; d].
Proof. induction l as [|d l IH]; [done|]. cbn. by rewrite <- IH. Qed.

Lemma set_dir_words var o : set_dir var o ≫= words = setenv_dir var o.
Proof. by destruct o. Qed.

Lemma cargo_words h tree target args :
  sandboxed_cargo h tree target args = (cargo_opts h tree target ≫= words) ++ "cargo" :: args.
Proof.
  unfold cargo_opts, sandboxed_cargo. fold (toolchain_dirs h). rewrite !bind_app, binds_words, bind_dirs_words, !set_dir_words, <- !app_assoc. reflexivity.
Qed.

Lemma bind_dirs_known l : forallb known (bind_dirs l) = true.
Proof. by induction l. Qed.

Lemma cargo_known h tree target : forallb known (cargo_opts h tree target) = true.
Proof.
  unfold cargo_opts. rewrite !forallb_app, binds_known, bind_dirs_known.
  by destruct (rustup_home h), (cargo_home h).
Qed.

(** The judge's home is not the directory nor below it. *)
Definition hides_home (h : Host) (d : string) : Prop :=
  ∀ home, env h "HOME" = Some home → component_prefix (components d) (components home) = false.

Lemma if_safe_hides h o d : if_safe h o = Some d → hides_home h d.
Proof.
  unfold if_safe, safe_dir, hides_home. destruct o as [x|]; [|done]. cbn. intros Hs home Hh.
  rewrite Hh in Hs. case_match eqn:Hp; [|done]. simplify_eq. by apply negb_true_iff in Hp.
Qed.

Lemma option_list_Some (o : option string) d : d ∈ option_list o → o = Some d.
Proof. destruct o; cbn; set_solver. Qed.

Lemma toolchain_hides h d : d ∈ toolchain_dirs h → hides_home h d.
Proof.
  unfold toolchain_dirs, rustup_home, cargo_home, cargo_dir.
  rewrite !elem_of_app. intros Hd. destruct_or! Hd; apply option_list_Some in Hd; by eapply if_safe_hides.
Qed.

(** C22: the judge's cargo never sees the judge's home: whatever the environment and the host say, the
    command line asks for every namespace of its own and a cleared environment, binds nothing
    writable but the target directory, and read-only the system, the candidate's tree and
    directories that neither are nor hold the home; the home in the sandbox is [/tmp], and what runs is cargo. *)
Theorem cargo_sandbox_hides_home h tree target args :
  ∃ os, read_bwrap (sandboxed_cargo h tree target args) = Some (os, "cargo" :: args)
  ∧ contained ⊆ os ∧ ClearEnv ∈ os
  ∧ (∀ s d, Bind s d ∈ os → s = target ∧ d = "/target")
  ∧ (∀ s d, RoBind s d ∈ os →
       (s = d ∧ s ∈ system_dirs) ∨ (s = tree ∧ d = "/src") ∨ (s = d ∧ hides_home h s))
  ∧ (∀ v, SetEnv "HOME" v ∈ os → v = "/tmp").
Proof.
  exists (cargo_opts h tree target). rewrite cargo_words, read_words; [|apply cargo_known|done].
  split_and!; [done|unfold cargo_opts; set_solver|unfold cargo_opts; set_solver|..];
    unfold cargo_opts, contained; intros x.
  - intros y Hin. in_parts; simplify_eq; try done.
    + by apply list_elem_of_fmap in Hin as (? & ? & _).
    + destruct (rustup_home h); cbn in Hin; in_parts; by simplify_eq.
    + destruct (cargo_home h); cbn in Hin; in_parts; by simplify_eq.
  - intros y Hin. in_parts; simplify_eq; auto.
    + apply list_elem_of_fmap in Hin as (d & Hd & Hin). simplify_eq. right; right.
      split; [done|]. by apply toolchain_hides.
    + destruct (rustup_home h); cbn in Hin; in_parts; by simplify_eq.
    + destruct (cargo_home h); cbn in Hin; in_parts; by simplify_eq.
  - intros Hin. in_parts; simplify_eq; try done.
    + by apply list_elem_of_fmap in Hin as (? & ? & _).
    + destruct (rustup_home h); cbn in Hin; in_parts; by simplify_eq.
    + destruct (cargo_home h); cbn in Hin; in_parts; by simplify_eq.
Qed.

(** ** Waiting *)

Definition pause_ok (p : N) : Prop := (micros 100 <= p <= millis 5)%N.

Lemma next_interval_ok elapsed p : pause_ok p → pause_ok (next_interval elapsed p).
Proof. unfold pause_ok, next_interval, micros, millis. repeat case_match; lia. Qed.

(** What the answer at the poll that ended the wait has to be. *)
Definition ended_by (timeout_secs : N) (p : poll) (now : N) (w : Waited) : Prop :=
  match p with
  | Exited ok out err => w = {| killed := false; answer := Ok (ok, read_text out, read_text err) |}
  | StillRunning => (timeout_secs * 1000000000 <= now)%N ∧ killed w = true ∧ ∃ e, answer w = Err e
  | WaitFails _ => killed w = true ∧ ∃ e, answer w = Err e
  end.

Section Wait.
Context (T : N) (polls : nat → poll) (clock : nat → N).
(** A pause takes at least as long as the shortest one asked for. *)
Hypothesis clock_runs : ∀ k, (clock k + FIRST_INTERVAL <= clock (S k))%N.

Lemma wait_ended k w :
  ended_by T (polls k) (clock k) w →
  ∃ w' pauses, Some (w, @nil N) = Some (w', pauses) ∧ Forall pause_ok pauses
    ∧ (∀ j, k ≤ j < k + length pauses → polls j = StillRunning ∧ (clock j < T * 1000000000)%N)
    ∧ ended_by T (polls (k + length pauses)) (clock (k + length pauses)) w'.
Proof.
  intros Hw. exists w, []. cbn. rewrite Nat.add_0_r. repeat split; [apply Forall_nil_2|lia..|done].
Qed.

Lemma wait_ends fuel : ∀ k interval,
  pause_ok interval →
  (T * 1000000000 <= clock k + N.of_nat fuel * FIRST_INTERVAL)%N →
  ∃ w pauses, wait_loop (S fuel) T polls clock k interval = Some (w, pauses)
    ∧ Forall pause_ok pauses
    ∧ (∀ j, k ≤ j < k + length pauses → polls j = StillRunning ∧ (clock j < T * 1000000000)%N)
    ∧ ended_by T (polls (k + length pauses)) (clock (k + length pauses)) w.
Proof using clock_runs.
  revert fuel. fix IH 1. intros fuel k interval Hi Hf. cbn [wait_loop].
  destruct (polls k) as [ok out err| |e] eqn:Hp.
  - apply wait_ended. by rewrite Hp.
  - destruct (T * 1000000000 <=? clock k)%N eqn:Ht.
    + apply wait_ended. rewrite Hp. apply N.leb_le in Ht. repeat split; [done|by eexists].
    + apply N.leb_gt in Ht. destruct fuel as [|fuel]; [lia|]. specialize (clock_runs k).
      pose proof (next_interval_ok (clock k) _ Hi) as Hn.
      destruct (IH fuel (S k) _ Hn) as (w & ps & -> & Hps & Hrun & Hend); [lia|].
      do 2 eexists. split; [reflexivity|]. cbn [length]. rewrite <- Nat.add_succ_comm.
      split_and!; [by constructor| |done]. intros j Hj.
      destruct (decide (j = k)) as [->|]; [done|]. apply Hrun. lia.
  - apply wait_ended. rewrite Hp. split; [done|by eexists].
Qed.
End Wait.

(** C38: waiting for a jailed process ends: when the clock runs, [10000] polls a second are enough; all
    the polls before the last found the process running before its deadline, the pauses between
    them are between 100 microseconds and 5 milliseconds, and the process is killed, with an error,
    exactly when it runs at its deadline or cannot be asked - a process that has ended is answered
    with what it wrote, however late (with no text for a stream that is not UTF-8). *)
Theorem execution_ends fuel T polls clock :
  (∀ k, (clock k + FIRST_INTERVAL <= clock (S k))%N) →
  (T * 10000 < N.of_nat fuel)%N →
  ∃ w pauses, execute_with_timeout fuel T (Ok tt) polls clock = Some (w, pauses)
    ∧ Forall pause_ok pauses
    ∧ (∀ j, j < length pauses → polls j = StillRunning ∧ (clock j < T * 1000000000)%N)
    ∧ ended_by T (polls (length pauses)) (clock (length pauses)) w.
Proof.
  intros Hc Hf. destruct fuel as [|fuel]; [lia|]. unfold execute_with_timeout.
  destruct (wait_ends T polls clock Hc fuel 0 FIRST_INTERVAL) as (w & ps & -> & Hps & Hrun & Hend).
  - unfold pause_ok, FIRST_INTERVAL, micros, millis. lia.
  - unfold FIRST_INTERVAL, micros. lia.
  - exists w, ps. split_and!; [done..| |done]. intros j Hj. apply Hrun. lia.
Qed.

(** A process that never ends, a deadline after two seconds. *)
Lemma execution_ends_witness :
  (∀ k, (N.of_nat k * FIRST_INTERVAL + FIRST_INTERVAL <= N.of_nat (S k) * FIRST_INTERVAL)%N)
  ∧ ∃ w pauses,
      execute_with_timeout (N.to_nat 20001) 2 (Ok tt) (λ _, StillRunning) (λ k, N.of_nat k * FIRST_INTERVAL)%N
        = Some (w, pauses)
      ∧ Forall pause_ok pauses
      ∧ (∀ j, j < length pauses →
           StillRunning = StillRunning ∧ (N.of_nat j * FIRST_INTERVAL < 2 * 1000000000)%N)
      ∧ ended_by 2 StillRunning (N.of_nat (length pauses) * FIRST_INTERVAL)%N w.
Proof.
  assert (Hc : ∀ k, (N.of_nat k * FIRST_INTERVAL + FIRST_INTERVAL <= N.of_nat (S k) * FIRST_INTERVAL)%N)
    by (intros k; lia).
  split; [exact Hc|].
  apply (execution_ends (N.to_nat 20001) 2 (λ _, StillRunning) (λ k, N.of_nat k * FIRST_INTERVAL)%N Hc).
  vm_compute; reflexivity.
Defined.

(** ** Examples *)

Module JailExample.
Definition host : Host :=
  {| exists_ := λ p, bool_decide (p ≠ "/lib64"); is_dir := λ _, true;
     is_file := λ p, bool_decide (p = "/home/judge/.cargo/bin/cargo");
     env := λ v, if bool_decide (v = "HOME") then Some "/home/judge"
                 else if bool_decide (v = "RUSTUP_HOME") then Some "/home"
                 else if bool_decide (v = "PATH") then Some "/usr/bin:/home/judge/.cargo/bin"
                 else None;
     uid := 1000; gid := 1000 |}%N.

(** A toolchain above the home is refused, the one below it bound. *)
Example toolchain_bound :
  (rustup_home host, cargo_home host, cargo_dir host)
  = (None, Some "/home/judge/.cargo", Some "/home/judge/.cargo/bin").
Proof. vm_compute. reflexivity. Qed.

Example read_build_jail :
  fst <$> read_bwrap (build_bwrap_args host (new_build_jail "i" "/s" "/o") ["cargo"; "build"])
  = Some (contained ++ system_opts ++ [RoBind "/s" "/workspace/src"; Bind "/o" "/output"; Chdir "/output"]
          ++ (toolchain host ≫= bind_opt host)
          ++ [Bind TARGET_DIR TARGET_DIR; SetEnv "CARGO_TARGET_DIR" TARGET_DIR] ++ env_opts host).
Proof. vm_compute. reflexivity. Qed.

(** The build jail compiles candidate source with the environment of its caller. *)
Example build_jail_keeps_environment : ∀ os c,
  read_bwrap (build_bwrap_args host (new_build_jail "i" "/s" "/o") ["cargo"; "build"]) = Some (os, c) →
  ClearEnv ∉ os.
Proof.
  intros os c H. apply (f_equal (fmap fst)) in H. rewrite read_build_jail in H. cbn in H.
  injection H as <-. unfold env_opts. intros Hin. in_parts; discriminate.
Qed.
End JailExample.
