(* ===== verification/QuotaV1.v ===== *)
(** The first quota over production canary observations ([src/canary_observation.rs]): the canonical
    record of an observation and the decision whether enough of them are measured, about the
    candidate and without conflict; that records with the same text are the same observation, and
    exactly which lists of observations are admitted. *)

From S2P Require Import Prelude RustStd Digest Json.
#[local] Open Scope string_scope.
#[local] Open Scope list_scope.

Inductive ObservationProvenance := Measured | Synthetic.
#[export] Instance provenance_eq_dec : EqDecision ObservationProvenance.
Proof. solve_decision. Defined.

Record CanaryObservation := {
  observation_id : string;
  observed_at_ms : N;
  candidate_digest : string;
  latency_us : N;
  status : string;
  provenance : ObservationProvenance
}.
#[export] Instance observation_eq_dec : EqDecision CanaryObservation.
Proof. solve_decision. Defined.

Record QuotaDecision := { counted : N }.

(** ** The canonical record *)

(** [format!("{:04x}", c)] of a scalar value below 65536. *)
Definition hex4 (c : N) : string :=
  String (hex_digit (c / 4096)) (String (hex_digit (c / 256 mod 16))
    (String (hex_digit (c / 16 mod 16)) (String (hex_digit (c mod 16)) ""))).
Definition quote_ : string := String (ascii_of_N 34) "".
Definition backslash : string := String (ascii_of_N 92) "".

Definition json_char (c : N) : string :=
  if (c =? 92)%N then backslash +:+ backslash
  else if (c =? 34)%N then backslash +:+ quote_
  else if is_control c then backslash +:+ "u" +:+ hex4 c
  else string_of_chars [c].
Definition json_string (s : string) : string := concat_all (json_char <$> chars s).

Definition provenance_text (p : ObservationProvenance) : string :=
  match p with Measured => "measured" | Synthetic => "synthetic" end.

(** A key and a text value, and a key and a number. *)
Definition text_entry (key value rest : string) : string :=
  quote_ +:+ key +:+ quote_ +:+ ":" +:+ quote_ +:+ value +:+ quote_ +:+ rest.
Definition number_entry (key : string) (value : N) (rest : string) : string :=
  quote_ +:+ key +:+ quote_ +:+ ":" +:+ dec value +:+ rest.

Definition canonical_bytes (o : CanaryObservation) : string :=
  "{" +:+ text_entry "candidate_digest" (json_string (candidate_digest o))
  ("," +:+ number_entry "latency_us" (latency_us o)
  ("," +:+ text_entry "observation_id" (json_string (observation_id o))
  ("," +:+ number_entry "observed_at_ms" (observed_at_ms o)
  ("," +:+ text_entry "provenance" (provenance_text (provenance o))
  ("," +:+ text_entry "status" (json_string (status o)) "}"))))).

(** ** The quota *)

Section Quota.
Context `{Sha256}.

Definition digest_hex (o : CanaryObservation) : string := sha256_hex (canonical_bytes o).

(** The loop over the observations; [seen] maps an id to the digest of its record. *)
Fixpoint admit_from (digest : string) (obs : list CanaryObservation) (seen : gmap string string)
    (count : N) : result N :=
  match obs with
  | [] => Ok count
  | o :: obs =>
    if trim_is_empty (observation_id o) then fail "observation id is required" []
    else if trim_is_empty (status o) then fail "execution status is required" []
    else if negb (bool_decide (candidate_digest o = digest)) then
      fail "observation candidate digest does not match the candidate" []
    else if negb (bool_decide (provenance o = Measured)) then
      fail "synthetic rehearsal cannot satisfy the production canary quota" []
    else match seen !! observation_id o with
    | Some previous =>
      if negb (bool_decide (previous = digest_hex o)) then
        fail "observation id {} conflicts with a different record" [observation_id o]
      else admit_from digest obs seen count
    | None => admit_from digest obs (<[observation_id o := digest_hex o]> seen) (count + 1)
    end
  end.

Definition admit_production_quota (obs : list CanaryObservation) (digest : string) (target : N)
    : result QuotaDecision :=
  if (target =? 0)%N then fail "production canary quota target must be at least 1" []
  else
    count ← admit_from digest obs ∅ 0;
    if (count <? target)%N then
      fail "production canary quota requires {} measured observations, received {}" [dec target; dec count]
    else Ok {| counted := count |}.
End Quota.

(** ** Reading a record back *)

(** The bytes of one character of a text value. *)
Definition E (c : N) : list N := bytes_of (json_char c).

(** Goals about quotients and remainders by constants. *)
Ltac digits := zify; Z.to_euclidean_division_equations; lia.

Lemma enc_small c : (c < 1114112)%N → Forall (λ b, b < 256)%N (utf8_encode c).
Proof.
  intros Hc. unfold utf8_encode. repeat case_match; guards; repeat constructor; try lia; digits.
Qed.

Lemma decode_encode c l : (c < 1114112)%N → utf8_chars (utf8_encode c ++ l) = c :: utf8_chars l.
Proof.
  intros Hc. unfold utf8_encode. repeat case_match; guards; cbn [app utf8_chars];
    repeat match goal with |- context [(?a <? ?b)%N] =>
      let X := fresh in destruct (a <? b)%N eqn:X; guards; try (exfalso; digits) end; try done;
    change 31%N with (N.ones 5); change 63%N with (N.ones 6); change 15%N with (N.ones 4);
    change 7%N with (N.ones 3); rewrite !N.land_ones; f_equal;
    change (2 ^ 5)%N with 32%N; change (2 ^ 4)%N with 16%N; change (2 ^ 3)%N with 8%N;
    change (2 ^ 6)%N with 64%N; digits.
Qed.

Lemma encode_prefix c d l1 l2 :
  (c < 1114112)%N → (d < 1114112)%N → utf8_encode c ++ l1 = utf8_encode d ++ l2 → c = d ∧ l1 = l2.
Proof.
  intros Hc Hd Heq. pose proof (f_equal utf8_chars Heq) as H. rewrite !decode_encode in H by done.
  injection H as -> _. by apply app_inv_head in Heq.
Qed.

Lemma bytes_of_char c : (c < 1114112)%N → bytes_of (string_of_chars [c]) = utf8_encode c.
Proof.
  intros Hc. unfold bytes_of, string_of_chars. cbn. rewrite app_nil_r.
  rewrite String.list_ascii_of_string_of_list_ascii, <- list_fmap_compose.
  pose proof (enc_small c Hc) as Hs. induction Hs as [|b l Hb _ IH]; [done|]. cbn.
  by rewrite IH, N_ascii_embedding.
Qed.

Lemma plain_head c : c ≠ 92%N → c ≠ 34%N → ∃ b r, utf8_encode c = b :: r ∧ b ≠ 92%N ∧ b ≠ 34%N.
Proof. intros H1 H2. unfold utf8_encode. repeat case_match; guards; do 2 eexists; (split; [done|]); (lia || digits). Qed.

(** The four ways a character is written. *)
Lemma E_cases c : (c < 1114112)%N →
  (c = 92%N ∧ E c = [92; 92]%N) ∨ (c = 34%N ∧ E c = [92; 34]%N)
  ∨ ((c < 160)%N ∧ E c = [92; 117]%N ++ bytes_of (hex4 c))
  ∨ (E c = utf8_encode c ∧ ∃ b r, utf8_encode c = b :: r ∧ b ≠ 92%N ∧ b ≠ 34%N).
Proof.
  intros Hc. unfold E, json_char.
  destruct (c =? 92)%N eqn:H1; guards; [left; by subst|].
  destruct (c =? 34)%N eqn:H2; guards; [right; left; by subst|].
  destruct (is_control c) eqn:H3.
  - right; right; left. unfold is_control in H3. split; [|done].
    apply orb_prop in H3 as [H3|H3]; guards; lia.
  - right; right; right. split; [by apply bytes_of_char|]. by apply plain_head.
Qed.

Lemma hex4_inj c d l1 l2 : (c < 160)%N → (d < 160)%N →
  bytes_of (hex4 c) ++ l1 = bytes_of (hex4 d) ++ l2 → c = d ∧ l1 = l2.
Proof.
  intros Hc Hd H. unfold hex4, bytes_of in H. cbn in H. injection H as _ _ H3 H4 H5.
  split; [|done]. apply (f_equal ascii_of_N) in H3, H4. rewrite !ascii_N_embedding in H3, H4.
  apply hex_digit_inj in H3, H4; try digits.
Qed.

Lemma E_prefix c d l1 l2 :
  (c < 1114112)%N → (d < 1114112)%N → E c ++ l1 = E d ++ l2 → c = d ∧ l1 = l2.
Proof.
  intros Hc Hd.
  destruct (E_cases c Hc) as [[-> ->]|[[-> ->]|[[Hc' ->]|[-> (b & r & Hb & Hb1 & Hb2)]]]],
    (E_cases d Hd) as [[-> ->]|[[-> ->]|[[Hd' ->]|[-> (b' & r' & Hb' & Hb1' & Hb2')]]]];
    rewrite ?Hb, ?Hb'; try (by intros [=]); try (intros [=]; by subst);
    try (intros [=]; congruence).
  - rewrite <- !app_assoc. intros H%app_inv_head. by apply hex4_inj.
  - rewrite <- Hb, <- Hb'. by apply encode_prefix.
Qed.

Lemma E_quote c l l' : (c < 1114112)%N → E c ++ l ≠ 34%N :: l'.
Proof.
  intros Hc. destruct (E_cases c Hc) as [[-> ->]|[[-> ->]|[[Hc' ->]|[-> (b & r & Hb & Hb1 & Hb2)]]]];
    [by intros [=]..|]. rewrite Hb. by intros [=].
Qed.

Lemma escaped_inj l1 l2 r1 r2 :
  Forall (λ c, c < 1114112)%N l1 → Forall (λ c, c < 1114112)%N l2 →
  (l1 ≫= E) ++ 34%N :: r1 = (l2 ≫= E) ++ 34%N :: r2 → l1 = l2 ∧ r1 = r2.
Proof.
  intros H1. revert l2. induction H1 as [|c l1 Hc _ IH]; intros l2 H2 Heq.
  - destruct H2 as [|d l2 Hd _]; [by injection Heq|]. cbn in Heq. rewrite <- app_assoc in Heq.
    by apply symmetry, E_quote in Heq.
  - destruct H2 as [|d l2 Hd H2]; cbn in Heq; rewrite <- !app_assoc in Heq.
    { by apply E_quote in Heq. }
    apply E_prefix in Heq as [-> Heq]; [|done..]. by apply IH in Heq as [-> ->].
Qed.

Lemma bytes_of_inj s t : bytes_of s = bytes_of t → s = t.
Proof.
  intros H. rewrite <- (String.string_of_list_ascii_of_string s),
    <- (String.string_of_list_ascii_of_string t). f_equal.
  apply (f_equal (fmap ascii_of_N)) in H. unfold bytes_of in H. rewrite <- !list_fmap_compose in H.
  rewrite !(list_fmap_ext (ascii_of_N ∘ N_of_ascii) id) in H
    by (intros; apply ascii_N_embedding). by rewrite !list_fmap_id in H.
Qed.

(** Valid text: decoding it into characters and encoding them again gives it back. *)
Definition text (s : string) : Prop :=
  string_of_chars (chars s) = s ∧ Forall (λ c, c < 1114112)%N (chars s).

Lemma text_inj s t : text s → text t → chars s = chars t → s = t.
Proof. intros [Hs _] [Ht _] H. rewrite <- Hs, <- Ht. by f_equal. Qed.

Lemma bytes_of_json s : bytes_of (json_string s) = chars s ≫= E.
Proof.
  unfold json_string. induction (chars s) as [|c l IH]; [done|].
  cbn [fmap list_fmap concat_all foldr mbind list_bind]. rewrite bytes_of_app. by f_equal.
Qed.

Lemma text_entry_inj key s t r r' : text s → text t →
  text_entry key (json_string s) r = text_entry key (json_string t) r' → s = t ∧ r = r'.
Proof.
  intros Hs Ht. unfold text_entry. intros H. do 5 apply str_app_inj_l in H. revert H. intros H%(f_equal bytes_of).
  rewrite !bytes_of_app, !bytes_of_json in H.
  apply escaped_inj in H as [Hc Hr]; [|apply Hs|apply Ht]. split; [by apply text_inj|by apply bytes_of_inj].
Qed.

Lemma text_entry_rest key v r r' : text_entry key v r = text_entry key v r' → r = r'.
Proof. unfold text_entry. intros H. by do 7 apply str_app_inj_l in H. Qed.

Lemma provenance_entry_inj key p p' r r' :
  text_entry key (provenance_text p) r = text_entry key (provenance_text p') r' → p = p' ∧ r = r'.
Proof.
  intros H. destruct p, p'; [by apply text_entry_rest in H| |  |by apply text_entry_rest in H];
    unfold text_entry in H; do 5 apply str_app_inj_l in H; discriminate H.
Qed.

Lemma span_unique {A} (P : A → Prop) x l1 l2 r1 r2 :
  Forall P l1 → Forall P l2 → ¬ P x → l1 ++ x :: r1 = l2 ++ x :: r2 → l1 = l2 ∧ r1 = r2.
Proof.
  intros H1 H2 Hx. revert l2 H2. induction H1 as [|a l1 Ha _ IH]; intros l2 H2 Heq.
  - destruct H2; cbn in Heq; simplify_eq; done.
  - destruct H2 as [|b l2 Hb H2]; cbn in Heq; injection Heq as -> Heq; [done|].
    by apply IH in Heq as [-> ->].
Qed.

Lemma dec_bytes n : Forall (λ b, 48 <= b)%N (bytes_of (dec n)).
Proof.
  pose proof (dec_all_digits (λ b, 48 <=? b)%N n ltac:(intros d []; by apply N.leb_le)) as H.
  induction (dec n) as [|c s IH]; [constructor|]. cbn in H. apply andb_prop in H as [Hc H].
  constructor; [by apply N.leb_le|by apply IH].
Qed.

Lemma number_entry_inj key n n' r r' :
  number_entry key n ("," +:+ r) = number_entry key n' ("," +:+ r') → n = n' ∧ r = r'.
Proof.
  unfold number_entry. intros H. do 4 apply str_app_inj_l in H. revert H. intros H%(f_equal bytes_of).
  rewrite !bytes_of_app in H. apply (span_unique (λ b, 48 <= b)%N 44%N) in H as [Hn Hr]; [|apply dec_bytes..|lia].
  apply bytes_of_inj in Hn. apply bytes_of_inj in Hr. unfold dec in Hn. by apply (inj pretty) in Hn.
Qed.

Definition valid_text (o : CanaryObservation) : Prop :=
  text (candidate_digest o) ∧ text (observation_id o) ∧ text (status o).

(** Records with the same text are the same observation. *)
Lemma canonical_inj a b : valid_text a → valid_text b → canonical_bytes a = canonical_bytes b → a = b.
Proof.
  intros (Hd & Hi & Hs) (Hd' & Hi' & Hs') H. unfold canonical_bytes in H.
  apply str_app_inj_l, text_entry_inj in H as [Ed H]; [|done..].
  apply str_app_inj_l, number_entry_inj in H as [El H].
  apply text_entry_inj in H as [Ei H]; [|done..]. apply str_app_inj_l, number_entry_inj in H as [Et H].
  apply provenance_entry_inj in H as [Ep H].
  apply str_app_inj_l, text_entry_inj in H as [Es _]; [|done..].
  destruct a, b. cbn in Ed, El, Ei, Et, Ep, Es. by subst.
Qed.

(** ** The admitted lists *)

Section QuotaProps.
Context `{Sha256}.

Definition qualifies (digest : string) (o : CanaryObservation) : Prop :=
  trim_is_empty (observation_id o) = false ∧ trim_is_empty (status o) = false
  ∧ candidate_digest o = digest ∧ provenance o = Measured.
Definition ids (obs : list CanaryObservation) : gset string := list_to_set (observation_id <$> obs).

(** No two records have one id and different digests, and none has another digest than [seen]. *)
Definition consistent (seen : gmap string string) (obs : list CanaryObservation) : Prop :=
  (∀ o d, o ∈ obs → seen !! observation_id o = Some d → d = digest_hex o)
  ∧ ∀ a b, a ∈ obs → b ∈ obs → observation_id a = observation_id b → digest_hex a = digest_hex b.

Lemma consistent_seen seen o obs d : seen !! observation_id o = Some d →
  consistent seen (o :: obs) ↔ d = digest_hex o ∧ consistent seen obs.
Proof.
  intros Hd. split.
  - intros [Hs Hc]. split; [by apply (Hs o); [left|]|]. split; intros; [eapply Hs|apply Hc]; by try right.
  - intros [-> [Hs Hc]]. split.
    + intros p e [->|Hp]%elem_of_cons Hl; [congruence|by apply Hs].
    + intros a b [->|Ha]%elem_of_cons [->|Hb]%elem_of_cons Hab; [done| |by apply symmetry, Hs; congruence|by apply Hc].
      apply Hs; [done|congruence].
Qed.

Lemma consistent_new seen o obs : seen !! observation_id o = None →
  consistent seen (o :: obs) ↔ consistent (<[observation_id o := digest_hex o]> seen) obs.
Proof.
  intros Hn. split.
  - intros [Hs Hc]. split; [|intros; apply Hc; by try right].
    intros p d Hp [[He <-]|[He Hl]]%lookup_insert_Some; [apply Hc; [left|right|]; done|].
    by apply (Hs p d); [right|].
  - intros [Hs Hc]. split.
    + intros p d [->|Hp]%elem_of_cons Hl; [congruence|]. apply Hs; [done|].
      rewrite lookup_insert_ne; [done|]. intros He. congruence.
    + assert (∀ p, p ∈ obs → observation_id o = observation_id p → digest_hex o = digest_hex p) as Ho.
      { intros p Hp He. apply Hs; [done|]. by rewrite <- He, lookup_insert_eq. }
      intros a b [->|Ha]%elem_of_cons [->|Hb]%elem_of_cons Hab; [done|by apply Ho|by apply symmetry, Ho|by apply Hc].
Qed.

Lemma admit_from_ok digest obs : ∀ seen n m,
  admit_from digest obs seen n = Ok m ↔
  Forall (qualifies digest) obs ∧ consistent seen obs ∧ m = (n + N.of_nat (size (ids obs ∖ dom seen)))%N.
Proof.
  induction obs as [|o obs IH]; intros seen n m; cbn [admit_from].
  { unfold ids. cbn. assert (∅ ∖ dom seen = (∅ : gset string)) as -> by set_solver.
    rewrite size_empty, N.add_0_r. split.
    - intros [= ->]. split; [constructor|]. split; [split; intros ?; set_solver|done].
    - by intros (_ & _ & ->). }
  rewrite Forall_cons. unfold qualifies at 1.
  destruct (trim_is_empty (observation_id o)); [naive_solver|].
  destruct (trim_is_empty (status o)); [naive_solver|].
  destruct (decide (candidate_digest o = digest)); [rewrite bool_decide_true by done|
    rewrite bool_decide_false by done; naive_solver].
  destruct (decide (provenance o = Measured)); [rewrite bool_decide_true by done|
    rewrite bool_decide_false by done; naive_solver].
  cbn [negb]. destruct (seen !! observation_id o) as [d|] eqn:Hd.
  - rewrite (consistent_seen _ _ _ d Hd).
    assert (ids (o :: obs) ∖ dom seen = ids obs ∖ dom seen) as ->.
    { unfold ids. cbn. apply elem_of_dom_2 in Hd. set_solver. }
    case_bool_decide; cbn [negb]; [rewrite IH; tauto|naive_solver].
  - rewrite (consistent_new _ _ _ Hd), IH, dom_insert_L. apply not_elem_of_dom_2 in Hd.
    assert (ids (o :: obs) ∖ dom seen
      = {[observation_id o]} ∪ ids obs ∖ ({[observation_id o]} ∪ dom seen)) as ->.
    { apply set_eq. intros k. unfold ids. cbn.
      destruct (decide (k = observation_id o)) as [->|]; set_solver. }
    assert (({[observation_id o]} : gset string) ## ids obs ∖ ({[observation_id o]} ∪ dom seen)) as Hdisj
      by set_solver.
    pose proof (size_union _ _ Hdisj) as ->. rewrite size_singleton, Nat2N.inj_add, N.add_assoc.
    change (N.of_nat 1) with 1%N. tauto.
Qed.

(** C40: the first quota admits exactly the lists in which every observation is named, has a status,
    is about the candidate and was measured, no two different observations share an id, and the
    ids are at least as many as the target, which is not 0; it counts every id once. *)
Theorem quota_v1_iff obs digest target d :
  Forall valid_text obs → no_collision (canonical_bytes <$> obs) →
  admit_production_quota obs digest target = Ok d ↔
  target ≠ 0%N ∧ Forall (qualifies digest) obs
  ∧ (∀ a b, a ∈ obs → b ∈ obs → observation_id a = observation_id b → a = b)
  ∧ counted d = N.of_nat (size (ids obs)) ∧ (target <= counted d)%N.
Proof.
  intros Hv Hc. unfold admit_production_quota.
  assert (consistent ∅ obs ↔
    ∀ a b, a ∈ obs → b ∈ obs → observation_id a = observation_id b → a = b) as Hcons.
  { unfold consistent. split.
    - intros [_ H'] a b Ha Hb Hab. rewrite Forall_forall in Hv.
      apply canonical_inj; [by apply Hv..|]. eapply sha256_hex_inj; [exact Hc| | |by apply H'];
        by apply list_elem_of_fmap_2.
    - intros H'. split; [by intros|]. intros a b Ha Hb Hab. by rewrite (H' a b). }
  rewrite <- Hcons. destruct (target =? 0)%N eqn:Ht; guards; [naive_solver|].
  pose proof (admit_from_ok digest obs ∅ 0) as Ha. rewrite dom_empty_L, difference_empty_L in Ha.
  split.
  - intros (m & (Hq & Hcs & ->)%Ha & H')%bind_ok. destruct (_ <? _)%N eqn:Hlt; [discriminate|].
    injection H' as <-. guards. cbn. split_and!; [done..|lia|lia].
  - intros (_ & Hq & Hcs & Hd & Hle). apply bind_ok. exists (counted d).
    split; [apply Ha; split_and!; [done..|lia]|].
    assert ((counted d <? target)%N = false) as -> by (apply N.ltb_ge; lia). by destruct d.
Qed.
End QuotaProps.

Module QuotaExample.
Import Checksum.
Definition observed (id : string) (latency : N) : CanaryObservation :=
  {| observation_id := id; observed_at_ms := 1700000000000; candidate_digest := "abc";
     latency_us := latency; status := "ok"; provenance := Measured |}.
Definition log : list CanaryObservation := [observed "obs-1" 1800; observed "obs-1" 1800; observed "obs-2" 1900].

Example changed_payload :
  admit_production_quota [observed "obs-1" 1800; observed "obs-1" 9999] "abc" 1
  = fail "observation id {} conflicts with a different record" ["obs-1"].
Proof. vm_compute. reflexivity. Qed.

(** A retry counts once. *)
Lemma quota_v1_iff_witness :
  Forall valid_text log ∧ no_collision (canonical_bytes <$> log)
  ∧ (admit_production_quota log "abc" 2 = Ok {| counted := 2 |} ↔
     2%N ≠ 0%N ∧ Forall (qualifies "abc") log
     ∧ (∀ a b, a ∈ log → b ∈ log → observation_id a = observation_id b → a = b)
     ∧ 2%N = N.of_nat (size (ids log)) ∧ (2 <= 2)%N).
Proof.
  assert (Forall valid_text log) as Hv
    by (repeat constructor; vm_compute; try reflexivity; repeat constructor).
  assert (no_collision (canonical_bytes <$> log)) as Hc
    by (apply (bool_decide_unpack _); vm_compute; exact I).
  split; [exact Hv|]. split; [exact Hc|].
  apply (quota_v1_iff log "abc" 2 {| counted := 2 |} Hv Hc).
Defined.
End QuotaExample.
