(* ===== verification/Config.v ===== *)
(** The operator's configuration ([src/config.rs]) and the rollback checkpoint of a cycle
    ([src/isolation/rollback.rs]): where a setting comes from, and which git commands a checkpoint
    runs.  Reading and writing TOML, the environment, the files and git's answers are inputs. *)

From S2P Require Import Prelude RustStd RustPath RustNum.
#[local] Open Scope string_scope.
#[local] Open Scope list_scope.

(** ** Configuration *)

Record OperatorProfile := { name : string; email : string; handle : string; sign_commits : bool }.
Definition default_operator_name : string := "Sovereign Operator".
Definition default_operator_email : string := "operator@local".
Definition default_operator_handle : string := "operator".
Definition default_operator : OperatorProfile :=
  {| name := default_operator_name; email := default_operator_email;
     handle := default_operator_handle; sign_commits := false |}.

(** A value of [f32], as the quotient of two integers rounded to 24 bits. *)
Definition f32_lit (m n : positive) : SpecFloat.spec_float :=
  SpecFloat.SFdiv 24 128 (SpecFloat.binary_normalize 24 128 (Z.pos m) 0 false)
    (SpecFloat.binary_normalize 24 128 (Z.pos n) 0 false).

Record SeatConfig := {
  mode : string;
  api_base_url : string;
  api_key : string;
  model_id : string;
  context_window : N;
  temperature : SpecFloat.spec_float
}.
Definition default_seat : SeatConfig :=
  {| mode := "local"; api_base_url := "http://127.0.0.1:18006/v1"; api_key := "";
     model_id := "nvidia/NVIDIA-Nemotron-3.5-Lightning-30B-A3B-BF16"; context_window := 32768;
     temperature := f32_lit 7 10 |}.

Record SovereignConfig := { operator : OperatorProfile; engine : SeatConfig }.
Definition default_config : SovereignConfig := {| operator := default_operator; engine := default_seat |}.

Section Config.
Context (env : string → option string).
(** [toml::from_str] and [toml::to_string_pretty]. *)
Context (parse : string → option SovereignConfig) (print : SovereignConfig → result string).

Definition config_path : string :=
  match env "SOVEREIGN_CONFIG_PATH" with
  | Some p => p
  | None => path_join (default "." (env "HOME")) ".config/sovereign/operator.toml"
  end.

(** [files] is what reading a path that exists answers; [git] the text [git config] writes, when
    it runs. *)
Definition stored (files : string → option (result string)) : SovereignConfig :=
  match files config_path with
  | Some (Ok content) => default default_config (parse content)
  | _ => default_config
  end.
Definition overridden (c : SovereignConfig) : SovereignConfig :=
  let o := operator c in let e := engine c in
  {| operator :=
       {| name := default (name o) (env "SOVEREIGN_OPERATOR_NAME");
          email := default (email o) (env "SOVEREIGN_OPERATOR_EMAIL");
          handle := default (handle o) (env "SOVEREIGN_OPERATOR_HANDLE");
          sign_commits := sign_commits o |};
     engine :=
       {| mode := default (mode e) (env "SOVEREIGN_ENGINE_MODE");
          api_base_url := default (api_base_url e) (env "SOVEREIGN_API_BASE_URL");
          api_key := api_key e; model_id := model_id e; context_window := context_window e;
          temperature := temperature e |} |}.
Definition from_git (git : string → option string) (key dflt value : string) : string :=
  if bool_decide (value = dflt) then
    match git key with
    | Some out => let v := str_trim (from_utf8_lossy out) in if bool_decide (v = "") then value else v
    | None => value
    end
  else value.
Definition load (files : string → option (result string)) (git : string → option string)
    : SovereignConfig :=
  let c := overridden (stored files) in let o := operator c in
  {| operator :=
       {| name := from_git git "user.name" default_operator_name (name o);
          email := from_git git "user.email" default_operator_email (email o);
          handle := handle o; sign_commits := sign_commits o |};
     engine := engine c |}.

(** What is written where; [mkdir] and [write] are the answers of the file system. *)
Definition save (mkdir write : string → result unit) (c : SovereignConfig)
    : result (string * string) :=
  _ ← match path_parent config_path with
      | Some dir => match mkdir dir with
                    | Ok _ => Ok tt
                    | Err e => fail "Failed to create config dir: {}" [render e]
                    end
      | None => Ok tt
      end;
  text ← match print c with Ok t => Ok t | Err e => fail "Failed to serialize config: {}" [render e] end;
  match write config_path with
  | Ok _ => Ok (config_path, text)
  | Err e => fail "Failed to write config to {:?}: {}" [config_path; render e]
  end.

(** a setting comes from the environment, else from the file, else from its default; git is asked
    for what is then still the default. *)
Theorem load_precedence files git :
  name (operator (load files git))
  = from_git git "user.name" default_operator_name
      (default (name (operator (stored files))) (env "SOVEREIGN_OPERATOR_NAME"))
  ∧ (∀ m, env "SOVEREIGN_ENGINE_MODE" = Some m → mode (engine (load files git)) = m).
Proof. split; [done|]. intros m Hm. cbn. by rewrite Hm. Qed.

(** what was saved is loaded again when the environment and git leave it alone. *)
Theorem save_load mkdir write c p t git :
  (∀ c t, print c = Ok t → parse t = Some c) →
  save mkdir write c = Ok (p, t) →
  (∀ v, v ∈ ["SOVEREIGN_OPERATOR_NAME"; "SOVEREIGN_OPERATOR_EMAIL"; "SOVEREIGN_OPERATOR_HANDLE";
             "SOVEREIGN_ENGINE_MODE"; "SOVEREIGN_API_BASE_URL"] → env v = None) →
  name (operator c) ≠ default_operator_name → email (operator c) ≠ default_operator_email →
  load (λ q, if bool_decide (q = p) then Some (Ok t) else None) git = c.
Proof.
  intros Hp Hs He Hn Hm. unfold save in Hs. apply bind_ok in Hs as (u & _ & Hs).
  apply bind_ok in Hs as (t' & Ht & Hs). destruct (write config_path); [|discriminate].
  injection Hs as <- <-. destruct (print c) as [t''|] eqn:Hc; [|discriminate]. injection Ht as <-.
  assert (stored (λ q, if bool_decide (q = config_path) then Some (Ok t'') else None) = c) as Hst.
  { unfold stored. rewrite bool_decide_true by done. by rewrite (Hp _ _ Hc). }
  unfold load. rewrite Hst. unfold overridden, from_git. rewrite !He by set_solver. cbn.
  rewrite !bool_decide_false by done. by destruct c as [[] []].
Qed.
End Config.

Definition author_string (c : SovereignConfig) : string :=
  concat_all [name (operator c); " <"; email (operator c); ">"].

(** ** Checkpoints *)

Record RollbackCheckpoint := {
  repo_root : string;
  checkpoint_cycle : string;
  base_commit_sha : string;
  worktree_dir : string;
  ref_name : string
}.

(** What is done to the repository and the disk, in order. *)
Inductive act := Git (args : list string) | RemoveDirAll (path : string).

Record GitOutput := { succeeded : bool; out : string; err : string }.

Definition worktree_of (cycle : string) : string := "/tmp/spark-rsi-worktree-" +:+ cycle.
Definition ref_of (cycle : string) : string := "refs/rsi/checkpoints/" +:+ cycle.

Definition in_repo (root : string) (args : list string) : act := Git (["-C"; root] ++ args).
Definition remove_worktree (root dir : string) : act := in_repo root ["worktree"; "remove"; "--force"; dir].

(** [head] and [added] are git's answers, [stale] whether the worktree's directory is there. *)
Definition create (root cycle : string) (head : result GitOutput) (stale : bool) (added : result GitOutput)
    : list act * result RollbackCheckpoint :=
  let ask := in_repo root ["rev-parse"; "HEAD"] in
  match head with
  | Err e => ([ask], fail "Failed to resolve HEAD in {:?}: {}" [root; render e])
  | Ok o =>
    if negb (succeeded o) then
      ([ask], fail "git rev-parse HEAD failed: {}" [from_utf8_lossy (err o)])
    else
      let sha := str_trim (from_utf8_lossy (out o)) in
      let dir := worktree_of cycle in
      let add := in_repo root ["worktree"; "add"; "--detach"; dir; sha] in
      let before := ask :: (if stale then [remove_worktree root dir; RemoveDirAll dir] else []) ++ [add] in
      match added with
      | Err e => (before, fail "Failed to spawn git worktree add: {}" [render e])
      | Ok a =>
        if negb (succeeded a) then
          (before, fail "Failed to create detached git worktree: {}" [from_utf8_lossy (err a)])
        else
          (before ++ [in_repo root ["update-ref"; ref_of cycle; sha]],
           Ok {| repo_root := root; checkpoint_cycle := cycle; base_commit_sha := sha;
                 worktree_dir := dir; ref_name := ref_of cycle |})
      end
  end.

(** [left] is whether the directory is still there after git removed the worktree. *)
Definition teardown (c : RollbackCheckpoint) (left : bool) : list act * result unit :=
  ([remove_worktree (repo_root c) (worktree_dir c); in_repo (repo_root c) ["update-ref"; "-d"; ref_name c]]
   ++ (if left then [RemoveDirAll (worktree_dir c)] else []), Ok tt).

(** The worktrees and references a sequence of commands that all succeed leaves, and the
    directories it removes. *)
Record Traces := { worktrees : gmap string string; refs : gmap string string }.
Definition effect (t : Traces) (a : act) : Traces :=
  match a with
  | Git [_; _; "worktree"; "add"; _; dir; sha] =>
    {| worktrees := <[dir := sha]> (worktrees t); refs := refs t |}
  | Git [_; _; "worktree"; "remove"; _; dir] => {| worktrees := delete dir (worktrees t); refs := refs t |}
  | Git [_; _; "update-ref"; "-d"; r] => {| worktrees := worktrees t; refs := delete r (refs t) |}
  | Git [_; _; "update-ref"; r; sha] => {| worktrees := worktrees t; refs := <[r := sha]> (refs t) |}
  | _ => t
  end.

Lemma ref_not_flag cycle : ref_of cycle ≠ "-d".
Proof. by intros [=]. Qed.

(** a checkpoint leaves a detached worktree and a reference at the head, and tearing it down takes away
    just these two. *)
Theorem checkpoint_lifecycle root cycle head stale added left acts c t :
  create root cycle head stale added = (acts, Ok c) →
  let t1 := foldl effect t acts in
  let t2 := foldl effect t1 (teardown c left).1 in
  t1 = {| worktrees := <[worktree_of cycle := base_commit_sha c]> (worktrees t);
          refs := <[ref_of cycle := base_commit_sha c]> (refs t) |}
  ∧ t2 = {| worktrees := delete (worktree_of cycle) (worktrees t); refs := delete (ref_of cycle) (refs t) |}.
Proof.
  intros H. unfold create in H. destruct head as [o|]; [|discriminate].
  destruct (succeeded o); [|discriminate]. cbn [negb] in H. destruct added as [a|]; [|discriminate].
  destruct (succeeded a); [|discriminate].
  apply pair_equal_spec in H as [<- H]. injection H as <-. cbv zeta. cbn [base_commit_sha].
  set (sha := str_trim _). assert (foldl effect t
    ((in_repo root ["rev-parse"; "HEAD"] ::
      (if stale then [remove_worktree root (worktree_of cycle); RemoveDirAll (worktree_of cycle)] else [])
      ++ [in_repo root ["worktree"; "add"; "--detach"; worktree_of cycle; sha]])
     ++ [in_repo root ["update-ref"; ref_of cycle; sha]])
    = {| worktrees := <[worktree_of cycle := sha]> (worktrees t); refs := <[ref_of cycle := sha]> (refs t) |})
    as H1.
  { destruct stale; cbn; [|done]. by rewrite insert_delete_eq. }
  split; [exact H1|]. rewrite H1. destruct left; cbn; by rewrite !delete_insert_eq.
Qed.
