(* ===== verification/GitStage.v ===== *)
(** Staging a candidate commit ([git], [run], [real_diff], [stage_candidate_commit] and
    [format_patch] of [src/diff_gate.rs]): the git commands that build the commit off to the side.
    What git answers each command is an input; the commands that were run are part of the result. *)

From S2P Require Import Prelude RustStd PatchGate.
#[local] Open Scope string_scope.
#[local] Open Scope list_scope.

(** One command: what it adds to the environment, its arguments, and what it reads. *)
Record Call := { call_env : list (string * string); call_args : list string; call_stdin : option string }.
Record Answer := { success : bool; stdout : string; stderr : string }.

(** An answer and the commands run for it, in order. *)
Definition Traced (A : Type) : Type := list Call * result A.
#[export] Instance traced_ret : MRet Traced := λ A a, ([], Ok a).
#[export] Instance traced_bind : MBind Traced := λ A B f m,
  match m with
  | (cs, Ok a) => let (cs', b) := f a in (cs ++ cs', b)
  | (cs, Err e) => (cs, Err e)
  end.
Definition pure {A} (r : result A) : Traced A := ([], r).

Definition SAFE : list string := ["-c"; "core.hooksPath=/dev/null"].
Definition git_call (repo : string) (env : list (string * string)) (args : list string) : Call :=
  {| call_env := env; call_args := ["-C"; repo] ++ SAFE ++ args; call_stdin := None |}.

(** [str::trim_end]. *)
Definition str_trim_end (s : string) : string :=
  string_of_chars (reverse (drop_while is_whitespace (reverse (chars s)))).

Definition BASE_ARGS : list string := ["rev-parse"; "--verify"; "--quiet"; "HEAD^{commit}"].
Definition LS_TREE (base prefix : string) : list string := ["ls-tree"; "-z"; base; "--"; prefix].
Definition DIFF_TREE (base head : string) : list string :=
  ["diff-tree"; "-r"; "-z"; "--raw"; "--no-renames"; base; head].
Definition PATCH_ARGS (base head : string) : list string :=
  ["diff"; "--no-ext-diff"; "--no-textconv"; "--no-color"; base; head].

Record StagedCommit := {
  base : string;
  staged : string;
  staged_entries : list ChangedEntry;
  staged_patch : string
}.

Section Stage.
Context (answer : Call → result Answer).

Definition run (c : Call) (what : string) : Traced string :=
  ([c],
   match answer c with
   | Err e => fail "{}: {}" [what; render e]
   | Ok o =>
     if negb (success o) then fail "{} failed: {}" [what; str_trim (from_utf8_lossy (stderr o))]
     else Ok (str_trim_end (from_utf8_lossy (stdout o)))
   end).

(** A command whose bytes are read as they are. *)
Definition run_raw (c : Call) (what : string) : Traced string :=
  ([c],
   match answer c with
   | Err e => fail "{}: {}" [what; render e]
   | Ok o =>
     if negb (success o) then fail "{} failed: {}" [what; str_trim (from_utf8_lossy (stderr o))]
     else Ok (stdout o)
   end).

Definition real_diff (repo base head : string) : Traced (list ChangedEntry) :=
  raw ← run_raw (git_call repo [] (DIFF_TREE base head)) "git diff-tree"; pure (parse_raw_diff raw).
Definition real_patch_text (repo base head : string) : Traced string :=
  run (git_call repo [] (PATCH_ARGS base head)) "git diff".
Definition format_patch (repo commit : string) : Traced string :=
  run (git_call repo [] ["format-patch"; "-1"; "--stdout"; "--no-color"; commit]) "format patch".

(** The mode of the first entry of a listing. *)
Definition listed_mode (listing : string) : option string :=
  (λ entry, default "" (head (split_on space entry)))
    <$> List.find (λ l, negb (bool_decide (l = ""))) (split_on nul listing).
Definition is_link_mode (mode : string) : bool :=
  bool_decide (mode = "120000") || bool_decide (mode = "160000").

(** The prefixes of the target still to inspect; [mode] is the mode kept for the file. *)
Fixpoint inspect (repo base : string) (done parts : list string) (mode : string) : Traced string :=
  match parts with
  | [] => mret mode
  | part :: rest =>
    let prefix := join_str "/" (done ++ [part]) in
    listing ← run (git_call repo [] (LS_TREE base prefix)) "inspect base tree";
    match listed_mode listing with
    | Some m =>
      if is_link_mode m then pure (fail "{:?} is a symlink or submodule in the base tree; refused" [prefix])
      else inspect repo base (done ++ [part]) rest
             (if bool_decide (rest = []) && is_regular_mode m then m else mode)
    | None => inspect repo base (done ++ [part]) rest mode
    end
  end.

(** [written] is whether the contents reach git's standard input. *)
Definition hash_object (repo contents : string) (written : result unit) : Traced string :=
  let c := {| call_env := []; call_stdin := Some contents;
              call_args := ["-C"; repo] ++ SAFE ++ ["hash-object"; "-w"; "--no-filters"; "--stdin"] |} in
  match written with
  | Err e => ([c], fail "write blob: {}" [render e])
  | Ok _ => out ← run_raw c "git hash-object"; mret (str_trim (from_utf8_lossy out))
  end.

Definition index_env (index : string) : list (string * string) := [("GIT_INDEX_FILE", index)].
Definition author_env (name email : string) : list (string * string) :=
  [("GIT_AUTHOR_NAME", name); ("GIT_AUTHOR_EMAIL", email); ("GIT_COMMITTER_NAME", name);
   ("GIT_COMMITTER_EMAIL", email)].

(** [index] is the file in the temporary directory, when that could be made. *)
Definition stage_candidate_commit (repo target contents name email message : string)
    (index : result string) (written : result unit) : Traced StagedCommit :=
  base ← run (git_call repo [] BASE_ARGS) "resolve base commit";
  if bool_decide (base = "") then pure (fail "target repository has no base commit" [])
  else
    mode ← inspect repo base [] (split_on (ascii_of_N 47) target) "100644";
    index ← pure (match index with Ok i => Ok i | Err e => fail "temp index dir: {}" [render e] end);
    _ ← run (git_call repo (index_env index) ["read-tree"; base]) "read base tree into temporary index";
    blob ← hash_object repo contents written;
    _ ← run (git_call repo (index_env index)
               ["update-index"; "--add"; "--cacheinfo"; concat_all [mode; ","; blob; ","; target]])
          "add blob to temporary index";
    tree ← run (git_call repo (index_env index) ["write-tree"]) "write candidate tree";
    commit ← run (git_call repo (author_env name email)
                    ["commit-tree"; tree; "-p"; base; "-m"; message]) "create candidate commit";
    entries ← real_diff repo base commit;
    patch ← real_patch_text repo base commit;
    mret {| base := base; staged := commit; staged_entries := entries; staged_patch := patch |}.
End Stage.

(** ** What staging leaves alone

    The subcommands that touch no reference and no working tree, the ones that work on an index,
    and what has to hold of each command. *)

Definition read_only : list string := ["rev-parse"; "ls-tree"; "hash-object"; "commit-tree"; "diff-tree"; "diff"].
Definition on_index : list string := ["read-tree"; "update-index"; "write-tree"].
Definition aside (repo index : string) (c : Call) : Prop :=
  ∃ sub rest, call_args c = ["-C"; repo] ++ SAFE ++ sub :: rest
  ∧ (sub ∈ read_only ∨ sub ∈ on_index ∧ ("GIT_INDEX_FILE", index) ∈ call_env c).

Section StageProps.
Context (answer : Call → result Answer) (repo index : string).

Lemma traced_ok {A B} (m : Traced A) (f : A → Traced B) cs b :
  (m ≫= f) = (cs, Ok b) ↔ ∃ cs1 a cs2, m = (cs1, Ok a) ∧ f a = (cs2, Ok b) ∧ cs = cs1 ++ cs2.
Proof.
  unfold mbind, traced_bind. destruct m as [cs1 [a|e]]; split.
  - destruct (f a) as [cs2 r] eqn:Hf. intros [= <- ->]. eauto 10.
  - intros (? & ? & ? & [= <- <-] & Hf & ->). by rewrite Hf.
  - done.
  - by intros (? & ? & ? & [=] & _).
Qed.

Lemma aside_bind {A B} (m : Traced A) (f : A → Traced B) :
  Forall (aside repo index) m.1 → (∀ a, Forall (aside repo index) (f a).1) →
  Forall (aside repo index) (m ≫= f).1.
Proof.
  unfold mbind, traced_bind. destruct m as [cs [a|e]]; [|done]. intros Hm Hf. specialize (Hf a).
  destruct (f a). by apply Forall_app.
Qed.

Lemma run_aside c what : aside repo index c → Forall (aside repo index) (run answer c what).1.
Proof. intros Hc. by apply Forall_singleton. Qed.

Lemma call_aside env sub rest :
  sub ∈ read_only ∨ sub ∈ on_index ∧ ("GIT_INDEX_FILE", index) ∈ env →
  aside repo index (git_call repo env (sub :: rest)).
Proof. intros Hs. by exists sub, rest. Qed.

#[local] Hint Resolve run_aside : core.

Lemma pure_aside {A} (r : result A) : Forall (aside repo index) (pure r).1.
Proof. constructor. Qed.

Lemma inspect_aside base done parts mode : Forall (aside repo index) (inspect answer repo base done parts mode).1.
Proof.
  revert done mode. induction parts as [|part rest IH]; intros done mode; [constructor|].
  cbn [inspect]. apply aside_bind; [apply run_aside, call_aside; left; set_solver|]. intros listing.
  destruct (listed_mode listing) as [m|]; [|apply IH]. destruct (is_link_mode m); [constructor|apply IH].
Qed.

Lemma hash_aside contents written : Forall (aside repo index) (hash_object answer repo contents written).1.
Proof.
  assert (aside repo index {| call_env := []; call_stdin := Some contents;
    call_args := ["-C"; repo] ++ SAFE ++ ["hash-object"; "-w"; "--no-filters"; "--stdin"] |}) as Hc
    by (eexists "hash-object", _; split; [reflexivity|left; set_solver]).
  unfold hash_object. destruct written; [|by apply Forall_singleton].
  apply aside_bind; [by apply Forall_singleton|constructor].
Qed.

Lemma traced_pure {A B} (r : result A) (f : A → Traced B) :
  (pure r ≫= f) = match r with Ok a => f a | Err e => ([], Err e) end.
Proof. unfold mbind, traced_bind, pure. destruct r as [a|e]; [|done]. by destruct (f a). Qed.

(** staging moves nothing: whatever git answers, every command it runs has hooks off and either only
    reads or adds objects, or works on the temporary index. *)
Theorem staging_aside target contents name email message written :
  Forall (aside repo index)
    (stage_candidate_commit answer repo target contents name email message (Ok index) written).1.
Proof.
  unfold stage_candidate_commit.
  apply aside_bind; [apply run_aside, call_aside; left; set_solver|]. intros base.
  case_bool_decide; [constructor|]. apply aside_bind; [apply inspect_aside|]. intros mode.
  rewrite traced_pure.
  apply aside_bind; [apply run_aside, call_aside; right; set_solver|]. intros _.
  apply aside_bind; [apply hash_aside|]. intros blob.
  apply aside_bind; [apply run_aside, call_aside; right; set_solver|]. intros _.
  apply aside_bind; [apply run_aside, call_aside; right; set_solver|]. intros tree.
  apply aside_bind; [apply run_aside, call_aside; left; set_solver|]. intros commit.
  unfold real_diff, real_patch_text.
  repeat (apply aside_bind; [first [apply run_aside|apply aside_bind; [apply Forall_singleton|constructor]];
    apply call_aside; left; set_solver|]; intros ?). constructor.
Qed.

(** What an inspected prefix was found to be. *)
Definition not_link (base prefix : string) : Prop :=
  ∃ listing, (run answer (git_call repo [] (LS_TREE base prefix)) "inspect base tree").2 = Ok listing
  ∧ ∀ m, listed_mode listing = Some m → is_link_mode m = false.

Lemma inspect_ok base parts : ∀ done mode cs m,
  inspect answer repo base done parts mode = (cs, Ok m) →
  (∀ pre part post, parts = pre ++ part :: post → not_link base (join_str "/" (done ++ pre ++ [part])))
  ∧ (m = mode ∨ is_regular_mode m = true).
Proof.
  induction parts as [|p rest IH]; intros done mode cs m; cbn [inspect].
  { intros [= _ <-]. split; [|by left]. by intros [|] ? ?. }
  intros (cs1 & listing & cs2 & Hrun & H & _)%traced_ok.
  assert (∀ done' mode', inspect answer repo base (done ++ [p]) rest mode' = (cs2, Ok m) →
    (∀ x, listed_mode listing = Some x → is_link_mode x = false) → mode' = mode ∨ is_regular_mode mode' = true →
    done' = done →
    (∀ pre part post, p :: rest = pre ++ part :: post → not_link base (join_str "/" (done ++ pre ++ [part])))
    ∧ (m = mode ∨ is_regular_mode m = true)) as Hstep.
  { intros _ mode' Hi Hl Hm _. destruct (IH _ _ _ _ Hi) as [Hpre Hmode]. split.
    - intros [|a pre] part post Heq; cbn in Heq; injection Heq as <- Hrest.
      + exists listing. cbn [app]. by rewrite Hrun.
      + specialize (Hpre pre part post Hrest). by rewrite <- app_assoc in Hpre.
    - destruct Hmode as [->|]; auto. }
  destruct (listed_mode listing) as [x|] eqn:Hl.
  - destruct (is_link_mode x) eqn:Hx; [discriminate|]. eapply (Hstep done); [exact H| | |done].
    + by intros y [= <-].
    + destruct (bool_decide (rest = [])); cbn [andb]; [|by left].
      destruct (is_regular_mode x) eqn:Hr; [by right|by left].
  - eapply (Hstep done); [exact H|by intros|by left|done].
Qed.

(** what is staged changes a file reached through no symbolic link: neither the target nor a directory
    on the way to it is a link or a submodule in the base tree; the file is entered with a regular
    mode, on top of the base, and the entries are what git reports between base and commit. *)
Theorem staging_sound target contents name email message index' written cs sc :
  stage_candidate_commit answer repo target contents name email message index' written = (cs, Ok sc) →
  base sc ≠ ""
  ∧ (∀ pre part post, split_on (ascii_of_N 47) target = pre ++ part :: post →
       not_link (base sc) (join_str "/" (pre ++ [part])))
  ∧ (∃ mode blob tree i, is_regular_mode mode = true ∧ index' = Ok i
     ∧ git_call repo (index_env i)
         ["update-index"; "--add"; "--cacheinfo"; concat_all [mode; ","; blob; ","; target]] ∈ cs
     ∧ git_call repo (author_env name email) ["commit-tree"; tree; "-p"; base sc; "-m"; message] ∈ cs)
  ∧ ∃ raw, (run_raw answer (git_call repo [] (DIFF_TREE (base sc) (staged sc))) "git diff-tree").2 = Ok raw
     ∧ parse_raw_diff raw = Ok (staged_entries sc).
Proof.
  unfold stage_candidate_commit. intros (c1 & b & d1 & _ & H & ->)%traced_ok.
  case_bool_decide as Hb; [discriminate|].
  apply traced_ok in H as (c2 & mode & d2 & Hi & H & ->). rewrite traced_pure in H.
  destruct index' as [i|]; [|discriminate].
  apply traced_ok in H as (c3 & ? & d3 & _ & H & ->). apply traced_ok in H as (c4 & blob & d4 & _ & H & ->).
  apply traced_ok in H as (c5 & ? & d5 & Hup & H & ->). apply traced_ok in H as (c6 & tree & d6 & _ & H & ->).
  apply traced_ok in H as (c7 & commit & d7 & Hc & H & ->). apply traced_ok in H as (c8 & es & d8 & Hd & H & ->).
  apply traced_ok in H as (c9 & patch & d9 & _ & H & ->). injection H as _ <-. cbn [base staged staged_entries].
  destruct (inspect_ok _ _ _ _ _ _ Hi) as [Hpre Hmode].
  apply traced_ok in Hd as (e1 & raw & e2 & Hraw & Hparse & _). injection Hparse as _ Hparse.
  injection Hup as <- _. injection Hc as <- _.
  split_and!; [done|exact Hpre| |exists raw; by rewrite Hraw].
  exists mode, blob, tree, i. split_and!; [by destruct Hmode as [->|]|done|set_solver|set_solver].
Qed.
End StageProps.

(** ** Examples *)

Module StageExample.
Definition said (t : string) : result Answer := Ok {| success := true; stdout := t; stderr := "" |}.
Definition nul_ : string := String nul "".
(** A repository whose base tree has the executable [src/run.sh] and the link [docs]. *)
Definition repository (c : Call) : result Answer :=
  match drop 4 (call_args c) with
  | ["rev-parse"; _; _; _] => said "b1"
  | ["ls-tree"; _; _; _; p] =>
    if bool_decide (p = "src") then said ("040000 tree t1 src" +:+ nul_)
    else if bool_decide (p = "src/run.sh") then said ("100755 blob f1 src/run.sh" +:+ nul_)
    else if bool_decide (p = "docs") then said ("120000 blob f2 docs" +:+ nul_)
    else said ""
  | ["hash-object"; _; _; _] => said ("f3" +:+ String lf "")
  | ["write-tree"] => said "t2"
  | "commit-tree" :: _ => said "c1"
  | "diff-tree" :: _ => said (":100755 100755 f1 f3 M" +:+ nul_ +:+ "src/run.sh" +:+ nul_)
  | _ => said ""
  end.
Definition stage (target : string) : Traced StagedCommit :=
  stage_candidate_commit repository "/r" target "new" "A" "a@b" "m" (Ok "/tmp/i") (Ok tt).

Example keeps_mode :
  (staged <$> (stage "src/run.sh").2, entry_path <$> match (stage "src/run.sh").2 with
                                       | Ok sc => staged_entries sc | Err _ => [] end,
   bool_decide (["-C"; "/r"; "-c"; "core.hooksPath=/dev/null"; "update-index"; "--add"; "--cacheinfo";
                 "100755,f3,src/run.sh"] ∈ call_args <$> (stage "src/run.sh").1))
  = (Ok "c1", ["src/run.sh"], true).
Proof. vm_compute. reflexivity. Qed.

Example link_refused :
  (stage "docs/x").2 = fail "{:?} is a symlink or submodule in the base tree; refused" ["docs"].
Proof. vm_compute. reflexivity. Qed.
End StageExample.
