(* ===== verification/Profile.v ===== *)
(** Where a repository is and which commit it is at ([repo_identity], [normalize_remote] and
    [head_commit] of [src/measure/profile.rs]), and the wait of [probe_gpu] for nvidia-smi.
    What git writes, the canonical path and the process's answers are inputs. *)

From S2P Require Import Prelude RustStd RustPath Measure.
#[local] Open Scope string_scope.
#[local] Open Scope list_scope.

(** [s.find(pat)]: the text before the first occurrence and the text behind it. *)
Fixpoint break_on (pat s : string) : option (string * string) :=
  if starts_with pat s then Some ("", str_skip (String.length pat) s)
  else match s with
  | EmptyString => None
  | String c s => '(before, after) ← break_on pat s; Some (String c before, after)
  end.

(** The text up to the first such byte, and from it on. *)
Fixpoint span_byte (c : ascii) (s : string) : string * string :=
  match s with
  | EmptyString => ("", "")
  | String b s' => if bool_decide (b = c) then ("", s) else let (l, r) := span_byte c s' in (String b l, r)
  end.

(** The text behind the last such byte, all of it when there is none. *)
Fixpoint after_last (c : ascii) (s : string) : string :=
  match s with
  | EmptyString => ""
  | String b s' =>
    if contains_byte c s' then after_last c s' else if bool_decide (b = c) then s' else s
  end.

Definition strip_suffix (suffix s : string) : option string :=
  if ends_with suffix s then Some (String.substring 0 (String.length s - String.length suffix) s) else None.

Definition at_sign : ascii := ascii_of_N 64.
Definition SCHEME_END : string := "://".

(** Without user and password. *)
Definition without_credentials (u : string) : string :=
  match break_on SCHEME_END u with
  | Some (scheme, rest) =>
    let (authority, path) := span_byte slash rest in
    concat_all [scheme; SCHEME_END; after_last at_sign authority; path]
  | None => u
  end.
Definition normalize_remote (url : string) : string :=
  let u := trim_end_byte slash (without_credentials (str_trim url)) in
  default u (strip_suffix ".git" u).

(** [remote] and [head] are what git writes when it succeeds. *)
Definition git_line (out : option string) : option string :=
  o ← out; let t := str_trim (from_utf8_lossy o) in if bool_decide (t = "") then None else Some t.
Definition repo_identity (remote : option string) (canonical : result string) (repo : string) : string :=
  match git_line remote with
  | Some url => "remote:" +:+ normalize_remote url
  | None => "path:" +:+ match canonical with Ok p => p | Err _ => repo end
  end.
Definition head_commit (head : option string) : option string := git_line head.

(** ** Waiting for nvidia-smi *)

Inductive gpu_poll := GpuExited (success : bool) (stdout : string) | GpuRunning | GpuFails.

(** [clock k] is the time elapsed at the [k]-th poll, in nanoseconds. *)
Definition GPU_PAUSE : N := 20000000.
Fixpoint gpu_wait (fuel : nat) (timeout : N) (polls : nat → gpu_poll) (clock : nat → N) (k : nat)
    : option string :=
  match fuel with
  | O => None
  | S fuel =>
    match polls k with
    | GpuExited true out => Some (probe_gpu (Some out))
    | GpuExited false _ => Some (probe_gpu None)
    | GpuRunning =>
      if (clock k <? timeout)%N then gpu_wait fuel timeout polls clock (S k) else Some (probe_gpu None)
    | GpuFails => Some (probe_gpu None)
    end
  end.
Definition probe_gpu_process (fuel : nat) (timeout : N) (spawned : bool) (polls : nat → gpu_poll)
    (clock : nat → N) : option string :=
  if spawned then gpu_wait fuel timeout polls clock 0 else Some (probe_gpu None).

(** ** Properties *)

Lemma after_last_clean c s : contains_byte c (after_last c s) = false.
Proof.
  induction s as [|b s IH]; [done|]. cbn [after_last]. destruct (contains_byte c s) eqn:Hs; [done|].
  case_bool_decide as Hb; [done|]. cbn [contains_byte]. by rewrite bool_decide_false, Hs.
Qed.

Lemma after_last_suffix c s : ∃ user, s = user +:+ after_last c s.
Proof.
  induction s as [|b s [user IH]]; [by exists ""|]. cbn [after_last].
  destruct (contains_byte c s); [exists (String b user); cbn; by f_equal|].
  destruct (bool_decide (b = c)); [by exists (String b "")|by exists ""].
Qed.

Lemma span_byte_app c s : s = (span_byte c s).1 +:+ (span_byte c s).2.
Proof.
  induction s as [|b s IH]; [done|]. cbn [span_byte]. destruct (bool_decide (b = c)); [done|].
  destruct (span_byte c s). cbn in *. by f_equal.
Qed.

Lemma span_byte_rest c s : (span_byte c s).2 = "" ∨ ∃ r, (span_byte c s).2 = String c r.
Proof.
  induction s as [|b s IH]; [by left|]. cbn [span_byte]. case_bool_decide as Hb.
  - subst. right. by exists s.
  - by destruct (span_byte c s).
Qed.

Lemma break_on_app pat s before after : break_on pat s = Some (before, after) → s = before +:+ pat +:+ after.
Proof.
  revert before. induction s as [|c s IH]; intros before; cbn [break_on];
    destruct (starts_with pat _) eqn:Hp.
  - intros [= <- <-]. by destruct pat.
  - done.
  - intros [= <- <-]. apply starts_with_iff in Hp as [t Ht]. by rewrite Ht, str_skip_app.
  - intros ([b a] & Hb & [= <- <-])%bind_Some. cbn. f_equal. by apply IH.
Qed.

(** the identity of a repository carries no credentials: from a URL with a scheme, everything up to the
    last [@] of the authority is taken out, and the scheme, the host and the path stay. *)
Theorem credentials_removed u scheme rest :
  break_on SCHEME_END u = Some (scheme, rest) →
  ∃ user host path, u = scheme +:+ SCHEME_END +:+ user +:+ host +:+ path
  ∧ without_credentials u = scheme +:+ SCHEME_END +:+ host +:+ path
  ∧ contains_byte at_sign host = false ∧ (path = "" ∨ ∃ r, path = String slash r).
Proof.
  intros Hb. unfold without_credentials. rewrite Hb. apply break_on_app in Hb as ->.
  pose proof (span_byte_app slash rest) as Hs. pose proof (span_byte_rest slash rest) as Hr.
  destruct (span_byte slash rest) as [authority path]. cbn in Hs, Hr.
  destruct (after_last_suffix at_sign authority) as [user Hu].
  exists user, (after_last at_sign authority), path. split_and!; [|cbn [concat_all foldr]; by rewrite str_app_nil_r|apply after_last_clean|done].
  rewrite Hs, (str_app_assoc user). by rewrite <- Hu.
Qed.

(** the wait for nvidia-smi ends, with its names or [none]. *)
Theorem gpu_wait_ends fuel timeout polls clock :
  (∀ k, (clock k + GPU_PAUSE <= clock (S k))%N) → (timeout + GPU_PAUSE < N.of_nat fuel * GPU_PAUSE)%N →
  ∃ names, probe_gpu_process fuel timeout true polls clock = Some names.
Proof.
  intros Hc Hf. unfold probe_gpu_process.
  assert (∀ fuel k, (timeout + GPU_PAUSE < clock k + N.of_nat fuel * GPU_PAUSE)%N → fuel ≠ 0 →
    ∃ names, gpu_wait fuel timeout polls clock k = Some names) as Hw.
  { clear fuel Hf. induction fuel as [|fuel IH]; intros k Hf Hn; [done|]. cbn [gpu_wait].
    destruct (polls k) as [[] out| |]; eauto. destruct (clock k <? timeout)%N eqn:Ht; [|eauto].
    apply N.ltb_lt in Ht. specialize (Hc k). unfold GPU_PAUSE in *.
    apply IH; [lia|]. intros ->. lia. }
  apply Hw; [lia|]. intros ->. lia.
Qed.

Example normalized :
  (normalize_remote " https://me:tok@en@host.org/a/b.git/ ", normalize_remote "git@host.org:a/b.git")
  = ("https://host.org/a/b", "git@host.org:a/b").
Proof. vm_compute. reflexivity. Qed.

(** Behind [.git] a slash can be left. *)
Example slash_left : normalize_remote "https://host.org/a/.git" = "https://host.org/a/".
Proof. vm_compute. reflexivity. Qed.
