(* ===== verification/Latency.v ===== *)
(** Latencies and resource readings ([LatencyDistribution], [RusageMetrics::capture] and
    [ProcessMetricsSnapshot] of [src/evaluator/metrics.rs]).  What the kernel answers is an input. *)

From S2P Require Import Prelude RustStd RustNum RustFloat Sorting Stats StatsProps PatchGate Evaluator.
#[local] Open Scope string_scope.
#[local] Open Scope list_scope.
Import Metrics.

Definition f64_sqrt : f64 → f64 := SpecFloat.SFsqrt prec emax.

Record LatencyDistribution := {
  count : N;
  min_us : f64;
  max_us : f64;
  mean_us : f64;
  stddev_us : f64;
  p50_us : f64;
  p95_us : f64;
  p99_us : f64;
  throughput_ops_per_sec : f64;
  total_wall_time_us : N
}.

(** [None] is an index out of bounds. *)
Definition from_samples (samples : list f64) (wall : N) : option (result LatencyDistribution) :=
  if bool_decide (samples = []) then
    Some (fail "Cannot construct LatencyDistribution from zero samples" [])
  else
    let sorted := sort_samples samples in
    let n := len sorted in
    smallest ← at_index sorted 0;
    largest ← at_index sorted (n - 1);
    let mean := f64_div (sum_samples sorted) (f64_of_N n) in
    let square v := let d := f64_sub v mean in f64_mul d d in
    let variance := f64_div (sum_samples (square <$> sorted)) (f64_of_N n) in
    p50 ← calculate_percentile sorted (f64_of_N 50);
    p95 ← calculate_percentile sorted (f64_of_N 95);
    p99 ← calculate_percentile sorted (f64_of_N 99);
    Some (Ok {| count := n; min_us := smallest; max_us := largest; mean_us := mean;
                stddev_us := f64_sqrt variance; p50_us := p50; p95_us := p95; p99_us := p99;
                throughput_ops_per_sec :=
                  if (0 <? wall)%N
                  then f64_div (f64_mul (f64_of_N n) (f64_of_N 1000000)) (f64_of_N wall)
                  else f64_of_N 0;
                total_wall_time_us := wall |}).

(** ** Readings *)

(** What [getrusage] fills in; times in seconds and microseconds as signed words. *)
Record rusage := {
  utime_sec : Z; utime_usec : Z; stime_sec : Z; stime_usec : Z;
  maxrss : Z; nvcsw : Z; nivcsw : Z
}.
(** [x as u64] of an [i64]. *)
Definition as_u64 (z : Z) : N := Z.to_N (z mod 2 ^ 64).
Definition time_us (sec usec : Z) : N := sat_add64 (sat_mul64 (as_u64 sec) 1000000) (as_u64 usec).

(** [Err] is the code the call returns. *)
Definition capture (r : Z + rusage) : result RusageMetrics :=
  match r with
  | inl code => fail "libc::getrusage failed with exit code {}" [pretty code]
  | inr u =>
    Ok {| user_time_us := time_us (utime_sec u) (utime_usec u);
          system_time_us := time_us (stime_sec u) (stime_usec u);
          max_rss_kb := maxrss u; voluntary_context_switches := nvcsw u;
          involuntary_context_switches := nivcsw u |}
  end.

Record ProcessMetricsSnapshot := {
  snap_rusage : RusageMetrics;
  snap_statm : option StatmMetrics;
  snap_latencies : option LatencyDistribution;
  timestamp_utc : string
}.
Definition capture_current (r : Z + rusage) (statm : result StatmMetrics) (now : string)
    : result ProcessMetricsSnapshot :=
  usage ← capture r;
  mret {| snap_rusage := usage;
          snap_statm := match statm with Ok s => Some s | Err _ => None end;
          snap_latencies := None; timestamp_utc := now |}.

(** ** Properties *)

(** A summary exists exactly for samples, is never out of bounds, and counts them all. *)
Theorem summary_exact samples wall :
  (len samples < 2 ^ 53)%N →
  match from_samples samples wall with
  | Some (Ok d) => samples ≠ [] ∧ count d = len samples
      ∧ last (sort_samples samples) = Some (max_us d) ∧ head (sort_samples samples) = Some (min_us d)
  | Some (Err _) => samples = []
  | None => False
  end.
Proof.
  intros Hl. unfold from_samples. case_bool_decide as Hs; [done|].
  assert (0 < len samples)%N as Hn by (unfold len; destruct samples; [done|cbn; lia]).
  rewrite sort_len. destruct (at_index_lt (sort_samples samples) 0) as [lo Hlo]; [by rewrite sort_len|].
  destruct (at_index_lt (sort_samples samples) (len samples - 1)) as [hi Hhi]; [rewrite sort_len; lia|].
  destruct (percentile_total (sort_samples samples) (f64_of_N 50)) as [a Ha];
    [by left|by rewrite sort_len|].
  destruct (percentile_total (sort_samples samples) (f64_of_N 95)) as [b Hb];
    [by right; left|by rewrite sort_len|].
  destruct (percentile_total (sort_samples samples) (f64_of_N 99)) as [c Hc];
    [by right; right; left|by rewrite sort_len|].
  cbv zeta. rewrite Hlo. cbn [mbind option_bind]. rewrite Hhi. cbn [mbind option_bind].
  rewrite Ha. cbn [mbind option_bind]. rewrite Hb. cbn [mbind option_bind]. rewrite Hc.
  cbn [mbind option_bind count max_us min_us]. split_and!; [done|done| |].
  - rewrite last_lookup. unfold at_index in Hhi. rewrite <- Hhi. f_equal.
    pose proof (sort_len samples) as E. unfold len in *. lia.
  - unfold at_index in Hlo. by destruct (sort_samples samples).
Qed.

(** The clock of a process saturates and never wraps, for the times a kernel reports. *)
Lemma time_us_bounded sec usec : (time_us sec usec <= u64_max)%N.
Proof. unfold time_us, sat_add64. lia. Qed.
