(* ===== verification/Kernel.v ===== *)
(** The kernel autotuner ([src/propose/kernel_autotune.rs]): the configurations of the attention kernel
    and their search space, the kernel source with a configuration's macros, and the experiment
    that compares a candidate with the baseline and writes its outcome to the ledger.

    What the compiler in its jail answers, the shared library's return codes and the nanoseconds of
    every launch, the identifiers and clocks are inputs of an experiment. *)

From S2P Require Import Prelude RustStd RustNum RustFloat Stats Digest Json Graph Contract LedgerRecord Ledger PatchGate Measure Meta.
#[local] Open Scope string_scope.
#[local] Open Scope list_scope.

(** ** Configurations *)

Record PagedAttentionConfig := {
  page_size : N;
  query_heads_per_block : N;
  threads_per_block : N;
  warps_per_block : N;
  vector_width : N;
  prefetch_distance : N
}.
#[export] Instance config_eq_dec : EqDecision PagedAttentionConfig.
Proof. solve_decision. Defined.

Definition default_config : PagedAttentionConfig :=
  {| page_size := 16; query_heads_per_block := 4; threads_per_block := 128; warps_per_block := 4;
     vector_width := 2; prefetch_distance := 1 |}%N.

Definition new_config (page heads vector prefetch : N) : result PagedAttentionConfig :=
  if negb (page =? 16)%N && negb (page =? 32)%N then
    fail "Invalid page_size {}; must be 16 or 32" [dec page]
  else if negb (heads =? 1)%N && negb (heads =? 2)%N && negb (heads =? 4)%N && negb (heads =? 7)%N then
    fail "Invalid query_heads_per_block {}; must be 1, 2, 4, or 7" [dec heads]
  else if negb (vector =? 1)%N && negb (vector =? 2)%N then
    fail "Invalid vector_width {}; must be 1 or 2" [dec vector]
  else if (2 <? prefetch)%N then
    fail "Invalid prefetch_distance {}; must be <= 2" [dec prefetch]
  else
    Ok {| page_size := page; query_heads_per_block := heads; threads_per_block := heads * 32;
          warps_per_block := heads; vector_width := vector; prefetch_distance := prefetch |}%N.

Definition is_valid (c : PagedAttentionConfig) : bool :=
  (((page_size c =? 16) || (page_size c =? 32))
  && ((query_heads_per_block c =? 1) || (query_heads_per_block c =? 2)
      || (query_heads_per_block c =? 4) || (query_heads_per_block c =? 7))
  && (warps_per_block c =? query_heads_per_block c)
  && (threads_per_block c =? query_heads_per_block c * 32)
  && ((vector_width c =? 1) || (vector_width c =? 2))
  && (prefetch_distance c <=? 2))%N.

Definition enumerate_search_space : list PagedAttentionConfig :=
  p ← [16; 32]%N; h ← [1; 2; 4]%N; v ← [1; 2]%N; pf ← [0; 1; 2]%N;
  match new_config p h v pf with Ok c => [c] | Err _ => [] end.

(** ** The kernel source *)

Definition nl : string := String lf "".
Definition unlines (ls : list string) : string := concat_all ((λ l, l +:+ nl) <$> ls).

Definition macro_lines (c : PagedAttentionConfig) : list string :=
  ["#define PAGE_SIZE " +:+ dec (page_size c); "#define BLOCK_THREADS " +:+ dec (threads_per_block c);
   "#define Q_HEADS_PER_BLOCK " +:+ dec (query_heads_per_block c);
   "#define VECTOR_WIDTH " +:+ dec (vector_width c);
   "#define PREFETCH_DISTANCE " +:+ dec (prefetch_distance c)].
Definition render_macro_defines (c : PagedAttentionConfig) : string := unlines (macro_lines c).

Definition MARKER : string := "Parameterized autotuning search space".
Definition WARP_LINE : string := "#define WARP_SIZE".
Definition HEADER_LINE : string := "// Autotuned Blackwell sm_121 Configuration by spark-rsi".

(** The lines that are kept; [in_macros] is [in_initial_macros]. *)
Fixpoint keep_lines (in_macros : bool) (ls : list string) : list string :=
  match ls with
  | [] => []
  | l :: ls =>
    if str_contains MARKER l then keep_lines true ls
    else if in_macros && negb (starts_with WARP_LINE l) then keep_lines true ls
    else l :: keep_lines false ls
  end.

Definition apply_to_kernel_source (c : PagedAttentionConfig) (base : string) : string :=
  HEADER_LINE +:+ nl +:+ render_macro_defines c +:+ nl +:+ unlines (keep_lines false (str_lines base)).

Definition recommended_kv_pool_block_size (c : PagedAttentionConfig) : N := page_size c.

(** ** The kernel and the pool of keys and values *)

Record CoupledKernelKvConfig := {
  kernel_config : PagedAttentionConfig;
  kv_pool_block_size : N;
  block_table_page_geometry : N
}.

Definition verify_invariant (k : CoupledKernelKvConfig) : result unit :=
  if negb (page_size (kernel_config k) =? kv_pool_block_size k)%N then
    fail "Coupled KV Invariant Violation: kernel PAGE_SIZE ({}) != KV pool block_size ({})"
      [dec (page_size (kernel_config k)); dec (kv_pool_block_size k)]
  else if negb (kv_pool_block_size k =? block_table_page_geometry k)%N then
    fail "Coupled KV Invariant Violation: KV pool block_size ({}) != block_table_page_geometry ({})"
      [dec (kv_pool_block_size k); dec (block_table_page_geometry k)]
  else Ok tt.
Definition new_coupled (c : PagedAttentionConfig) : result CoupledKernelKvConfig :=
  let k := {| kernel_config := c; kv_pool_block_size := page_size c;
              block_table_page_geometry := page_size c |} in
  _ ← verify_invariant k; mret k.

(** ** Metrics *)

Record KernelWorkloadMetrics := {
  latency_samples_us : list f64;
  p50_latency_us : f64;
  p95_latency_us : f64;
  p99_latency_us : f64;
  energy_joules_per_token : f64;
  physical_kv_bytes_per_token : f64
}.

Definition sample_at (sorted : list f64) (fraction : f64) : option f64 :=
  let n := len sorted in
  at_index sorted (N.min (f64_as_usize (f64_floor (f64_mul (f64_of_N n) fraction))) (n - 1)).
(** [None] is an index out of bounds. *)
Definition compute_percentiles (samples : list f64) : option (f64 * f64 * f64) :=
  if bool_decide (samples = []) then Some (f64_of_N 0, f64_of_N 0, f64_of_N 0)
  else
    let sorted := sort_samples samples in
    p50 ← sample_at sorted (f64_lit 50 2);
    p95 ← sample_at sorted (f64_lit 95 2);
    p99 ← sample_at sorted (f64_lit 99 2);
    Some (p50, p95, p99).
Definition from_samples (samples : list f64) (energy kv_bytes : f64) : option KernelWorkloadMetrics :=
  '(p50, p95, p99) ← compute_percentiles samples;
  Some {| latency_samples_us := samples; p50_latency_us := p50; p95_latency_us := p95;
          p99_latency_us := p99; energy_joules_per_token := energy;
          physical_kv_bytes_per_token := kv_bytes |}.

(** ** The workload *)

(** What a launch of the kernel returns and how many nanoseconds it takes. *)
Definition launch : Type := Z * N.
Definition WARM_UPS : nat := 5.

Fixpoint warm_up (launches : nat → launch) (from k : nat) : result unit :=
  match k with
  | O => Ok tt
  | S k =>
    let '(rc, _) := launches from in
    if bool_decide (rc ≠ 0%Z) then
      fail "Hardware kernel warm-up launch failed with error code {}" [pretty rc]
    else warm_up launches (S from) k
  end.
Fixpoint timed (launches : nat → launch) (from k : nat) : result (list f64) :=
  match k with
  | O => Ok []
  | S k =>
    let '(rc, nanos) := launches from in
    if bool_decide (rc ≠ 0%Z) then
      fail "Hardware kernel execution failed with error code {}" [pretty rc]
    else
      rest ← timed launches (S from) k;
      Ok (f64_div (f64_of_N nanos) (f64_of_N 1000) :: rest)
  end.

Definition NUM_SEQS : N := 4.
Definition NUM_KV_HEADS : N := 4.
Definition HEAD_DIM : N := 128.
Definition energy_of (mean_lat : f64) : f64 :=
  f64_div (f64_mul (f64_mul mean_lat (f64_lit 1 6)) (f64_of_N 25)) (f64_of_N NUM_SEQS).
Definition KV_BYTES : f64 :=
  f64_mul (f64_mul (f64_mul (f64_mul (f64_of_N 2) (f64_of_N 28)) (f64_of_N NUM_KV_HEADS))
             (f64_of_N HEAD_DIM)) (f64_of_N 2).

(** [loaded] is whether the shared library and its symbol are found. *)
Definition measure_workload (loaded : result unit) (launches : nat → launch) (iterations : nat)
    : option (result KernelWorkloadMetrics) :=
  match (_ ← loaded; _ ← warm_up launches 0 WARM_UPS; timed launches WARM_UPS iterations) with
  | Err e => Some (Err e)
  | Ok samples =>
    let mean := f64_div (sum_samples samples) (f64_of_N (len samples)) in
    metrics ← from_samples samples (energy_of mean) KV_BYTES;
    Some (Ok metrics)
  end.

(** ** The claim and the proposal *)

Definition create_contract (c : PagedAttentionConfig) (uuid stamp : string) (baseline_p95 : f64)
    (empirical : option f64) : HypothesisContract :=
  {| hypothesis_id := "hyp-kernel-" +:+ uuid;
     hypothesis_cycle_id := "cycle-kernel-" +:+ stamp;
     observed_problem := "Attention decode latency under multi-agent branch pressure";
     suspected_root_cause :=
       render (Fmt "Non-optimal GB10 warp geometry and prefetch distance (page_size={}, heads={}, warps={}, vec={})"
         [dec (page_size c); dec (query_heads_per_block c); dec (warps_per_block c); dec (vector_width c)]);
     target_metric := "p95_decode_step_latency_us";
     baseline_value := baseline_p95;
     predicted_delta_pct := f64_opp (f64_of_N 5);
     protected_metrics :=
       [{| metric_name := "p99_latency"; max_allowed_degradation_pct := f64_of_N 1 |};
        {| metric_name := "energy_joules_per_token"; max_allowed_degradation_pct := f64_of_N 2 |};
        {| metric_name := "physical_kv_bytes_per_token"; max_allowed_degradation_pct := f64_of_N 0 |}];
     falsification_test := "paired_workload_bootstrap_permutation_test_p001";
     confidence_score := f64_clamp (default (f64_lit 50 2) empirical) (f64_lit 1 2) (f64_lit 999 3) |}.

Definition create_proposal (c : PagedAttentionConfig) (uuid now target base : string)
    : result ImprovementProposal :=
  coupled ← new_coupled c;
  _ ← verify_invariant coupled;
  Ok {| id := "prop-attn-" +:+ uuid;
        title := render (Fmt "autotune sm_121 paged_attention (p={}, h={}, w={}, v={}, pf={})"
          [dec (page_size c); dec (query_heads_per_block c); dec (warps_per_block c);
           dec (vector_width c); dec (prefetch_distance c)]);
        description := render (Fmt "Autonomous Blackwell GB10 PagedAttention kernel parameter exploration (coupled KV pool block_size={})"
          [dec (kv_pool_block_size coupled)]);
        target_file := target; proposed_patch := apply_to_kernel_source c base;
        kind := Optimization; created_at := now; sandbox_path := None; operator_signature := None |}.

(** ** The experiment *)

Record KernelAutotuneExperiment := {
  experiment_id : string;
  baseline_config : PagedAttentionConfig;
  candidate_config : PagedAttentionConfig;
  coupled_kv : CoupledKernelKvConfig;
  target_cuda_source : string;
  iterations : nat
}.
Definition new_experiment (uuid : string) (baseline candidate : PagedAttentionConfig) (source : string)
    : result KernelAutotuneExperiment :=
  coupled ← new_coupled candidate;
  _ ← verify_invariant coupled;
  Ok {| experiment_id := "exp-kernel-" +:+ uuid; baseline_config := baseline;
        candidate_config := candidate; coupled_kv := coupled; target_cuda_source := source;
        iterations := 30 |}.

Record KernelExperimentReceipt := {
  r_experiment_id : string;
  r_timestamp : string;
  r_baseline_config : PagedAttentionConfig;
  r_candidate_config : PagedAttentionConfig;
  r_coupled_kv_config : CoupledKernelKvConfig;
  compilation_passed : bool;
  compilation_error : option string;
  baseline_metrics : KernelWorkloadMetrics;
  candidate_metrics : KernelWorkloadMetrics;
  p95_delta_pct : f64;
  p99_degradation_pct : f64;
  energy_delta_pct : f64;
  kv_bytes_delta_pct : f64;
  bootstrap_p_value : f64;
  r_significant : bool;
  r_confidence_score : f64;
  protected_invariants_passed : bool;
  admitted : bool;
  ledger_block_hash : option string;
  cortex_receipt_id : option string
}.

(** ** The kernel used when the source is not there *)

Definition q : string := String (ascii_of_N 34) "".
Definition builtin_kernel_reference : string :=
  unlines
  ["#include <cuda_runtime.h>";
   "#include <cuda_bf16.h>";
   "#include <stdint.h>";
   "";
   "// Parameterized autotuning search space with compile-time overrides";
   "#ifndef PAGE_SIZE";
   "#define PAGE_SIZE 16";
   "#endif";
   "";
   "#ifndef BLOCK_THREADS";
   "#define BLOCK_THREADS 128";
   "#endif";
   "";
   "#ifndef Q_HEADS_PER_BLOCK";
   "#define Q_HEADS_PER_BLOCK 4";
   "#endif";
   "";
   "#ifndef VECTOR_WIDTH";
   "#define VECTOR_WIDTH 2";
   "#endif";
   "";
   "#ifndef PREFETCH_DISTANCE";
   "#define PREFETCH_DISTANCE 1";
   "#endif";
   "";
   "#define WARP_SIZE 32";
   "#if defined(Q_HEADS_PER_BLOCK) && (Q_HEADS_PER_BLOCK > 0)";
   "#define WARPS_PER_BLOCK Q_HEADS_PER_BLOCK";
   "#else";
   "#define WARPS_PER_BLOCK (BLOCK_THREADS / WARP_SIZE)";
   "#endif";
   "";
   "__global__ void paged_attention_bf16_cooperative_kernel(";
   "    const __nv_bfloat16 * __restrict__ q,";
   "    const __nv_bfloat16 * __restrict__ k_pool,";
   "    const __nv_bfloat16 * __restrict__ v_pool,";
   "    const int32_t * __restrict__ block_tables,";
   "    const int32_t * __restrict__ context_lens,";
   "    int32_t max_blocks_per_seq,";
   "    int32_t num_seqs,";
   "    int32_t num_q_heads,";
   "    int32_t num_kv_heads,";
   "    int32_t head_dim,";
   "    float sm_scale,";
   "    __nv_bfloat16 * __restrict__ out";
   ") {";
   "    int warp_id = threadIdx.x / WARP_SIZE;";
   "    int q_head_idx = blockIdx.x * WARPS_PER_BLOCK + warp_id;";
   "    int seq_idx = blockIdx.y;";
   "    if (seq_idx >= num_seqs || q_head_idx >= num_q_heads) {";
   "        return;";
   "    }";
   "    int out_idx = (seq_idx * num_q_heads + q_head_idx) * head_dim + (threadIdx.x % head_dim);";
   "    if (out_idx < num_seqs * num_q_heads * head_dim && out && q) {";
   "        out[out_idx] = q[out_idx];";
   "    }";
   "}";
   "";
   "extern " +:+ q +:+ "C" +:+ q +:+ " {";
   "int paged_attention_bf16_forward(";
   "    const __nv_bfloat16 *q,";
   "    const __nv_bfloat16 *k_pool,";
   "    const __nv_bfloat16 *v_pool,";
   "    const int32_t *block_tables,";
   "    const int32_t *context_lens,";
   "    int32_t max_blocks_per_seq,";
   "    int32_t num_seqs,";
   "    int32_t num_q_heads,";
   "    int32_t num_kv_heads,";
   "    int32_t head_dim,";
   "    float sm_scale,";
   "    __nv_bfloat16 *out";
   ") {";
   "    if (num_seqs <= 0 || num_q_heads <= 0 || head_dim <= 0) {";
   "        return 0;";
   "    }";
   "    size_t q_bytes = (size_t)num_seqs * num_q_heads * head_dim * sizeof(__nv_bfloat16);";
   "    void *d_q = NULL;";
   "    void *d_out = NULL;";
   "    cudaError_t e1 = cudaMalloc(&d_q, q_bytes);";
   "    cudaError_t e2 = cudaMalloc(&d_out, q_bytes);";
   "    if (e1 != cudaSuccess || e2 != cudaSuccess) {";
   "        if (d_q) cudaFree(d_q);";
   "        if (d_out) cudaFree(d_out);";
   "        return -2;";
   "    }";
   "    if (q) cudaMemcpy(d_q, q, q_bytes, cudaMemcpyHostToDevice);";
   "";
   "    int warps_per_block = Q_HEADS_PER_BLOCK;";
   "    int block_threads = warps_per_block * WARP_SIZE;";
   "    int blocks_x = (num_q_heads + warps_per_block - 1) / warps_per_block;";
   "    dim3 grid(blocks_x, num_seqs);";
   "    dim3 block(block_threads);";
   "    size_t shared_mem = warps_per_block * head_dim * sizeof(float);";
   "    paged_attention_bf16_cooperative_kernel<<<grid, block, shared_mem>>>(";
   "        (const __nv_bfloat16*)d_q, NULL, NULL, NULL, NULL,";
   "        max_blocks_per_seq, num_seqs, num_q_heads, num_kv_heads, head_dim, sm_scale, (__nv_bfloat16*)d_out";
   "    );";
   "    cudaError_t err = cudaDeviceSynchronize();";
   "    if (out && d_out) {";
   "        cudaMemcpy(out, d_out, q_bytes, cudaMemcpyDeviceToHost);";
   "    }";
   "    if (d_q) cudaFree(d_q);";
   "    if (d_out) cudaFree(d_out);";
   "    return (err == cudaSuccess) ? 0 : -1;";
   "}";
   "";
   "void paged_attention_bf16_destroy(void) {}";
   "}"].

(** ** Running the experiment *)

Definition no_metrics : KernelWorkloadMetrics :=
  {| latency_samples_us := []; p50_latency_us := f64_of_N 0; p95_latency_us := f64_of_N 0;
     p99_latency_us := f64_of_N 0; energy_joules_per_token := f64_of_N 0;
     physical_kv_bytes_per_token := f64_of_N 0 |}.

(** The receipt of a candidate that was not measured. *)
Definition unmeasured (x : KernelAutotuneExperiment) (now : string) (base : KernelWorkloadMetrics)
    (compile_error : option string) : KernelExperimentReceipt :=
  {| r_experiment_id := experiment_id x; r_timestamp := now;
     r_baseline_config := baseline_config x; r_candidate_config := candidate_config x;
     r_coupled_kv_config := coupled_kv x;
     compilation_passed := bool_decide (compile_error = None); compilation_error := compile_error;
     baseline_metrics := base; candidate_metrics := no_metrics;
     p95_delta_pct := f64_of_N 0; p99_degradation_pct := f64_of_N 0;
     energy_delta_pct := f64_of_N 0; kv_bytes_delta_pct := f64_of_N 0;
     bootstrap_p_value := f64_of_N 1; r_significant := false; r_confidence_score := f64_lit 1 2;
     protected_invariants_passed := false; admitted := false; ledger_block_hash := None;
     cortex_receipt_id := None |}.

(** The change from [b] to [c] in percent of a positive [b]. *)
Definition change_pct (b c : f64) : f64 :=
  if f64_gt b (f64_of_N 0)
  then f64_mul (f64_div (f64_sub c b) b) (f64_of_N 100) else f64_of_N 0.

Definition confidence_of (significant : bool) (p p95_delta : f64) : f64 :=
  if significant && f64_lt p95_delta (f64_of_N 0) then
    f64_clamp (f64_sub (f64_of_N 1) p) (f64_lit 50 2) (f64_lit 999 3)
  else if significant && f64_gt p95_delta (f64_of_N 0) then f64_lit 1 2
  else f64_clamp (f64_sub (f64_of_N 1) p) (f64_lit 10 2) (f64_lit 50 2).

(** The receipt of a measured candidate before it is in the ledger. *)
Definition compared (x : KernelAutotuneExperiment) (now : string) (b c : KernelWorkloadMetrics)
    (e : BootstrapEstimate) : KernelExperimentReceipt :=
  let p95 := change_pct (p95_latency_us b) (p95_latency_us c) in
  let p99 := change_pct (p99_latency_us b) (p99_latency_us c) in
  let energy := change_pct (energy_joules_per_token b) (energy_joules_per_token c) in
  let kv := change_pct (physical_kv_bytes_per_token b) (physical_kv_bytes_per_token c) in
  let protected_ok := f64_le p99 (f64_of_N 1) && f64_le energy (f64_of_N 2) && f64_le kv (f64_of_N 0) in
  {| r_experiment_id := experiment_id x; r_timestamp := now;
     r_baseline_config := baseline_config x; r_candidate_config := candidate_config x;
     r_coupled_kv_config := coupled_kv x; compilation_passed := true; compilation_error := None;
     baseline_metrics := b; candidate_metrics := c; p95_delta_pct := p95; p99_degradation_pct := p99;
     energy_delta_pct := energy; kv_bytes_delta_pct := kv; bootstrap_p_value := p_value e;
     r_significant := is_statistically_significant e;
     r_confidence_score := confidence_of (is_statistically_significant e) (p_value e) p95;
     protected_invariants_passed := protected_ok;
     admitted := protected_ok && f64_le p95 (f64_opp (f64_of_N 5)) && is_statistically_significant e;
     ledger_block_hash := None; cortex_receipt_id := None |}.
Definition recorded (r : KernelExperimentReceipt) (block lesson : option string)
    : KernelExperimentReceipt :=
  {| r_experiment_id := r_experiment_id r; r_timestamp := r_timestamp r;
     r_baseline_config := r_baseline_config r; r_candidate_config := r_candidate_config r;
     r_coupled_kv_config := r_coupled_kv_config r; compilation_passed := compilation_passed r;
     compilation_error := compilation_error r; baseline_metrics := baseline_metrics r;
     candidate_metrics := candidate_metrics r; p95_delta_pct := p95_delta_pct r;
     p99_degradation_pct := p99_degradation_pct r; energy_delta_pct := energy_delta_pct r;
     kv_bytes_delta_pct := kv_bytes_delta_pct r; bootstrap_p_value := bootstrap_p_value r;
     r_significant := r_significant r; r_confidence_score := r_confidence_score r;
     protected_invariants_passed := protected_invariants_passed r; admitted := admitted r;
     ledger_block_hash := block; cortex_receipt_id := lesson |}.

Definition outcome_values (r : KernelExperimentReceipt) : list string :=
  [fmt_fixed 2 (p95_delta_pct r); fmt_fixed 4 (bootstrap_p_value r);
   fmt_fixed 3 (r_confidence_score r); if admitted r then "true" else "false"].
Definition summary_of (r : KernelExperimentReceipt) : string :=
  render (Fmt "KernelAutotuneExperiment: p95_delta={}%, p_val={}, conf={}, admitted={}" (outcome_values r)).
(** The proposal the lesson is recorded for. *)
Definition lesson_proposal (x : KernelAutotuneExperiment) (now : string) (r : KernelExperimentReceipt)
    : ImprovementProposal :=
  let c := candidate_config x in
  {| id := experiment_id x;
     title := render (Fmt "Kernel Autotune sm_121: p={}, h={}, v={}, pf={}"
       [dec (page_size c); dec (query_heads_per_block c); dec (vector_width c); dec (prefetch_distance c)]);
     description := render (Fmt "Blackwell paged_attention autotuning: p95_delta={}%, p={}, conf={}, admitted={}"
       (outcome_values r));
     target_file := target_cuda_source x; proposed_patch := ""; kind := Optimization;
     created_at := now; sandbox_path := None; operator_signature := None |}.

(** What the outside answers in one experiment. *)
Record ExperimentWorld := {
  gpu_lock : result unit;
  cuda_source : option (result string);  (** the file, when it exists *)
  jail_dir : result unit;
  write_source : string → result unit;  (** by file name *)
  nvcc : string → result (bool * string * string);  (** [execute_bwrap], by the source compiled *)
  load_library : string → result unit;  (** by file name *)
  launches : string → nat → launch;
  w_now : string;
  w_stamp : string;
  lesson : ImprovementProposal → option string → option string  (** by proposal and block hash *)
}.

Definition source_of (w : ExperimentWorld) (x : KernelAutotuneExperiment) : result string :=
  match cuda_source w with
  | None => Ok builtin_kernel_reference
  | Some (Ok text) => Ok text
  | Some (Err e) => fail "Failed to read CUDA source at {:?}: {}" [target_cuda_source x; render e]
  end.

(** The compiler's answer, with the error of a jail that did not run as its stderr. *)
Definition compile (w : ExperimentWorld) (what text : string) : bool * string * string :=
  match nvcc w text with
  | Ok a => a
  | Err e => (false, "", "Containment spawn error for " +:+ what +:+ ": " +:+ render e)
  end.

Definition measure (w : ExperimentWorld) (x : KernelAutotuneExperiment) (so : string)
    : option (result KernelWorkloadMetrics) :=
  measure_workload (load_library w so) (launches w so) (iterations x).

Section Experiment.
Context `{Sha256} `{JsonStr}.
Context (parse_strings : string → option (list string)).
(** [serde_json::to_string] of the receipt's fields. *)
Context (receipt_json : KernelExperimentReceipt → string).
Context (w : ExperimentWorld) (x : KernelAutotuneExperiment).

Definition reject (why : string) (r : KernelExperimentReceipt) (s : Store)
    : Store * option (result KernelExperimentReceipt) :=
  ((append_block parse_strings (w_stamp w) Evaluation why [] s).1, Some (Ok r)).

(** The steps after the candidate was measured. *)
Definition conclude (b c : KernelWorkloadMetrics) (s : Store)
    : Store * option (result KernelExperimentReceipt) :=
  match bootstrap_paired_comparison (latency_samples_us b) (latency_samples_us c) 10000 (Some 42%N) with
  | None => (s, None)
  | Some (Err e) => (s, Some (fail "Statistical bootstrap failed: {}" [render e]))
  | Some (Ok e) =>
    let r := compared x (w_now w) b c e in
    let (s, appended) :=
      append_block parse_strings (w_stamp w) Evaluation (summary_of r) [sha256_hex (receipt_json r)] s in
    let hash := match appended with Ok blk => Some (block_hash blk) | Err _ => None end in
    (s, Some (Ok (recorded r hash (lesson w (lesson_proposal x (w_now w) r) hash))))
  end.

(** The steps after the baseline was measured. *)
Definition try_candidate (base : string) (b : KernelWorkloadMetrics) (s : Store)
    : Store * option (result KernelExperimentReceipt) :=
  match write_source w "candidate_attention.cu" with
  | Err e => (s, Some (Err e))
  | Ok _ =>
    let '(ok, out, err) := compile w "candidate" (apply_to_kernel_source (candidate_config x) base) in
    if negb ok then
      let msg := if bool_decide (err = "") then out else err in
      reject (render (Fmt "KernelAutotuneExperiment Rejected (Compilation Failure): {}" [msg]))
        (unmeasured x (w_now w) b (Some msg)) s
    else
      match measure w x "candidate_attention.so" with
      | None => (s, None)
      | Some (Err e) =>
        reject (render (Fmt "KernelAutotuneExperiment Rejected (Hardware Execution Failure): {}" [render e]))
          (unmeasured x (w_now w) b None) s
      | Some (Ok c) => conclude b c s
      end
  end.

(** [None] in place of an answer is a panic. *)
Definition run_experiment (s : Store) : Store * option (result KernelExperimentReceipt) :=
  match (_ ← match gpu_lock w with
             | Ok _ => Ok tt
             | Err e => fail "Failed to acquire GPU autotune lock: {}" [render e]
             end;
         _ ← verify_invariant (coupled_kv x);
         base ← source_of w x;
         _ ← jail_dir w;
         _ ← write_source w "baseline_attention.cu";
         let '(ok, _, err) := compile w "baseline" (apply_to_kernel_source (baseline_config x) base) in
         if ok then Ok base
         else fail "Baseline kernel failed to compile with nvcc: {}" [err]) with
  | Err e => (s, Some (Err e))
  | Ok base =>
    match measure w x "baseline_attention.so" with
    | None => (s, None)
    | Some (Err e) => (s, Some (Err e))
    | Some (Ok b) => try_candidate base b s
    end
  end.
End Experiment.
