(* ===== verification/KernelProps.v ===== *)
(** The kernel autotuner: its search space, the macros in the source, when an experiment admits a
    candidate, and what it leaves in the ledger. *)

From S2P Require Import Prelude RustStd RustNum RustFloat Stats StatsProps Digest Json Graph Contract LedgerRecord Ledger LedgerProps PatchGate Measure Meta Kernel.
#[local] Open Scope string_scope.
#[local] Open Scope list_scope.

(** ** The search space *)

Lemma new_config_ok p h v f c :
  new_config p h v f = Ok c ↔
  is_valid c = true ∧ page_size c = p ∧ query_heads_per_block c = h ∧ vector_width c = v
  ∧ prefetch_distance c = f.
Proof.
  unfold new_config, is_valid. split.
  - intros H. repeat case_match; try discriminate. injection H as <-. cbn. rewrite !N.eqb_refl.
    rewrite !andb_true_r. split; [|done]. rewrite ?andb_true_iff, ?orb_true_iff, ?N.leb_le, ?N.ltb_ge in *.
    rewrite ?andb_false_iff, ?negb_false_iff in *. tauto.
  - intros (Hv & <- & <- & <- & <-). destruct c as [p' h' t' w' v' f']. cbn in *.
    rewrite !andb_true_iff, !orb_true_iff, !N.eqb_eq, N.leb_le in Hv.
    destruct Hv as [[[[[Hp Hh] ->] ->] Hv] Hf].
    assert ((2 <? f')%N = false) as -> by (apply N.ltb_ge; lia).
    by destruct Hp as [-> | ->], Hh as [[[-> | ->] | ->] | ->], Hv as [-> | ->].
Qed.

(** the search space holds every valid configuration with 1, 2 or 4 query heads exactly once, and
    no other. *)
Theorem search_space_exact :
  (∀ c, c ∈ enumerate_search_space ↔ is_valid c = true ∧ query_heads_per_block c ≠ 7%N)
  ∧ NoDup enumerate_search_space ∧ length enumerate_search_space = 36.
Proof.
  split_and!; [|apply (bool_decide_unpack _); vm_compute; exact I|done]. intros c.
  unfold enumerate_search_space. rewrite list_elem_of_bind. setoid_rewrite list_elem_of_bind.
  setoid_rewrite list_elem_of_bind. setoid_rewrite list_elem_of_bind. split.
  - intros (p & (h & (v & (f & Hc & Hf) & Hv) & Hh) & Hp).
    destruct (new_config p h v f) as [c'|] eqn:Hn; [|by apply not_elem_of_nil in Hc].
    apply list_elem_of_singleton in Hc as <-. apply new_config_ok in Hn as (Hv' & _ & <- & _).
    split; [done|]. rewrite !list_elem_of_In in Hh. cbn in Hh. lia.
  - intros [Hv H7]. exists (page_size c). pose proof Hv as Hn.
    apply andb_prop in Hv as [Hv Hf]. apply andb_prop in Hv as [Hv Hw].
    do 2 apply andb_prop in Hv as [Hv _]. apply andb_prop in Hv as [Hp Hh].
    rewrite ?orb_true_iff, ?N.eqb_eq, ?N.leb_le in *.
    setoid_rewrite list_elem_of_In. cbn. split; [|lia].
    exists (query_heads_per_block c). split; [|lia].
    exists (vector_width c). split; [|lia]. exists (prefetch_distance c).
    assert (new_config (page_size c) (query_heads_per_block c) (vector_width c) (prefetch_distance c)
      = Ok c) as -> by by apply new_config_ok.
    cbn. split; [by left|lia].
Qed.

(** ** The source *)

Lemma keep_outside ls rest :
  Forall (λ l, str_contains MARKER l = false) ls →
  keep_lines false (ls ++ rest) = ls ++ keep_lines false rest.
Proof. induction 1 as [|l ls Hl _ IH]; [done|]. cbn [app keep_lines]. by rewrite Hl, IH. Qed.

Lemma keep_inside ls rest :
  Forall (λ l, starts_with WARP_LINE l = false) ls → keep_lines true (ls ++ rest) = keep_lines true rest.
Proof.
  induction 1 as [|l ls Hl _ IH]; [done|]. cbn [app keep_lines]. rewrite Hl. cbn.
  by destruct (str_contains MARKER l).
Qed.

Lemma kernel_lines_app a b : unlines (a ++ b) = unlines a +:+ unlines b.
Proof. unfold unlines. by rewrite fmap_app, concat_all_app. Qed.

Lemma source_lines c base :
  apply_to_kernel_source c base
  = unlines (HEADER_LINE :: macro_lines c ++ "" :: keep_lines false (str_lines base)).
Proof.
  change (HEADER_LINE :: ?a) with ([HEADER_LINE] ++ a). change ("" :: ?a) with ([""] ++ a).
  rewrite !kernel_lines_app. unfold apply_to_kernel_source, render_macro_defines.
  unfold unlines at 3 5. cbn [fmap list_fmap concat_all foldr].
  by rewrite !str_app_nil_r, <- !str_app_assoc.
Qed.

(** the macros replace the block that is there: a source whose lines are [before], a line with the
    marker, the old macros and - from the line that defines the warp size - [after] becomes the
    header, the macros of the configuration, [before] and that line with [after], all else
    untouched. *)
Theorem kernel_source_exact c base before mark macros warp after :
  str_lines base = before ++ mark :: macros ++ warp :: after →
  Forall (λ l, str_contains MARKER l = false) (before ++ warp :: after) →
  str_contains MARKER mark = true →
  Forall (λ l, starts_with WARP_LINE l = false) macros → starts_with WARP_LINE warp = true →
  apply_to_kernel_source c base
  = unlines (HEADER_LINE :: macro_lines c ++ "" :: before ++ warp :: after).
Proof.
  intros Hb Hn Hm Hmac Hw. rewrite source_lines, Hb. do 4 f_equal.
  apply Forall_app in Hn as [Hbef Haf]. apply Forall_cons in Haf as [Hwm Haf].
  rewrite keep_outside by done. f_equal. cbn [keep_lines]. rewrite Hm, keep_inside by done.
  cbn [keep_lines]. rewrite Hwm, Hw. cbn. f_equal.
  rewrite <- (app_nil_r after) at 1. rewrite keep_outside by done. by rewrite app_nil_r.
Qed.

(** ** Measuring *)

Lemma sample_at_total l fraction : l ≠ [] → ∃ v, sample_at (sort_samples l) fraction = Some v.
Proof.
  intros Hl. apply at_index_lt. rewrite sort_len.
  assert (len l ≠ 0%N) by (intros H; by apply N.eqb_eq, len_nil in H). lia.
Qed.

Lemma percentiles_total l : ∃ p, compute_percentiles l = Some p.
Proof.
  unfold compute_percentiles. case_bool_decide as Hl; [eauto|]. cbv zeta.
  destruct (sample_at_total l (f64_lit 50 2) Hl) as [? ->], (sample_at_total l (f64_lit 95 2) Hl) as [? ->],
    (sample_at_total l (f64_lit 99 2) Hl) as [? ->]. cbn. eauto.
Qed.

Lemma measure_total loaded ls n : ∃ r, measure_workload loaded ls n = Some r.
Proof.
  unfold measure_workload. destruct (_ ≫= _) as [samples|e]; [|by eauto]. unfold from_samples.
  destruct (percentiles_total samples) as [[[a b] c] Hp]. rewrite Hp. cbn. by eauto.
Qed.

(** ** The experiment *)

Section Experiment.
Context `{Sha256, !Sha256Len, JsonStr, P256}.
Context (parse_strings : string → option (list string)) (blob_root : string).
Context `{!DigestsRoundTrip parse_strings}.
Context (receipt_json : KernelExperimentReceipt → string) (w : ExperimentWorld)
  (x : KernelAutotuneExperiment).
Abbreviation run := (run_experiment parse_strings receipt_json w x).
Abbreviation append := (append_block parse_strings (w_stamp w) Evaluation).

(** Both kernels, compiled from one source, were measured, and the samples compared. *)
Record both_measured (base : string) (b c : KernelWorkloadMetrics) (e : BootstrapEstimate) : Prop := {
  bm_source : source_of w x = Ok base;
  bm_coupled : verify_invariant (coupled_kv x) = Ok tt;
  bm_baseline : (compile w "baseline" (apply_to_kernel_source (baseline_config x) base)).1.1 = true;
  bm_candidate : (compile w "candidate" (apply_to_kernel_source (candidate_config x) base)).1.1 = true;
  bm_base_metrics : measure w x "baseline_attention.so" = Some (Ok b);
  bm_candidate_metrics : measure w x "candidate_attention.so" = Some (Ok c);
  bm_compared : bootstrap_paired_comparison (latency_samples_us b) (latency_samples_us c) 10000 (Some 42%N)
                = Some (Ok e)
}.

Inductive experiment_ends (s : Store) : Store → option (result KernelExperimentReceipt) → Prop :=
  | ends_early e : experiment_ends s s (Some (Err e))
  | ends_rejected why b err :
      (∀ base b c e, ¬ both_measured base b c e) →
      experiment_ends s (append why [] s).1 (Some (Ok (unmeasured x (w_now w) b err)))
  | ends_compared base b c e s' appended :
      both_measured base b c e →
      let r := compared x (w_now w) b c e in
      append (summary_of r) [sha256_hex (receipt_json r)] s = (s', appended) →
      let hash := match appended with Ok blk => Some (block_hash blk) | Err _ => None end in
      experiment_ends s s'
        (Some (Ok (recorded r hash (lesson w (lesson_proposal x (w_now w) r) hash)))).

Lemma conclude_ends base b c s :
  (∀ e, bootstrap_paired_comparison (latency_samples_us b) (latency_samples_us c) 10000 (Some 42%N)
        = Some (Ok e) → both_measured base b c e) →
  experiment_ends s (conclude parse_strings receipt_json w x b c s).1
    (conclude parse_strings receipt_json w x b c s).2.
Proof.
  intros Hm. unfold conclude.
  pose proof (bootstrap_total (latency_samples_us b) (latency_samples_us c) 10000 (Some 42%N)) as Ht.
  case_decide; destruct Ht as [e He]; rewrite He; [|apply ends_early].
  destruct (append _ _ s) as [s' appended] eqn:Ha. by apply (ends_compared s base b c e s' appended (Hm e He)).
Qed.

Lemma run_ends s : experiment_ends s (run s).1 (run s).2.
Proof.
  unfold run_experiment.
  destruct (_ ≫= _) as [base|e] eqn:Hpre; [|apply ends_early]. run_ok.
  destruct (compile w "baseline" _) as [[ok out] err] eqn:Hc. destruct ok; [|discriminate].
  destruct (measure_total (load_library w "baseline_attention.so") (launches w "baseline_attention.so")
    (iterations x)) as [rb Hrb].
  fold (measure w x "baseline_attention.so") in Hrb. rewrite Hrb. destruct rb as [b|e]; [|apply ends_early].
  unfold try_candidate. destruct (write_source w "candidate_attention.cu"); [|apply ends_early].
  destruct (compile w "candidate" _) as [[ok' out'] err'] eqn:Hc'. destruct ok'.
  2: { apply ends_rejected. intros base' ? ? ? Hm. pose proof (bm_source _ _ _ _ Hm).
       assert (base' = base) as -> by congruence. pose proof (bm_candidate _ _ _ _ Hm) as Hk.
       by rewrite Hc' in Hk. }
  cbn [negb].
  destruct (measure_total (load_library w "candidate_attention.so") (launches w "candidate_attention.so")
    (iterations x)) as [rc Hrc].
  fold (measure w x "candidate_attention.so") in Hrc. rewrite Hrc. destruct rc as [c|e].
  2: { apply ends_rejected. intros base' ? ? ? []. congruence. }
  apply (conclude_ends base). intros e He. run_ok. simplify_eq.
  split; by rewrite ?Hc, ?Hc'.
Qed.

Lemma both_measured_once base b c e base' b' c' e' :
  both_measured base b c e → both_measured base' b' c' e' → b' = b ∧ c' = c ∧ e' = e.
Proof. intros [] []. simplify_eq. split_and!; congruence. Qed.

(** The thresholds: at least 5 percent less p95 latency, at most 1 percent more p99 latency, 2
    percent more energy and no more bytes of keys and values per token, significantly. *)
Definition improves (b c : KernelWorkloadMetrics) (e : BootstrapEstimate) : Prop :=
  f64_le (change_pct (p95_latency_us b) (p95_latency_us c)) (f64_opp (f64_of_N 5)) = true
  ∧ f64_le (change_pct (p99_latency_us b) (p99_latency_us c)) (f64_of_N 1) = true
  ∧ f64_le (change_pct (energy_joules_per_token b) (energy_joules_per_token c)) (f64_of_N 2) = true
  ∧ f64_le (change_pct (physical_kv_bytes_per_token b) (physical_kv_bytes_per_token c)) (f64_of_N 0) = true
  ∧ is_statistically_significant e = true.

Lemma compared_admitted b c e : admitted (compared x (w_now w) b c e) = true ↔ improves b c e.
Proof. unfold improves. cbn. rewrite !andb_true_iff. tauto. Qed.

(** C25: an experiment admits a candidate exactly when the baseline and the candidate, compiled from
    the same source with their own macros and coupled to the pool's block size, were both
    measured and the comparison of their samples meets every threshold. *)
Theorem experiment_admits_iff s r :
  (run s).2 = Some (Ok r) →
  admitted r = true ↔ ∃ base b c e, both_measured base b c e ∧ improves b c e.
Proof.
  intros Hr. pose proof (run_ends s) as He. rewrite Hr in He.
  inversion He as [|why b err Hno|base b c e s' appended Hm Ha ? Heq]; subst.
  - split; [done|]. intros (? & ? & ? & ? & Hm & _). by apply Hno in Hm.
  - transitivity (improves b c e); [apply compared_admitted|]. split; [by eauto 10|].
    intros (base' & b' & c' & e' & Hm' & Hi).
    destruct (both_measured_once _ _ _ _ _ _ _ _ Hm Hm') as (-> & -> & ->). done.
Qed.

(** An appended digest is in the new last block, stored or not. *)
Lemma append_digest bs s why text s' a :
  ledger_inv blob_root bs s → (N.of_nat (length bs) < i64_max)%N →
  append why [sha256_hex text] s = (s', a) →
  blob_files s' = blob_files s
  ∧ ((∃ e, a = Err e) ∧ all_blocks parse_strings s' = bs
     ∨ ∃ b, a = Ok b ∧ all_blocks parse_strings s' = bs ++ [b] ∧ blob_hashes b = [sha256_hex text]).
Proof.
  intros Hi Hn Ha. split; [by rewrite <- (append_keeps_blobs parse_strings (w_stamp w) Evaluation why [sha256_hex text] s), Ha|].
  destruct (chain_last _ (inv_chain _ _ _ Hi)) as [latest Hl].
  destruct (put_blob blob_root BlobWritten "" text (blob_files s)) as [files put] eqn:Hput.
  destruct (put_blob_files _ _ _ _ _ _ _ (inv_files _ _ _ Hi) Hput) as (Hf & Hkeep & Hok).
  assert (put = Ok (sha256_hex text)) as ->.
  { revert Hput. unfold put_blob. case_bool_decide; by intros [= _ <-]. }
  destruct (Hok _ eq_refl) as [_ Hv].
  assert (ledger_inv blob_root bs (with_blobs files s)) as Hi'
    by (eapply (inv_with_files blob_root bs s); done).
  destruct (append_block_step parse_strings blob_root bs _ (w_stamp w) Evaluation why [sha256_hex text]
    latest Hi' Hn Hl) as [[Hs Hb]|(e & Hs & _)]; [by apply Forall_singleton|..];
    rewrite append_with_blobs, Ha in Hs; cbn [fst snd] in Hs; apply pair_equal_spec in Hs as [Hs ->].
  - right. eexists. split; [done|].
    split; [|done]. change (all_blocks parse_strings s') with (all_blocks parse_strings (with_blobs files s')).
    rewrite Hs. by apply (inv_all_blocks parse_strings blob_root).
  - left. split; [by eexists|].
    change (all_blocks parse_strings s') with (all_blocks parse_strings (with_blobs files s')).
    rewrite Hs. by apply (inv_all_blocks parse_strings blob_root).
Qed.

(** An audit does not pass a block whose blob is not stored. *)
Lemma unstored_fails bs s b h now key :
  bs ≠ [] → all_blocks parse_strings s = bs ++ [b] → blob_hashes b = [h] →
  verify_blob blob_root (blob_files s) h = false →
  ∃ e, verify_chain_integrity parse_strings blob_root now key s = Err e.
Proof.
  intros Hbs Ha Hh Hv. destruct (verify_chain_integrity _ _ _ _ _) as [r|e] eqn:Hr; [|by eexists].
  apply audit_spec in Hr as (_ & Hst & _). rewrite Ha in Hst. destruct bs as [|g rest]; [done|].
  cbn in Hst. apply Forall_app in Hst as [_ Hst]. rewrite Forall_singleton, Hh, Forall_singleton in Hst.
  by rewrite Hv in Hst.
Qed.

(** an experiment always ends, with a receipt or an error and never with an index out of
    bounds, and keeps every block of the ledger, adding at most its own. *)
Theorem experiment_total bs s :
  ledger_inv blob_root bs s → (N.of_nat (length bs) < i64_max)%N →
  ∃ o l, (run s).2 = Some o ∧ all_blocks parse_strings (run s).1 = bs ++ l ∧ (length l <= 1)%nat.
Proof.
  intros Hi Hn. destruct (run_ends s) as [e|why b err _|base b c e s' appended _ r Ha hash].
  - exists (Err e), []. rewrite app_nil_r, (inv_all_blocks _ _ _ _ Hi). split_and!; [done..|cbn; lia].
  - destruct (inv_append parse_strings blob_root bs s (w_stamp w) Evaluation why [] Hi Hn) as (l & Hl & Hlen & _);
      [done|]. eexists _, l. split_and!; [done| |done]. by apply (inv_all_blocks _ blob_root).
  - destruct (append_digest _ _ _ _ _ _ Hi Hn Ha) as [_ [[_ Hs]|(blk & _ & Hs & _)]].
    + eexists _, []. rewrite app_nil_r. split_and!; [done..|cbn; lia].
    + eexists _, [blk]. split_and!; [done..|cbn; lia].
Qed.

(** the block of a measured candidate names the digest of its receipt as a blob, but the receipt
    is never stored: from then on no audit of the ledger passes. *)
Theorem experiment_breaks_audit bs s r h now key :
  ledger_inv blob_root bs s → (N.of_nat (length bs) < i64_max)%N →
  (run s).2 = Some (Ok r) → ledger_block_hash r = Some h →
  verify_blob blob_root (blob_files s) (sha256_hex (receipt_json (recorded r None None))) = false →
  ∃ e, verify_chain_integrity parse_strings blob_root now key (run s).1 = Err e.
Proof.
  intros Hi Hn Hr Hh Hv. pose proof (run_ends s) as He. rewrite Hr in He.
  destruct (chain_last _ (inv_chain _ _ _ Hi)) as [latest Hl].
  inversion He as [|why b err Hno|base b c e s' appended Hm r0 Ha hash Heq Hs]; subst; [done|].
  destruct (append_digest _ _ _ _ _ _ Hi Hn Ha) as [Hf [[[e' ->] _]|(blk & -> & Hb & Hbh)]]; [done|].
  eapply (unstored_fails bs _ blk _ now key); [by intros ->|exact Hb|exact Hbh|].
  rewrite Hf. exact Hv.
Qed.
End Experiment.

(** ** Examples *)

Module KernelExample.
Import Checksum PlainJson KeyedChecksum.

Definition nothing : string → result unit := λ _, Ok tt.
(** Two kernels that compile; a launch takes [slow] and [fast] nanoseconds. *)
Definition world (slow fast : N) : ExperimentWorld :=
  {| gpu_lock := Ok tt; cuda_source := None; jail_dir := Ok tt; write_source := nothing;
     nvcc := λ _, Ok (true, "", ""); load_library := nothing;
     launches := λ so _, (0%Z, if bool_decide (so = "baseline_attention.so") then slow else fast);
     w_now := "t"; w_stamp := LedgerExample.T; lesson := λ _ _, None |}.
Definition wider : PagedAttentionConfig :=
  {| page_size := 32; query_heads_per_block := 4; threads_per_block := 128; warps_per_block := 4;
     vector_width := 2; prefetch_distance := 2 |}%N.
(** One iteration: the bootstrap then draws the one difference each time. *)
Definition once : KernelAutotuneExperiment :=
  {| experiment_id := "exp"; baseline_config := default_config; candidate_config := wider;
     coupled_kv := {| kernel_config := wider; kv_pool_block_size := 32; block_table_page_geometry := 32 |}%N;
     target_cuda_source := "k.cu"; iterations := 1 |}.
Definition text (r : KernelExperimentReceipt) : string := r_experiment_id r.
Abbreviation run_once fast :=
  (run_experiment LedgerExample.parse text (world 2000 fast) once LedgerExample.s1).

Definition admits (o : option (result KernelExperimentReceipt)) : option bool :=
  match o with Some (Ok r) => Some (admitted r) | _ => None end.

Example twice_as_fast : admits (run_once 1000).2 = Some true.
Proof. vm_compute. reflexivity. Qed.
Example four_percent_faster : admits (run_once 1920).2 = Some false.
Proof. vm_compute. reflexivity. Qed.

Example receipt_never_stored :
  (is_ok (LedgerExample.audit None LedgerExample.s1),
   is_ok (LedgerExample.audit None (run_once 1000).1)) = (true, false).
Proof. vm_compute. reflexivity. Qed.

(** The kernel that is built in keeps its code and gets the macros of the configuration. *)
Example builtin_source : ∃ code,
  str_lines builtin_kernel_reference
  = ["#include <cuda_runtime.h>"; "#include <cuda_bf16.h>"; "#include <stdint.h>"; "";
     "// Parameterized autotuning search space with compile-time overrides"]
    ++ take 20 (drop 5 (str_lines builtin_kernel_reference)) ++ "#define WARP_SIZE 32" :: code
  ∧ apply_to_kernel_source wider builtin_kernel_reference
    = unlines (HEADER_LINE :: macro_lines wider
        ++ ["";"#include <cuda_runtime.h>"; "#include <cuda_bf16.h>"; "#include <stdint.h>"; "";
            "#define WARP_SIZE 32"] ++ code).
Proof.
  exists (drop 26 (str_lines builtin_kernel_reference)). vm_compute. split; reflexivity.
Qed.

Definition small_source : list string :=
  ["int a;"; "// Parameterized autotuning search space"; "#define PAGE_SIZE 16"; "#define WARP_SIZE 32"; "int b;"].

Lemma kernel_source_exact_witness :
str_lines (unlines small_source) = small_source
∧ apply_to_kernel_source default_config (unlines small_source)
  = unlines (HEADER_LINE :: macro_lines default_config ++ ["";"int a;"; "#define WARP_SIZE 32"; "int b;"]).
Proof.
assert (str_lines (unlines small_source) = small_source) as Hl
  by (vm_compute; reflexivity).
split; [exact Hl|].
apply (kernel_source_exact default_config (unlines small_source) ["int a;"]
  "// Parameterized autotuning search space" ["#define PAGE_SIZE 16"] "#define WARP_SIZE 32" ["int b;"]);
  [exact Hl|repeat constructor|vm_compute; reflexivity|repeat constructor|vm_compute; reflexivity].
Defined.

Lemma experiment_admits_iff_witness :
∃ r, (run_experiment LedgerExample.parse text
        (world 2000 1000) once LedgerExample.s1).2 = Some (Ok r)
  ∧ (admitted r = true ↔ ∃ base b c e,
       both_measured (world 2000 1000) once base b c e
       ∧ improves b c e).
Proof.
pose proof twice_as_fast as Ht.
destruct (run_experiment LedgerExample.parse text
  (world 2000 1000) once LedgerExample.s1) as [s' [[r|e]|]] eqn:Hr;
  [|discriminate Ht..].
exists r. split; [done|].
apply (experiment_admits_iff LedgerExample.parse text (world 2000 1000)
  once LedgerExample.s1). by rewrite Hr.
Defined.

Lemma experiment_total_witness :
∃ bs, ledger_inv LedgerExample.root bs LedgerExample.s1
  ∧ (N.of_nat (length bs) < i64_max)%N
  ∧ ∃ o l, (run_experiment LedgerExample.parse text
        (world 2000 1000) once LedgerExample.s1).2 = Some o
    ∧ all_blocks LedgerExample.parse
        (run_experiment LedgerExample.parse text
           (world 2000 1000) once LedgerExample.s1).1 = bs ++ l
    ∧ (length l <= 1)%nat.
Proof.
destruct (reaches_inv LedgerExample.parse LedgerExample.root 1 _ LedgerExample.reach1) as (bs & Hi & Hl);
  [vm_compute; discriminate|].
assert (N.of_nat (length bs) < i64_max)%N as Hn by (unfold i64_max; lia).
exists bs. split; [exact Hi|]. split; [exact Hn|].
apply (experiment_total LedgerExample.parse LedgerExample.root text
  (world 2000 1000) once bs LedgerExample.s1 Hi Hn).
Defined.
End KernelExample.
