(* ===== verification/JudgeBuild.v ===== *)
(** How the judge gets the programs it compares ([resolve_binaries], [find_executable] and the
    built-in holdouts of [src/actor/judge.rs]): built by the judge in the cargo sandbox, or found
    where they were built.  The answers of the sandboxed cargo and the files that are there after
    it are inputs; the command lines it was started with are part of the result. *)

From S2P Require Import Prelude RustStd RustPath RustNum RustFloat PatchGate Judge Jail JailProps.
#[local] Open Scope string_scope.
#[local] Open Scope list_scope.

Definition builtin_suites : list HoldoutSuite :=
  [{| suite_id := "HOLD-INV-001"; suite_name := "Invariant & Boundary Holdouts";
      cases :=
        [{| case_id := "INV-01"; case_name := "Empty input handling"; input := "";
            expected_output := "EMPTY_OK"; category := "boundary" |};
         {| case_id := "INV-02"; case_name := "Zero latency divide by zero protection"; input := "0";
            expected_output := "DIV0_GUARDED"; category := "robustness" |}] |};
   {| suite_id := "HOLD-STY-002"; suite_name := "Sovereign Voice Style Holdouts";
      cases :=
        [{| case_id := "STY-01"; case_name := "Zero em and en dashes"; input := "check_unicode_dashes";
            expected_output := "DASHES_PROHIBITED"; category := "style" |};
         {| case_id := "STY-02"; case_name := "Zero forbidden buzzwords"; input := "scan_forbidden_lexicon";
            expected_output := "BUZZWORDS_CLEARED"; category := "style" |}] |}].

(** What the host holds and does while the judge builds. *)
Record BuildWorld := {
  host : Host;
  absolute : string → result string;
  remove_dir_all : string → result unit;
  create_dir_all : string → result unit;
  (** the answer of the sandboxed cargo: whether it succeeded and its stderr *)
  cargo : list string → result (bool * string);
  (** the regular files after the builds *)
  file_there : string → bool
}.

Definition find_executable (is_file : string → bool) (base : string) : option string :=
  if is_file base then Some base
  else List.find is_file
    [path_join base "spark-rsi"; path_join base "target/release/spark-rsi";
     path_join base "target/debug/spark-rsi"].

Record BinarySource := { executable : option string; build_release : bool; output_dir : string }.

(** The answer and the command lines of the cargo that were started. *)
Definition Built (A : Type) : Type := list (list string) * result A.

Definition CARGO_BUILD : list string := ["build"; "--release"; "--offline"; "--locked"].
Definition sandboxed_cargo_build (w : BuildWorld) (tree target : string) : list string :=
  sandboxed_cargo (host w) tree target CARGO_BUILD.

Definition pick (w : BuildWorld) (base exe : string) : result string :=
  let p := path_join base exe in
  if file_there w p then Ok p else fail "executable {:?} not found" [p].

Definition build_side (w : BuildWorld) (root exe tree side : string) : Built string :=
  let target := path_join root side in
  match create_dir_all w target with
  | Err e => ([], fail "cannot create build dir {:?}: {}" [target; render e])
  | Ok _ =>
    let command := sandboxed_cargo_build w tree target in
    ([command],
     match cargo w command with
     | Err e => fail "cannot start the sandboxed build for {}: {}" [side; render e]
     | Ok (success, err) =>
       if negb success then fail "{} build failed: {}" [side; from_utf8_lossy err]
       else
         let bin := path_join (path_join target "release") exe in
         if file_there w bin then Ok bin else fail "{} build produced no {:?}" [side; bin]
     end)
  end.

Definition build_root (w : BuildWorld) (src : BinarySource) (cycle : string) : result string :=
  match absolute w (output_dir src) with
  | Err e => fail "cannot resolve output dir {:?}: {}" [output_dir src; render e]
  | Ok dir =>
    let root := path_join dir ("build-" +:+ cycle) in
    if exists_ (host w) root then
      match remove_dir_all w root with
      | Err e => fail "cannot clear build dir {:?}: {}" [root; render e]
      | Ok _ => Ok root
      end
    else Ok root
  end.

Definition resolve_binaries (w : BuildWorld) (src : BinarySource) (cycle parent candidate : string)
    : Built (string * string) :=
  match executable src with
  | None =>
    ([], p ← ok_or (find_executable (file_there w) parent)
           (Fmt "Parent executable binary not found in {:?}. Paired benchmarks require compiled binaries." [parent]);
         c ← ok_or (find_executable (file_there w) candidate)
           (Fmt "Candidate executable not found at {:?}. Candidates must be compiled before evaluation." [candidate]);
         Ok (p, c))
  | Some exe =>
    if negb (build_release src) then
      ([], p ← pick w parent exe; c ← pick w candidate exe; Ok (p, c))
    else
      match build_root w src cycle with
      | Err e => ([], Err e)
      | Ok root =>
        match build_side w root exe parent "parent" with
        | (started, Err e) => (started, Err e)
        | (started, Ok p) =>
          let '(more, r) := build_side w root exe candidate "candidate" in
          (started ++ more, c ← r; Ok (p, c))
        end
      end
  end.

(** ** What is built and how *)

(** A command line that shows the sandboxed program no home but [/tmp] and runs cargo's offline build. *)
Definition shielded (h : Host) (command : list string) : Prop :=
  ∃ os, read_bwrap command = Some (os, "cargo" :: CARGO_BUILD)
  ∧ contained ⊆ os ∧ ClearEnv ∈ os
  ∧ ∀ s d, RoBind s d ∈ os → s ∈ system_dirs ∨ d = "/src" ∨ hides_home h s.

Lemma sandboxed_shielded w tree target : shielded (host w) (sandboxed_cargo_build w tree target).
Proof.
  exists (cargo_opts (host w) tree target). unfold sandboxed_cargo_build. rewrite cargo_words, read_words;
    [|apply cargo_known|done].
  split_and!; [done|unfold cargo_opts; set_solver|unfold cargo_opts; set_solver|].
  intros s d Hin. unfold cargo_opts, contained in Hin. in_parts; simplify_eq; auto.
  - apply list_elem_of_fmap in Hin as (x & Hx & Hin). simplify_eq. right; right. by apply toolchain_hides.
  - destruct (rustup_home (host w)); cbn in Hin; in_parts; by simplify_eq.
  - destruct (cargo_home (host w)); cbn in Hin; in_parts; by simplify_eq.
Qed.

Lemma build_side_ok w root exe tree side started r : build_side w root exe tree side = (started, r) →
  Forall (shielded (host w)) started
  ∧ ∀ bin, r = Ok bin → file_there w bin = true
    ∧ bin = path_join (path_join (path_join root side) "release") exe
    ∧ started = [sandboxed_cargo_build w tree (path_join root side)]
    ∧ ∃ err, cargo w (sandboxed_cargo_build w tree (path_join root side)) = Ok (true, err).
Proof.
  unfold build_side. destruct (create_dir_all w _); intros [= <- <-]; [|by split; [constructor|]].
  split; [apply Forall_singleton, sandboxed_shielded|]. intros bin.
  destruct (cargo w _) as [[[] err]|]; cbn [negb]; [|done..].
  destruct (file_there w _) eqn:Hf; [|done]. intros [= <-]. eauto 10.
Qed.

(** whatever the judge runs to get its programs, it runs in the sandbox; and what it then measures are
    files that are there - when it builds, the ones its own successful builds of the two trees left
    under its own directory. *)
Theorem binaries_from_sandbox w src cycle parent candidate started r :
  resolve_binaries w src cycle parent candidate = (started, r) →
  Forall (shielded (host w)) started
  ∧ ∀ p c, r = Ok (p, c) → file_there w p = true ∧ file_there w c = true
    ∧ (build_release src = true → ∀ exe, executable src = Some exe → ∃ root,
         build_root w src cycle = Ok root
         ∧ p = path_join (path_join (path_join root "parent") "release") exe
         ∧ c = path_join (path_join (path_join root "candidate") "release") exe
         ∧ started = [sandboxed_cargo_build w parent (path_join root "parent");
                      sandboxed_cargo_build w candidate (path_join root "candidate")]).
Proof.
  unfold resolve_binaries. destruct (executable src) as [exe|].
  - destruct (build_release src); cbn [negb].
    + destruct (build_root w src cycle) as [root|]; [|intros [= <- <-]; by split; [constructor|]].
      destruct (build_side w root exe parent "parent") as [s1 [b1|e1]] eqn:H1;
        destruct (build_side_ok _ _ _ _ _ _ _ H1) as [Hs1 Hb1]; [|by intros [= <- <-]].
      destruct (build_side w root exe candidate "candidate") as [s2 r2] eqn:H2.
      destruct (build_side_ok _ _ _ _ _ _ _ H2) as [Hs2 Hb2]. intros [= <- <-].
      split; [by apply Forall_app|]. intros p c Hr. run_ok. simplify_eq.
      destruct (Hb1 _ eq_refl) as (Hf1 & -> & -> & _), (Hb2 _ eq_refl) as (Hf2 & -> & -> & _).
      split_and!; [done..|]. intros _ exe' [= <-]. by exists root.
    + intros [= <- <-]. split; [constructor|]. intros p c Hr. unfold pick in Hr. run_ok. simplify_eq.
      by split_and!.
  - intros [= <- <-]. split; [constructor|]. intros p c Hr. run_ok. simplify_eq.
    assert (∀ b x, find_executable (file_there w) b = Some x → file_there w x = true) as Hfind.
    { intros b x. unfold find_executable. destruct (file_there w b) eqn:Hb; [by intros [= <-]|].
      intros Hx. by apply find_some in Hx as [_ Hx]. }
    split_and!; [by eapply Hfind..|done].
Qed.
